(* ===== verification/_CoqProject ===== *)
-Q . S2P
Prelude.v
GoStd.v
Sha256.v
Ports.v
Platform.v
Json.v
Decode.v
Config.v
Migrate.v
MigrateFacts.v
Policy.v
Mapping.v
MappingSpec.v
Reach.v
OpenFGA.v
Ledger.v
LedgerFacts.v
LedgerQueries.v
Index.v
AuditLog.v
Credentials.v
Authn.v
AuthnFacts.v
Wiring.v
KeySet.v
KeySetFacts.v
FGAClient.v
FGAClientFacts.v
Quota.v
Changes.v
ChangesFacts.v
FeedFacts.v
Webhook.v
WebhookFacts.v
World.v
Ingest.v
IngestFacts.v
SignatureFacts.v
Worker.v
WorkerFacts.v
QueueFacts.v
Deletion.v
DeletionFacts.v
Retrieval.v
RetrievalFacts.v
Disclosure.v
Export.v
ExportFacts.v
TransferFacts.v
Traces.v
Application.v
ApplicationFacts.v
ServiceFacts.v
Shutdown.v
ShutdownFacts.v
Wire.v
WireFacts.v
Answers.v
Mcp.v
Http.v
HttpFacts.v
McpFacts.v
HttpIntake.v
System.v
Observability.v
ObservabilityFacts.v
Connector.v
ConnectorFacts.v
Conformance.v
ConformanceFacts.v
WiringFacts.v
Commands.v
CommandsFacts.v
Sql.v
Postgres.v
PostgresStores.v
PostgresFacts.v
PostgresContract.v
PostgresGaps.v
Production.v
