(* ===== verification/Prelude.v ===== *)
(** * Context Fabric: a verification library

    Context Fabric (the Go program under [src/]) is a multi-tenant context
    store for agents.  Sources send signed events; a declarative mapping turns
    each event into a record and its graph edges, under the ceilings of the
    source; the ledger keeps records, edges, queues and logs per organization;
    an authorization service holds relationship tuples; a lexical index proposes
    candidates; background workers relay, project and reconcile; and the
    retrieval pipeline answers [Search] and [Graph] with packets that may
    disclose only what the caller may read.  Deletion, export and a change feed
    with webhooks complete the operations, which a REST and an MCP server offer.
    This library models that program as executable Rocq functions and proves
    what makes it correct.

    ** How the parts fit together

    [Http] and [Mcp] decode a request and call [Application]; it authenticates
    ([Authn]), passes the gates and calls the components [Ingest], [Retrieval],
    [Deletion], [Export], [Changes], [Quota], [Credentials]; these act on the
    state [World.World] of the in-memory deployment: the [Ledger], the [Index]
    with the evidence store, the tuples of [OpenFGA], the [AuditLog].  [Worker]
    and [Shutdown] act on the same state between requests.  [System] closes the
    loop: requests and passes, in any order, are sequences of ledger calls.

    ** Files, in dependency order

    Foundations.
    - [Prelude]: the result and state-and-error monads that stand for Go's
      error returns and mutation, record updates [r <| f := v |>], two-level
      tables, the hint database [gontext], shared lemmas.
    - [GoStd]: the part of Go and its standard library that the program uses:
      64-bit [int], strings as byte sequences, [strings], [strconv], [time],
      IEEE doubles, [sort], the iteration order of maps (class [GoMapOrder]).
    - [Sha256]: [crypto/sha256], [crypto/hmac].  [Json]: decoded JSON values,
      [json.Marshal], the parser.  [Decode]: decoding into typed values.
    - [Ports]: [ports/types.go].  [Platform]: [platform/errors.go], [org.go],
      and the class [GoEnv] of the clock and the identifiers drawn.
    - [Config]: [config/config.go].  [Migrate], [MigrateFacts]: [migrate.go].

    Components.
    - [Policy]: [policy.go].  [Mapping], [MappingSpec]: [mapping.go].
    - [Reach]: depth-first search with a visited set, over any finite graph.
      [OpenFGA]: [adapters/openfga/memory.go], tuples and their evaluation, and
      the inductive meaning of a relation.  [FGAClient], [FGAClientFacts]:
      [adapters/openfga/client.go].
    - [Ledger]: [adapters/memory/ledger.go] and the holds and export jobs of
      [credentials.go], one definition per method.  [LedgerFacts]: the methods
      as steps [call] of a state machine ([exec], [run]) and its invariant
      [ledger_ok].  [LedgerQueries]: leases, listings, cursors.
    - [Index]: [adapters/memory/index.go], [evidence.go].  [AuditLog]:
      [audit.go].  [Credentials]: [adapters/memory/credentials.go].
    - [Authn], [AuthnFacts]: [authn/local.go], [apikey.go], [chain.go], and the
      verification of [oidc.go].  [KeySet], [KeySetFacts]: its discovery and
      key cache.  [Wiring]: the adapters that [cmd/context-fabric/main.go]
      chooses, with the constructors in [s3], [nats], [openfga].
    - [Quota]: [quota.go].  [Changes], [ChangesFacts], [FeedFacts]:
      [changes.go].  [Webhook], [WebhookFacts]: [webhook_validate.go].
    - [World]: the state of the deployment, and [synchronizer.go].
      [Ingest], [IngestFacts], [SignatureFacts]: [ingest.go].
    - [Worker], [WorkerFacts], [QueueFacts], [Shutdown], [ShutdownFacts]:
      [application/worker.go] and the message identifier of [nats/bus.go].
    - [Deletion], [DeletionFacts]: [deletion.go].  [Retrieval],
      [RetrievalFacts], [Disclosure]: [retrieval.go] against the class
      [Providers], a program logic for it ([ensures], [from]), and the pipeline
      over the in-memory adapters, which meet the law [LedgerFiled].
    - [Export], [ExportFacts], [TransferFacts]: [export.go].
    - [Traces]: runs as sequences of ledger calls ([traced]).

    Surface.
    - [Application], [ApplicationFacts], [ServiceFacts]: [service.go],
      [authz_gate.go].
    - [Wire], [WireFacts]: requests and the bodies decoded.  [Answers]: what is
      answered.  [Mcp], [McpFacts]: [mcp/server.go].  [Http], [HttpFacts],
      [HttpIntake]: [httpapi/server.go], [middleware.go].
    - [System]: every route and every pass as ledger calls.
    - [Observability], [ObservabilityFacts]: [metrics.go], [logging.go].
    - [Connector], [ConnectorFacts]: [connectors/chatwoot], [synthetic], run
      against the modelled server.  [WiringFacts]: what a process that starts
      runs with.
    - [Conformance], [ConformanceFacts]: [conformance/suite.go], [suite_mcp.go],
      the suite that the program ships with, as programs over [App].
    - [Commands], [CommandsFacts]: the roles [migrate], [bootstrap], [doctor]
      and [connector] of [cmd/context-fabric/main.go], over [Machine], the files
      of the machine and the calls made to OpenFGA.

    PostgreSQL.
    - [Sql]: the tables and policies of [migrations/], and the transactions of
      [Pool.WithTenant].  [Postgres]: [adapters/postgres/store.go], the ledger
      as the statements it sends and the functions of the migrations they call.
      [PostgresStores]: [credentials.go], [webhooks.go], [legal_holds.go],
      [index.go], and the mapping specifications of [store.go].
    - [PostgresFacts]: the tenants.  [PostgresContract]: atomicity, the states
      that the stores reach, round trips, leases.  [PostgresGaps]: where these
      stores part with the in-memory ones.
    - [Production]: the retrieval pipeline over PostgreSQL and OpenFGA.

    ** Choices of the model

    - A Go function that returns an error is a [result]; a method with effects
      is a function in the monad [M GoError S].  The state is kept on the error
      path, because the in-memory ledger does not roll back ([WithOrgTx] runs
      its function and nothing else).  [EPanic] is a run-time panic.
    - [service] is the monad over [World], [application] the one over [App],
      the state of all components.  Every optional collaborator of [main.go]'s
      in-memory wiring is present.
    - A statement of the PostgreSQL stores is a program over the rows that its
      policy shows it, and a transaction keeps all of its writes or none
      ([WithTenant]).  Transactions run one after another.
    - Each ledger method holds the store's mutex, so it is one atomic step and
      a concurrent history is a list of [call]s: theorems about [run cs] hold
      for every interleaving.
    - The ledger takes the instant and the identifier as arguments ([now],
      [newid]); the services read [clock] and [fresh_id] of [GoEnv] by the
      number of readings made so far; the pipeline of [Retrieval] does so with
      the answers of its providers, so that no two answers need agree.  An
      instant is its Unix time in nanoseconds; its zone is not kept.
    - What is outside is an argument: the bus and the authorization service
      ([Links]), the HTTP client of webhooks ([Client]), the signature
      primitives ([Verifier]), the web of the issuer ([Web]), an OpenFGA server
      ([FGAServer]), the database of the migrations ([Migrate.Database]), the
      faults, clock, row order and collation of PostgreSQL ([Server]) and its
      full text search ([FullText]), the gateway
      of a connector ([Gateway]), entropy and the resolver ([Host]), the
      context of a drain ([DrainContext]), what a one-shot role finds around it
      ([Surroundings], [Catalog]), the printer of values ([Formatter]); so are
      the parsers of URLs and YAML.
      Where an answer may depend on the past, the argument is given the log of
      the exchanges or their number.
    - A nil map is the empty map and a nil slice the empty list, except where
      the program tells them apart, where it is an [option]; a slice decoded
      into used storage keeps its backing array ([Decode.Slice]).  Map iteration is a
      permutation chosen by [GoMapOrder]; a theorem that quantifies over it
      holds for every order the runtime picks.
    - [sort.Slice] is a stable sort; where its result is used as a sequence the
      comparison is total on the rows compared, or the theorem does not depend
      on the order of ties.
    - An answer of a server is kept as the value that is encoded, with a test
      that it has a JSON form; hashes and signatures are taken over the bytes.

    ** Fuel

    [OpenFGA.can] recurses with fuel [can_fuel]: the visited set grows by one of
    the [2 * |reachable objects|] keys at each level, so the bound is never
    reached, which [batch_check_correct] proves.  [Retrieval.expand] takes the
    requested depth, at most four.  [parse_first] takes [3 * len + 4], more
    than the values and separators a text can hold.  [DrainAuthz]
    and the relay loop of [Drain] take fuel and answer [None] when it is spent,
    [deliver_pages] stops: [drain_authz_completes], [drain_ends] and
    [delivery_pass_terminates] give fuel that is enough.  The batches of the OpenFGA client
    take the length of the list.  The decimal and JSON printers take the
    length of what is left; [parse_int_itoa] shows the digits come back.

    ** What the theorems show

    - The surface: [http_gate], [request_confined] (a request to an
      organization touches no other), [deployment_refines_ledger],
      [http_intake_accepted], [mcp_read_only], [manage_required],
      [secrets_withheld], [production_fails_closed], [request_integers_fit].
    - Disclosure: [search_discloses_allowed], [graph_discloses_allowed], and
      [reads_authorized], the refinement of the pipeline's contract by the
      service with its quota and audit; [truncate_preserves_seeds];
      [production_discloses], the same over PostgreSQL and OpenFGA.
    - PostgreSQL: [stores_tenant_isolated] (the answer to a tenant is a function
      of its rows, and the others stay), [transaction_atomic],
      [rotation_atomic], [record_roundtrip], [outbox_leases_exclusive], and
      where the stores differ from the in-memory ones: [placeholder_refused],
      [unsampled_event_lost], [evidence_not_listed], [pending_unseen],
      [fallback_unreachable].
    - Authorization: [batch_check_correct], [permitted_monotone],
      [fga_checks_fail_closed], and the divergence [scope_survives_delete].
    - Authentication: [jwt_accepted_iff], [keys_endorsed],
      [api_key_read_only], [local_token_roundtrip].
    - Ledger: [ledger_invariant], [tenant_isolation], [claim_tuples_exclusive],
      [claim_outbox_exclusive], [idempotency_write_once], the listings
      [list_records_pages], [list_edges_contract], [list_changes_resume].
    - Intake: [intake_refines] (the outcome of an event, computed from the
      request, the ledger and the next clock readings and identifiers),
      [intake_idempotent], [truth_survives_generated] and its limit
      [truth_demoted],
      [apply_respects_ceilings], [apply_no_acl_broadening],
      [signature_roundtrip], [replay_window_iff].
    - Workers: [projection_once], [relay_at_least_once],
      [acknowledged_when_recorded], [drain_ends], [drain_authz_completes],
      [reconcile_complete].
    - Deletion and transfer: [deletion_dominates], [manifest_truthful],
      [export_import_roundtrip], [transmitted_export_refused].
    - Limits and delivery: [burst_exact], [delivery_pass_terminates],
      [webhook_targets_public], [webhook_push_contract],
      [webhook_attempts_bounded], [migrations_converge] (of scripts that leave
      the recorded versions alone).
    - Operations: [metrics_bounded], [requests_counted], [secrets_redacted],
      [webhook_verifies], and [update_dropped], a webhook through the connector
      and the server; [suite_passes], the conformance suite run on the model;
      [doctor_predicts_start] and [bootstrap_configures_client].

    ** What is not modelled

    Opening the pool of PostgreSQL connections and the calls of the NATS and S3
    clients are those of other systems, and so is what PostgreSQL does below its
    statements: locks between concurrent transactions, indexes, the trigger and
    the ranking of the full text search.  The operations above the stores are
    modelled on the in-memory deployment, the pipeline on both.  The tickers and
    goroutines of the workers' [Start] and
    [Stop] are left out: their passes are modelled one by one.  Of the commands, the
    listeners and signals of the long-running roles, the printing, and the
    inside of [WriteSecretFile] touch files, sockets and terminals only; [cf] is
    an HTTP client of the routes modelled in [Http].  The remote conformance
    suite drives a deployment over HTTP, and [eval/retrieval/score.go] scores a
    run against a file of expectations; neither is a part of the service. *)
From Stdlib Require Export Ascii ZArith Lia.
From stdpp Require Export base tactics option list gmap strings sorting.

#[global] Open Scope Z_scope.

Declare Scope gontext_scope.
Delimit Scope gontext_scope with gontext.
#[global] Open Scope gontext_scope.

(** Lemmas that close the routine goals of several components. *)
Create HintDb gontext.

(** ** Results and the state-and-error monad

    A Go call that returns [(T, error)] is a [result]; a method that also
    changes shared state is an [M]: the state is returned on the error path
    too, because the in-memory ledger does not roll back. *)
Inductive result (E A : Type) : Type :=
| Ok (val : A)
| Err (err : E).
Arguments Ok {E A} val.
Arguments Err {E A} err.

#[global] Instance result_ret {E} : MRet (result E) := fun A x => Ok x.
#[global] Instance result_bind {E} : MBind (result E) :=
  fun A B f r => match r with Ok x => f x | Err e => Err e end.
#[global] Instance result_fmap {E} : FMap (result E) :=
  fun A B f r => match r with Ok x => Ok (f x) | Err e => Err e end.
#[global] Instance result_eq_dec {E A} `{EqDecision E, EqDecision A} :
  EqDecision (result E A).
Proof. solve_decision. Defined.

(** [if bad { return err }] *)
Definition fail_if {E} (bad : bool) (e : E) : result E unit :=
  if bad then Err e else Ok tt.

Definition is_ok {E A} (r : result E A) : bool :=
  match r with Ok _ => true | Err _ => false end.

Definition M (E S A : Type) : Type := S -> result E A * S.

#[global] Instance M_ret {E S} : MRet (M E S) := fun A x s => (Ok x, s).
#[global] Instance M_bind {E S} : MBind (M E S) :=
  fun A B f m s => match m s with
                   | (Ok x, s') => f x s'
                   | (Err e, s') => (Err e, s')
                   end.

Section Monad.
Context {E S : Type}.

Definition throw {A} (e : E) : M E S A := fun s => (Err e, s).
Definition of_result {A} (r : result E A) : M E S A := fun s => (r, s).
(** A call whose error the caller inspects instead of returning. *)
Definition attempt {A} (m : M E S A) : M E S (result E A) :=
  fun s => let '(r, s') := m s in (Ok r, s').
Definition gets {A} (f : S -> A) : M E S A := fun s => (Ok (f s), s).
Definition modify (f : S -> S) : M E S unit := fun s => (Ok tt, f s).
Definition throw_if (bad : bool) (e : E) : M E S unit := of_result (fail_if bad e).

(** [for _, x := range l { if err := f(x); err != nil { return err } }] *)
Fixpoint for_each {A} (f : A -> M E S unit) (l : list A) : M E S unit :=
  match l with
  | [] => mret tt
  | x :: l' => _ ← f x; for_each f l'
  end.

(** A loop whose body also updates local variables, kept in [acc]. *)
Fixpoint fold_m {A B} (f : B -> A -> M E S B) (acc : B) (l : list A) : M E S B :=
  match l with
  | [] => mret acc
  | x :: l' => acc' ← f acc x; fold_m f acc' l'
  end.

Lemma bind_Ok {A B} (m : M E S A) (f : A -> M E S B) s y s' :
  (m ≫= f) s = (Ok y, s') <->
  exists x s1, m s = (Ok x, s1) /\ f x s1 = (Ok y, s').
Proof.
  unfold mbind, M_bind. split.
  - destruct (m s) as [[x|e] s1] eqn:?; [eauto | discriminate].
  - intros (x & s1 & -> & H). exact H.
Qed.

Lemma bind_Err {A B} (m : M E S A) (f : A -> M E S B) s e s' :
  (m ≫= f) s = (Err e, s') <->
  m s = (Err e, s') \/
  exists x s1, m s = (Ok x, s1) /\ f x s1 = (Err e, s').
Proof.
  unfold mbind, M_bind. split.
  - destruct (m s) as [[x|e'] s1] eqn:?; intros H; [eauto|left; congruence].
  - intros [-> | (x & s1 & -> & H)]; [reflexivity | exact H].
Qed.

(** One step of a run whose first call is known *)
Lemma bind_run {A B} (m : M E S A) (f : A -> M E S B) s x s1 :
  m s = (Ok x, s1) -> (m ≫= f) s = f x s1.
Proof. unfold mbind, M_bind. by intros ->. Qed.

Lemma bind_fail {A B} (m : M E S A) (f : A -> M E S B) s e s1 :
  m s = (Err e, s1) -> (m ≫= f) s = (Err e, s1).
Proof. unfold mbind, M_bind. by intros ->. Qed.

Lemma attempt_run {A} (m : M E S A) s r s1 : m s = (r, s1) -> attempt m s = (Ok r, s1).
Proof. unfold attempt. by intros ->. Qed.

(** A property of the state that every call of a loop body keeps, whether
    the call succeeds or fails, is kept by the loop. *)
Lemma for_each_inv {A} (P : S -> Prop) (f : A -> M E S unit) l :
  (forall x s, x ∈ l -> P s -> P (f x s).2) ->
  forall s, P s -> P (for_each f l s).2.
Proof.
  induction l as [|x l IH]; intros Hf s Hs; simpl; [exact Hs|].
  unfold mbind, M_bind. pose proof (Hf x s ltac:(left) Hs) as Hx.
  destruct (f x s) as [[[]|e] s1]; simpl in *; [|exact Hx].
  apply IH; [|exact Hx]. intros y s2 Hy. apply Hf. by right.
Qed.
End Monad.

Lemma result_bind_Ok {E A B} (r : result E A) (f : A -> result E B) y :
  r ≫= f = Ok y <-> exists x, r = Ok x /\ f x = Ok y.
Proof.
  unfold mbind, result_bind. split.
  - destruct r; [eauto | discriminate].
  - intros (x & -> & H). exact H.
Qed.

Lemma fail_if_Ok {E} b (e : E) u : fail_if b e = Ok u <-> b = false.
Proof. destruct b, u; simpl; split; congruence. Qed.

Lemma NoDup_fst_functional {K V} `{Countable K} (l : list (K * V)) k v w :
  NoDup l.*1 -> (k, v) ∈ l -> (k, w) ∈ l -> v = w.
Proof.
  intros Hnd Hv Hw. apply (elem_of_list_to_map_1 (M := gmap K)) in Hv, Hw; [|done..].
  congruence.
Qed.

Section Filters.
Context {A : Type} (P : A -> Prop) `{!forall x, Decision (P x)}.

Lemma filter_all l : Forall P l -> filter P l = l.
Proof. induction 1 as [|x l Hx _ IH]; [done|]. by rewrite filter_cons_True, IH. Qed.

Lemma filter_none l : Forall (fun x => ~ P x) l -> filter P l = [].
Proof. induction 1 as [|x l Hx _ IH]; [done|]. by rewrite filter_cons_False. Qed.

Lemma StronglySorted_filter R l : StronglySorted R l -> StronglySorted R (filter P l).
Proof.
  induction 1 as [|x l Hs IH Hx]; [constructor|]. rewrite filter_cons. case_decide; [|done].
  constructor; [done|]. rewrite Forall_forall in Hx |- *.
  intros y [_ Hy]%list_elem_of_filter. by apply Hx.
Qed.
End Filters.

Lemma filter_fmap {A B} (f : A -> B) (P : B -> Prop) `{!forall y, Decision (P y)} (l : list A) :
  filter P (f <$> l) = f <$> filter (fun x => P (f x)) l.
Proof.
  induction l as [|x l IH]; [done|]. rewrite fmap_cons, !filter_cons, IH. by case_decide.
Qed.

(** A duplicate-free list inside another that is no longer covers it. *)
Lemma NoDup_covers {A} (l k : list A) x :
  NoDup l -> (forall y, y ∈ l -> y ∈ k) -> (length k <= length l)%nat -> x ∈ k -> x ∈ l.
Proof.
  intros Hl Hsub Hlen Hx. assert (Hs : l ⊆+ k) by (by apply NoDup_submseteq).
  apply submseteq_length_Permutation in Hs; [|done]. by rewrite Hs.
Qed.

Lemma NoDup_fmap_inj {A B} (f : A -> B) l x y :
  NoDup (f <$> l) -> x ∈ l -> y ∈ l -> f x = f y -> x = y.
Proof.
  induction l as [|z l IH]; [by intros _ ?%elem_of_nil|]. rewrite fmap_cons.
  intros [Hz Hl]%NoDup_cons. rewrite !elem_of_cons.
  intros [->|Hx] [->|Hy] Heq; [done | | | by apply IH].
  - destruct Hz. rewrite Heq. by apply list_elem_of_fmap_2.
  - destruct Hz. rewrite <- Heq. by apply list_elem_of_fmap_2.
Qed.

(** ** Sizes of finite sets *)
Section Sizes.
Context {A : Type} `{Countable A}.

Lemma size_union_le (X Y : gset A) : (size (X ∪ Y) <= size X + size Y)%nat.
Proof.
  rewrite size_union_alt. apply Nat.add_le_mono_l, subseteq_size. set_solver.
Qed.

Lemma size_set_map_le {B} `{Countable B} (f : B -> A) (X : gset B) :
  (size (set_map (D := gset A) f X) <= size X)%nat.
Proof.
  change (size X) with (length (elements X)). unfold set_map.
  induction (elements X) as [|b l IH]; [done|].
  cbn [fmap list_fmap list_to_set length]. etrans; [apply size_union_le|].
  rewrite size_singleton. simpl in IH. lia.
Qed.
End Sizes.

(** ** Maps of maps: [map[string]map[string]V] *)
Section Nested.
Context {V : Type}.
Implicit Types m : gmap string (gmap string V).

(** [m[a]], the empty map for an absent key *)
Definition inner m (a : string) : gmap string V := default ∅ (m !! a).
(** [m[a][b]] *)
Definition lookup2 m (a b : string) : option V := inner m a !! b.
(** [m[a][b] = v], creating [m[a]] when it is missing *)
Definition insert2 (a b : string) (v : V) m : gmap string (gmap string V) :=
  <[a := <[b := v]> (inner m a)]> m.

Lemma inner_insert m k v k' :
  inner (<[k := v]> m) k' = if decide (k' = k) then v else inner m k'.
Proof. unfold inner. rewrite lookup_insert. repeat case_decide; first [done | congruence]. Qed.

Lemma inner_empty k : inner (∅ : gmap string (gmap string V)) k = ∅.
Proof. unfold inner. by rewrite lookup_empty. Qed.

Lemma lookup2_empty a b : lookup2 (∅ : gmap string (gmap string V)) a b = None.
Proof. unfold lookup2. by rewrite inner_empty, lookup_empty. Qed.

Lemma lookup2_insert2 m a b v a' b' :
  lookup2 (insert2 a b v m) a' b' =
  if decide (a' = a /\ b' = b) then Some v else lookup2 m a' b'.
Proof.
  unfold lookup2, insert2. rewrite inner_insert.
  destruct (decide (a' = a)) as [->|]; [rewrite lookup_insert|];
    repeat case_decide; naive_solver.
Qed.

Lemma lookup2_insert2_eq m a b v : lookup2 (insert2 a b v m) a b = Some v.
Proof. rewrite lookup2_insert2. case_decide; [done | tauto]. Qed.

Lemma inner_insert2_ne m a b v a' :
  a' <> a -> inner (insert2 a b v m) a' = inner m a'.
Proof. intros Hne. unfold insert2. rewrite inner_insert. by case_decide. Qed.

Lemma inner_lookup2 m a b v : inner m a !! b = Some v <-> lookup2 m a b = Some v.
Proof. done. Qed.
End Nested.

(** ** Functional record update

    [r <| f := v |>] is Go's [r.f = v] on a copy of the struct. *)
Class Settable (R : Type) := eta_of : R -> R.

Class Setter {R A : Type} (f : R -> A) := set_with : (A -> A) -> R -> R.

Ltac find_setter f :=
  match type of f with
  | ?R -> _ =>
      let inst := constr:(_ : Settable R) in
      let body := eval hnf in inst in
      let ab := eval pattern f in body in
      match ab with
      | ?g f => exact (fun upd (r : R) => g (fun x => upd (f x)) r)
      end
  end.
#[global] Hint Extern 1 (Setter ?f) => find_setter f : typeclass_instances.

Definition set {R A : Type} (f : R -> A) {s : Setter f} (upd : A -> A) (r : R) : R :=
  set_with upd r.
#[global] Arguments set {R A} f {s} upd r / : simpl nomatch.
#[global] Arguments set_with {R A} f {Setter} upd r /.

Notation "r <| f := v |>" := (set f (fun _ => v) r)
  (at level 1, left associativity, f at next level, v at level 200,
   format "r  <| f  :=  v |>").

(** ** Proof automation *)

(** Case analysis on the innermost [if]/[match] scrutinee of a hypothesis. *)
Ltac case_in H :=
  match type of H with
  | context [match ?x with _ => _ end] =>
      lazymatch x with
      | context [match _ with _ => _ end] => fail
      | _ => destruct x eqn:?
      end
  end.
Ltac case_goal :=
  match goal with
  | |- context [match ?x with _ => _ end] =>
      lazymatch x with
      | context [match _ with _ => _ end] => fail
      | _ => destruct x eqn:?
      end
  end.

(** Turns the boolean tests of the code into propositions. *)
Ltac bools :=
  repeat match goal with
  | H : (_ && _)%bool = true |- _ => apply andb_prop in H as [? ?]
  | H : (_ || _)%bool = false |- _ => apply orb_false_elim in H as [? ?]
  | H : negb _ = true |- _ => apply negb_true_iff in H
  | H : negb _ = false |- _ => apply negb_false_iff in H
  | H : bool_decide _ = true |- _ => apply bool_decide_eq_true in H
  | H : bool_decide _ = false |- _ => apply bool_decide_eq_false in H
  | H : String.eqb _ _ = true |- _ => apply String.eqb_eq in H
  | H : String.eqb _ _ = false |- _ => apply String.eqb_neq in H
  | H : (_ <? _) = true |- _ => apply Z.ltb_lt in H
  | H : (_ <? _) = false |- _ => apply Z.ltb_ge in H
  | H : (_ <=? _) = true |- _ => apply Z.leb_le in H
  | H : (_ <=? _) = false |- _ => apply Z.leb_gt in H
  | H : (_ =? _) = true |- _ => apply Z.eqb_eq in H
  | H : (_ =? _) = false |- _ => apply Z.eqb_neq in H
  end.

(** Runs the error monad: splits every bind, guard and [match] of a call that
    is known to have returned [Ok]. *)
Ltac ok_step H :=
  first
    [ discriminate H
    | apply bind_Ok in H as (? & ? & ? & H)
    | apply result_bind_Ok in H as (? & ? & H)
    | apply fail_if_Ok in H
    | progress simplify_eq H ].
