(* ===== verification/GoStd.v ===== *)
(** * The Go language and standard library, as far as the program uses them

    64-bit [int], strings as byte sequences ([strings], [strconv]),
    [time.Time] as an instant in nanoseconds, [sort.Slice], iteration over a
    map in unspecified order, [float64] and the environment of a process
    (the clock and the identifiers drawn by [platform.New*ID]). *)

From Corelib Require Import SpecFloat.
From S2P Require Import Prelude.

(** ** Integers *)
Definition int_min : Z := - 2 ^ 63.
Definition int_max : Z := 2 ^ 63 - 1.

(** The value of a 64-bit two's-complement result. *)
Definition wrap64 (z : Z) : Z := (z + 2 ^ 63) mod 2 ^ 64 - 2 ^ 63.

Definition in_int (z : Z) : Prop := int_min <= z <= int_max.

Lemma wrap64_id z : in_int z -> wrap64 z = z.
Proof.
  unfold in_int, int_min, int_max, wrap64. intros H.
  rewrite Z.mod_small; lia.
Qed.

Lemma wrap64_in_int z : in_int (wrap64 z).
Proof.
  unfold in_int, int_min, int_max, wrap64.
  pose proof (Z.mod_pos_bound (z + 2 ^ 63) (2 ^ 64) ltac:(lia)). lia.
Qed.

(** [len(l)] *)
Definition zlen {A} (l : list A) : Z := Z.of_nat (length l).

(** [l[:n]] for [0 <= n] *)
Definition ztake {A} (n : Z) (l : list A) : list A := take (Z.to_nat n) l.
Definition zdrop {A} (n : Z) (l : list A) : list A := drop (Z.to_nat n) l.

(** ** Strings *)
Definition byte_of (n : nat) : ascii := ascii_of_nat n.
Definition code (c : ascii) : nat := nat_of_ascii c.
Definition str1 (c : ascii) : string := String c EmptyString.

Fixpoint drop_str (n : nat) (s : string) : string :=
  match n, s with
  | S n', String _ s' => drop_str n' s'
  | _, _ => s
  end.
Fixpoint take_str (n : nat) (s : string) : string :=
  match n, s with
  | S n', String c s' => String c (take_str n' s')
  | _, _ => EmptyString
  end.

(** [strings.HasPrefix], [strings.TrimPrefix], [strings.HasSuffix] *)
Definition has_prefix (s pre : string) : bool := String.prefix pre s.
Definition trim_prefix (s pre : string) : string :=
  if has_prefix s pre then drop_str (String.length pre) s else s.
Definition has_suffix (s suf : string) : bool :=
  (String.length suf <=? String.length s)%nat
  && String.eqb (drop_str (String.length s - String.length suf) s) suf.

(** [strings.IndexByte]; [None] for the [-1] of a byte that does not occur. *)
Fixpoint index_byte (s : string) (c : ascii) : option nat :=
  match s with
  | EmptyString => None
  | String d s' => if Ascii.eqb d c then Some O else S <$> index_byte s' c
  end.

(** [strings.Contains] *)
Definition contains_str (s sub : string) : bool :=
  match String.index 0 sub s with Some _ => true | None => false end.

(** [strings.Count] of a single byte *)
Fixpoint count_byte (s : string) (c : ascii) : nat :=
  match s with
  | EmptyString => O
  | String d s' => (if Ascii.eqb d c then 1 else 0) + count_byte s' c
  end%nat.

(** [strings.Split] on a separator of one byte *)
Fixpoint split_byte (s : string) (c : ascii) : list string :=
  match s with
  | EmptyString => [EmptyString]
  | String d s' =>
      if Ascii.eqb d c then EmptyString :: split_byte s' c
      else match split_byte s' c with
           | [] => [str1 d]
           | p :: ps => String d p :: ps
           end
  end.

(** [strings.Join] *)
Definition join (l : list string) (sep : string) : string := String.concat sep l.

(** [strings.ReplaceAll] of a single byte *)
Fixpoint replace_byte (s : string) (c : ascii) (by_ : string) : string :=
  match s with
  | EmptyString => EmptyString
  | String d s' =>
      if Ascii.eqb d c then by_ +:+ replace_byte s' c by_
      else String d (replace_byte s' c by_)
  end.

(** [strings.TrimSpace]: the white space of Unicode in its UTF-8 encoding.
    Both scans look at the bytes of one rune at a time; the second one runs on
    the reversed byte sequence. *)
Definition is_space1 (a : nat) : bool :=
  ((9 <=? a) && (a <=? 13) || (a =? 32))%nat.
Definition is_space2 (a b : nat) : bool :=
  ((a =? 194) && ((b =? 133) || (b =? 160)))%nat.
Definition is_space3 (a b c : nat) : bool :=
  ((a =? 225) && (b =? 154) && (c =? 128)
   || (a =? 226) && (b =? 128) &&
      ((128 <=? c) && (c <=? 138) || (c =? 168) || (c =? 169) || (c =? 175))
   || (a =? 226) && (b =? 129) && (c =? 159)
   || (a =? 227) && (b =? 128) && (c =? 128))%nat.

Fixpoint trim_left (l : list ascii) : list ascii :=
  match l with
  | a :: l1 =>
      if is_space1 (code a) then trim_left l1 else
      match l1 with
      | b :: l2 =>
          if is_space2 (code a) (code b) then trim_left l2 else
          match l2 with
          | c :: l3 => if is_space3 (code a) (code b) (code c) then trim_left l3 else l
          | [] => l
          end
      | [] => l
      end
  | [] => []
  end.
Fixpoint trim_left_rev (l : list ascii) : list ascii :=
  match l with
  | a :: l1 =>
      if is_space1 (code a) then trim_left_rev l1 else
      match l1 with
      | b :: l2 =>
          if is_space2 (code b) (code a) then trim_left_rev l2 else
          match l2 with
          | c :: l3 => if is_space3 (code c) (code b) (code a) then trim_left_rev l3 else l
          | [] => l
          end
      | [] => l
      end
  | [] => []
  end.
Definition bytes_of (s : string) : list ascii := String.list_ascii_of_string s.
Definition of_bytes (l : list ascii) : string := String.string_of_list_ascii l.
Definition trim_space (s : string) : string :=
  of_bytes (reverse (trim_left_rev (reverse (trim_left (bytes_of s))))).

(** [strings.ToLower]: exact on ASCII strings, and exact whenever the result is
    compared with an ASCII string, because U+0130 and U+212A are the only other
    runes whose lower case is ASCII. Other multi-byte runes are left alone. *)
Definition lower_byte (c : ascii) : ascii :=
  let n := code c in
  if (65 <=? n)%nat && (n <=? 90)%nat then byte_of (n + 32) else c.
Fixpoint to_lower (s : string) : string :=
  match s with
  | EmptyString => EmptyString
  | String a s1 =>
      match s1 with
      | String b s2 =>
          if (code a =? 196)%nat && (code b =? 176)%nat then String "i" (to_lower s2) else
          match s2 with
          | String c s3 =>
              if (code a =? 226)%nat && (code b =? 132)%nat && (code c =? 170)%nat
              then String "k" (to_lower s3)
              else String (lower_byte a) (to_lower s1)
          | EmptyString => String (lower_byte a) (to_lower s1)
          end
      | EmptyString => str1 (lower_byte a)
      end
  end.

(** [strings.EqualFold]: Unicode simple folding maps U+017F to [s] and U+212A
    to [k]; exact when one of the operands is ASCII. *)
Fixpoint fold_case (s : string) : string :=
  match s with
  | EmptyString => EmptyString
  | String a s1 =>
      match s1 with
      | String b s2 =>
          if (code a =? 197)%nat && (code b =? 191)%nat then String "s" (fold_case s2) else
          match s2 with
          | String c s3 =>
              if (code a =? 226)%nat && (code b =? 132)%nat && (code c =? 170)%nat
              then String "k" (fold_case s3)
              else String (lower_byte a) (fold_case s1)
          | EmptyString => String (lower_byte a) (fold_case s1)
          end
      | EmptyString => str1 (lower_byte a)
      end
  end.
Definition equal_fold (s t : string) : bool := String.eqb (fold_case s) (fold_case t).

Definition is_empty (s : string) : bool := String.eqb s "".
#[global] Arguments is_empty : simpl never.
Lemma is_empty_false s : is_empty s = false <-> s <> "".
Proof. apply String.eqb_neq. Qed.
Lemma is_empty_true s : is_empty s = true <-> s = "".
Proof. apply String.eqb_eq. Qed.

Definition mem_str (x : string) (l : list string) : bool := existsb (String.eqb x) l.

Lemma mem_str_In x l : mem_str x l = true <-> x ∈ l.
Proof.
  unfold mem_str. rewrite existsb_exists. setoid_rewrite String.eqb_eq.
  rewrite list_elem_of_In. split; [intros (y & ? & ->); done | eauto].
Qed.

Lemma mem_str_not_In x l : mem_str x l = false <-> x ∉ l.
Proof.
  rewrite <- mem_str_In. destruct (mem_str x l); split; congruence.
Qed.

(** ** [strconv] *)
Definition is_digit (c : ascii) : bool := (48 <=? code c)%nat && (code c <=? 57)%nat.
Definition digit_val (c : ascii) : Z := Z.of_nat (code c) - 48.

Fixpoint digits_val (acc : Z) (s : string) : option Z :=
  match s with
  | EmptyString => Some acc
  | String c s' => if is_digit c then digits_val (acc * 10 + digit_val c) s' else None
  end.

Inductive num_error := ErrSyntax | ErrRange.

(** [strconv.Atoi] and [strconv.ParseInt(s, 10, 64)]: the value returned beside
    the error is 0 for a syntax error and the nearest bound for a range error. *)
Definition parse_int (s : string) : Z * option num_error :=
  let '(neg, body) :=
    match s with
    | String "+" s' => (false, s')
    | String "-" s' => (true, s')
    | _ => (false, s)
    end in
  match body with
  | EmptyString => (0, Some ErrSyntax)
  | _ =>
      match digits_val 0 body with
      | None => (0, Some ErrSyntax)
      | Some n =>
          let v := if neg : bool then - n else n in
          if v <? int_min then (int_min, Some ErrRange)
          else if int_max <? v then (int_max, Some ErrRange)
          else (v, None)
      end
  end.

(** [strconv.Itoa] *)
Definition digit_of (n : Z) : ascii := byte_of (Z.to_nat (n + 48)).
Fixpoint digits_of (fuel : nat) (n : Z) (acc : string) : string :=
  match fuel with
  | O => acc
  | S fuel' =>
      let acc' := String (digit_of (n mod 10)) acc in
      if n <? 10 then acc' else digits_of fuel' (n / 10) acc'
  end.
Definition itoa_nonneg (n : Z) : string := digits_of (S (Z.to_nat (Z.log2_up (n + 2)))) n "".
Definition itoa (n : Z) : string :=
  if n <? 0 then String "-" (itoa_nonneg (- n)) else itoa_nonneg n.

(** [Atoi] reads back what [Itoa] wrote. *)
Lemma digit_of_spec d :
  0 <= d < 10 -> is_digit (digit_of d) = true /\ digit_val (digit_of d) = d.
Proof.
  intros Hd. assert (d = 0 \/ d = 1 \/ d = 2 \/ d = 3 \/ d = 4 \/ d = 5 \/ d = 6 \/ d = 7 \/ d = 8 \/ d = 9)
    as Hcases by lia.
  repeat destruct Hcases as [->|Hcases]; subst; by vm_compute.
Qed.

Lemma digits_of_val fuel n acc :
  0 <= n < 10 ^ Z.of_nat fuel -> digits_val 0 (digits_of fuel n acc) = digits_val n acc.
Proof.
  revert n acc. induction fuel as [|fuel IH]; intros n acc Hn; simpl.
  - assert (n = 0) as -> by (simpl in Hn; lia). done.
  - rewrite Nat2Z.inj_succ, Z.pow_succ_r in Hn by lia.
    destruct (digit_of_spec (n mod 10)) as [Hd Hv]; [apply Z.mod_pos_bound; lia|].
    destruct (Z.ltb_spec n 10).
    + simpl. rewrite Hd, Hv, Z.mod_small by lia. done.
    + rewrite IH; [|split; [apply Z.div_pos; lia | apply Z.div_lt_upper_bound; lia]].
      simpl. rewrite Hd, Hv. f_equal. pose proof (Z.div_mod n 10). lia.
Qed.

Lemma digits_of_head fuel n acc :
  0 <= n -> exists c s, digits_of (S fuel) n acc = String c s /\ is_digit c = true.
Proof.
  revert n acc. induction fuel as [|fuel IH]; intros n acc Hn.
  - simpl. destruct (digit_of_spec (n mod 10)) as [Hd _]; [apply Z.mod_pos_bound; lia|].
    destruct (n <? 10); eauto.
  - cbn [digits_of]. destruct (n <? 10) eqn:E.
    + destruct (digit_of_spec (n mod 10)) as [Hd _]; [apply Z.mod_pos_bound; lia|]. eauto.
    + apply IH. apply Z.div_pos; lia.
Qed.

Lemma itoa_fuel n : 0 <= n -> n < 10 ^ Z.of_nat (S (Z.to_nat (Z.log2_up (n + 2)))).
Proof.
  intros Hn. rewrite Nat2Z.inj_succ, Z2Nat.id by apply Z.log2_up_nonneg.
  assert (n + 2 <= 2 ^ Z.log2_up (n + 2)) by (apply Z.log2_up_spec; lia).
  assert (2 ^ Z.log2_up (n + 2) <= 10 ^ Z.log2_up (n + 2)).
  { apply Z.pow_le_mono_l. lia. }
  rewrite Z.pow_succ_r by apply Z.log2_up_nonneg. lia.
Qed.

Lemma parse_int_itoa n : 0 <= n <= int_max -> parse_int (itoa n) = (n, None) /\ itoa n <> "".
Proof.
  intros Hn. unfold itoa. destruct (Z.ltb_spec n 0); [lia|]. unfold itoa_nonneg.
  set (f := Z.to_nat (Z.log2_up (n + 2))).
  assert (Hv : digits_val 0 (digits_of (S f) n "") = Some n).
  { rewrite digits_of_val; [done|]. split; [lia | apply itoa_fuel; lia]. }
  destruct (digits_of_head f n "") as (c & s & Hs & Hc); [lia|].
  rewrite Hs in Hv |- *. split; [|done]. unfold parse_int.
  assert (Hsign : forall (b : ascii), is_digit b = false -> c <> b) by (intros b Hb ->; congruence).
  assert (Hbody : match String c s with
                  | String "+" s' => (false, s')
                  | String "-" s' => (true, s')
                  | _ => (false, String c s)
                  end = (false, String c s)).
  { pose proof (Hsign "+"%char eq_refl). pose proof (Hsign "-"%char eq_refl). clear - H0 H1.
    destruct c as [[] [] [] [] [] [] [] []]; done. }
  rewrite Hbody, Hv. unfold int_min, int_max in *.
  destruct (Z.ltb_spec n (- 2 ^ 63)); [lia|]. by destruct (Z.ltb_spec (2 ^ 63 - 1) n); [lia|].
Qed.

(** [hex.EncodeToString] *)
Definition hex_digit (n : nat) : ascii :=
  if (n <? 10)%nat then byte_of (48 + n) else byte_of (87 + n).
Fixpoint hex_encode (s : string) : string :=
  match s with
  | EmptyString => EmptyString
  | String c s' =>
      String (hex_digit (code c / 16)) (String (hex_digit (code c mod 16)) (hex_encode s'))
  end.

(** ** [float64]: IEEE binary64 *)
Definition float64 : Type := spec_float.
Definition f_prec : Z := 53.
Definition f_emax : Z := 1024.
Definition f_of_Z (z : Z) : float64 := binary_normalize f_prec f_emax z 0 false.
Definition f_add (x y : float64) : float64 := SFadd f_prec f_emax x y.
Definition f_sub (x y : float64) : float64 := SFsub f_prec f_emax x y.
Definition f_mul (x y : float64) : float64 := SFmul f_prec f_emax x y.
Definition f_div (x y : float64) : float64 := SFdiv f_prec f_emax x y.
(** Go's [<], [<=], [==]: false as soon as an operand is NaN. *)
Definition f_lt (x y : float64) : bool := SFltb x y.
Definition f_le (x y : float64) : bool := SFleb x y.
Definition f_eq (x y : float64) : bool := SFeqb x y.
Definition f_zero : float64 := S754_zero false.
Definition f_one : float64 := S754_finite false 4503599627370496 (-52).

#[global] Instance float64_eq_dec : EqDecision float64.
Proof. intros x y. unfold Decision. repeat decide equality. Defined.

(** [int64(x)] on amd64: truncation, and [int_min] when out of range. *)
Definition f_to_int (x : float64) : Z :=
  match x with
  | S754_finite s m e =>
      let v := if 0 <=? e then Z.pos m * 2 ^ e else Z.pos m / 2 ^ (- e) in
      let v := if s : bool then - v else v in
      if (int_min <=? v) && (v <=? int_max) then v else int_min
  | S754_zero _ => 0
  | _ => int_min
  end.

(** The float nearest to [(-1)^s * d * 10^p]. *)
Definition f_decimal (s : bool) (d p : Z) : float64 :=
  if d =? 0 then S754_zero s else
  if 0 <=? p then binary_normalize f_prec f_emax ((if s then - d else d) * 10 ^ p) 0 s
  else SFdiv f_prec f_emax (S754_finite s (Z.to_pos d) 0) (S754_finite false (Z.to_pos (10 ^ (- p))) 0).

Definition hex_val (c : ascii) : option Z :=
  let n := Z.of_nat (code c) in
  if (48 <=? n) && (n <=? 57) then Some (n - 48)
  else if (97 <=? n) && (n <=? 102) then Some (n - 87)
  else if (65 <=? n) && (n <=? 70) then Some (n - 55)
  else None.

(** The mantissa of [strconv.ParseFloat]: the digits, how many follow the point,
    whether a digit was seen, and the rest. Underscores are skipped here. *)
Fixpoint scan_mant (hex : bool) (s : string) (m frac : Z) (dot seen : bool)
    : Z * Z * bool * string :=
  match s with
  | String c s' =>
      if Ascii.eqb c "_" then scan_mant hex s' m frac dot seen
      else if Ascii.eqb c "." then
        if dot then (m, frac, seen, s) else scan_mant hex s' m frac true seen
      else match hex_val c with
           | Some d =>
               if hex || (d <? 10) && is_digit c
               then scan_mant hex s' (m * (if hex then 16 else 10) + d)
                      (if dot then frac + 1 else frac) dot true
               else (m, frac, seen, s)
           | None => (m, frac, seen, s)
           end
  | EmptyString => (m, frac, seen, s)
  end.

(** The exponent digits; Go stops accumulating at 10000. *)
Fixpoint scan_exp (s : string) (e : Z) : Z * string :=
  match s with
  | String c s' =>
      if Ascii.eqb c "_" then scan_exp s' e
      else if is_digit c then scan_exp s' (if e <? 10000 then e * 10 + digit_val c else e)
      else (e, s)
  | EmptyString => (e, s)
  end.

(** Underscores must separate digits (or follow a base prefix). *)
Fixpoint underscores_ok (hex : bool) (prev : ascii) (s : string) : bool :=
  match s with
  | EmptyString => negb (Ascii.eqb prev "_")
  | String c s' =>
      if is_digit c || hex && (match hex_val c with Some _ => true | None => false end)
      then underscores_ok hex "0" s'
      else if Ascii.eqb c "_" then Ascii.eqb prev "0" && underscores_ok hex "_" s'
      else negb (Ascii.eqb prev "_") && underscores_ok hex "!" s'
  end.

Definition is_inf (x : float64) : bool :=
  match x with S754_infinity _ => true | _ => false end.

Definition scale (hex sgn : bool) (m frac e : Z) : float64 :=
  if hex then
    if m =? 0 then S754_zero sgn
    else binary_normalize f_prec f_emax (if sgn then - m else m) (e - 4 * frac) sgn
  else f_decimal sgn m (e - frac).

Definition read_float (sgn : bool) (s : string) : option float64 :=
  let hex := has_prefix (to_lower s) "0x" in
  let body := if hex then drop_str 2 s else s in
  let '(m, frac, seen, rest) := scan_mant hex body 0 0 false false in
  if negb seen || negb (underscores_ok hex (if hex then "0" else "!")%char body) then None else
  match rest with
  | EmptyString => if hex then None else Some (scale hex sgn m frac 0)
  | String c rest' =>
      if Ascii.eqb (lower_byte c) (if hex then "p" else "e") then
        let '(eneg, digits) :=
          match rest' with
          | String "+" r => (false, r)
          | String "-" r => (true, r)
          | _ => (false, rest')
          end in
        match digits with
        | EmptyString => None
        | String d _ =>
            if negb (is_digit d) then None else
            let '(e, rest2) := scan_exp digits 0 in
            if negb (is_empty rest2) then None
            else Some (scale hex sgn m frac (if eneg : bool then - e else e))
        end
      else None
  end.

(** [strconv.ParseFloat(s, 64)]; [None] when it returns an error, which an
    overflow to infinity is too. *)
Definition parse_float (s : string) : option float64 :=
  let '(signed, sgn, body) :=
    match s with
    | String "+" r => (true, false, r)
    | String "-" r => (true, true, r)
    | _ => (false, false, s)
    end in
  let low := to_lower body in
  if String.eqb low "inf" || String.eqb low "infinity" then Some (S754_infinity sgn)
  else if String.eqb low "nan" then if signed : bool then None else Some S754_nan
  else match read_float sgn body with
       | Some x => if is_inf x then None else Some x
       | None => None
       end.

(** [strconv.FormatFloat(x, 'f', -1, 64)] on a finite [x]: the shortest decimal
    that reads back as [x]. [d * 10^p] is the candidate with [k] digits. *)
Definition round_half_even (n d : Z) : Z :=
  let q := n / d in
  let r := n mod d in
  if (2 * r <? d) || (2 * r =? d) && Z.even q then q else q + 1.
Definition dec_candidate (num den mag k : Z) : Z * Z :=
  let p := mag - k + 1 in
  (if 0 <=? p then round_half_even num (den * 10 ^ p)
   else round_half_even (num * 10 ^ (- p)) den, p).
Fixpoint shortest (fuel : nat) (x : float64) (num den mag k : Z) : Z * Z :=
  let c := dec_candidate num den mag k in
  match fuel with
  | O => c
  | S fuel' => if f_eq (f_decimal false c.1 c.2) x then c
               else shortest fuel' x num den mag (k + 1)
  end.
Fixpoint strip_zeros (fuel : nat) (d p : Z) : Z * Z :=
  match fuel with
  | O => (d, p)
  | S fuel' => if (d =? 0) || negb (d mod 10 =? 0) then (d, p)
               else strip_zeros fuel' (d / 10) (p + 1)
  end.
Fixpoint repeat_str (n : nat) (c : ascii) : string :=
  match n with O => "" | S n' => String c (repeat_str n' c) end.
(** [d * 10^p] in positional notation *)
Definition positional (d p : Z) : string :=
  let ds := itoa_nonneg d in
  if 0 <=? p then ds +:+ repeat_str (Z.to_nat p) "0" else
  let n := Z.of_nat (String.length ds) in
  if - p <? n then take_str (Z.to_nat (n + p)) ds +:+ "." +:+ drop_str (Z.to_nat (n + p)) ds
  else "0." +:+ repeat_str (Z.to_nat (- p - n)) "0" +:+ ds.
(** [floor (log10 (num / den))] *)
Fixpoint magnitude_go (fuel : nat) (num den mag : Z) : Z :=
  match fuel with
  | O => mag
  | S fuel' =>
      if (if 0 <=? mag then num <? den * 10 ^ mag else num * 10 ^ (- mag) <? den)
      then magnitude_go fuel' num den (mag - 1) else mag
  end.
Definition shortest_decimal (m : positive) (e : Z) : Z * Z :=
  let num := if 0 <=? e then Z.pos m * 2 ^ e else Z.pos m in
  let den := if 0 <=? e then 1 else 2 ^ (- e) in
  let up := (Z.log2 (Z.pos m) + e + 1) * 3 / 10 + 3 in
  let mag := magnitude_go 60 num den up in
  let '(d, p) := shortest 17 (S754_finite false m e) num den mag 1 in
  strip_zeros 20 d p.
Definition format_float (x : float64) : string :=
  match x with
  | S754_nan => "NaN"
  | S754_infinity s => if s then "-Inf" else "+Inf"
  | S754_zero s => if s then "-0" else "0"
  | S754_finite s m e =>
      let '(d, p) := shortest_decimal m e in
      (if s then "-" else "") +:+ positional d p
  end.

(** ** [time]

    A [time.Time] is the instant it denotes, in nanoseconds since the Unix
    epoch; the zero value is January 1 of year 1. [time.Duration] is an
    [int64] of nanoseconds. *)
Definition Time : Type := Z.
Definition second : Z := 1000000000.
Definition millisecond : Z := 1000000.
Definition minute : Z := 60 * second.
Definition zero_time : Time := - 62135596800 * second.
Definition is_zero_time (t : Time) : bool := t =? zero_time.
Definition before (t u : Time) : bool := t <? u.
Definition after (t u : Time) : bool := u <? t.
Definition add_time (t : Time) (d : Z) : Time := t + d.

(** [t.Sub(u)] saturates at the bounds of a [Duration]. *)
Definition sub_time (t u : Time) : Z :=
  if t - u <? int_min then int_min else if int_max <? t - u then int_max else t - u.

(** [time.Unix(n, 0)] and [time.UnixMilli(n)]; the seconds since year 1 are an
    [int64]. *)
Definition time_unix (n : Z) : Time := (wrap64 (n + 62135596800) - 62135596800) * second.
Definition time_unix_milli (n : Z) : Time := n * millisecond.

Definition is_leap (y : Z) : bool :=
  (y mod 4 =? 0) && (negb (y mod 100 =? 0) || (y mod 400 =? 0)).
Definition days_in (y m : Z) : Z :=
  if m =? 2 then if is_leap y then 29 else 28
  else if (m =? 4) || (m =? 6) || (m =? 9) || (m =? 11) then 30 else 31.
(** Days from 1970-01-01 to a civil date; the year starts in March. *)
Definition days_of_civil (y m d : Z) : Z :=
  let y' := if m <=? 2 then y - 1 else y in
  let era := y' / 400 in
  let yoe := y' - era * 400 in
  let doy := (153 * ((m + 9) mod 12) + 2) / 5 + d - 1 in
  era * 146097 + (yoe * 365 + yoe / 4 - yoe / 100 + doy) - 719468.
Definition civil_of_days (z : Z) : Z * Z * Z :=
  let z := z + 719468 in
  let era := z / 146097 in
  let doe := z - era * 146097 in
  let yoe := (doe - doe / 1460 + doe / 36524 - doe / 146096) / 365 in
  let doy := doe - (365 * yoe + yoe / 4 - yoe / 100) in
  let mp := (5 * doy + 2) / 153 in
  let d := doy - (153 * mp + 2) / 5 + 1 in
  let m := if mp <? 10 then mp + 3 else mp - 9 in
  (yoe + era * 400 + (if m <=? 2 then 1 else 0), m, d).

Definition num2 (s : string) : option (Z * string) :=
  match s with
  | String a (String b r) =>
      if is_digit a && is_digit b then Some (digit_val a * 10 + digit_val b, r) else None
  | _ => None
  end.
Definition num1or2 (s : string) : option (Z * string) :=
  match s with
  | String a r =>
      if is_digit a then
        match num2 s with Some x => Some x | None => Some (digit_val a, r) end
      else None
  | EmptyString => None
  end.
Definition lit (c : ascii) (s : string) : option string :=
  match s with String d r => if Ascii.eqb d c then Some r else None | _ => None end.
Fixpoint span_digits (s : string) : string * string :=
  match s with
  | String c r => if is_digit c then let '(a, b) := span_digits r in (String c a, b) else ("", s)
  | EmptyString => ("", "")
  end.
Definition frac_seconds (s : string) : Z * string :=
  match s with
  | String c r =>
      if (Ascii.eqb c "." || Ascii.eqb c ",")
         && (match r with String d _ => is_digit d | _ => false end)
      then
        let '(ds, rest) := span_digits r in
        let ds := take_str 9 ds in
        (match digits_val 0 ds with
         | Some n => n * 10 ^ (9 - Z.of_nat (String.length ds))
         | None => 0
         end, rest)
      else (0, s)
  | EmptyString => (0, s)
  end.
Definition zone_offset (s : string) : option (Z * string) :=
  match s with
  | String "Z" r => Some (0, r)
  | String c r =>
      if Ascii.eqb c "+" || Ascii.eqb c "-" then
        '(h, r) ← num2 r; r ← lit ":" r; '(m, r) ← num2 r;
        if (24 <? h) || (60 <? m) then None
        else Some ((if Ascii.eqb c "+" then 1 else -1) * (h * 3600 + m * 60), r)
      else None
  | EmptyString => None
  end.

(** [time.Parse(time.RFC3339Nano, s)], which accepts what
    [time.Parse(time.RFC3339, s)] accepts: a fraction of the second may follow
    in both layouts. *)
Definition parse_rfc3339 (s : string) : option Time :=
  '(c, s) ← num2 s; '(yy, s) ← num2 s; s ← lit "-" s;
  '(mo, s) ← num2 s; s ← lit "-" s; '(d, s) ← num2 s; s ← lit "T" s;
  '(h, s) ← num1or2 s; s ← lit ":" s; '(mi, s) ← num2 s; s ← lit ":" s;
  '(sec, s) ← num2 s;
  let '(ns, s) := frac_seconds s in
  '(off, s) ← zone_offset s;
  let y := c * 100 + yy in
  if (mo <? 1) || (12 <? mo) || (d <? 1) || (days_in y mo <? d)
     || (23 <? h) || (59 <? mi) || (59 <? sec) || negb (is_empty s)
  then None
  else Some (((days_of_civil y mo d * 86400 + h * 3600 + mi * 60 + sec) - off) * second + ns).

Definition pad (n : nat) (z : Z) : string :=
  let s := itoa_nonneg z in repeat_str (n - String.length s) "0" +:+ s.
Fixpoint strip_zero_suffix (fuel : nat) (s : string) : string :=
  match fuel with
  | O => s
  | S f => if has_suffix s "0" then strip_zero_suffix f (take_str (String.length s - 1) s) else s
  end.
(** [t.UTC().Format(time.RFC3339Nano)] for a year of at most four digits *)
Definition format_rfc3339nano (t : Time) : string :=
  let secs := t / second in
  let ns := t mod second in
  let '(y, m, d) := civil_of_days (secs / 86400) in
  let r := secs mod 86400 in
  pad 4 y +:+ "-" +:+ pad 2 m +:+ "-" +:+ pad 2 d +:+ "T"
  +:+ pad 2 (r / 3600) +:+ ":" +:+ pad 2 (r / 60 mod 60) +:+ ":" +:+ pad 2 (r mod 60)
  +:+ (if ns =? 0 then "" else "." +:+ strip_zero_suffix 9 (pad 9 ns)) +:+ "Z".

(** ** Iteration over a map

    [for k, v := range m] visits the bindings in an order the language does not
    specify: an instance fixes one, theorems hold for all of them. *)
Class GoMapOrder := {
  go_range : forall {V : Type}, gmap string V -> list (string * V);
  go_range_perm : forall {V : Type} (m : gmap string V), go_range m ≡ₚ map_to_list m;
}.

Definition go_keys `{GoMapOrder} {V} (m : gmap string V) : list string := (go_range m).*1.
Definition go_values `{GoMapOrder} {V} (m : gmap string V) : list V := (go_range m).*2.

Lemma elem_of_go_range `{GoMapOrder} {V} (m : gmap string V) k v :
  (k, v) ∈ go_range m <-> m !! k = Some v.
Proof. rewrite go_range_perm. apply elem_of_map_to_list. Qed.

Lemma elem_of_go_values `{GoMapOrder} {V} (m : gmap string V) v :
  v ∈ go_values m <-> exists k, m !! k = Some v.
Proof.
  unfold go_values. rewrite list_elem_of_fmap. split.
  - intros ([k v'] & -> & Hk). exists k. by apply elem_of_go_range.
  - intros (k & Hk). exists (k, v). split; [done|]. by apply elem_of_go_range.
Qed.

Lemma NoDup_go_keys `{GoMapOrder} {V} (m : gmap string V) : NoDup (go_keys m).
Proof. unfold go_keys. rewrite go_range_perm. apply NoDup_fst_map_to_list. Qed.

Lemma go_values_perm `{GoMapOrder} {V} (m : gmap string V) :
  go_values m ≡ₚ (map_to_list m).*2.
Proof. unfold go_values. by rewrite go_range_perm. Qed.

(** Two orders an implementation may choose, for concrete evaluations. *)
Definition order_forward : GoMapOrder :=
  {| go_range := fun V m => map_to_list m; go_range_perm := fun V m => reflexivity _ |}.
Definition order_backward : GoMapOrder :=
  {| go_range := fun V m => reverse (map_to_list m);
     go_range_perm := fun V m => reverse_Permutation _ |}.

(** ** [sort.Slice]

    The comparators of the program are strict weak orders; [sort.Slice] then
    returns a sorted permutation of the slice. *)
Class StrictWeak {A} (less : A -> A -> bool) : Prop := {
  less_asym : forall x y, less x y = true -> less y x = false;
  less_ntrans : forall x y z, less x y = false -> less y z = false -> less x z = false;
}.

Definition not_greater {A} (less : A -> A -> bool) (x y : A) : Prop := less y x = false.
#[global] Instance not_greater_dec {A} (less : A -> A -> bool) :
  RelDecision (not_greater less).
Proof. intros x y. unfold not_greater. apply _. Defined.

Definition sort_slice {A} (less : A -> A -> bool) (l : list A) : list A :=
  merge_sort (not_greater less) l.

Section Sort.
Context {A : Type} (less : A -> A -> bool) `{!StrictWeak less}.

#[local] Instance not_greater_total : Total (not_greater less).
Proof.
  intros x y. unfold not_greater. destruct (less y x) eqn:E; [|by left].
  right. by apply less_asym.
Qed.
#[local] Instance not_greater_trans : Transitive (not_greater less).
Proof. intros x y z Hxy Hyz. unfold not_greater in *. eauto using less_ntrans. Qed.

Lemma sort_slice_sorted l : StronglySorted (not_greater less) (sort_slice less l).
Proof. apply StronglySorted_merge_sort; apply _. Qed.

(** Without ties the result does not depend on the order of the input. *)
Lemma sort_slice_unique l1 l2 :
  (forall x y, x ∈ l1 -> y ∈ l1 -> less x y = false -> less y x = false -> x = y) ->
  l1 ≡ₚ l2 -> sort_slice less l1 = sort_slice less l2.
Proof.
  intros Hanti Hp. apply (StronglySorted_unique_strong (not_greater less)).
  - intros x y Hx Hy Hxy Hyx.
    unfold sort_slice in Hx, Hy. rewrite merge_sort_Permutation in Hx, Hy.
    rewrite <- Hp in Hy. by apply Hanti.
  - apply sort_slice_sorted.
  - apply sort_slice_sorted.
  - unfold sort_slice. by rewrite !merge_sort_Permutation.
Qed.
End Sort.

Lemma sort_slice_perm {A} (less : A -> A -> bool) l : sort_slice less l ≡ₚ l.
Proof. apply merge_sort_Permutation. Qed.

Lemma elem_of_sort_slice {A} (less : A -> A -> bool) l x : x ∈ sort_slice less l <-> x ∈ l.
Proof. by rewrite sort_slice_perm. Qed.

(** [if key(a) != key(b) { return key(a) < key(b) }] followed by [next]. *)
Definition then_by {A K} `{EqDecision K} (key : A -> K) (lt : K -> K -> bool)
    (next : A -> A -> bool) (a b : A) : bool :=
  if decide (key a = key b) then next a b else lt (key a) (key b).

(** A strict total order on keys. *)
Class StrictTotal {K} (lt : K -> K -> bool) : Prop := {
  total_asym : forall x y, lt x y = true -> lt y x = false;
  total_ntrans : forall x y z, lt x y = false -> lt y z = false -> lt x z = false;
  total_eq : forall x y, lt x y = false -> lt y x = false -> x = y;
}.

#[global] Instance Z_ltb_total : StrictTotal Z.ltb.
Proof. split; intros *; rewrite ?Z.ltb_lt, ?Z.ltb_ge; lia. Qed.

Definition str_lt (a b : string) : bool := negb (String.leb b a).

#[global] Instance str_lt_total : StrictTotal str_lt.
Proof.
  assert (Hle : forall a b, str_lt a b = false <-> String.le b a).
  { intros a b. unfold str_lt. rewrite negb_false_iff. unfold String.le. by rewrite Is_true_true. }
  split.
  - intros x y H. rewrite Hle. destruct (String.le_total x y) as [?|Hyx]; [done|].
    apply Hle in Hyx. congruence.
  - intros x y z. rewrite !Hle. intros. by etrans.
  - intros x y. rewrite !Hle. intros. by apply (anti_symm String.le).
Qed.

#[global] Instance StrictTotal_Weak {K} (lt : K -> K -> bool) `{!StrictTotal lt} :
  StrictWeak lt.
Proof. split; [apply total_asym | apply total_ntrans]. Qed.

#[global] Instance on_key_weak {A K} (key : A -> K) (lt : K -> K -> bool) `{!StrictTotal lt} :
  StrictWeak (fun a b => lt (key a) (key b)).
Proof. split; intros *; [apply total_asym | apply total_ntrans]. Qed.

#[global] Instance then_by_weak {A K} `{EqDecision K} (key : A -> K) (lt : K -> K -> bool)
    (next : A -> A -> bool) `{!StrictTotal lt, !StrictWeak next} :
  StrictWeak (then_by key lt next).
Proof.
  split; unfold then_by.
  - intros x y. repeat case_decide; try congruence; [apply less_asym | apply total_asym].
  - intros x y z. repeat case_decide; try congruence.
    + apply less_ntrans.
    + intros Hxy Hyz. exfalso.
      assert (key x = key y); [|congruence].
      apply (total_eq (lt := lt)); congruence.
    + eauto using total_ntrans.
Qed.

Lemma then_by_tie {A K} `{EqDecision K} (key : A -> K) (lt : K -> K -> bool)
    (next : A -> A -> bool) `{!StrictTotal lt} a b :
  then_by key lt next a b = false -> then_by key lt next b a = false ->
  key a = key b /\ next a b = false /\ next b a = false.
Proof.
  unfold then_by. repeat case_decide; try congruence; [done|].
  intros H1 H2. exfalso. eauto using total_eq.
Qed.

(** [fmt.Sprintf("%q", s)] on printable ASCII *)
Fixpoint quote_body (s : string) : string :=
  match s with
  | EmptyString => EmptyString
  | String c s' =>
      if (code c =? 34)%nat || (code c =? 92)%nat
      then String (byte_of 92) (String c (quote_body s')) else String c (quote_body s')
  end.
Definition sprint_q (s : string) : string :=
  str1 (byte_of 34) +:+ quote_body s +:+ str1 (byte_of 34).
