(* ===== verification/Sha256.v ===== *)
(** * [crypto/sha256] and [crypto/hmac]

    SHA-256 (FIPS 180-4) and HMAC (RFC 2104) as functions on byte strings, so
    that content hashes, edge identifiers and signatures evaluate. *)
From S2P Require Import Prelude GoStd.

Definition w32 (z : Z) : Z := z mod 2 ^ 32.
Definition rotr (n x : Z) : Z := Z.lor (Z.shiftr x n) (w32 (Z.shiftl x (32 - n))).
Definition big_sigma0 x := Z.lxor (rotr 2 x) (Z.lxor (rotr 13 x) (rotr 22 x)).
Definition big_sigma1 x := Z.lxor (rotr 6 x) (Z.lxor (rotr 11 x) (rotr 25 x)).
Definition small_sigma0 x := Z.lxor (rotr 7 x) (Z.lxor (rotr 18 x) (Z.shiftr x 3)).
Definition small_sigma1 x := Z.lxor (rotr 17 x) (Z.lxor (rotr 19 x) (Z.shiftr x 10)).
Definition choose x y z := Z.lxor (Z.land x y) (Z.land (Z.lxor x (2 ^ 32 - 1)) z).
Definition majority x y z := Z.lxor (Z.land x y) (Z.lxor (Z.land x z) (Z.land y z)).

(** The constants are the first 32 bits of the fractional parts of the cube and
    square roots of the first primes (FIPS 180-4, 4.2.2 and 5.3.3). *)
Definition is_prime (n : Z) : bool :=
  forallb (fun d => negb (n mod d =? 0)) (Z.of_nat <$> seq 2 (Z.to_nat (Z.sqrt n - 1))).
Definition primes : list Z := List.filter is_prime (Z.of_nat <$> seq 2 310).

(** The largest [r] of at most [bits] bits with [r ^ k <= n], bit by bit. *)
Fixpoint root (k n : Z) (bits : nat) (r : Z) : Z :=
  match bits with
  | O => r
  | S b =>
      let r' := r + 2 ^ Z.of_nat b in
      root k n b (if r' ^ k <=? n then r' else r)
  end.
Definition root_fraction (k p : Z) : Z := w32 (root k (p * 2 ^ (32 * k)) 40 0).

Definition round_constants : list Z := Eval vm_compute in map (root_fraction 3) primes.
Definition initial_hash : list Z := Eval vm_compute in map (root_fraction 2) (take 8 primes).

(** The message schedule, latest word first. *)
Fixpoint extend (n : nat) (w : list Z) : list Z :=
  match n with
  | O => w
  | S n' =>
      extend n' (w32 (small_sigma1 (nth 1 w 0) + nth 6 w 0 + small_sigma0 (nth 14 w 0) + nth 15 w 0)
                 :: w)
  end.

Definition hash_round (h : list Z) (kw : Z * Z) : list Z :=
  match h with
  | [a; b; c; d; e; f; g; hh] =>
      let t1 := hh + big_sigma1 e + choose e f g + kw.1 + kw.2 in
      let t2 := big_sigma0 a + majority a b c in
      [w32 (t1 + t2); a; b; c; w32 (d + t1); e; f; g]
  | _ => h
  end.

Definition compress (h : list Z) (block : list Z) : list Z :=
  let sched := reverse (extend 48 (reverse block)) in
  let h' := fold_left hash_round (combine round_constants sched) h in
  zip_with (fun x y => w32 (x + y)) h h'.

Fixpoint words_of (l : list Z) : list Z :=
  match l with
  | a :: b :: c :: d :: l' => (((a * 256 + b) * 256 + c) * 256 + d) :: words_of l'
  | _ => []
  end.
Fixpoint blocks_of (fuel : nat) (l : list Z) : list (list Z) :=
  match fuel with
  | O => []
  | S f => match l with [] => [] | _ => take 16 l :: blocks_of f (drop 16 l) end
  end.
Definition be_bytes (n : nat) (z : Z) : list Z :=
  reverse ((fun i => Z.shiftr z (8 * Z.of_nat i) mod 256) <$> seq 0 n).
Definition padding (len : Z) : list Z :=
  (128 :: replicate (Z.to_nat ((55 - len) mod 64)) 0) ++ be_bytes 8 (8 * len).

Definition sha256_bytes (l : list Z) : list Z :=
  let msg := words_of (l ++ padding (zlen l)) in
  let h := fold_left compress (blocks_of (length msg) msg) initial_hash in
  h ≫= be_bytes 4.

Definition to_Zs (s : string) : list Z := (fun c => Z.of_nat (code c)) <$> bytes_of s.
Definition of_Zs (l : list Z) : string := of_bytes ((fun z => byte_of (Z.to_nat z)) <$> l).

(** [sha256.Sum256] *)
Definition sha256 (s : string) : string := of_Zs (sha256_bytes (to_Zs s)).

(** [hmac.New(sha256.New, key)] over one message *)
Definition hmac_sha256 (key msg : string) : string :=
  let k := to_Zs key in
  let k := if 64 <? zlen k then sha256_bytes k else k in
  let k := k ++ replicate (64 - length k) 0 in
  let inner := sha256_bytes ((Z.lxor 0x36 <$> k) ++ to_Zs msg) in
  of_Zs (sha256_bytes ((Z.lxor 0x5c <$> k) ++ inner)).

Lemma length_be_bytes n z : length (be_bytes n z) = n.
Proof. unfold be_bytes. by rewrite length_reverse, length_fmap, length_seq. Qed.

(** ** The length of a digest *)
Lemma length_hash_round h kw : length (hash_round h kw) = length h.
Proof. destruct h as [|? [|? [|? [|? [|? [|? [|? [|? [|? ?]]]]]]]]]; reflexivity. Qed.
Lemma length_compress h block : length (compress h block) = length h.
Proof.
  unfold compress. rewrite length_zip_with.
  assert (Hf : forall l h0, length (fold_left hash_round l h0) = length h0).
  { induction l as [|kw l IH]; intros h0; simpl; [done|]. by rewrite IH, length_hash_round. }
  rewrite Hf. lia.
Qed.
Lemma length_sha256_bytes l : length (sha256_bytes l) = 32%nat.
Proof.
  unfold sha256_bytes. set (bs := blocks_of _ _). clearbody bs.
  assert (Hh : length (fold_left compress bs initial_hash) = 8%nat).
  { assert (Hf : forall bs h0, length (fold_left compress bs h0) = length h0); [|by rewrite Hf].
    clear. induction bs as [|b bs IH]; intros h0; simpl; [done|]. by rewrite IH, length_compress. }
  revert Hh. generalize (fold_left compress bs initial_hash). clear. intros h Hh.
  assert (Hb : length (h ≫= be_bytes 4) = (4 * length h)%nat); [|rewrite Hb; lia].
  clear Hh. induction h as [|z h IH]; [done|]. rewrite bind_cons, length_app, length_be_bytes, IH.
  simpl. lia.
Qed.
Lemma hmac_nonempty key msg : hmac_sha256 key msg <> "".
Proof.
  unfold hmac_sha256, of_Zs. set (l := sha256_bytes _) at 1.
  assert (Hl : length l = 32%nat) by (subst l; apply length_sha256_bytes). clearbody l.
  by destruct l.
Qed.

(** ** Published vectors *)

(** The published vectors of FIPS 180-4 and RFC 4231. *)
Example sha256_abc :
  hex_encode (sha256 "abc")
  = "ba7816bf8f01cfea414140de5dae2223b00361a396177a9cb410ff61f20015ad".
Proof. vm_compute. reflexivity. Qed.
Example sha256_two_blocks :
  hex_encode (sha256 "abcdbcdecdefdefgefghfghighijhijkijkljklmklmnlmnomnopnopq")
  = "248d6a61d20638b8e5c026930c3e6039a33ce45964ff2167f6ecedd419db06c1".
Proof. vm_compute. reflexivity. Qed.
Example hmac_jefe :
  hex_encode (hmac_sha256 "Jefe" "what do ya want for nothing?")
  = "5bdcc146bf60754e6a042426089575c75a003f089d2739839dec58b964ec3843".
Proof. vm_compute. reflexivity. Qed.
