(* ===== verification/Ports.v ===== *)
(** * [internal/ports/types.go]: the data the components exchange

    A Go struct is a [Record] whose fields carry a short prefix; a
    [map[string]string] is a [gmap], [nil] and the empty map being the same
    value except where a pointer is stored ([option]); a pointer to a struct
    is an [option]. *)
From S2P Require Import Prelude GoStd.

Abbreviation strmap := (gmap string string).

(** [m[key]], the zero value for an absent key *)
Definition attr (m : strmap) (k : string) : string := default "" (m !! k).

(** ** Principals and authorization *)
Inductive PrincipalKind :=
| PrincipalKindUser | PrincipalKindAgent | PrincipalKindService | PrincipalKindGroup
| PrincipalKindOther (s : string).

Record Principal := mkPrincipal {
  p_ID : string; p_Kind : PrincipalKind; p_OrgID : string; p_Issuer : string;
  p_Subject : string; p_Roles : list string; p_Groups : list string;
  p_Scopes : list string; p_Email : string; p_Attributes : strmap;
}.

Record AgentPrincipal := mkAgentPrincipal {
  ap_Principal : Principal; ap_AgentID : string; ap_CredentialID : string; ap_OwnerID : string;
}.

Record Quota := mkQuota {
  q_SearchPerMinute : Z; q_IntakePerMinute : Z; q_ExportPerMinute : Z; q_MaxResults : Z;
}.

Record DelegationGrant := mkDelegationGrant {
  dg_ID : string; dg_OrgID : string; dg_SubjectID : string; dg_ActorID : string;
  dg_OwnerID : string; dg_Actions : list string; dg_ResourceIDs : list string;
  dg_Purposes : list string; dg_ExpiresAt : option Time; dg_Budget : option Quota;
  dg_Revoked : bool; dg_CreatedAt : Time;
}.

(** [ConsistencyMode]; [ConsistencyUnset] is the empty string. *)
Inductive ConsistencyMode :=
| ConsistencyUnset | ConsistencyMinLatency | ConsistencyFullyConsistent.

Record Credentials := mkCredentials {
  cr_BearerToken : string; cr_APIKey : string; cr_Extra : strmap;
}.

Record AuthzCheck := mkAuthzCheck {
  ac_Principal : Principal; ac_Action : string; ac_ResourceID : string;
  ac_Consistency : ConsistencyMode; ac_Delegation : option DelegationGrant;
}.

Record AuthzDecision := mkAuthzDecision {
  ad_Allowed : bool; ad_ReasonCode : string; ad_Consistency : ConsistencyMode;
  ad_ModelRevision : string; ad_CheckedAt : Time;
}.

Record ScopeResolve := mkScopeResolve {
  sr_Principal : Principal; sr_Action : string; sr_Consistency : ConsistencyMode;
}.

Record CandidateScope := mkCandidateScope {
  cs_OrgID : string; cs_ResourceIDs : list string; cs_Labels : list string;
  cs_ReasonCode : string;
}.

Record RelationshipTuple := mkTuple { t_Object : string; t_Relation : string; t_Subject : string }.

(** ** Ledger rows *)

(** [ports.Record] ([Record] is a keyword). *)
Record LedgerRecord := mkRecord {
  rec_ResourceID : string; rec_OrgID : string; rec_Kind : string; rec_Title : string;
  rec_Classification : string; rec_Labels : list string; rec_SourceSystem : string;
  rec_ExternalID : string; rec_CurrentRevID : string; rec_State : string;
  rec_Attributes : strmap; rec_CreatedAt : Time; rec_UpdatedAt : Time;
}.

Record Revision := mkRevision {
  rev_RevisionID : string; rev_ResourceID : string; rev_OrgID : string;
  rev_ContentHash : string; rev_EvidenceRef : string; rev_Sequence : Z; rev_State : string;
  rev_Attributes : strmap; rev_ObservedAt : Time; rev_CreatedAt : Time;
}.

Record GraphEdge := mkEdge {
  edge_EdgeID : string; edge_OrgID : string; edge_FromID : string; edge_ToID : string;
  edge_Predicate : string; edge_Confidence : float64; edge_State : string;
  edge_SyncAuthz : bool; edge_Attributes : strmap; edge_CreatedAt : Time; edge_UpdatedAt : Time;
}.

Definition EdgeParent : string := "parent".
Definition EdgeRelatedTo : string := "related_to".
Definition EdgeMentions : string := "mentions".
Definition EdgeDerivedFrom : string := "derived_from".
Definition EdgeAssignedTo : string := "assigned_to".

(** [ports.go]: lifecycle states of graph nodes *)
Definition LifecycleAccepted : string := "ACCEPTED".
Definition LifecycleIndexed : string := "INDEXED".
Definition LifecyclePlaceholder : string := "PLACEHOLDER".
Definition LifecycleTombstoned : string := "TOMBSTONED".
Definition LifecycleEnsured : string := "ENSURED".

Record SourceRegistration := mkSource {
  src_SourceID : string; src_OrgID : string; src_System : string; src_DisplayName : string;
  src_TrustTier : string; src_TrustCeiling : string; src_AuthorityCeiling : string;
  src_ClassificationCeiling : string; src_ClassificationDefault : string;
  src_MappingSpec : string; src_MappingSpecInline : string; src_Enabled : bool;
  src_SigningSecret : string; src_ReplayWindowSeconds : Z;
  src_AllowedRecordTypes : list string; src_AllowedVisibilityRefs : list string;
  src_Attributes : strmap; src_CreatedAt : Time; src_UpdatedAt : Time;
}.

Definition EffectiveTrustCeiling (s : SourceRegistration) : string :=
  if negb (is_empty (src_TrustCeiling s)) then src_TrustCeiling s else src_TrustTier s.

Definition EffectiveClassificationCeiling (s : SourceRegistration) : string :=
  if negb (is_empty (src_ClassificationCeiling s)) then src_ClassificationCeiling s
  else if negb (is_empty (src_ClassificationDefault s)) then src_ClassificationDefault s
  else "internal".

Record IntakeEvent := mkIntakeEvent {
  ev_EventID : string; ev_OrgID : string; ev_SourceSystem : string; ev_ExternalID : string;
  ev_SourceRevision : string; ev_IdempotencyKey : string; ev_ContentType : string;
  ev_ContentHash : string; ev_EvidenceRef : string; ev_Attributes : strmap;
  ev_ReceivedAt : Time;
}.

Record PortMappingSpec := mkPortMappingSpec {
  pms_ID : string; pms_OrgID : string; pms_Version : string; pms_SourceKind : string;
  pms_SourceID : string; pms_Rules : strmap; pms_CreatedAt : Time;
}.

Record IdempotencyRecord := mkIdempotency {
  idem_OrgID : string; idem_IdempotencyKey : string; idem_EventID : string;
  idem_ResourceID : string; idem_RevisionID : string; idem_CreatedAt : Time;
}.

Record ChangeEvent := mkChangeEvent {
  chg_EventID : string; chg_OrgID : string; chg_ResourceID : string; chg_RevisionID : string;
  chg_Action : string; chg_Cursor : string; chg_OccurredAt : Time;
}.

(** [Attributes]: a [nil] map is [None], which the audit sanitizer treats
    differently from an empty one. *)
Record AuditEvent := mkAuditEvent {
  aud_AuditID : string; aud_OrgID : string; aud_PrincipalID : string;
  aud_PrincipalKind : PrincipalKind; aud_DelegationID : string; aud_Action : string;
  aud_ReasonCode : string; aud_AuthzModelRev : string; aud_PolicyRevision : string;
  aud_ResourceCount : Z; aud_ResourceIDsSample : list string; aud_TraceID : string;
  aud_Attributes : option strmap; aud_CreatedAt : Time;
}.

Record Organization := mkOrganization {
  org_ID : string; org_Name : string; org_Attributes : strmap; org_CreatedAt : Time;
}.

(** [Headers] is a reference: [nil] is [None], so that writing to the headers of
    a copied entry is visible through the stored one. *)
Record OutboxEntry := mkOutbox {
  ob_ID : string; ob_OrgID : string; ob_Subject : string; ob_Payload : string;
  ob_Headers : option strmap; ob_CreatedAt : Time; ob_Published : option Time;
}.

Record InboxEntry := mkInbox {
  in_ID : string; in_OrgID : string; in_Consumer : string; in_MsgID : string;
  in_ProcessedAt : Time;
}.

(** [ports.go] *)
Record AuthzTupleOp := mkTupleOp {
  op_ID : string; op_OrgID : string; op_Operation : string; op_Object : string;
  op_Relation : string; op_Subject : string; op_EdgeID : string; op_Status : string;
  op_Attempts : Z; op_LastError : string; op_LeaseUntil : option Time; op_NextAttempt : Time;
  op_CreatedAt : Time; op_UpdatedAt : Time; op_AppliedAt : option Time;
}.

Record EdgeListOptions := mkEdgeOpts {
  opt_ResourceIDs : list string; opt_Predicates : list string; opt_IncludeDead : bool;
  opt_Limit : Z;
}.

(** ** Policy, index and packets *)
Record PolicyEval := mkPolicyEval {
  pe_Principal : Principal; pe_Action : string; pe_Purpose : string;
  pe_Classification : string; pe_Record : option LedgerRecord; pe_RequestedLimit : Z;
}.

Record PolicyResult := mkPolicyResult {
  pr_Allow : bool; pr_RedactionProfile : string; pr_Obligations : list string;
  pr_MaxResults : Z; pr_ReasonCode : string;
}.

Record IndexDocument := mkIndexDocument {
  doc_ResourceID : string; doc_RevisionID : string; doc_OrgID : string; doc_Text : string;
  doc_Labels : list string; doc_Attributes : strmap;
}.

Record SearchHit := mkHit { hit_ResourceID : string; hit_RevisionID : string; hit_Score : float64 }.

Record EvidenceObject := mkEvidenceObject {
  eo_Key : string; eo_VersionID : string; eo_ContentHash : string; eo_Size : Z;
  eo_ContentType : string; eo_Metadata : strmap;
}.

Record GraphNode := mkNode {
  node_ResourceID : string; node_Kind : string; node_Title : string;
  node_Classification : string; node_Labels : list string; node_RevisionID : string;
  node_State : string; node_Attributes : strmap;
}.

Record Redaction := mkRedaction {
  red_Profile : string; red_ReasonCode : string; red_Fields : list string;
}.

Record Citation := mkCitation {
  cit_CitationID : string; cit_ResourceID : string; cit_RevisionID : string;
  cit_Snippet : string; cit_Score : float64;
}.

Record ContextPacket := mkPacket {
  pkt_Version : string; pkt_PacketID : string; pkt_OrgID : string; pkt_Purpose : string;
  pkt_RedactionProfile : string; pkt_Nodes : list GraphNode; pkt_Edges : list GraphEdge;
  pkt_Citations : list Citation; pkt_Redactions : list Redaction; pkt_Summary : string;
  pkt_PolicyRevision : string; pkt_AuthzRevision : string; pkt_AuditID : string;
  pkt_ActionRestrictions : list string; pkt_Truncated : bool; pkt_NextCursor : string;
  pkt_GeneratedAt : Time;
}.

(** ** Field updates: the eta-expanded constructor of each struct that the
    program copies and modifies. *)
#[export] Instance Principal_eta : Settable Principal := fun r =>
  mkPrincipal
    (p_ID r) (p_Kind r) (p_OrgID r) (p_Issuer r) (p_Subject r) (p_Roles r) (p_Groups r)
    (p_Scopes r) (p_Email r) (p_Attributes r).
#[export] Instance DelegationGrant_eta : Settable DelegationGrant := fun r =>
  mkDelegationGrant
    (dg_ID r) (dg_OrgID r) (dg_SubjectID r) (dg_ActorID r) (dg_OwnerID r) (dg_Actions r)
    (dg_ResourceIDs r) (dg_Purposes r) (dg_ExpiresAt r) (dg_Budget r) (dg_Revoked r)
    (dg_CreatedAt r).
#[export] Instance LedgerRecord_eta : Settable LedgerRecord := fun r =>
  mkRecord
    (rec_ResourceID r) (rec_OrgID r) (rec_Kind r) (rec_Title r) (rec_Classification r)
    (rec_Labels r) (rec_SourceSystem r) (rec_ExternalID r) (rec_CurrentRevID r)
    (rec_State r) (rec_Attributes r) (rec_CreatedAt r) (rec_UpdatedAt r).
#[export] Instance Revision_eta : Settable Revision := fun r =>
  mkRevision
    (rev_RevisionID r) (rev_ResourceID r) (rev_OrgID r) (rev_ContentHash r)
    (rev_EvidenceRef r) (rev_Sequence r) (rev_State r) (rev_Attributes r)
    (rev_ObservedAt r) (rev_CreatedAt r).
#[export] Instance GraphEdge_eta : Settable GraphEdge := fun r =>
  mkEdge
    (edge_EdgeID r) (edge_OrgID r) (edge_FromID r) (edge_ToID r) (edge_Predicate r)
    (edge_Confidence r) (edge_State r) (edge_SyncAuthz r) (edge_Attributes r)
    (edge_CreatedAt r) (edge_UpdatedAt r).
#[export] Instance SourceRegistration_eta : Settable SourceRegistration := fun r =>
  mkSource
    (src_SourceID r) (src_OrgID r) (src_System r) (src_DisplayName r) (src_TrustTier r)
    (src_TrustCeiling r) (src_AuthorityCeiling r) (src_ClassificationCeiling r)
    (src_ClassificationDefault r) (src_MappingSpec r) (src_MappingSpecInline r)
    (src_Enabled r) (src_SigningSecret r) (src_ReplayWindowSeconds r)
    (src_AllowedRecordTypes r) (src_AllowedVisibilityRefs r) (src_Attributes r)
    (src_CreatedAt r) (src_UpdatedAt r).
#[export] Instance IdempotencyRecord_eta : Settable IdempotencyRecord := fun r =>
  mkIdempotency
    (idem_OrgID r) (idem_IdempotencyKey r) (idem_EventID r) (idem_ResourceID r)
    (idem_RevisionID r) (idem_CreatedAt r).
#[export] Instance ChangeEvent_eta : Settable ChangeEvent := fun r =>
  mkChangeEvent
    (chg_EventID r) (chg_OrgID r) (chg_ResourceID r) (chg_RevisionID r) (chg_Action r)
    (chg_Cursor r) (chg_OccurredAt r).
#[export] Instance AuditEvent_eta : Settable AuditEvent := fun r =>
  mkAuditEvent
    (aud_AuditID r) (aud_OrgID r) (aud_PrincipalID r) (aud_PrincipalKind r)
    (aud_DelegationID r) (aud_Action r) (aud_ReasonCode r) (aud_AuthzModelRev r)
    (aud_PolicyRevision r) (aud_ResourceCount r) (aud_ResourceIDsSample r)
    (aud_TraceID r) (aud_Attributes r) (aud_CreatedAt r).
#[export] Instance Organization_eta : Settable Organization := fun r =>
  mkOrganization
    (org_ID r) (org_Name r) (org_Attributes r) (org_CreatedAt r).
#[export] Instance OutboxEntry_eta : Settable OutboxEntry := fun r =>
  mkOutbox
    (ob_ID r) (ob_OrgID r) (ob_Subject r) (ob_Payload r) (ob_Headers r) (ob_CreatedAt r)
    (ob_Published r).
#[export] Instance AuthzTupleOp_eta : Settable AuthzTupleOp := fun r =>
  mkTupleOp
    (op_ID r) (op_OrgID r) (op_Operation r) (op_Object r) (op_Relation r) (op_Subject r)
    (op_EdgeID r) (op_Status r) (op_Attempts r) (op_LastError r) (op_LeaseUntil r)
    (op_NextAttempt r) (op_CreatedAt r) (op_UpdatedAt r) (op_AppliedAt r).
#[export] Instance EdgeListOptions_eta : Settable EdgeListOptions := fun r =>
  mkEdgeOpts
    (opt_ResourceIDs r) (opt_Predicates r) (opt_IncludeDead r) (opt_Limit r).
