(* ===== verification/Platform.v ===== *)
(** * [internal/platform]: API errors and the organization guard

    [GoError] is Go's [error] interface as the program uses it: an [*APIError],
    an error that wraps another one ([fmt.Errorf] with [%w]), or a plain
    error. [AsAPIError] is [errors.As]. [EPanic] is a run-time panic (a slice
    bound out of range, a nil dereference), which no component recovers. *)
From S2P Require Import Prelude GoStd Ports.

Record APIError := mkAPIError {
  ReasonCode : string; Message : string; AuditID : string; TraceID : string;
  Retryable : bool; RetryAfter : Z; DocURL : string; HTTPStatus : Z;
}.

#[export] Instance APIError_eta : Settable APIError := fun r =>
  mkAPIError (ReasonCode r) (Message r) (AuditID r) (TraceID r) (Retryable r) (RetryAfter r)
    (DocURL r) (HTTPStatus r).
#[export] Instance APIError_eq_dec : EqDecision APIError.
Proof. solve_decision. Defined.

Inductive GoError :=
| EAPI (e : APIError)
| EWrap (prefix : string) (inner : GoError)
| EPlain (msg : string)
| EPanic (msg : string).
#[export] Instance GoError_eq_dec : EqDecision GoError.
Proof. solve_decision. Defined.

(** [func (e *APIError) Error() string] *)
Definition Error (e : APIError) : string :=
  if is_empty (ReasonCode e) then Message e else ReasonCode e +:+ ": " +:+ Message e.

Fixpoint error_string (e : GoError) : string :=
  match e with
  | EAPI a => Error a
  | EWrap p i => p +:+ ": " +:+ error_string i
  | EPlain m => m
  | EPanic m => m
  end.

Fixpoint AsAPIError (e : GoError) : option APIError :=
  match e with
  | EAPI a => Some a
  | EWrap _ i => AsAPIError i
  | EPlain _ => None
  | EPanic _ => None
  end.
Definition IsAPIError (e : GoError) : bool :=
  match AsAPIError e with Some _ => true | None => false end.

(** [http.Status...] *)
Definition StatusBadRequest : Z := 400.
Definition StatusUnauthorized : Z := 401.
Definition StatusForbidden : Z := 403.
Definition StatusNotFound : Z := 404.
Definition StatusConflict : Z := 409.
Definition StatusTooManyRequests : Z := 429.
Definition StatusInternalServerError : Z := 500.
Definition StatusServiceUnavailable : Z := 503.

Definition baseErr (reason : string) (status : Z) (retryable : bool) (doc : string) : APIError :=
  mkAPIError reason reason "" "" retryable 0 doc status.
Definition with_msg (e : APIError) (msg : string) : APIError :=
  if negb (is_empty msg) then e <| Message := msg |> else e.

Definition docs (page : string) : string := "https://docs.context-fabric.io/errors/" +:+ page.

Definition ErrUnauthorized (msg : string) : GoError :=
  EAPI (with_msg (baseErr "unauthorized" StatusUnauthorized false (docs "unauthorized")) msg).
Definition ErrForbidden (msg : string) : GoError :=
  EAPI (with_msg (baseErr "forbidden" StatusForbidden false (docs "forbidden")) msg).
Definition ErrNotFound (msg : string) : GoError :=
  EAPI (with_msg (baseErr "not_found" StatusNotFound false (docs "not-found")) msg).
Definition ErrConflict (msg : string) : GoError :=
  EAPI (with_msg (baseErr "conflict" StatusConflict false (docs "conflict")) msg).
Definition ErrValidation (msg : string) : GoError :=
  EAPI (with_msg (baseErr "validation_failed" StatusBadRequest false (docs "validation")) msg).
Definition ErrRateLimited (msg : string) (retryAfter : Z) : GoError :=
  EAPI ((with_msg (baseErr "rate_limited" StatusTooManyRequests true (docs "rate-limited")) msg)
        <| RetryAfter := retryAfter |>).
Definition ErrUnavailable (msg : string) : GoError :=
  EAPI (with_msg (baseErr "unavailable" StatusServiceUnavailable true (docs "unavailable")) msg).
Definition ErrInternal (msg : string) : GoError :=
  let msg := if is_empty msg then "internal error" else msg in
  EAPI (with_msg (baseErr "internal_error" StatusInternalServerError false (docs "internal")) msg).

Definition has_status (e : GoError) (status : Z) : bool :=
  match AsAPIError e with Some a => HTTPStatus a =? status | None => false end.

(** [platform/org.go] *)
Definition RequireOrg (principal : Principal) (pathOrg : string) : result GoError unit :=
  if is_empty pathOrg then Err (ErrValidation "organization required")
  else if is_empty (p_OrgID principal) then Err (ErrForbidden "principal missing organization")
  else if negb (String.eqb (p_OrgID principal) pathOrg) then Err (ErrForbidden "organization mismatch")
  else Ok tt.

Lemma RequireOrg_Ok p org u :
  RequireOrg p org = Ok u <-> p_OrgID p = org /\ org <> "".
Proof.
  unfold RequireOrg, is_empty. destruct u.
  destruct (String.eqb_spec org ""), (String.eqb_spec (p_OrgID p) ""),
    (String.eqb_spec (p_OrgID p) org); simpl; split; intros; try done;
    destruct_and?; congruence.
Qed.

(** [1 << n] on an [int] panics on a negative count. *)
Definition shl1 (n : Z) : result GoError Z :=
  if n <? 0 then Err (EPanic "negative shift amount") else Ok (wrap64 (Z.shiftl 1 n)).

(** The backoff of the workers: 2^attempts seconds, 64 at most *)
Lemma shl1_backoff k :
  0 <= k < int_max ->
  shl1 (Z.min (wrap64 (k + 1)) 6) = Ok (2 ^ Z.min (k + 1) 6) /\ wrap64 (k + 1) = k + 1 /\
  wrap64 (2 ^ Z.min (k + 1) 6 * second) = 2 ^ Z.min (k + 1) 6 * second.
Proof.
  intros Hk. assert (Hw : wrap64 (k + 1) = k + 1) by (apply wrap64_id; unfold in_int, int_min; lia).
  rewrite Hw. assert (Hr : 1 <= Z.min (k + 1) 6 <= 6) by lia.
  assert (Hp : 2 <= 2 ^ Z.min (k + 1) 6 <= 64).
  { split; [change 2 with (2 ^ 1) at 1 | change 64 with (2 ^ 6)]; apply Z.pow_le_mono_r; lia. }
  unfold shl1. rewrite (proj2 (Z.ltb_ge _ _)) by lia. rewrite Z.shiftl_1_l.
  split; [f_equal | split; [done|]]; apply wrap64_id; unfold in_int, int_min, int_max, second; lia.
Qed.

(** The class of process environments: the successive readings of the clock and
    the identifiers that [platform.NewEventID] and its siblings draw from
    [github.com/google/uuid], and the name-based identifiers of that library. *)
Class GoEnv := {
  clock : nat -> Time;
  fresh_id : nat -> string;
  uuid_sha1_oid : string -> string;
}.
