(* ===== verification/Json.v ===== *)
(** * [encoding/json] values

    [any] is the dynamic value a decoded payload holds; [marshal] is
    [json.Marshal]. Object members are kept in an association list without
    duplicate names; [marshal] sorts them, as the library does for a Go map. *)
From Corelib Require Import SpecFloat.
From S2P Require Import Prelude GoStd.

Inductive any :=
| ANil
| AStr (s : string)
| ANum (x : float64)
| ABool (b : bool)
| AJsonNumber (s : string)
| AArr (l : list any)
| AObj (members : list (string * any))
| AStrMap (members : list (string * string)).

(** [m[key]] on an object; absent names give the zero value. *)
Fixpoint assoc {V} (m : list (string * V)) (k : string) : option V :=
  match m with
  | [] => None
  | (k', v) :: m' => if String.eqb k' k then Some v else assoc m' k
  end.

(** ** Strings: invalid UTF-8 becomes U+FFFD; HTML characters, control
    characters and U+2028/U+2029 are escaped. *)
Definition in_range (lo hi : nat) (c : ascii) : bool := ((lo <=? code c) && (code c <=? hi))%nat.

(** The bytes of the rune at the head of the string, 1 when it is invalid. *)
Definition rune_len (l : list ascii) : option nat :=
  match l with
  | a :: l1 =>
      if in_range 0 127 a then Some 1%nat else
      match l1 with
      | b :: l2 =>
          if in_range 194 223 a then if in_range 128 191 b then Some 2%nat else None else
          match l2 with
          | c :: l3 =>
              let second :=
                if in_range 224 224 a then in_range 160 191 b
                else if in_range 237 237 a then in_range 128 159 b
                else in_range 225 239 a && in_range 128 191 b in
              if in_range 224 239 a then
                if second && in_range 128 191 c then Some 3%nat else None
              else
                match l3 with
                | d :: _ =>
                    let second4 :=
                      if in_range 240 240 a then in_range 144 191 b
                      else if in_range 244 244 a then in_range 128 143 b
                      else in_range 241 243 a && in_range 128 191 b in
                    if second4 && in_range 128 191 c && in_range 128 191 d then Some 4%nat else None
                | [] => None
                end
          | [] => None
          end
      | [] => None
      end
  | [] => None
  end.

Definition quote_char : ascii := byte_of 34.
Definition backslash : ascii := byte_of 92.
Definition esc (c : ascii) : list ascii := [backslash; c].
Definition esc_u (n : nat) : list ascii :=
  [backslash; "u"; "0"; "0"; hex_digit (n / 16); hex_digit (n mod 16)]%char.

Definition escape_ascii (c : ascii) : list ascii :=
  let n := code c in
  if (n =? 34)%nat || (n =? 92)%nat then esc c
  else if (n =? 8)%nat then esc "b"
  else if (n =? 12)%nat then esc "f"
  else if (n =? 10)%nat then esc "n"
  else if (n =? 13)%nat then esc "r"
  else if (n =? 9)%nat then esc "t"
  else if (n <? 32)%nat || (n =? 60)%nat || (n =? 62)%nat || (n =? 38)%nat then esc_u n
  else [c].

Fixpoint escape (fuel : nat) (l : list ascii) : list ascii :=
  match fuel, l with
  | S f, c :: l' =>
      match rune_len l with
      | Some 1%nat => escape_ascii c ++ escape f l'
      | Some n =>
          let r := take n l in
          (if decide (r = [byte_of 226; byte_of 128; byte_of 168])
           then [backslash; "u"; "2"; "0"; "2"; "8"]%char
           else if decide (r = [byte_of 226; byte_of 128; byte_of 169])
           then [backslash; "u"; "2"; "0"; "2"; "9"]%char
           else r) ++ escape f (drop n l)
      | None => [backslash; "u"; "f"; "f"; "f"; "d"]%char ++ escape f l'
      end
  | _, _ => []
  end.
Definition quote (s : string) : string :=
  of_bytes (quote_char :: escape (String.length s) (bytes_of s) ++ [quote_char]).

(** ** Numbers: like [FormatFloat(x, 'f', -1, 64)], in exponent form below 1e-6
    and from 1e21 on. *)
Definition format_exp (d p : Z) : string :=
  let ds := itoa_nonneg d in
  let n := Z.of_nat (String.length ds) in
  let e := p + n - 1 in
  let es := itoa_nonneg (Z.abs e) in
  take_str 1 ds +:+ (if n =? 1 then "" else "." +:+ drop_str 1 ds)
  +:+ "e" +:+ (if e <? 0 then "-" else "+") +:+ es.
Definition marshal_float (x : float64) : string :=
  match x with
  | S754_finite s m e =>
      let '(d, p) := shortest_decimal m e in
      let n := p + Z.of_nat (String.length (itoa_nonneg d)) in
      if (n <=? -6) || (21 <? n) then (if s then "-" else "") +:+ format_exp d p
      else format_float x
  | S754_zero s => if s then "-0" else "0"
  | _ => "null"
  end.

Definition name_less {V} (a b : string * V) : bool := str_lt a.1 b.1.

(** [json.Marshal] of a decoded value (it has no error on such values). *)
Fixpoint marshal (v : any) : string :=
  match v with
  | ANil => "null"
  | AStr s => quote s
  | ANum x => marshal_float x
  | ABool b => if b then "true" else "false"
  | AJsonNumber s => if is_empty s then "0" else s
  | AArr l => "[" +:+ join (marshal <$> l) "," +:+ "]"
  | AObj m =>
      "{" +:+ join ((fun kv => quote kv.1 +:+ ":" +:+ kv.2)
                      <$> sort_slice name_less ((fun kv => (kv.1, marshal kv.2)) <$> m)) ","
      +:+ "}"
  | AStrMap m =>
      "{" +:+ join ((fun kv => quote kv.1 +:+ ":" +:+ quote kv.2) <$> sort_slice name_less m) ","
      +:+ "}"
  end.

(** [json.Marshal] of a struct writes its members in the order of the fields. *)
Definition json_member (name value : string) : string := quote name +:+ ":" +:+ value.
Definition json_struct (members : list string) : string := "{" +:+ join members "," +:+ "}".
(** [time.Time.MarshalJSON] fails on a year that has not four digits. *)
Definition json_time (t : Time) : option string :=
  let '(year, _, _) := civil_of_days (t / second / 86400) in
  if (year <? 0) || (9999 <? year) then None else Some (quote (format_rfc3339nano t)).

Definition json_bool (b : bool) : string := if b then "true" else "false".
Definition json_str (name v : string) : string := json_member name (quote v).
Definition json_list (items : list string) : string := "[" +:+ join items "," +:+ "]".
Definition json_strings (l : list string) : string := json_list (quote <$> l).
Definition json_strmap (m : gmap string string) : string := marshal (AStrMap (map_to_list m)).

(** Members tagged [omitempty] *)
Definition omitempty (empty : bool) (member : string) : list string :=
  if empty then [] else [member].
Definition opt_str (name v : string) : list string := omitempty (is_empty v) (json_str name v).
Definition opt_strings (name : string) (l : list string) : list string :=
  omitempty (bool_decide (l = [])) (json_member name (json_strings l)).
Definition opt_strmap (name : string) (m : gmap string string) : list string :=
  omitempty (bool_decide (m = ∅)) (json_member name (json_strmap m)).

(** A slice of structs; [nil] is written [null], which the empty slice is not. *)
Definition json_rows {A} (enc : A -> option string) (rows : option (list A)) : option string :=
  match rows with
  | None => Some "null"
  | Some l => json_list <$> mapM enc l
  end.

Example marshal_ex :
  marshal (AObj [("b", AArr [ANum (f_of_Z 3); ABool true; ANil]); ("a", AStr "<x>")])
  = "{" +:+ quote "a" +:+ ":" +:+ quote "<x>" +:+ "," +:+ quote "b" +:+ ":[3,true,null]}".
Proof. vm_compute. reflexivity. Qed.

(** ** Decoding: [json.Unmarshal] into a [map[string]any]

    The parser works on the bytes that remain. Each value and each separator
    consumes a byte, and a byte is looked at by at most three nested calls, so a
    fuel of three times the length is never used up. *)
Definition is_ws (c : ascii) : bool :=
  (code c =? 32)%nat || (code c =? 9)%nat || (code c =? 10)%nat || (code c =? 13)%nat.
Fixpoint skip_ws (l : list ascii) : list ascii :=
  match l with
  | c :: l' => if is_ws c then skip_ws l' else l
  | [] => []
  end.

Fixpoint hex4 (n : nat) (l : list ascii) (acc : Z) : option (Z * list ascii) :=
  match n, l with
  | O, _ => Some (acc, l)
  | S n, c :: l' => d ← hex_val c; hex4 n l' (acc * 16 + d)
  | S _, [] => None
  end.

(** [utf8.AppendRune] *)
Definition utf8_encode (r : Z) : list ascii :=
  let b z := byte_of (Z.to_nat z) in
  let cont k := b (128 + Z.shiftr r k mod 64) in
  if r <? 0x80 then [b r]
  else if r <? 0x800 then [b (0xc0 + Z.shiftr r 6); cont 0]
  else if r <? 0x10000 then [b (0xe0 + Z.shiftr r 12); cont 6; cont 0]
  else [b (0xf0 + Z.shiftr r 18); cont 12; cont 6; cont 0].
Definition rune_error : list ascii := utf8_encode 0xfffd.

Definition is_surrogate (u : Z) : bool := (0xd800 <=? u) && (u <? 0xe000).
(** [utf16.DecodeRune] *)
Definition decode_pair (u1 u2 : Z) : option Z :=
  if (0xd800 <=? u1) && (u1 <? 0xdc00) && (0xdc00 <=? u2) && (u2 <? 0xe000)
  then Some ((u1 - 0xd800) * 1024 + (u2 - 0xdc00) + 0x10000) else None.

Definition unescape (c : ascii) : option ascii :=
  match code c with
  | 34 | 92 | 47 => Some c
  | 98 => Some (byte_of 8)
  | 102 => Some (byte_of 12)
  | 110 => Some (byte_of 10)
  | 114 => Some (byte_of 13)
  | 116 => Some (byte_of 9)
  | _ => None
  end%nat.

(** The bytes after [\u]: the code unit read with the one that completes it. *)
Definition unescape_u (l : list ascii) : option (list ascii * list ascii) :=
  '(u, r) ← hex4 4 l 0;
  if is_surrogate u then
    let paired :=
      match r with
      | a :: b :: r2 =>
          if (code a =? 92)%nat && (code b =? 117)%nat then
            '(u2, r3) ← hex4 4 r2 0; x ← decode_pair u u2; Some (utf8_encode x, r3)
          else None
      | _ => None
      end in
    Some (default (rune_error, r) paired)
  else Some (utf8_encode u, r).

(** The contents of a string literal after its opening quote, up to the closing
    one; control characters are refused and invalid UTF-8 becomes U+FFFD. *)
Fixpoint unquote (fuel : nat) (l : list ascii) : option (list ascii * list ascii) :=
  match fuel, l with
  | S f, c :: l' =>
      let more (s rest : list ascii) := '(t, r) ← unquote f rest; Some (s ++ t, r) in
      if (code c =? 34)%nat then Some ([], l')
      else if (code c =? 92)%nat then
        match l' with
        | e :: l'' =>
            if (code e =? 117)%nat then '(s, r) ← unescape_u l''; more s r
            else x ← unescape e; more [x] l''
        | [] => None
        end
      else if (code c <? 32)%nat then None
      else match rune_len l with
           | Some n => more (take n l) (drop n l)
           | None => more rune_error l'
           end
  | _, _ => None
  end.

Fixpoint digits (l : list ascii) : list ascii * list ascii :=
  match l with
  | c :: l' => if is_digit c then let '(d, r) := digits l' in (c :: d, r) else ([], l)
  | [] => ([], [])
  end.
Definition lit_byte (n : nat) (l : list ascii) : option (list ascii) :=
  match l with c :: l' => if (code c =? n)%nat then Some l' else None | [] => None end.

(** A number literal: [-]int[.frac][e[+-]exp] *)
Definition number_frac (l : list ascii) : option (list ascii * list ascii) :=
  match l with
  | c :: l' =>
      if (code c =? 46)%nat then
        match digits l' with
        | ([], _) => None
        | (d, r) => Some (c :: d, r)
        end
      else Some ([], l)
  | [] => Some ([], [])
  end.
Definition number_exp (l : list ascii) : option (list ascii * list ascii) :=
  match l with
  | c :: l' =>
      if (code c =? 101)%nat || (code c =? 69)%nat then
        let '(s, l') := match l' with
                        | x :: l'' => if (code x =? 43)%nat || (code x =? 45)%nat then ([x], l'')
                                      else ([], l')
                        | [] => ([], [])
                        end in
        match digits l' with
        | ([], _) => None
        | (d, r) => Some (c :: s ++ d, r)
        end
      else Some ([], l)
  | [] => Some ([], [])
  end.
Definition scan_number (l : list ascii) : option (list ascii * list ascii) :=
  let '(sgn, l) := match lit_byte 45 l with Some r => ([byte_of 45], r) | None => ([], l) end in
  '(i, l) ← match digits l with
             | ([], _) => None
             | (c :: d, r) => if (code c =? 48)%nat then Some ([c], d ++ r) else Some (c :: d, r)
             end;
  '(f, l) ← number_frac l;
  '(e, l) ← number_exp l;
  Some (sgn ++ i ++ f ++ e, l).

(** A document: literals of numbers kept, members in order, repeated names included;
    an element and the value of a member come with their text. *)
Inductive json :=
| JNull
| JBool (b : bool)
| JNum (lit : string)
| JStr (s : string)
| JArr (l : list (string * json))
| JObj (members : list (string * (string * json))).
Abbreviation node := (string * json)%type.

Definition keyword (l : list ascii) : option (json * list ascii) :=
  let starts w := bool_decide (take (String.length w) l = bytes_of w) in
  if starts "null" then Some (JNull, drop 4 l)
  else if starts "true" then Some (JBool true, drop 4 l)
  else if starts "false" then Some (JBool false, drop 5 l)
  else None.

Definition maxNestingDepth : Z := 10000.

Fixpoint parse_value (fuel : nat) (depth : Z) (l : list ascii) : option (json * list ascii) :=
  match fuel with
  | O => None
  | S f =>
      match skip_ws l with
      | [] => None
      | c :: l' =>
          if (code c =? 34)%nat then
            '(s, r) ← unquote (length l') l'; Some (JStr (of_bytes s), r)
          else if (code c =? 91)%nat then
            if maxNestingDepth <? depth + 1 then None
            else match lit_byte 93 (skip_ws l') with
                 | Some r => Some (JArr [], r)
                 | None => '(vs, r) ← parse_elems f (depth + 1) l'; Some (JArr vs, r)
                 end
          else if (code c =? 123)%nat then
            if maxNestingDepth <? depth + 1 then None
            else match lit_byte 125 (skip_ws l') with
                 | Some r => Some (JObj [], r)
                 | None => '(m, r) ← parse_members f (depth + 1) l'; Some (JObj m, r)
                 end
          else if is_digit c || (code c =? 45)%nat then
            '(n, r) ← scan_number (c :: l'); Some (JNum (of_bytes n), r)
          else keyword (c :: l')
      end
  end
with parse_node (fuel : nat) (depth : Z) (l : list ascii) : option (node * list ascii) :=
  match fuel with
  | O => None
  | S f =>
      let l := skip_ws l in
      '(v, r) ← parse_value f depth l;
      Some ((of_bytes (take (length l - length r) l), v), r)
  end
with parse_elems (fuel : nat) (depth : Z) (l : list ascii) : option (list node * list ascii) :=
  match fuel with
  | O => None
  | S f =>
      '(v, r) ← parse_node f depth l;
      match skip_ws r with
      | c :: r' =>
          if (code c =? 44)%nat then '(vs, r'') ← parse_elems f depth r'; Some (v :: vs, r'')
          else if (code c =? 93)%nat then Some ([v], r')
          else None
      | [] => None
      end
  end
with parse_members (fuel : nat) (depth : Z) (l : list ascii)
    : option (list (string * node) * list ascii) :=
  match fuel with
  | O => None
  | S f =>
      l ← lit_byte 34 (skip_ws l);
      '(k, r) ← unquote (length l) l;
      r ← lit_byte 58 (skip_ws r);
      '(v, r) ← parse_node f depth r;
      match skip_ws r with
      | c :: r' =>
          if (code c =? 44)%nat then
            '(m, r'') ← parse_members f depth r'; Some ((of_bytes k, v) :: m, r'')
          else if (code c =? 125)%nat then Some ([(of_bytes k, v)], r')
          else None
      | [] => None
      end
  end.

(** The first value of a stream, and what follows it *)
Definition parse_first (l : list ascii) : option (node * list ascii) := parse_node (3 * length l + 4) 0 l.
Definition parse_document (body : string) : option json :=
  '(v, r) ← parse_first (bytes_of body);
  match skip_ws r with [] => Some v.2 | _ => None end.

(** [m[k] = v] *)
Fixpoint set_member (k : string) (v : any) (m : list (string * any)) : list (string * any) :=
  match m with
  | [] => [(k, v)]
  | (k', v') :: m' => if String.eqb k' k then (k, v) :: m' else (k', v') :: set_member k v m'
  end.

(** The value of type [any]: a number outside the range of [float64] is an error of
    [json.Unmarshal], and left [nil]. *)
Fixpoint to_any (v : json) : any :=
  match v with
  | JNull => ANil
  | JBool b => ABool b
  | JNum n => from_option ANum ANil (parse_float n)
  | JStr s => AStr s
  | JArr l => AArr (map (fun '(_, v) => to_any v) l)
  | JObj m =>
      AObj (fold_left (fun acc kv => set_member kv.1 kv.2 acc)
              (map (fun '(k, (_, v)) => (k, to_any v)) m) [])
  end.
Fixpoint numbers_ok (v : json) : bool :=
  match v with
  | JNum n => bool_decide (is_Some (parse_float n))
  | JArr l => forallb (fun '(_, v) => numbers_ok v) l
  | JObj m => forallb (fun '(_, (_, v)) => numbers_ok v) m
  | _ => true
  end.

Definition parse_json (body : string) : option any := to_any <$> parse_document body.

(** [payload := map[string]any{}; _ = json.Unmarshal(body, &payload)]: an invalid
    body, and one that is not an object, leave the map empty. *)
Definition unmarshal_map (body : string) : list (string * any) :=
  match parse_json body with Some (AObj m) => m | _ => [] end.

(** [json.Compact] with HTML escaping on a valid document; [quoted]: inside a string,
    [escaped]: after a backslash *)
Fixpoint compact (quoted escaped : bool) (l : list ascii) : list ascii :=
  match l with
  | [] => []
  | c :: l' =>
      let n := code c in
      if negb quoted && is_ws c then compact quoted escaped l'
      else
        let quoted' := if (n =? 34)%nat && negb escaped then negb quoted else quoted in
        let escaped' := quoted && (n =? 92)%nat && negb escaped in
        if (n =? 60)%nat || (n =? 62)%nat || (n =? 38)%nat then esc_u n ++ compact quoted' escaped' l'
        else
          match l' with
          | c1 :: c2 :: l'' =>
              if bool_decide ([c; c1; c2] = [byte_of 226; byte_of 128; byte_of 168])
              then [backslash; "u"; "2"; "0"; "2"; "8"]%char ++ compact quoted' escaped' l''
              else if bool_decide ([c; c1; c2] = [byte_of 226; byte_of 128; byte_of 169])
              then [backslash; "u"; "2"; "0"; "2"; "9"]%char ++ compact quoted' escaped' l''
              else c :: compact quoted' escaped' l'
          | _ => c :: compact quoted' escaped' l'
          end
  end.

(** [json.RawMessage]: an invalid document is an error. *)
Definition json_raw (body : string) : option string :=
  _ ← parse_json body; Some (of_bytes (compact false false (bytes_of body))).

Definition json_sample : string :=
  "{" +:+ quote "id" +:+ ": [1, -2.5e1, {" +:+ quote "k" +:+ ":null} ] , " +:+ quote "id2" +:+ ":"
  +:+ quote "a<b" +:+ "}".
Example unmarshal_ex :
  unmarshal_map json_sample =
  [("id", AArr [ANum (f_of_Z 1); ANum (f_of_Z (-25)); AObj [("k", ANil)]]); ("id2", AStr "a<b")].
Proof. vm_compute. reflexivity. Qed.
Example unmarshal_bad : unmarshal_map "{} x" = [] /\ unmarshal_map "[1]" = [] /\ parse_json "01" = None.
Proof. vm_compute. done. Qed.
