(* ===== verification/Decode.v ===== *)
(** * [encoding/json] into Go values

    [json.Unmarshal] and [Decoder.Decode] into structs, slices, maps, pointers,
    numbers and times. A decoder changes a variable that holds a value already: a
    repeated name decodes again into what the field holds, and [null] leaves everything
    but a pointer, a slice or a map alone. A member of the wrong type is skipped and the
    error remembered, while an error of [UnmarshalJSON] ends the decoding; what was
    decoded until then stays, which matters where the program ignores the error. *)
From S2P Require Import Prelude GoStd Json.

Inductive outcome := Fine | Mismatch | Halt.
Definition is_fine (o : outcome) : bool := match o with Fine => true | _ => false end.

Definition decoder (A : Type) : Type := node -> A -> A * outcome.

(** Another step of a decoding whose steps so far ended in [o] *)
Definition step {A} (o : outcome) (next : A * outcome) : A * outcome :=
  (next.1, match next.2 with Fine => o | o' => o' end).

Definition dec_string : decoder string := fun v old =>
  match v.2 with JStr s => (s, Fine) | JNull => (old, Fine) | _ => (old, Mismatch) end.
Definition dec_bool : decoder bool := fun v old =>
  match v.2 with JBool b => (b, Fine) | JNull => (old, Fine) | _ => (old, Mismatch) end.

(** An integer literal: no fraction, no exponent, 64 bits *)
Definition dec_int : decoder Z := fun v old =>
  match v.2 with
  | JNum s => match parse_int s with (n, None) => (n, Fine) | _ => (old, Mismatch) end
  | JNull => (old, Fine)
  | _ => (old, Mismatch)
  end.
Definition dec_float : decoder float64 := fun v old =>
  match v.2 with
  | JNum s => match parse_float s with Some x => (x, Fine) | None => (old, Mismatch) end
  | JNull => (old, Fine)
  | _ => (old, Mismatch)
  end.

(** [time.Time.UnmarshalJSON] reads the text between the quotes as it is. *)
Definition dec_time : decoder Time := fun v old =>
  match v.2 with
  | JNull => (old, Fine)
  | JStr _ =>
      match parse_rfc3339 (take_str (String.length v.1 - 2) (drop_str 1 v.1)) with
      | Some t => (t, Fine)
      | None => (old, Halt)
      end
  | _ => (old, Halt)
  end.

(** Into an [any]: a number that no [float64] holds is an error *)
Definition dec_any : decoder any := fun v old =>
  if numbers_ok v.2 then (to_any v.2, Fine)
  else match v.2 with JNum _ => (old, Mismatch) | _ => (to_any v.2, Mismatch) end.
(** Into a [map[string]any], which [null] makes [nil] *)
Definition dec_anymap : decoder (option (list (string * any))) := fun v old =>
  match v.2 with
  | JNull => (None, Fine)
  | JObj m =>
      (Some (fold_left (fun acc kv => set_member kv.1 (to_any kv.2.2) acc) m (default [] old)),
       if numbers_ok v.2 then Fine else Mismatch)
  | _ => (old, Mismatch)
  end.
(** [json.RawMessage] *)
Definition dec_raw : decoder string := fun v _ => (v.1, Fine).

Definition dec_pointer {A} (zero : A) (dec : decoder A) : decoder (option A) := fun v old =>
  match v.2 with
  | JNull => (None, Fine)
  | _ => let '(x, o) := dec v (default zero old) in (Some x, o)
  end.

(** Elements are decoded over those the backing array holds, as far as there are any. *)
Fixpoint dec_elems {A} (zero : A) (dec : decoder A) (vs : list node) (old : list A)
    : list A * outcome :=
  match vs with
  | [] => (old, Fine)
  | v :: vs =>
      let '(x, o) := dec v (default zero (head old)) in
      match o with
      | Halt => (x :: tail old, Halt)
      | _ => let '(rest, o) := step o (dec_elems zero dec vs (tail old)) in (x :: rest, o)
      end
  end.
(** A slice and its backing array: the elements in use, and those left after them *)
Abbreviation Slice A := (list A * list A)%type.
Definition dec_slice {A} (zero : A) (dec : decoder A) : decoder (Slice A) := fun v old =>
  match v.2 with
  | JNull | JArr [] => (([], []), Fine)
  | JArr vs =>
      let '(all, o) := dec_elems zero dec vs (old.1 ++ old.2) in
      ((take (length vs) all, drop (length vs) all), o)
  | _ => (old, Mismatch)
  end.
Definition dec_strings : decoder (Slice string) := dec_slice "" dec_string.
(** A slice whose [nil] is told apart from the empty one *)
Definition dec_rows {A} (zero : A) (dec : decoder A) : decoder (option (Slice A)) := fun v old =>
  match v.2 with
  | JNull => (None, Fine)
  | _ => let '(l, o) := dec_slice zero dec v (default ([], []) old) in
         (match v.2 with JArr _ => Some l | _ => old end, o)
  end.

(** The members of an object, one after the other *)
Fixpoint dec_members {R} (member : string -> decoder R) (ms : list (string * node)) (r : R)
    : R * outcome :=
  match ms with
  | [] => (r, Fine)
  | (k, v) :: ms =>
      let '(r, o) := member k v r in
      match o with
      | Halt => (r, Halt)
      | _ => step o (dec_members member ms r)
      end
  end.

Definition dec_map {A} (zero : A) (dec : decoder A) : decoder (gmap string A) := fun v old =>
  match v.2 with
  | JNull => (∅, Fine)
  | JObj ms =>
      dec_members (fun k v m =>
        let '(x, o) := dec v zero in
        (match o with Halt => m | _ => <[k := x]> m end, o)) ms old
  | _ => (old, Mismatch)
  end.

(** A field by its name in the document; names match up to case. *)
Definition field {R A} (name : string) (f : R -> A) `{!Setter f} (dec : decoder A)
    : string * decoder R :=
  (name, fun v r => let '(x, o) := dec v (f r) in (r <| f := x |>, o)).
(** A field of a part of the variable *)
Definition part {R S} (f : R -> S) `{!Setter f} (fld : string * decoder S) : string * decoder R :=
  (fld.1, fun v r => let '(x, o) := fld.2 v (f r) in (r <| f := x |>, o)).
Definition dec_struct {R} (fields : list (string * decoder R)) : decoder R := fun v old =>
  match v.2 with
  | JNull => (old, Fine)
  | JObj ms =>
      dec_members (fun k v r =>
        match List.find (fun f => equal_fold k f.1) fields with
        | Some f => f.2 v r
        | None => (r, Fine)
        end) ms old
  | _ => (old, Mismatch)
  end.
(** A field that the model leaves out still has to be of its type. *)
Definition unused {R A} (name : string) (zero : A) (dec : decoder A) : string * decoder R :=
  (name, fun v r => (r, (dec v zero).2)).

(** ** Documents *)

(** What [io.LimitReader(r, n)] leaves of a text *)
Definition limited (n : Z) (s : string) : string :=
  if Z.of_nat (String.length s) <=? n then s else take_str (Z.to_nat n) s.

(** [json.Unmarshal(body, &x)]: a body that is no document leaves [x] alone. *)
Definition unmarshal {A} (dec : decoder A) (body : string) (x : A) : A * bool :=
  match parse_first (bytes_of body) with
  | Some (v, r) =>
      match skip_ws r with
      | [] => let '(y, o) := dec v x in (y, is_fine o)
      | _ => (x, false)
      end
  | None => (x, false)
  end.

(** [json.NewDecoder(r).Decode(&x)]: the first value of the stream; what follows is not
    looked at. *)
Definition decode {A} (dec : decoder A) (body : string) (x : A) : A * bool :=
  match parse_first (bytes_of body) with
  | Some (v, _) => let '(y, o) := dec v x in (y, is_fine o)
  | None => (x, false)
  end.

Definition checked {A} (r : A * bool) : option A := if r.2 then Some r.1 else None.

Example decode_ex :
  let doc := "{" +:+ json_member "a" "[1,2]" +:+ "," +:+ json_str "b" "x" +:+ "," +:+ json_member "B" "7"
             +:+ "," +:+ json_member "c" "-3" +:+ "} trailing" in
  decode (dec_struct [("a", fun v r => (fst v, r.2, Fine)); ("b", fun v r => let '(s, o) := dec_string v r.2 in (r.1, s, o))])
    doc ("", "")
  = (("[1,2]", "x"), false).
Proof. vm_compute. reflexivity. Qed.
