(* ===== verification/Config.v ===== *)
(** * [internal/config]: the configuration of a process

    The configuration that [Load] reads from the environment and the files it names, the
    refusal of the demo's escape hatches elsewhere, and the validation of a profile. *)
From S2P Require Import Prelude GoStd Ports Platform Json.

Definition ConnectionBundled : string := "bundled".
Definition ConnectionExternal : string := "external".

Definition profile_name (p : string) : string := to_lower (trim_space p).
(** [Profile.IsDemo], [Profile.IsProduction] *)
Definition IsDemo (p : string) : bool := equal_fold (trim_space p) "demo".
Definition IsProduction (p : string) : bool :=
  let name := profile_name p in
  String.eqb name "starter" || String.eqb name "xsama" || String.eqb name "scaled".

Record Secrets := mkSecrets {
  se_WebhookSigningSecret : string; se_DeletionSigningSecret : string;
  se_PlatformBootstrapToken : string; se_PostgresAdminDSN : string;
  se_GatewayPassword : string; se_GatewayPasswordFile : string;
}.
Record Runtime := mkRuntime {
  rt_UseMemory : bool; rt_AllowStubOps : bool; rt_AllowScopeHeader : bool; rt_AllowSkipHMAC : bool;
  rt_MetricsListenAddr : string; rt_ShutdownGraceSeconds : Z; rt_IndexBackend : string;
  rt_ConfigOverlayPath : string;
}.
Record PostgresConfig := mkPostgresConfig { pg_DSN : string; pg_ConnectionMode : string }.
Record S3Config := mkS3Config {
  s3_Endpoint : string; s3_Region : string; s3_AccessKeyID : string; s3_SecretAccessKey : string;
  s3_PathStyle : bool; s3_BucketRaw : string; s3_BucketDerived : string;
  s3_BucketQuarantine : string; s3_ConnectionMode : string;
}.
Record NATSConfig := mkNATSConfig {
  nats_URL : string; nats_Domain : string; nats_Credentials : string; nats_ConnectionMode : string;
}.
Record OpenFGAConfig := mkOpenFGAConfig {
  fga_APIURL : string; fga_APIToken : string; fga_StoreID : string; fga_ModelID : string;
  fga_ConnectionMode : string;
}.
Record OIDCSettings := mkOIDCSettings {
  oi_Issuer : string; oi_Audience : string; oi_ClientID : string; oi_ClientSecret : string;
  oi_DiscoveryURL : string; oi_JWKSURL : string; oi_ClaimSubject : string; oi_ClaimEmail : string;
  oi_ClaimGroups : string; oi_ClaimOrg : string; oi_ClaimScopes : string; oi_ConnectionMode : string;
}.
Record MCPConfig := mkMCPConfig {
  mcp_ResourceURL : string; mcp_AuthorizationServers : list string;
  mcp_ScopesSupported : list string; mcp_ResourceDocumentation : string;
}.
Record Config := mkConfig {
  cfg_Profile : string; cfg_ListenAddr : string; cfg_LogLevel : string; cfg_AuthzModelID : string;
  cfg_MetricsListenAddr : string; cfg_Secrets : Secrets; cfg_Runtime : Runtime;
  cfg_Postgres : PostgresConfig; cfg_S3 : S3Config; cfg_NATS : NATSConfig;
  cfg_OpenFGA : OpenFGAConfig; cfg_OIDC : OIDCSettings; cfg_MCP : MCPConfig;
}.
#[export] Instance Config_eta : Settable Config := fun c =>
  mkConfig (cfg_Profile c) (cfg_ListenAddr c) (cfg_LogLevel c) (cfg_AuthzModelID c)
    (cfg_MetricsListenAddr c) (cfg_Secrets c) (cfg_Runtime c) (cfg_Postgres c) (cfg_S3 c)
    (cfg_NATS c) (cfg_OpenFGA c) (cfg_OIDC c) (cfg_MCP c).
#[export] Instance Runtime_eta : Settable Runtime := fun r =>
  mkRuntime (rt_UseMemory r) (rt_AllowStubOps r) (rt_AllowScopeHeader r) (rt_AllowSkipHMAC r)
    (rt_MetricsListenAddr r) (rt_ShutdownGraceSeconds r) (rt_IndexBackend r) (rt_ConfigOverlayPath r).

Definition placeholderValues : list string :=
  ["change-me"; "replace-after-bootstrap"; "changeme"; "todo"].

Definition UseMemory (c : Config) : bool := rt_UseMemory (cfg_Runtime c).
(** [Config.AllowMemoryAuth], [Config.AllowStubOps] *)
Definition AllowMemoryAuth (c : Config) : bool := UseMemory c || IsDemo (cfg_Profile c).
Definition AllowStubOps (c : Config) : bool := rt_AllowStubOps (cfg_Runtime c) || AllowMemoryAuth c.

(** ** The environment *)

(** [os.Getenv]: what is not set is empty. *)
Definition os_getenv (environ : strmap) (key : string) : string := default "" (environ !! key).
(** [os.ReadFile] *)
Inductive file := FileText (text : string) | FileMissing (msg : string) | FileError (msg : string).

Fixpoint first_env (environ : strmap) (def : string) (keys : list string) : string :=
  match keys with
  | [] => def
  | k :: keys =>
      let v := trim_space (os_getenv environ k) in
      if is_empty v then first_env environ def keys else v
  end.
Definition parse_bool (s : string) : option bool :=
  if mem_str s ["1"; "t"; "T"; "true"; "TRUE"; "True"] then Some true
  else if mem_str s ["0"; "f"; "F"; "false"; "FALSE"; "False"] then Some false
  else None.
Definition splitCSV (s : string) : list string :=
  if is_empty (trim_space s) then []
  else filter (fun p => p <> "") (trim_space <$> split_byte s ",").

Section Environment.
(** The process environment, the files, and [yaml.Unmarshal] into a map *)
Context `{GoMapOrder}.
Variables (environ : strmap) (read_file : string -> file)
          (yaml : string -> result GoError (gmap string any)).

Definition env (key def : string) : string :=
  let v := trim_space (os_getenv environ key) in if is_empty v then def else v.
Definition firstEnv (def : string) (keys : list string) : string := first_env environ def keys.
Definition boolEnv (key : string) (def : bool) : bool :=
  let v := trim_space (os_getenv environ key) in
  if is_empty v then def else default def (parse_bool v).
Definition intEnv (key : string) (def : Z) : Z :=
  let v := trim_space (os_getenv environ key) in
  if is_empty v then def else match parse_int v with (n, None) => n | _ => def end.
Definition modeEnv (key def : string) : string :=
  let v := to_lower (trim_space (os_getenv environ key)) in
  if String.eqb v ConnectionBundled || String.eqb v ConnectionExternal then v else def.
Definition profile_env : string := firstEnv "starter" ["PROFILE"; "CONTEXT_FABRIC_PROFILE"].
Definition defaultMode : string :=
  if String.eqb (to_lower profile_env) "scaled" then ConnectionExternal else ConnectionBundled.

(** A file that is missing falls back to the variable; any other error is one. *)
Definition secretValue (key : string) : result GoError string :=
  let path := trim_space (os_getenv environ (key +:+ "_FILE")) in
  let plain := Ok (trim_space (os_getenv environ key)) in
  if is_empty path then plain
  else match read_file path with
       | FileText b => Ok (trim_space b)
       | FileMissing _ => plain
       | FileError e => Err (EWrap ("read " +:+ key +:+ "_FILE") (EPlain e))
       end.
Definition gatewayPasswordValue : result GoError (string * string) :=
  let path := trim_space (os_getenv environ "POSTGRES_GATEWAY_PASSWORD_FILE") in
  if is_empty path then Ok (trim_space (os_getenv environ "POSTGRES_GATEWAY_PASSWORD"), "")
  else match read_file path with
       | FileText b => Ok (trim_space b, path)
       | FileMissing e | FileError e => Err (EWrap "read POSTGRES_GATEWAY_PASSWORD_FILE" (EPlain e))
       end.

Definition doc_string (doc : gmap string any) (key : string) : string :=
  match doc !! key with Some (AStr s) => s | _ => "" end.
Definition validateConfigOverlay (path : string) : result GoError unit :=
  match read_file path with
  | FileMissing e | FileError e => Err (EWrap "read CONTEXT_FABRIC_CONFIG" (EPlain e))
  | FileText data =>
      match yaml data with
      | Err e => Err (EWrap "parse CONTEXT_FABRIC_CONFIG" e)
      | Ok doc =>
          _ ← fail_if (negb (String.eqb (doc_string doc "apiVersion") "context-fabric.io/v1"))
                (EPlain "CONTEXT_FABRIC_CONFIG apiVersion must be context-fabric.io/v1");
          _ ← fail_if (negb (String.eqb (doc_string doc "kind") "DeploymentConfig"))
                (EPlain "CONTEXT_FABRIC_CONFIG kind must be DeploymentConfig");
          fail_if (is_empty (trim_space (doc_string doc "profile")))
            (EPlain "CONTEXT_FABRIC_CONFIG profile is required")
      end
  end.

Definition LoadFromEnv : result GoError Config :=
  let profile := profile_env in
  webhookSecret ← secretValue "WEBHOOK_SIGNING_SECRET";
  deletionSecret ← secretValue "DELETION_SIGNING_SECRET";
  bootstrapToken ← secretValue "PLATFORM_BOOTSTRAP_TOKEN";
  adminDSN ← secretValue "POSTGRES_ADMIN_DSN";
  '(gatewayPassword, gatewayPasswordFile) ← gatewayPasswordValue;
  postgresDSN ← secretValue "POSTGRES_DSN";
  s3Secret ← secretValue "S3_SECRET_ACCESS_KEY";
  openfgaToken ← secretValue "OPENFGA_API_TOKEN";
  oidcSecret ← secretValue "OIDC_CLIENT_SECRET";
  natsCreds ← secretValue "NATS_CREDENTIALS";
  openfgaStoreID ← secretValue "OPENFGA_STORE_ID";
  openfgaModelID ← secretValue "OPENFGA_MODEL_ID";
  let authzModelID := env "AUTHZ_MODEL_ID" openfgaModelID in
  let overlayPath := env "CONTEXT_FABRIC_CONFIG" "" in
  _ ← (if is_empty overlayPath then Ok tt else validateConfigOverlay overlayPath);
  let useMemory := boolEnv "CONTEXT_FABRIC_MEMORY" false in
  (* demo without a DSN: the in-process ledger *)
  let useMemory := useMemory || (is_empty postgresDSN && IsDemo profile) in
  let metrics := firstEnv "" ["METRICS_LISTEN_ADDR"; "CONTEXT_FABRIC_METRICS_LISTEN_ADDR"] in
  let cfg :=
    mkConfig profile
      (firstEnv ":8080" ["LISTEN_ADDR"; "CONTEXT_FABRIC_LISTEN_ADDR"])
      (firstEnv "info" ["LOG_LEVEL"; "CONTEXT_FABRIC_LOG_LEVEL"])
      authzModelID metrics
      (mkSecrets webhookSecret deletionSecret bootstrapToken adminDSN gatewayPassword gatewayPasswordFile)
      (mkRuntime useMemory
         (boolEnv "CONTEXT_FABRIC_ALLOW_STUB_OPS" false)
         (boolEnv "CONTEXT_FABRIC_ALLOW_SCOPE_HEADER" false)
         (boolEnv "CONTEXT_FABRIC_ALLOW_SKIP_HMAC" false)
         metrics (intEnv "SHUTDOWN_GRACE_SECONDS" 10) (env "INDEX_BACKEND" "") overlayPath)
      (mkPostgresConfig postgresDSN (modeEnv "POSTGRES_CONNECTION_MODE" defaultMode))
      (mkS3Config (env "S3_ENDPOINT" "") (env "S3_REGION" "us-east-1") (env "S3_ACCESS_KEY_ID" "")
         s3Secret (boolEnv "S3_PATH_STYLE" true) (env "S3_BUCKET_RAW" "context-raw")
         (env "S3_BUCKET_DERIVED" "context-derived") (env "S3_BUCKET_QUARANTINE" "context-quarantine")
         (modeEnv "S3_CONNECTION_MODE" defaultMode))
      (mkNATSConfig (env "NATS_URL" "") (env "NATS_DOMAIN" "") natsCreds
         (modeEnv "NATS_CONNECTION_MODE" defaultMode))
      (mkOpenFGAConfig (firstEnv "" ["OPENFGA_API_URL"; "OPENFGA_URL"]) openfgaToken openfgaStoreID
         openfgaModelID (modeEnv "OPENFGA_CONNECTION_MODE" defaultMode))
      (mkOIDCSettings (env "OIDC_ISSUER" "") (env "OIDC_AUDIENCE" "context-fabric")
         (env "OIDC_CLIENT_ID" "") oidcSecret (env "OIDC_DISCOVERY_URL" "") (env "OIDC_JWKS_URL" "")
         (env "OIDC_CLAIM_SUBJECT" "sub") (env "OIDC_CLAIM_EMAIL" "email")
         (env "OIDC_CLAIM_GROUPS" "groups") (env "OIDC_CLAIM_ORGANIZATION" "org_id")
         (env "OIDC_CLAIM_SCOPES" "scope") (modeEnv "OIDC_CONNECTION_MODE" defaultMode))
      (mkMCPConfig (env "MCP_RESOURCE_URL" "")
         (splitCSV (firstEnv "" ["MCP_AUTHORIZATION_SERVERS"; "OIDC_ISSUER"]))
         (splitCSV (env "MCP_SCOPES_SUPPORTED" "context:search,context:read,context:request_access"))
         (env "MCP_RESOURCE_DOCUMENTATION" "https://docs.context-fabric.io/mcp")) in
  Ok (if is_empty (cfg_AuthzModelID cfg)
      then cfg <| cfg_AuthzModelID := fga_ModelID (cfg_OpenFGA cfg) |> else cfg).

(** [os.Environ] has the variables in the order in which they were set. *)
Definition hatch_open (kv : string * string) : bool :=
  let val := trim_space kv.2 in
  has_prefix kv.1 "CONTEXT_FABRIC_ALLOW_" && (String.eqb val "1" || equal_fold val "true").
Definition ValidateEscapeHatches (profile : string) : result GoError unit :=
  if IsDemo profile then Ok tt
  else
    _ ← fail_if (boolEnv "CONTEXT_FABRIC_MEMORY" false)
          (EPlain "CONTEXT_FABRIC_MEMORY is forbidden outside demo profile");
    match List.find hatch_open (go_range environ) with
    | Some kv => Err (EPlain (kv.1 +:+ " is forbidden outside demo profile"))
    | None => Ok tt
    end.

(** ** Validation *)
Definition IsPlaceholderValue (val : string) : bool :=
  let v := to_lower (trim_space val) in
  negb (is_empty v)
  && (String.eqb v "replace-after-bootstrap" || contains_str v "change-me" || mem_str v placeholderValues).
Definition IsOpenFGAModelPlaceholder (id : string) : bool :=
  mem_str (trim_space id) [""; "demo-model-v1"; "starter-model-v1"; "xsama-model-v1"; "scaled-model-v1"].

Definition requireSecret (name val profile : string) : result GoError unit :=
  fail_if (is_empty (trim_space val)) (EPlain (name +:+ " is required for profile " +:+ profile)).
Fixpoint require_all (profile : string) (l : list (string * string)) : result GoError unit :=
  match l with
  | [] => Ok tt
  | (name, val) :: l => _ ← requireSecret name val profile; require_all profile l
  end.

Definition secret_fields (c : Config) : list (string * string) :=
  [("WEBHOOK_SIGNING_SECRET", se_WebhookSigningSecret (cfg_Secrets c));
   ("DELETION_SIGNING_SECRET", se_DeletionSigningSecret (cfg_Secrets c));
   ("PLATFORM_BOOTSTRAP_TOKEN", se_PlatformBootstrapToken (cfg_Secrets c));
   ("POSTGRES_ADMIN_DSN", se_PostgresAdminDSN (cfg_Secrets c));
   ("POSTGRES_GATEWAY_PASSWORD", se_GatewayPassword (cfg_Secrets c));
   ("S3_SECRET_ACCESS_KEY", s3_SecretAccessKey (cfg_S3 c));
   ("OPENFGA_API_TOKEN", fga_APIToken (cfg_OpenFGA c));
   ("OIDC_CLIENT_SECRET", oi_ClientSecret (cfg_OIDC c));
   ("OPENFGA_STORE_ID", fga_StoreID (cfg_OpenFGA c))].
Fixpoint no_placeholders (l : list (string * string)) : result GoError unit :=
  match l with
  | [] => Ok tt
  | (name, val) :: l =>
      _ ← fail_if (IsPlaceholderValue val)
            (EPlain (name +:+ " must not use placeholder value " +:+ sprint_q val));
      no_placeholders l
  end.
Definition validateSecrets (c : Config) (profile : string) : result GoError unit :=
  if String.eqb profile "demo" || UseMemory c then Ok tt
  else
    _ ← no_placeholders (secret_fields c);
    _ ← requireSecret "WEBHOOK_SIGNING_SECRET" (se_WebhookSigningSecret (cfg_Secrets c)) profile;
    requireSecret "DELETION_SIGNING_SECRET" (se_DeletionSigningSecret (cfg_Secrets c)) profile.

Definition connection_modes (c : Config) : list (string * string) :=
  [("POSTGRES_CONNECTION_MODE", pg_ConnectionMode (cfg_Postgres c));
   ("S3_CONNECTION_MODE", s3_ConnectionMode (cfg_S3 c));
   ("NATS_CONNECTION_MODE", nats_ConnectionMode (cfg_NATS c));
   ("OPENFGA_CONNECTION_MODE", fga_ConnectionMode (cfg_OpenFGA c));
   ("OIDC_CONNECTION_MODE", oi_ConnectionMode (cfg_OIDC c))].
Fixpoint all_external (l : list (string * string)) : result GoError unit :=
  match l with
  | [] => Ok tt
  | (name, mode) :: l =>
      _ ← fail_if (negb (String.eqb mode ConnectionExternal))
            (EPlain (name +:+ " must be external for scaled profile"));
      all_external l
  end.

Definition Validate (c : Config) : result GoError unit :=
  let profile := profile_name (cfg_Profile c) in
  _ ← fail_if (negb (mem_str profile ["demo"; "starter"; "xsama"; "scaled"]))
        (EPlain ("invalid PROFILE " +:+ sprint_q (cfg_Profile c) +:+ ": want demo|starter|xsama|scaled"));
  _ ← fail_if (is_empty (trim_space (cfg_ListenAddr c))) (EPlain "LISTEN_ADDR is required");
  if UseMemory c then validateSecrets c profile
  else
    _ ← require_all profile
          [("POSTGRES_DSN", pg_DSN (cfg_Postgres c)); ("NATS_URL", nats_URL (cfg_NATS c));
           ("S3_ENDPOINT", s3_Endpoint (cfg_S3 c)); ("S3_ACCESS_KEY_ID", s3_AccessKeyID (cfg_S3 c));
           ("S3_SECRET_ACCESS_KEY", s3_SecretAccessKey (cfg_S3 c))];
    if String.eqb profile "demo" then validateSecrets c profile
    else
      _ ← require_all profile
            [("OPENFGA_API_URL", fga_APIURL (cfg_OpenFGA c));
             ("AUTHZ_MODEL_ID / OPENFGA_MODEL_ID", cfg_AuthzModelID c);
             ("OIDC_ISSUER", oi_Issuer (cfg_OIDC c)); ("OIDC_AUDIENCE", oi_Audience (cfg_OIDC c))];
      _ ← fail_if (is_empty (oi_DiscoveryURL (cfg_OIDC c)) && is_empty (oi_JWKSURL (cfg_OIDC c)))
            (EPlain ("OIDC_DISCOVERY_URL or OIDC_JWKS_URL is required for profile " +:+ profile));
      _ ← (if String.eqb profile "scaled" then all_external (connection_modes c) else Ok tt);
      validateSecrets c profile.

Definition LoadBase : result GoError Config :=
  cfg ← LoadFromEnv;
  _ ← ValidateEscapeHatches (cfg_Profile cfg);
  Ok cfg.
Definition Load : result GoError Config :=
  cfg ← LoadFromEnv;
  _ ← ValidateEscapeHatches (cfg_Profile cfg);
  _ ← Validate cfg;
  Ok cfg.

(** [envFile], and [envFileValue] of the command: the variable, else the file it names *)
Definition envFile (key : string) : string :=
  let v := trim_space (os_getenv environ key) in
  if negb (is_empty v) then v
  else
    let path := trim_space (os_getenv environ (key +:+ "_FILE")) in
    if is_empty path then ""
    else match read_file path with FileText b => trim_space b | _ => "" end.
End Environment.
