(* ===== verification/Migrate.v ===== *)
(** * [internal/migrate]: the migrations of the database

    The database is an argument: what its statements answer and how they change it. The
    migration files are those of a directory, else the ones embedded in the binary. *)
From S2P Require Import Prelude GoStd Ports Platform Config.

Class Database (D : Type) := {
  (** A pool that answers a ping *)
  db_connect : string -> D -> result GoError unit;
  (** A statement without arguments, which may fail after it changed something *)
  db_exec : string -> D -> result GoError unit * D;
  (** [SELECT EXISTS(... schema_migrations WHERE version = $1)] and the insertion *)
  db_applied : string -> D -> result GoError bool;
  db_record : string -> D -> result GoError unit * D;
  (** A table of the public schema *)
  db_table : string -> D -> result GoError bool;
}.

(** An entry of a directory: its name, and its text unless it is a directory *)
Record DirEntry := mkDirEntry { de_Name : string; de_IsDir : bool; de_Text : result GoError string }.
Record migrationFile := mkMigrationFile { mf_Version : string; mf_SQL : string }.

Definition schemaMigrationsDDL : string := "
CREATE TABLE IF NOT EXISTS schema_migrations (
  version TEXT PRIMARY KEY,
  applied_at TIMESTAMPTZ NOT NULL DEFAULT now()
);
".
Definition grantPrivilegesSQL : string := "
DO $$
DECLARE
  t TEXT;
BEGIN
  IF NOT EXISTS (SELECT 1 FROM pg_roles WHERE rolname = 'context_gateway') THEN
    RAISE NOTICE 'role context_gateway does not exist; skip grants';
    RETURN;
  END IF;
  GRANT USAGE ON SCHEMA public TO context_gateway;
  FOR t IN
    SELECT tablename FROM pg_tables WHERE schemaname = 'public'
  LOOP
    EXECUTE format('GRANT SELECT, INSERT, UPDATE, DELETE ON TABLE %I TO context_gateway', t);
  END LOOP;
  GRANT USAGE, SELECT ON ALL SEQUENCES IN SCHEMA public TO context_gateway;
END
$$;
".

(** [AdminDSN], [MigrationsDir] *)
Definition AdminDSN (environ : strmap) : string :=
  let v := trim_space (os_getenv environ "POSTGRES_ADMIN_DSN") in
  if is_empty v then trim_space (os_getenv environ "POSTGRES_DSN") else v.
Definition MigrationsDir (environ : strmap) : string :=
  let v := trim_space (os_getenv environ "MIGRATIONS_DIR") in if is_empty v then "migrations" else v.

Definition version_lt (a b : migrationFile) : bool := str_lt (mf_Version a) (mf_Version b).
(** The loop over the entries: the first file that cannot be read ends it. *)
Fixpoint read_entries (entries : list DirEntry) : result GoError (list migrationFile) :=
  match entries with
  | [] => Ok []
  | e :: entries =>
      if de_IsDir e || negb (has_suffix (de_Name e) ".sql") then read_entries entries
      else
        b ← de_Text e;
        out ← read_entries entries;
        Ok (mkMigrationFile (de_Name e) b :: out)
  end.

Section Load.
(** [os.ReadDir]; [None] on an error. [embedded] is the embedded directory. *)
Variables (read_dir : string -> option (list DirEntry)) (embedded : result GoError (list DirEntry)).

Definition loadEmbedded : result GoError (list migrationFile) :=
  match embedded with
  | Err err => Err (EWrap "embed" err)
  | Ok entries =>
      out ← read_entries entries;
      match sort_slice version_lt out with
      | [] => Err (EPlain "no migration SQL found (dir or embed)")
      | out => Ok out
      end
  end.
Definition loadMigrations (dir : string) : result GoError (list migrationFile) :=
  if is_empty dir then loadEmbedded
  else match read_dir dir with
       | None => loadEmbedded
       | Some entries =>
           out ← read_entries entries;
           match sort_slice version_lt out with
           | [] => loadEmbedded
           | out => Ok out
           end
       end.

(** ** Statements *)
Context {D : Type} `{Database D}.
Abbreviation db := (M GoError D).

Definition exec (sql : string) : db unit := fun d => db_exec sql d.
Definition record_version (v : string) : db unit := fun d => db_record v d.
Definition is_applied (v : string) : db bool := fun d => (db_applied v d, d).
Definition wrapping {A} (msg : string) (m : db A) : db A := fun d =>
  match m d with (Err e, d) => (Err (EWrap msg e), d) | r => r end.
Definition connect (dsn : string) : db unit := fun d => (db_connect dsn d, d).

Definition apply_file (f : migrationFile) : db unit :=
  exists_ ← is_applied (mf_Version f);
  if exists_ : bool then mret tt
  else
    _ ← wrapping (mf_Version f) (exec (mf_SQL f));
    wrapping ("record " +:+ mf_Version f) (record_version (mf_Version f)).

Definition no_dsn {A} (msg : string) : db A := throw (EPlain msg).
Definition Run (dsn dir : string) : db unit :=
  if is_empty (trim_space dsn) then no_dsn "POSTGRES_ADMIN_DSN or POSTGRES_DSN is required"
  else
    _ ← connect dsn;
    _ ← wrapping "schema_migrations" (exec schemaMigrationsDDL);
    files ← of_result (loadMigrations dir);
    _ ← for_each apply_file files;
    wrapping "grant privileges" (exec grantPrivilegesSQL).

Definition check_file (f : migrationFile) : db unit :=
  exists_ ← wrapping "schema_migrations query" (is_applied (mf_Version f));
  if exists_ : bool then mret tt else throw (EPlain ("migration " +:+ mf_Version f +:+ " not applied")).
Definition CheckApplied (dsn dir : string) : db unit :=
  if is_empty (trim_space dsn) then no_dsn "POSTGRES_DSN is required"
  else
    _ ← connect dsn;
    files ← of_result (loadMigrations dir);
    for_each check_file files.

Definition required_tables : list string :=
  ["organizations"; "resources"; "records"; "outbox"; "schema_migrations"].
Definition check_table (t : string) : db unit := fun d =>
  match db_table t d with
  | Ok true => (Ok tt, d)
  | Ok false => (Err (EPlain ("required table " +:+ sprint_q t +:+ " missing; run migrate first")), d)
  | Err e => (Err e, d)
  end.
Definition Bootstrap (dsn : string) : db unit :=
  if is_empty (trim_space dsn) then no_dsn "POSTGRES_ADMIN_DSN or POSTGRES_DSN is required"
  else
    _ ← connect dsn;
    _ ← for_each check_table required_tables;
    wrapping "grant privileges" (exec grantPrivilegesSQL).
End Load.
