(* ===== verification/MigrateFacts.v ===== *)
(** * Migrations: each once, in order, and readiness afterwards *)
From S2P Require Import Prelude GoStd Ports Platform Config Migrate.

#[export] Instance version_lt_order : StrictWeak version_lt.
Proof.
  split; unfold version_lt; intros *; [apply total_asym | apply total_ntrans].
Qed.

Section Runs.
Context {D : Type} `{Database D}.
Implicit Types (d : D) (f : migrationFile) (fs : list migrationFile).

(** A migration that is recorded *)
Definition done_in d (v : string) : Prop := db_applied v d = Ok true.

(** What is relied on of the database: a version whose insertion succeeds is there
    afterwards, beside those that were. *)
Class Records : Prop := {
  record_there : forall v d d', db_record v d = (Ok tt, d') -> done_in d' v;
  record_keeps : forall v d d' w, db_record v d = (Ok tt, d') -> done_in d w -> done_in d' w;
}.

(** The versions recorded before are recorded after. *)
Definition keeps d d' : Prop := forall w, done_in d w -> done_in d' w.
(** A text that, when it runs to its end, leaves the recorded versions alone: it does not
    touch the table [schema_migrations]. *)
Definition preserves (sql : string) : Prop := forall d d', db_exec sql d = (Ok tt, d') -> keeps d d'.

Lemma wrapping_run {A} msg (m : M GoError D A) d :
  (wrapping msg m d).2 = (m d).2 /\ forall x, (wrapping msg m d).1 = Ok x <-> (m d).1 = Ok x.
Proof. unfold wrapping. destruct (m d) as [[x|e] d']; split; try done; intros; split; discriminate. Qed.

(** A file that is recorded is not run again. *)
Lemma apply_done f d : done_in d (mf_Version f) -> apply_file f d = (Ok tt, d).
Proof. intros Hd. unfold apply_file, is_applied, mbind, M_bind. by rewrite Hd. Qed.
Lemma apply_all_done fs d :
  Forall (fun f => done_in d (mf_Version f)) fs -> for_each apply_file fs d = (Ok tt, d).
Proof.
  induction 1 as [|f fs Hf _ IH]; [done|]. cbn [for_each]. by rewrite (bind_run _ _ _ _ _ (apply_done f d Hf)).
Qed.
Lemma check_all_done fs d :
  Forall (fun f => done_in d (mf_Version f)) fs -> for_each check_file fs d = (Ok tt, d).
Proof.
  induction 1 as [|f fs Hf _ IH]; [done|]. cbn [for_each].
  assert (Hc : check_file f d = (Ok tt, d)).
  { unfold check_file, wrapping, is_applied, mbind, M_bind. by rewrite Hf. }
  by rewrite (bind_run _ _ _ _ _ Hc).
Qed.

Context `{!Records}.

Lemma keeps_trans d1 d2 d3 : keeps d1 d2 -> keeps d2 d3 -> keeps d1 d3.
Proof. unfold keeps. auto. Qed.
Lemma wrapping_Ok {A} msg (m : M GoError D A) d x d' : wrapping msg m d = (Ok x, d') -> m d = (Ok x, d').
Proof.
  intros Hw. destruct (wrapping_run msg m d) as [H2 H1]. rewrite Hw in H1, H2. cbn in *.
  rewrite (surjective_pairing (m d)), <-H2. f_equal. by apply H1.
Qed.

(** A file that went through is recorded, and the versions before it still are. *)
Lemma apply_file_Ok f d d' :
  preserves (mf_SQL f) -> apply_file f d = (Ok tt, d') -> keeps d d' /\ done_in d' (mf_Version f).
Proof.
  intros Hp. unfold apply_file. intros (b & d0 & [= Ha <-] & Hr)%bind_Ok. destruct b.
  { injection Hr as <-. split; [by intros w | exact Ha]. }
  apply bind_Ok in Hr as ([] & d1 & He%wrapping_Ok & Hv%wrapping_Ok).
  split; [|by eapply record_there]. eapply keeps_trans; [by eapply Hp|]. intros w. by eapply record_keeps.
Qed.

Lemma apply_all_Ok fs d d' :
  Forall (fun f => preserves (mf_SQL f)) fs -> for_each apply_file fs d = (Ok tt, d') ->
  keeps d d' /\ Forall (fun f => done_in d' (mf_Version f)) fs.
Proof.
  intros Hp. revert d. induction Hp as [|f fs Hf _ IH]; intros d; cbn [for_each].
  { intros [= <-]. split; [by intros w | constructor]. }
  intros ([] & d1 & [Hk1 Hd]%apply_file_Ok & [Hk2 Hall]%IH)%bind_Ok; [|done].
  split; [by eapply keeps_trans|]. constructor; [by apply Hk2 | exact Hall].
Qed.

Variables (read_dir : string -> option (list DirEntry)) (embedded : result GoError (list DirEntry)).

Lemma loaded_sorted dir fs :
  loadMigrations read_dir embedded dir = Ok fs ->
  fs <> [] /\ StronglySorted (not_greater version_lt) fs /\ Forall (fun f => has_suffix (mf_Version f) ".sql" = true) fs.
Proof.
  assert (Hr : forall entries out, read_entries entries = Ok out ->
            Forall (fun f => has_suffix (mf_Version f) ".sql" = true) out).
  { induction entries as [|e entries IH]; intros out Ho; [injection Ho as <-; constructor|].
    cbn [read_entries] in Ho. destruct (de_IsDir e || negb _) eqn:Hs; [by apply IH|].
    apply orb_false_iff in Hs as [_ Hs%negb_false_iff].
    apply result_bind_Ok in Ho as (b & _ & Ho). apply result_bind_Ok in Ho as (l & Hl & [= <-]).
    constructor; [exact Hs | by apply IH]. }
  assert (Hsort : forall entries out, read_entries entries = Ok out -> sort_slice version_lt out <> [] ->
            sort_slice version_lt out <> [] /\ StronglySorted (not_greater version_lt) (sort_slice version_lt out) /\
            Forall (fun f => has_suffix (mf_Version f) ".sql" = true) (sort_slice version_lt out)).
  { intros entries out Ho Hn. split_and!; [done | apply sort_slice_sorted; apply _ |].
    rewrite sort_slice_perm. by eapply Hr. }
  assert (He : forall fs, loadEmbedded embedded = Ok fs ->
            fs <> [] /\ StronglySorted (not_greater version_lt) fs /\
            Forall (fun f => has_suffix (mf_Version f) ".sql" = true) fs).
  { intros l Hl. unfold loadEmbedded in Hl. destruct embedded as [entries|]; [|discriminate].
    apply result_bind_Ok in Hl as (out & Ho & Hl). specialize (Hsort entries out Ho).
    destruct (sort_slice version_lt out); [discriminate|]. injection Hl as <-. by apply Hsort. }
  unfold loadMigrations. destruct (is_empty dir); [apply He|].
  destruct (read_dir dir) as [entries|]; [|apply He]. intros Hl.
  apply result_bind_Ok in Hl as (out & Ho & Hl). specialize (Hsort entries out Ho).
  destruct (sort_slice version_lt out); [by apply He|]. injection Hl as <-. by apply Hsort.
Qed.

(** C40 Migrations converge: if neither the files that [Run] loads nor its grants touch the
    recorded versions, then after a successful [Run] the loaded files, at least one and in
    the order of their versions, are all recorded; the readiness check passes in that state
    whenever the database can be reached; and in every later state that keeps the recorded
    versions, going through the files again runs no statement and changes nothing. *)
Theorem migrations_converge dsn dir d d' :
  (forall fs, loadMigrations read_dir embedded dir = Ok fs -> Forall (fun f => preserves (mf_SQL f)) fs) ->
  preserves grantPrivilegesSQL ->
  Migrate.Run read_dir embedded dsn dir d = (Ok tt, d') ->
  exists fs, loadMigrations read_dir embedded dir = Ok fs /\ fs <> [] /\
    StronglySorted (not_greater version_lt) fs /\ Forall (fun f => done_in d' (mf_Version f)) fs /\
    (db_connect dsn d' = Ok tt -> CheckApplied read_dir embedded dsn dir d' = (Ok tt, d')) /\
    forall d2, keeps d' d2 -> for_each apply_file fs d2 = (Ok tt, d2).
Proof.
  intros Hfs Hgrant. unfold Migrate.Run, CheckApplied. destruct (is_empty (trim_space dsn)); [discriminate|].
  intros (u & d0 & _ & ([] & d1 & _ & (fs & d2 & Hl & Hr)%bind_Ok)%bind_Ok)%bind_Ok.
  injection Hl as Hl <-. apply bind_Ok in Hr as ([] & d3 & Hfiles & Hg%wrapping_Ok).
  apply apply_all_Ok in Hfiles as [_ Hall]; [|by apply Hfs].
  assert (Hdone : forall d2, keeps d3 d2 -> Forall (fun f => done_in d2 (mf_Version f)) fs).
  { intros d2 Hk. eapply Forall_impl; [exact Hall|]. intros f Hf. by apply Hk. }
  assert (Hk : keeps d3 d') by (by eapply Hgrant).
  exists fs. destruct (loaded_sorted dir fs Hl) as (Hne & Hs & _). split_and!; auto.
  - intros Hc. assert (Hc' : connect dsn d' = (Ok tt, d')) by (unfold connect; by rewrite Hc).
    rewrite (bind_run _ _ _ _ _ Hc'). rewrite (bind_run _ _ _ fs d') by (unfold of_result; by rewrite Hl).
    by apply check_all_done, Hdone.
  - intros d2 Hk2. apply apply_all_done, Hdone. by eapply keeps_trans.
Qed.
End Runs.

(** ** A database *)

(** The statements run, the versions recorded, and those whose insertion fails once *)
Record DemoDB := mkDemoDB { dd_log : list string; dd_versions : list string; dd_refuses : list string }.
#[local] Instance demo_database : Database DemoDB :=
  {| db_connect := fun _ _ => Ok tt;
     db_exec := fun sql d => (Ok tt, mkDemoDB (dd_log d ++ [sql]) (dd_versions d) (dd_refuses d));
     db_applied := fun v d => Ok (mem_str v (dd_versions d));
     db_record := fun v d =>
       if mem_str v (dd_refuses d)
       then (Err (EPlain "connection reset"), mkDemoDB (dd_log d) (dd_versions d) [])
       else (Ok tt, mkDemoDB (dd_log d) (v :: dd_versions d) (dd_refuses d));
     db_table := fun t d => Ok true |}.
#[local] Instance demo_records : Records (D := DemoDB).
Proof.
  split; unfold done_in; cbn.
  - intros v d d' Hr. destruct (mem_str v (dd_refuses d)); [discriminate|]. injection Hr as <-. cbn.
    by rewrite String.eqb_refl.
  - intros v d d' w Hr [= Hw]. destruct (mem_str v (dd_refuses d)); [discriminate|].
    injection Hr as <-. cbn. f_equal. unfold mem_str in *. cbn. rewrite Hw. by rewrite orb_true_r.
Qed.
Definition demo_dir (dir : string) : option (list DirEntry) :=
  if String.eqb dir "migrations"
  then Some [mkDirEntry "002_b.sql" false (Ok "B"); mkDirEntry "old" true (Err (EPlain "is a directory"));
             mkDirEntry "001_a.sql" false (Ok "A"); mkDirEntry "README.md" false (Ok "text")]
  else None.
Definition empty_db : DemoDB := mkDemoDB [] [] [].
Definition demo_run (d : DemoDB) : result GoError unit * DemoDB :=
  Migrate.Run demo_dir (Err (EPlain "embed")) "postgres://db" "migrations" d.

Lemma migrations_converge_witness :
  dd_log (demo_run empty_db).2 = [schemaMigrationsDDL; "A"; "B"; grantPrivilegesSQL] /\
  exists fs, loadMigrations demo_dir (Err (EPlain "embed")) "migrations" = Ok fs /\
    CheckApplied demo_dir (Err (EPlain "embed")) "postgres://db" "migrations" (demo_run empty_db).2
    = (Ok tt, (demo_run empty_db).2).
Proof.
  split; [vm_compute; reflexivity|].
  assert (Hp : forall sql, preserves (D := DemoDB) sql)
    by (intros sql d d' [= <-] w; exact id).
  destruct (@migrations_converge DemoDB demo_database demo_records demo_dir (Err (EPlain "embed")) "postgres://db" "migrations" empty_db
              (demo_run empty_db).2
              (fun fs _ => proj2 (Forall_forall _ fs) (fun f _ => Hp (mf_SQL f))) (Hp _)
              ltac:(vm_compute; reflexivity)) as (fs & H1 & _ & _ & _ & H2 & _).
  exists fs. split; [exact H1 | exact (H2 eq_refl)].
Defined.

(** Running a file and recording it are two statements: when the second fails, the next run
    executes the file again. *)
Lemma migration_runs_twice :
  let d := mkDemoDB [] [] ["001_a.sql"] in
  is_ok (demo_run d).1 = false /\
  dd_log (demo_run (demo_run d).2).2
  = [schemaMigrationsDDL; "A"; schemaMigrationsDDL; "A"; "B"; grantPrivilegesSQL].
Proof. vm_compute. split; reflexivity. Qed.
