(* ===== verification/Policy.v ===== *)
(** * [internal/policy]: the deterministic disclosure policy

    Purpose allow-list, classification ceiling, redaction profile and result
    limit. The policy never grants access: the retrieval pipeline asks for it
    after the relationship check. *)
From S2P Require Import Prelude GoStd Ports Platform.

Definition PolicyRevision : string := "policy-v1".

(** [classificationRank], keyed by normalised labels *)
Definition classificationRank (label : string) : option Z :=
  if String.eqb label "public" then Some 1
  else if String.eqb label "internal" then Some 2
  else if String.eqb label "confidential" then Some 3
  else if String.eqb label "restricted" then Some 4
  else if String.eqb label "secret" then Some 5
  else None.

Definition normalize (s : string) : string := to_lower (trim_space s).
Definition rank (c : string) : option Z := classificationRank (normalize c).

Record Provider := mkProvider {
  AllowedPurposes : list string; MaxClassification : string; DefaultMaxResults : Z;
  ConfidentialRedact : string; PublicRedact : string;
}.

(** [policy.New()] *)
Definition New : Provider := {|
  AllowedPurposes := ["support"; "account_management"; "marketing"; "finance"; "agent_assist";
                      "ops"; "compliance"; "engineering"; "research"];
  MaxClassification := "restricted";
  DefaultMaxResults := 25;
  ConfidentialRedact := "pii_mask";
  PublicRedact := "none";
|}.

Definition deny (reason : string) : PolicyResult := mkPolicyResult false "" [] 0 reason.

(** The label the request is judged by: its own, else the record's, else
    [internal]. *)
Definition effective_class (req : PolicyEval) : string :=
  let class := normalize (pe_Classification req) in
  let class :=
    match is_empty class, pe_Record req with
    | true, Some rec => normalize (rec_Classification rec)
    | _, _ => class
    end in
  if is_empty class then "internal" else class.

Definition Evaluate (p : Provider) (req : PolicyEval) : result GoError PolicyResult :=
  let purpose := normalize (pe_Purpose req) in
  if is_empty purpose then Ok (deny "purpose_required")
  else if negb (mem_str purpose (AllowedPurposes p)) then Ok (deny "purpose_not_allowed")
  else
    match rank (effective_class req) with
    | None => Ok (deny "classification_unknown")
    | Some classRank =>
        match rank (MaxClassification p) with
        | None => Ok (deny "classification_ceiling_misconfigured")
        | Some maxRank =>
            if maxRank <? classRank then Ok (deny "classification_ceiling")
            else
              let confidential :=
                match rank "confidential" with
                | Some confRank => confRank <=? classRank
                | None => false
                end in
              let redaction := if confidential then ConfidentialRedact p else PublicRedact p in
              let obligations :=
                if confidential then ["audit_disclosure"; "mask_pii"; "no_export_raw"]
                else ["audit_disclosure"] in
              let maxResults :=
                if (0 <? pe_RequestedLimit req) && (pe_RequestedLimit req <? DefaultMaxResults p)
                then pe_RequestedLimit req else DefaultMaxResults p in
              Ok (mkPolicyResult true redaction obligations maxResults "policy_ok")
        end
    end.

(** ** Theorems *)

(** [Evaluate] never returns an error. *)
Lemma Evaluate_total p req : exists r, Evaluate p req = Ok r.
Proof. unfold Evaluate. repeat case_goal; eauto. Qed.

(** What an allowing result looks like. *)
Lemma Evaluate_allowed p req r :
  Evaluate p req = Ok r -> pr_Allow r = true ->
  exists c m,
    normalize (pe_Purpose req) <> "" /\
    normalize (pe_Purpose req) ∈ AllowedPurposes p /\
    rank (effective_class req) = Some c /\ rank (MaxClassification p) = Some m /\ c <= m /\
    pr_RedactionProfile r = (if 3 <=? c then ConfidentialRedact p else PublicRedact p) /\
    pr_Obligations r = (if 3 <=? c then ["audit_disclosure"; "mask_pii"; "no_export_raw"]
                        else ["audit_disclosure"]) /\
    pr_MaxResults r = (if (0 <? pe_RequestedLimit req)
                          && (pe_RequestedLimit req <? DefaultMaxResults p)
                       then pe_RequestedLimit req else DefaultMaxResults p).
Proof.
  unfold Evaluate, is_empty. intros H Hallow.
  destruct (String.eqb_spec (normalize (pe_Purpose req)) ""); [simplify_eq/=|].
  destruct (mem_str _ _) eqn:Hmem; simpl in H; [apply mem_str_In in Hmem | simplify_eq/=].
  destruct (rank (effective_class req)) as [c|]; [|simplify_eq/=].
  destruct (rank (MaxClassification p)) as [m|]; [|simplify_eq/=].
  destruct (Z.ltb_spec m c); simplify_eq/=. exists c, m. auto 10.
Qed.

Lemma Evaluate_complete p req c m :
  normalize (pe_Purpose req) <> "" ->
  normalize (pe_Purpose req) ∈ AllowedPurposes p ->
  rank (effective_class req) = Some c -> rank (MaxClassification p) = Some m -> c <= m ->
  exists r, Evaluate p req = Ok r /\ pr_Allow r = true.
Proof.
  unfold Evaluate, is_empty. intros Hne Hmem -> -> Hle.
  apply String.eqb_neq in Hne as ->. apply mem_str_In in Hmem as ->.
  destruct (Z.ltb_spec m c); [lia|]. eauto.
Qed.

(** [Evaluate] allows a disclosure exactly when the normalised purpose is
    non-empty and listed, the label is a known one and its rank does not exceed
    the configured ceiling: unknown labels and a misconfigured ceiling deny. *)
Theorem policy_allow_iff p req :
  (exists r, Evaluate p req = Ok r /\ pr_Allow r = true) <->
  normalize (pe_Purpose req) <> "" /\
  normalize (pe_Purpose req) ∈ AllowedPurposes p /\
  exists c m, rank (effective_class req) = Some c /\ rank (MaxClassification p) = Some m /\ c <= m.
Proof.
  split.
  - intros (r & H & Ha). destruct (Evaluate_allowed _ _ _ H Ha) as (c & m & ?).
    destruct_and?. eauto 10.
  - intros (? & ? & c & m & ? & ? & ?). eauto using Evaluate_complete.
Qed.

(** An allowed disclosure of a label at or above [confidential] carries the
    confidential redaction profile and the masking obligations, one below it
    the public profile, and the result limit never exceeds the configured one
    nor a positive requested one. *)
Theorem policy_obligations p req r :
  Evaluate p req = Ok r -> pr_Allow r = true ->
  (rank (effective_class req) ∈ [Some 3; Some 4; Some 5] ->
     pr_RedactionProfile r = ConfidentialRedact p /\
     "mask_pii" ∈ pr_Obligations r /\ "no_export_raw" ∈ pr_Obligations r) /\
  (rank (effective_class req) ∈ [Some 1; Some 2] -> pr_RedactionProfile r = PublicRedact p) /\
  pr_MaxResults r <= DefaultMaxResults p /\
  (0 < pe_RequestedLimit req -> pr_MaxResults r <= pe_RequestedLimit req).
Proof.
  intros H Ha.
  destruct (Evaluate_allowed _ _ _ H Ha) as (c & m & _ & _ & -> & _ & _ & -> & -> & ->).
  split; [|split; [|split]].
  - rewrite !elem_of_cons, elem_of_nil. intros [|[|[|[]]]]; simplify_eq/=; set_solver.
  - rewrite !elem_of_cons, elem_of_nil. intros [|[|[]]]; simplify_eq/=; done.
  - destruct (Z.ltb_spec 0 (pe_RequestedLimit req)),
      (Z.ltb_spec (pe_RequestedLimit req) (DefaultMaxResults p)); simpl; lia.
  - destruct (Z.ltb_spec 0 (pe_RequestedLimit req)),
      (Z.ltb_spec (pe_RequestedLimit req) (DefaultMaxResults p)); simpl; lia.
Qed.

Definition sample_principal : Principal :=
  mkPrincipal "local|alice" PrincipalKindUser "org1" "local" "alice" [] [] [] "" ∅.
Definition sample_eval : PolicyEval :=
  mkPolicyEval sample_principal "context.get" " Support " "Confidential" None 10.

Lemma policy_obligations_witness :
  exists r, Evaluate New sample_eval = Ok r /\ pr_Allow r = true /\
            pr_RedactionProfile r = "pii_mask" /\ pr_MaxResults r <= 10.
Proof.
  eexists. split; [vm_compute; reflexivity|]. split; [reflexivity|].
  destruct (policy_obligations New sample_eval
              (mkPolicyResult true "pii_mask" ["audit_disclosure"; "mask_pii"; "no_export_raw"] 10
                 "policy_ok")) as (Hc & _ & _ & Hm); [vm_compute; reflexivity | reflexivity |].
  split; [apply Hc; vm_compute; by left | apply Hm; reflexivity].
Defined.
