(* ===== verification/Mapping.v ===== *)
(** * [internal/mapping]: MappingSpec transforms and source ceilings

    [Apply] evaluates the expressions of a mapping specification over a source
    payload and enforces the ceilings of the source registration; its result is
    the canonical record and the knowledge-graph edges of the intake. *)
From S2P Require Import Prelude GoStd Sha256 Ports Platform Json.

(** ** Specifications *)

(** A JSONPath, constant or limited template; an absent default is [ANil]. *)
Record Expr := mkExpr { x_Expr : string; x_Default : any; x_Transform : string }.

Record TimestampMappings := mkTimestamps {
  tm_OccurredAt : option Expr; tm_ObservedAt : option Expr;
}.

Record FieldMappings := mkFieldMappings {
  fm_SourceExternalID : option Expr; fm_SourceRevision : option Expr;
  fm_ContextSpaceID : option Expr; fm_ResourceID : option Expr;
  fm_ResourceType : option Expr; fm_BrandID : option Expr;
  fm_Timestamps : TimestampMappings; fm_ContentLocator : option Expr;
  fm_ControlledTaxonomy : gmap string (option Expr);
  fm_VisibilityRef : option Expr; fm_Classification : option Expr;
  fm_PurposeAllowlist : option Expr; fm_Trust : option Expr;
  fm_SourceAuthority : option Expr; fm_RetentionPolicyID : option Expr;
  fm_Tags : option Expr; fm_OrganizationID : option Expr; fm_Title : option Expr;
  fm_ParentResourceID : option Expr;
}.

#[export] Instance FieldMappings_eta : Settable FieldMappings := fun r =>
  mkFieldMappings (fm_SourceExternalID r) (fm_SourceRevision r) (fm_ContextSpaceID r)
    (fm_ResourceID r) (fm_ResourceType r) (fm_BrandID r) (fm_Timestamps r) (fm_ContentLocator r)
    (fm_ControlledTaxonomy r) (fm_VisibilityRef r) (fm_Classification r) (fm_PurposeAllowlist r)
    (fm_Trust r) (fm_SourceAuthority r) (fm_RetentionPolicyID r) (fm_Tags r)
    (fm_OrganizationID r) (fm_Title r) (fm_ParentResourceID r).

Record EdgeMapping := mkEdgeMapping {
  em_Predicate : option Expr; em_From : option Expr; em_To : option Expr;
  em_Confidence : option Expr; em_EnsureEndpoints : option bool;
  em_SyncAuthzParent : option bool;
}.

Record Constraints := mkConstraints {
  CannotMintOrganization : bool; CannotBroadenACL : bool;
  AuthorityCeilingFromSource : bool; ClientFieldsMayOnlyNarrow : bool;
}.
#[export] Instance Constraints_eq_dec : EqDecision Constraints.
Proof. solve_decision. Defined.
Definition zeroConstraints : Constraints := mkConstraints false false false false.

Record Spec := mkSpec {
  sp_APIVersion : string; sp_ID : string; sp_Revision : string; sp_OrganizationID : string;
  sp_SourceID : string; sp_Status : string; sp_Description : string;
  sp_Mappings : FieldMappings; sp_Edges : list EdgeMapping; sp_Constraints : Constraints;
}.
#[export] Instance Spec_eta : Settable Spec := fun r =>
  mkSpec (sp_APIVersion r) (sp_ID r) (sp_Revision r) (sp_OrganizationID r) (sp_SourceID r)
    (sp_Status r) (sp_Description r) (sp_Mappings r) (sp_Edges r) (sp_Constraints r).

Record SourceCeilings := mkCeilings {
  sc_OrganizationID : string; sc_TrustCeiling : string; sc_AuthorityCeiling : string;
  sc_ClassificationCeiling : string; sc_AllowedVisibilityRefs : list string;
  sc_AllowedRecordTypes : list string;
}.

Record CanonicalEdge := mkCanonicalEdge {
  ce_FromID : string; ce_ToID : string; ce_Predicate : string; ce_Confidence : float64;
  ce_EnsureEndpoints : bool; ce_SyncAuthzParent : bool;
  ce_ToKind : string; ce_ToTitle : string; ce_ToExternalID : string;
}.
#[export] Instance CanonicalEdge_eta : Settable CanonicalEdge := fun r =>
  mkCanonicalEdge (ce_FromID r) (ce_ToID r) (ce_Predicate r) (ce_Confidence r)
    (ce_EnsureEndpoints r) (ce_SyncAuthzParent r) (ce_ToKind r) (ce_ToTitle r)
    (ce_ToExternalID r).

Record Canonical := mkCanonical {
  c_OrganizationID : string; c_ResourceID : string; c_ResourceType : string;
  c_Title : string; c_ContextSpaceID : string; c_BrandID : string;
  c_SourceExternalID : string; c_SourceRevision : string; c_ContentLocator : string;
  c_Classification : string; c_Trust : string; c_Authority : string;
  c_VisibilityRef : string; c_PurposeAllowlist : string; c_RetentionPolicyID : string;
  c_Tags : list string; c_OccurredAt : Time; c_ObservedAt : Time;
  c_Attributes : strmap; c_Edges : list CanonicalEdge; c_DryRun : bool;
}.
#[export] Instance Canonical_eta : Settable Canonical := fun r =>
  mkCanonical (c_OrganizationID r) (c_ResourceID r) (c_ResourceType r) (c_Title r)
    (c_ContextSpaceID r) (c_BrandID r) (c_SourceExternalID r) (c_SourceRevision r)
    (c_ContentLocator r) (c_Classification r) (c_Trust r) (c_Authority r) (c_VisibilityRef r)
    (c_PurposeAllowlist r) (c_RetentionPolicyID r) (c_Tags r) (c_OccurredAt r)
    (c_ObservedAt r) (c_Attributes r) (c_Edges r) (c_DryRun r).

Record Options := mkOptions { DryRun : bool }.

(** ** Expressions *)

(** One path segment of [dig]: a key with an optional index; the index of a
    segment that does not parse is the value [strconv.Atoi] leaves behind. *)
Definition segment (p : string) : string * Z :=
  match index_byte p "[" with
  | Some i =>
      if has_suffix p "]" then
        (take_str i p,
         (parse_int (take_str (String.length p - i - 2) (drop_str (S i) p))).1)
      else (p, -1)
  | None => (p, -1)
  end.

Definition dig_key (cur : any) (key : string) : option any :=
  match cur with
  | AObj m => Some (if is_empty key then cur else default ANil (assoc m key))
  | AStrMap m => Some (AStr (default "" (assoc m key)))
  | _ => None
  end.
Definition dig_index (cur : any) (idx : Z) : option any :=
  if 0 <=? idx then
    match cur with
    | AArr l => if zlen l <=? idx then None else l !! Z.to_nat idx
    | _ => None
    end
  else Some cur.
(** The loop over the segments; [None] is the early [return nil]. *)
Fixpoint dig_parts (cur : any) (parts : list string) : option any :=
  match parts with
  | [] => Some cur
  | p :: rest =>
      let p := trim_space p in
      if is_empty p then dig_parts cur rest else
      let '(key, idx) := segment p in
      cur ← dig_key cur key;
      cur ← dig_index cur idx;
      dig_parts cur rest
  end.
Definition dig (root : list (string * any)) (path : string) : any :=
  let path := trim_prefix (trim_prefix path ".") "/" in
  if is_empty path then AObj root
  else default ANil (dig_parts (AObj root) (split_byte path ".")).

Definition dquote : string := str1 (byte_of 34).
Definition squote : string := str1 (byte_of 39).
Definition resolve (expr : string) (payload : list (string * any)) : result GoError any :=
  let expr := trim_space expr in
  if is_empty expr then Ok ANil
  else if (2 <=? String.length expr)%nat
          && (has_prefix expr dquote && has_suffix expr dquote
              || has_prefix expr squote && has_suffix expr squote)
  then Ok (AStr (take_str (String.length expr - 2) (drop_str 1 expr)))
  else if has_prefix expr "$." || has_prefix expr "$["
  then Ok (dig payload (trim_prefix expr "$"))
  else if has_prefix expr "." then Ok (dig payload expr)
  else if contains_str expr "." && negb (contains_str expr " ")
  then Ok (dig payload ("." +:+ expr))
  else Ok (AStr expr).

Fixpoint stringify (v : any) : string :=
  match v with
  | ANil => ""
  | AStr s => s
  | ANum x =>
      if f_eq x (f_of_Z (f_to_int x)) then itoa (f_to_int x) else format_float x
  | ABool b => if b then "true" else "false"
  | AJsonNumber s => s
  | AArr l => join (stringify <$> l) ","
  | AObj _ | AStrMap _ => marshal v
  end.

Section Transform.
Context `{GoEnv}.

Definition uuidV5Hex (name : string) : string := uuid_sha1_oid name.

Definition applyTransform (s transform : string) : string :=
  let t := to_lower (trim_space transform) in
  if String.eqb t "" || String.eqb t "identity" then s
  else if String.eqb t "lowercase" then to_lower s
  else if String.eqb t "trim" then trim_space s
  else if String.eqb t "sha256_hex" then hex_encode (sha256 s)
  else if String.eqb t "uuid_v5" then uuid_sha1_oid s
  else s.

Definition evalString (expr : option Expr) (payload : list (string * any))
    : result GoError string :=
  match expr with
  | None => Ok ""
  | Some x =>
      if is_empty (trim_space (x_Expr x)) then
        match x_Default x with ANil => Ok "" | d => Ok (stringify d) end
      else
        raw ← resolve (x_Expr x) payload;
        match raw with
        | ANil | AStr "" =>
            match x_Default x with
            | ANil => Ok ""
            | d => Ok (applyTransform (stringify d) (x_Transform x))
            end
        | _ => Ok (applyTransform (stringify raw) (x_Transform x))
        end
  end.

(** [now] is the reading of [time.Now()]. *)
Definition evalTime (now : Time) (expr : option Expr) (payload : list (string * any))
    : result GoError Time :=
  s ← evalString expr payload;
  if is_empty s then Ok now else
  match parse_rfc3339 s with
  | Some t => Ok t
  | None =>
      match parse_int s with
      | (n, None) => Ok (time_unix n)
      | _ => Err (ErrValidation ("invalid timestamp: " +:+ s))
      end
  end.
End Transform.

(** ** Ranks and helpers *)
Definition RankTrust (v : string) : Z :=
  let v := to_lower (trim_space v) in
  if String.eqb v "generated" then 1
  else if String.eqb v "untrusted_external" then 2
  else if String.eqb v "trusted_internal" then 3
  else if String.eqb v "trusted_system" then 4
  else -1.

Definition RankAuthority (v : string) : Z :=
  let v := to_lower (trim_space v) in
  if String.eqb v "inferred" then 1
  else if String.eqb v "user_claim" then 2
  else if String.eqb v "corroborating" then 3
  else if String.eqb v "source_of_truth" then 4
  else -1.

Definition RankClassification (v : string) : Z :=
  let v := to_lower (trim_space v) in
  if String.eqb v "public" then 1
  else if String.eqb v "internal" then 2
  else if String.eqb v "confidential" then 3
  else if String.eqb v "restricted" then 4
  else -1.

Fixpoint firstNonEmpty (vals : list string) : string :=
  match vals with
  | [] => ""
  | v :: vs => if negb (is_empty (trim_space v)) then v else firstNonEmpty vs
  end.

Definition splitCSV (s : string) : list string :=
  filter (fun p => p <> "") (trim_space <$> split_byte s ",").

Definition contains (l : list string) (want : string) : bool := mem_str want l.

Definition allowedPredicate (p : string) : bool :=
  mem_str p [EdgeParent; EdgeRelatedTo; EdgeMentions; EdgeDerivedFrom; EdgeAssignedTo].

(** ** Edges *)
Definition triple_key (e : CanonicalEdge) : string :=
  ce_FromID e +:+ "|" +:+ ce_Predicate e +:+ "|" +:+ ce_ToID e.
Definition same_triple (a b : CanonicalEdge) : bool :=
  String.eqb (ce_FromID a) (ce_FromID b) && String.eqb (ce_ToID a) (ce_ToID b)
  && String.eqb (ce_Predicate a) (ce_Predicate b).

(** The first collected edge with the triple of [e] takes over its requests. *)
Definition merge_flags (e x : CanonicalEdge) : CanonicalEdge :=
  let x := if ce_SyncAuthzParent e then x <| ce_SyncAuthzParent := true |> else x in
  if ce_EnsureEndpoints e then x <| ce_EnsureEndpoints := true |> else x.
Fixpoint merge_edge (e : CanonicalEdge) (edges : list CanonicalEdge) : list CanonicalEdge :=
  match edges with
  | [] => []
  | x :: rest => if same_triple x e then merge_flags e x :: rest else x :: merge_edge e rest
  end.

(** The state of the closure [add]: the edges and the [seen] keys. *)
Definition EdgeAcc : Type := list CanonicalEdge * list string.
Definition add_edge (e : CanonicalEdge) (acc : EdgeAcc) : EdgeAcc :=
  let '(edges, seen) := acc in
  if is_empty (ce_FromID e) || is_empty (ce_ToID e) || is_empty (ce_Predicate e)
     || String.eqb (ce_FromID e) (ce_ToID e)
  then acc
  else if mem_str (triple_key e) seen then (merge_edge e edges, seen)
  else
    let e := if f_le (ce_Confidence e) f_zero then e <| ce_Confidence := f_one |> else e in
    (edges ++ [e], triple_key e :: seen).

Section Edges.
Context `{GoEnv}.

Definition edgeFromVisibilityRef (resourceID visibilityRef : string) : option CanonicalEdge :=
  let ref := trim_space visibilityRef in
  if is_empty ref then None else
  let object := trim_space (match index_byte ref "#" with
                            | Some i => take_str i ref
                            | None => ref
                            end) in
  if is_empty object then None else
  let '(parentID, kind, title, external) :=
    if has_prefix object "resource:" then
      let parentID := trim_prefix object "resource:" in
      (parentID, "resource", parentID, object)
    else
      (uuidV5Hex object,
       match index_byte object ":" with
       | Some (S i) => take_str (S i) object
       | _ => object
       end, object, object) in
  if is_empty parentID || String.eqb parentID resourceID then None
  else Some (mkCanonicalEdge resourceID parentID EdgeParent f_one true false kind title external).

Definition edge_error {A} (i : Z) (field : string) (r : result GoError A) : result GoError A :=
  match r with
  | Ok x => Ok x
  | Err e => Err (EWrap ("edges[" +:+ itoa i +:+ "]." +:+ field) e)
  end.

Definition edge_confidence (i : Z) (em : EdgeMapping) (payload : list (string * any))
    : result GoError float64 :=
  match em_Confidence em with
  | None => Ok f_one
  | Some _ =>
      raw ← edge_error i "confidence" (evalString (em_Confidence em) payload);
      Ok (if is_empty raw then f_one else default f_one (parse_float raw))
  end.

(** The body of [for i, em := range spec.Edges]. *)
Definition resolve_edge (resourceID : string) (payload : list (string * any))
    (i : Z) (em : EdgeMapping) (acc : EdgeAcc) : result GoError EdgeAcc :=
  pred ← edge_error i "predicate" (evalString (em_Predicate em) payload);
  let pred := if is_empty pred then EdgeParent else pred in
  fromID ← edge_error i "from" (evalString (em_From em) payload);
  let fromID := if is_empty fromID then resourceID else fromID in
  toID ← edge_error i "to" (evalString (em_To em) payload);
  if is_empty toID then Ok acc else
  conf ← edge_confidence i em payload;
  let ensure := default true (em_EnsureEndpoints em) in
  let syncParent := default false (em_SyncAuthzParent em) in
  _ ← fail_if (syncParent && negb (equal_fold pred EdgeParent))
        (ErrValidation ("edges[" +:+ itoa i +:+ "]: sync_authz_parent only allowed for parent"));
  let predLower := to_lower pred in
  _ ← fail_if (negb (allowedPredicate predLower))
        (ErrValidation ("edges[" +:+ itoa i +:+ "]: unsupported predicate " +:+ sprint_q pred));
  _ ← fail_if (f_lt conf f_zero || f_lt f_one conf)
        (ErrValidation ("edges[" +:+ itoa i +:+ "]: confidence must be 0..1"));
  Ok (add_edge (mkCanonicalEdge fromID toID predLower conf ensure syncParent "" "" "") acc).

Fixpoint resolve_edge_list (resourceID : string) (payload : list (string * any))
    (i : Z) (ems : list EdgeMapping) (acc : EdgeAcc) : result GoError EdgeAcc :=
  match ems with
  | [] => Ok acc
  | em :: rest =>
      acc ← resolve_edge resourceID payload i em acc;
      resolve_edge_list resourceID payload (i + 1) rest acc
  end.

(** The parent edge of [visibility_ref] when no explicit parent edge exists. *)
Definition add_visibility_edge (out : Canonical) (acc : EdgeAcc) : EdgeAcc :=
  if is_empty (c_VisibilityRef out) then acc
  else if existsb (fun e => String.eqb (ce_Predicate e) EdgeParent
                            && String.eqb (ce_FromID e) (c_ResourceID out)) acc.1
  then acc
  else match edgeFromVisibilityRef (c_ResourceID out) (c_VisibilityRef out) with
       | Some pe => add_edge pe acc
       | None => acc
       end.

(** The edge of the [parent_resource_id] mapping. *)
Definition parent_convenience (resourceID parentID : string) : EdgeAcc :=
  if is_empty parentID then ([], [])
  else add_edge (mkCanonicalEdge resourceID parentID EdgeParent f_one true false
                   "container" "" "") ([], []).

Definition resolveEdges (spec : Spec) (payload : list (string * any)) (out : Canonical)
    : result GoError (list CanonicalEdge) :=
  parentID ← evalString (fm_ParentResourceID (sp_Mappings spec)) payload;
  acc ← resolve_edge_list (c_ResourceID out) payload 0 (sp_Edges spec)
          (parent_convenience (c_ResourceID out) parentID);
  Ok (add_visibility_edge out acc).1.
End Edges.

(** ** Constraints and ceilings *)
Definition enforceConstraints (c : Constraints) : result GoError unit :=
  if decide (c = zeroConstraints) then Ok tt
  else if negb (CannotMintOrganization c)
  then Err (ErrForbidden "mapping constraints.cannot_mint_organization must be true")
  else if negb (CannotBroadenACL c)
  then Err (ErrForbidden "mapping constraints.cannot_broaden_acl must be true")
  else if negb (AuthorityCeilingFromSource c)
  then Err (ErrForbidden "mapping constraints.authority_ceiling_from_source must be true")
  else if negb (ClientFieldsMayOnlyNarrow c)
  then Err (ErrForbidden "mapping constraints.client_fields_may_only_narrow must be true")
  else Ok tt.

(** [out > ceiling], where an unknown label on either side counts as above. *)
Definition above (rank : string -> Z) (out ceiling : string) : bool :=
  let outRank := rank out in
  let ceilRank := rank ceiling in
  (outRank <? 0) || (ceilRank <? 0) || (ceilRank <? outRank).

Definition enforceCeilings (out : Canonical) (ceilings : SourceCeilings) : result GoError unit :=
  _ ← fail_if (negb (is_empty (sc_TrustCeiling ceilings))
               && above RankTrust (c_Trust out) (sc_TrustCeiling ceilings))
        (ErrForbidden "mapping raises trust above source ceiling");
  _ ← fail_if (negb (is_empty (sc_AuthorityCeiling ceilings))
               && above RankAuthority (c_Authority out) (sc_AuthorityCeiling ceilings))
        (ErrForbidden "mapping raises authority above source ceiling");
  _ ← fail_if (negb (is_empty (sc_ClassificationCeiling ceilings))
               && above RankClassification (c_Classification out)
                    (sc_ClassificationCeiling ceilings))
        (ErrForbidden "mapping raises classification above source ceiling");
  fail_if (negb (is_empty (c_VisibilityRef out))
           && (0 <? zlen (sc_AllowedVisibilityRefs ceilings))
           && negb (contains (sc_AllowedVisibilityRefs ceilings) (c_VisibilityRef out)))
    (ErrForbidden "mapping broadens ACL via visibility_ref outside source policy").

Definition ref_object (ref : string) : string :=
  trim_space (match index_byte ref "#" with Some i => take_str i ref | None => ref end).

Definition parentAllowedForAuthzSync (parentID : string) (allowlist : list string) : bool :=
  if is_empty parentID || (zlen allowlist =? 0) then false
  else
    existsb (fun ref =>
      let ref := trim_space ref in
      if is_empty ref then false else
      let object := ref_object ref in
      existsb (fun c =>
        String.eqb ref c || String.eqb object c || String.eqb object parentID
        || String.eqb (trim_prefix object "resource:") parentID)
        [parentID; "resource:" +:+ parentID]) allowlist.

Definition enforceParentAuthzSync (edges : list CanonicalEdge) (ceilings : SourceCeilings)
    (c : Constraints) : result GoError unit :=
  let cannotBroaden := CannotBroadenACL c || bool_decide (c = zeroConstraints) in
  if negb cannotBroaden then Ok tt
  else
    fail_if (existsb (fun e =>
               ce_SyncAuthzParent e
               && negb (parentAllowedForAuthzSync (ce_ToID e) (sc_AllowedVisibilityRefs ceilings)))
             edges)
      (ErrForbidden "sync_authz_parent broadens ACL; parent must be listed in source allowed_visibility_refs").

(** ** [Apply] *)
Section Apply.
Context `{GoEnv, GoMapOrder}.

(** [for k, expr := range ControlledTaxonomy] *)
Fixpoint taxonomy (payload : list (string * any)) (l : list (string * option Expr))
    (acc : strmap * list string) : result GoError (strmap * list string) :=
  match l with
  | [] => Ok acc
  | (k, expr) :: rest =>
      v ← evalString expr payload;
      taxonomy payload rest
        (if is_empty v then acc else (<[k := v]> acc.1, acc.2 ++ [k +:+ ":" +:+ v]))
  end.

Definition put_if (k v : string) (m : strmap) : strmap :=
  if is_empty v then m else <[k := v]> m.

(** The first half of [Apply]: every expression is evaluated, in the order of
    the code, and the defaults of the three ranked labels are filled in. *)
Definition map_fields (now1 now2 : Time) (spec : Spec) (payload : list (string * any))
    (ceilings : SourceCeilings) (opts : Options) : result GoError Canonical :=
  let m := sp_Mappings spec in
  let ev x := evalString x payload in
  externalID ← ev (fm_SourceExternalID m);
  revision ← ev (fm_SourceRevision m);
  contextSpace ← ev (fm_ContextSpaceID m);
  resourceID ← ev (fm_ResourceID m);
  resourceType ← ev (fm_ResourceType m);
  brand ← ev (fm_BrandID m);
  locator ← ev (fm_ContentLocator m);
  title ← ev (fm_Title m);
  visibility ← ev (fm_VisibilityRef m);
  purposes ← ev (fm_PurposeAllowlist m);
  retention ← ev (fm_RetentionPolicyID m);
  classRaw ← ev (fm_Classification m);
  trustRaw ← ev (fm_Trust m);
  authRaw ← ev (fm_SourceAuthority m);
  mappedOrg ← ev (fm_OrganizationID m);
  _ ← fail_if (negb (is_empty mappedOrg)
               && negb (String.eqb mappedOrg (sc_OrganizationID ceilings)))
        (ErrForbidden "mapping cannot set organization_id different from source registration");
  occurred ← evalTime now1 (tm_OccurredAt (fm_Timestamps m)) payload;
  observed ← evalTime now2 (tm_ObservedAt (fm_Timestamps m)) payload;
  tagsRaw ← ev (fm_Tags m);
  let tags := if is_empty tagsRaw then [] else splitCSV tagsRaw in
  '(attrs, tags) ← taxonomy payload (go_range (fm_ControlledTaxonomy m)) (∅, tags);
  Ok {|
    c_OrganizationID := sc_OrganizationID ceilings; c_ResourceID := resourceID;
    c_ResourceType := resourceType; c_Title := title; c_ContextSpaceID := contextSpace;
    c_BrandID := brand; c_SourceExternalID := externalID; c_SourceRevision := revision;
    c_ContentLocator := locator;
    c_Classification :=
      firstNonEmpty [classRaw; sc_ClassificationCeiling ceilings; "internal"];
    c_Trust := firstNonEmpty [trustRaw; "untrusted_external"];
    c_Authority := firstNonEmpty [authRaw; "corroborating"];
    c_VisibilityRef := visibility; c_PurposeAllowlist := purposes;
    c_RetentionPolicyID := retention; c_Tags := tags; c_OccurredAt := occurred;
    c_ObservedAt := observed; c_Attributes := attrs; c_Edges := []; c_DryRun := DryRun opts
  |}.

(** The second half: defaults, derived attributes. *)
Definition fill_defaults (newID : string) (out : Canonical) : Canonical :=
  let out := if is_empty (c_ResourceID out) then out <| c_ResourceID := newID |> else out in
  if is_empty (c_ResourceType out) then out <| c_ResourceType := "event" |> else out.
Definition derived_attributes (out : Canonical) : strmap :=
  put_if "content_locator" (c_ContentLocator out)
    (put_if "context_space_id" (c_ContextSpaceID out)
      (put_if "purpose_allowlist" (c_PurposeAllowlist out)
        (put_if "visibility_ref" (c_VisibilityRef out)
          (<["source_authority" := c_Authority out]>
            (<["authority" := c_Authority out]>
              (<["trust" := c_Trust out]> (c_Attributes out))))))).

(** [now1], [now2] are the clock readings of the two timestamps and [newID] is
    the identifier [platform.NewResourceID] returns. *)
Definition Apply (now1 now2 : Time) (newID : string) (spec : Spec)
    (payload : list (string * any)) (ceilings : SourceCeilings) (opts : Options)
    : result GoError Canonical :=
  _ ← fail_if (is_empty (sc_OrganizationID ceilings))
        (ErrValidation "source organization_id required");
  _ ← fail_if (negb (is_empty (sp_OrganizationID spec))
               && negb (String.eqb (sp_OrganizationID spec) (sc_OrganizationID ceilings)))
        (ErrForbidden "mapping organization_id differs from source registration");
  out ← map_fields now1 now2 spec payload ceilings opts;
  _ ← enforceConstraints (sp_Constraints spec);
  _ ← enforceCeilings out ceilings;
  let out := fill_defaults newID out in
  _ ← fail_if ((0 <? zlen (sc_AllowedRecordTypes ceilings))
               && negb (contains (sc_AllowedRecordTypes ceilings) (c_ResourceType out)))
        (ErrForbidden "resource_type not allowed by source registration");
  let out := out <| c_Attributes := derived_attributes out |> in
  edges ← resolveEdges spec payload out;
  _ ← enforceParentAuthzSync edges ceilings (sp_Constraints spec);
  Ok (out <| c_Edges := edges |>).

(** [now] is the reading of [time.Now()]. *)
Definition ToRecord (now : Time) (c : Canonical) (orgID sourceSystem : string) : LedgerRecord := {|
  rec_ResourceID := c_ResourceID c; rec_OrgID := orgID; rec_Kind := c_ResourceType c;
  rec_Title := firstNonEmpty [c_Title c; c_SourceExternalID c];
  rec_Classification := c_Classification c; rec_Labels := c_Tags c;
  rec_SourceSystem := sourceSystem; rec_ExternalID := c_SourceExternalID c;
  rec_CurrentRevID := ""; rec_State := "ACCEPTED"; rec_Attributes := c_Attributes c;
  rec_CreatedAt := now; rec_UpdatedAt := now |}.
End Apply.

(** [SpecFromPorts]: a minimal specification from a rules map *)
Definition SpecFromPorts (m : PortMappingSpec) : Spec :=
  let mk key :=
    match pms_Rules m !! key with
    | Some v => if is_empty v then None else Some (mkExpr v ANil "")
    | None => None
    end in
  {| sp_APIVersion := ""; sp_ID := pms_ID m; sp_Revision := pms_Version m;
     sp_OrganizationID := pms_OrgID m; sp_SourceID := pms_SourceID m; sp_Status := "active";
     sp_Description := "";
     sp_Mappings := {|
       fm_SourceExternalID := mk "source_external_id"; fm_SourceRevision := mk "source_revision";
       fm_ContextSpaceID := mk "context_space_id"; fm_ResourceID := mk "resource_id";
       fm_ResourceType := mk "resource_type"; fm_BrandID := None;
       fm_Timestamps := mkTimestamps (mk "occurred_at") (mk "observed_at");
       fm_ContentLocator := mk "content_locator"; fm_ControlledTaxonomy := ∅;
       fm_VisibilityRef := mk "visibility_ref"; fm_Classification := mk "classification";
       fm_PurposeAllowlist := None; fm_Trust := mk "trust";
       fm_SourceAuthority := mk "source_authority"; fm_RetentionPolicyID := None;
       fm_Tags := None; fm_OrganizationID := mk "organization_id"; fm_Title := mk "title";
       fm_ParentResourceID := mk "parent_resource_id" |};
     sp_Edges := []; sp_Constraints := zeroConstraints |}.

(** ** Lemmas *)

(** The scans of [to_lower] and [fold_case] on a byte that starts no special rune. *)
Lemma to_lower_plain a s :
  (code a =? 196)%nat = false -> (code a =? 226)%nat = false ->
  to_lower (String a s) = String (lower_byte a) (to_lower s).
Proof. intros E1 E2. destruct s as [|b [|c s]]; simpl; rewrite ?E1, ?E2; done. Qed.

Definition plain_byte (c : ascii) : Prop :=
  c <> "s"%char /\ c <> "k"%char /\ (code c < 128)%nat.

Lemma lower_byte_high a : (code (lower_byte a) < 128)%nat -> (code a < 128)%nat.
Proof.
  unfold lower_byte. destruct ((65 <=? code a)%nat && (code a <=? 90)%nat) eqn:E; [|done].
  apply andb_prop in E as [_ E%Nat.leb_le]. lia.
Qed.

(** A folded string without the letters [s] and [k] is the lower-cased string. *)
Lemma fold_case_lower s :
  Forall plain_byte (bytes_of (fold_case s)) -> to_lower s = fold_case s.
Proof.
  induction s as [|a s1 IH]; [done|]. intros Hf.
  assert (Hs : fold_case (String a s1) = String (lower_byte a) (fold_case s1)).
  { destruct s1 as [|b [|c s3]]; [done| |]; simpl in Hf |- *.
    - destruct (_ && _); [|done]. by apply Forall_cons in Hf as [[? _] _].
    - destruct (_ && _); [by apply Forall_cons in Hf as [[? _] _]|].
      destruct (_ && _); [|done]. by apply Forall_cons in Hf as [(_ & ? & _) _]. }
  rewrite Hs in Hf |- *. apply Forall_cons in Hf as [(_ & _ & Hlt%lower_byte_high) Hf].
  rewrite to_lower_plain by (apply Nat.eqb_neq; lia). by rewrite IH.
Qed.

(** The two tests of a parent predicate agree. *)
Lemma equal_fold_parent pred : equal_fold pred EdgeParent = true -> to_lower pred = EdgeParent.
Proof.
  unfold equal_fold. intros H%String.eqb_eq. change (fold_case EdgeParent) with "parent" in H.
  rewrite fold_case_lower; rewrite H; [done|]. unfold plain_byte. cbn. repeat constructor; try done; cbn; lia.
Qed.

(** Expressions never fail: [resolve] has no error. *)
Lemma resolve_total expr payload : exists v, resolve expr payload = Ok v.
Proof. unfold resolve. repeat case_goal; eauto. Qed.

Section Lemmas.
Context `{GoEnv}.

Lemma evalString_total expr payload : exists s, evalString expr payload = Ok s.
Proof.
  unfold evalString. destruct expr as [x|]; [|eauto].
  destruct (resolve_total (x_Expr x) payload) as [v ->]. simpl.
  repeat case_goal; eauto.
Qed.

(** *** The edge accumulator *)
Definition triple (e : CanonicalEdge) : string * string * string :=
  (ce_FromID e, ce_Predicate e, ce_ToID e).

Definition edge_ok (e : CanonicalEdge) : Prop :=
  ce_FromID e <> "" /\ ce_ToID e <> "" /\ ce_FromID e <> ce_ToID e /\
  allowedPredicate (ce_Predicate e) = true /\
  f_le (ce_Confidence e) f_zero = false /\ f_lt f_one (ce_Confidence e) = false /\
  (ce_SyncAuthzParent e = true -> ce_Predicate e = EdgeParent).

Definition acc_ok (acc : EdgeAcc) : Prop :=
  Forall edge_ok acc.1 /\ NoDup (triple <$> acc.1) /\
  (forall e, e ∈ acc.1 -> triple_key e ∈ acc.2).

(** What the callers of [add] have checked. *)
Definition edge_candidate (e : CanonicalEdge) : Prop :=
  allowedPredicate (ce_Predicate e) = true /\ f_lt f_one (ce_Confidence e) = false /\
  (ce_SyncAuthzParent e = true -> ce_Predicate e = EdgeParent).

Lemma same_triple_spec a b : same_triple a b = true <-> triple a = triple b.
Proof.
  unfold same_triple, triple. rewrite !andb_true_iff, !String.eqb_eq.
  split; [intros [[-> ->] ->]; done | intros; by simplify_eq].
Qed.

Lemma merge_flags_triple e x : triple (merge_flags e x) = triple x.
Proof. unfold merge_flags. by destruct (ce_SyncAuthzParent e), (ce_EnsureEndpoints e). Qed.

Lemma merge_flags_ok e x :
  edge_candidate e -> triple x = triple e -> edge_ok x -> edge_ok (merge_flags e x).
Proof.
  intros (_ & _ & Hsync) Ht Hok. unfold triple in Ht. simplify_eq.
  destruct Hok as (? & ? & ? & ? & ? & ? & ?).
  unfold merge_flags, edge_ok.
  destruct (ce_SyncAuthzParent e) eqn:Es, (ce_EnsureEndpoints e); cbn;
    repeat split; try done; intros _; rewrite <- Hsync by done; congruence.
Qed.

Lemma merge_edge_triples e edges : triple <$> merge_edge e edges = triple <$> edges.
Proof.
  induction edges as [|x l IH]; [done|]. simpl. destruct (same_triple x e).
  - csimpl. by rewrite merge_flags_triple.
  - csimpl. by rewrite IH.
Qed.

Lemma merge_edge_ok e edges :
  edge_candidate e -> Forall edge_ok edges -> Forall edge_ok (merge_edge e edges).
Proof.
  intros Hc. induction 1 as [|x l Hx Hl IH]; [constructor|]. simpl.
  destruct (same_triple x e) eqn:Et; constructor; auto.
  apply merge_flags_ok; auto. by apply same_triple_spec.
Qed.

Lemma triple_key_of_triple a b : triple a = triple b -> triple_key a = triple_key b.
Proof. unfold triple, triple_key. intros [= -> -> ->]. done. Qed.

Lemma elem_of_same_triples e (l l' : list CanonicalEdge) :
  triple <$> l = triple <$> l' -> e ∈ l -> exists e', e' ∈ l' /\ triple e = triple e'.
Proof.
  intros Heq He. assert (triple e ∈ triple <$> l') as (e' & ? & ?)%list_elem_of_fmap.
  { rewrite <- Heq. apply list_elem_of_fmap. eauto. }
  eauto.
Qed.

Lemma add_edge_ok e acc : edge_candidate e -> acc_ok acc -> acc_ok (add_edge e acc).
Proof.
  intros Hc (Hok & Hnd & Hseen). destruct acc as [edges seen]. unfold add_edge. cbn [fst snd] in *.
  destruct (_ || _) eqn:Hguard; [done|].
  destruct (mem_str _ _) eqn:Hmem.
  - unfold acc_ok; cbn [fst snd]. split; [by apply merge_edge_ok|]. split; [by rewrite merge_edge_triples|].
    intros x Hx. destruct (elem_of_same_triples _ _ _ (merge_edge_triples e edges) Hx)
      as (x' & Hx' & Heq). rewrite (triple_key_of_triple _ _ Heq). by apply Hseen.
  - apply mem_str_not_In in Hmem. unfold is_empty in Hguard. bools.
    set (e' := if f_le (ce_Confidence e) f_zero then _ else e).
    assert (Ht : triple e' = triple e) by (unfold e'; by destruct (f_le _ _)).
    assert (Hk : triple_key e' = triple_key e) by (by apply triple_key_of_triple).
    destruct Hc as (Hp & Hconf & Hsync).
    assert (He' : edge_ok e').
    { unfold e', edge_ok. destruct (f_le (ce_Confidence e) f_zero) eqn:Hle; cbn; auto 10. }
    unfold acc_ok; cbn [fst snd]. split; [apply Forall_app; by rewrite Forall_singleton|]. split.
    + rewrite fmap_app. apply NoDup_app. split; [done|]. split; [|apply NoDup_singleton].
      intros t Ht1 Ht2. apply list_elem_of_singleton in Ht2 as ->.
      apply list_elem_of_fmap in Ht1 as (x & Hx & Hin). apply Hmem.
      rewrite <- Hk. rewrite (triple_key_of_triple e' x) by done. auto.
    + intros x [Hx | ->%list_elem_of_singleton]%elem_of_app; [right; auto|].
      rewrite Hk. left.
Qed.

Lemma edge_error_Ok {A} i f (r : result GoError A) x :
  edge_error i f r = Ok x <-> r = Ok x.
Proof. destruct r; simpl; split; congruence. Qed.

Lemma resolve_edge_ok rid payload i em acc acc' :
  resolve_edge rid payload i em acc = Ok acc' -> acc_ok acc -> acc_ok acc'.
Proof.
  unfold resolve_edge. intros Hr Hacc.
  ok_step Hr. ok_step Hr. ok_step Hr.
  destruct (is_empty _); [by simplify_eq/=|].
  ok_step Hr. ok_step Hr. ok_step Hr. ok_step Hr. simplify_eq/=.
  repeat match goal with H : fail_if _ _ = Ok _ |- _ => apply fail_if_Ok in H end. bools.
  apply add_edge_ok; [|done]. split_and!; [done..|]. cbn. intros Hs.
  apply equal_fold_parent. destruct (equal_fold _ _); [done|].
  rewrite Hs in *. done.
Qed.

Lemma resolve_edge_list_ok rid payload ems i acc acc' :
  resolve_edge_list rid payload i ems acc = Ok acc' -> acc_ok acc -> acc_ok acc'.
Proof.
  revert i acc. induction ems as [|em ems IH]; intros i acc Hr Hacc; simpl in Hr.
  - by simplify_eq.
  - ok_step Hr. eapply IH; [exact Hr|]. by eapply resolve_edge_ok.
Qed.

Lemma visibility_edge_candidate rid ref e :
  edgeFromVisibilityRef rid ref = Some e -> edge_candidate e.
Proof.
  unfold edgeFromVisibilityRef, edge_candidate. intros He.
  repeat case_in He; simplify_eq/=; done.
Qed.

Lemma acc_ok_nil : acc_ok ([], []).
Proof. split_and!; [constructor | constructor | by intros ? ?%elem_of_nil]. Qed.

Lemma parent_convenience_ok rid parentID : acc_ok (parent_convenience rid parentID).
Proof.
  unfold parent_convenience. destruct (is_empty _); [apply acc_ok_nil|].
  apply add_edge_ok; [done | apply acc_ok_nil].
Qed.

Lemma add_visibility_edge_ok out acc : acc_ok acc -> acc_ok (add_visibility_edge out acc).
Proof.
  intros Ha. unfold add_visibility_edge.
  destruct (is_empty _); [done|]. destruct (existsb _ _); [done|].
  destruct (edgeFromVisibilityRef _ _) eqn:He; [|done].
  apply add_edge_ok; [by eapply visibility_edge_candidate | done].
Qed.

Lemma resolveEdges_ok spec payload out edges :
  resolveEdges spec payload out = Ok edges ->
  Forall edge_ok edges /\ NoDup (triple <$> edges).
Proof.
  unfold resolveEdges. intros Hr. ok_step Hr. ok_step Hr. simplify_eq.
  match goal with H : resolve_edge_list _ _ _ _ _ = Ok ?a |- _ =>
    destruct (add_visibility_edge_ok out a) as (? & ? & _); [|done];
    eapply resolve_edge_list_ok; [exact H | apply parent_convenience_ok] end.
Qed.
End Lemmas.

(** *** Ceilings *)
Definition within (rank : string -> Z) (out ceiling : string) : Prop :=
  0 <= rank out <= rank ceiling.

Lemma above_false rank out ceiling : above rank out ceiling = false <-> within rank out ceiling.
Proof. unfold above, within. rewrite !orb_false_iff, !Z.ltb_ge. lia. Qed.

Lemma above_of_nonempty rank out ceiling :
  negb (is_empty ceiling) && above rank out ceiling = false ->
  ceiling <> "" -> within rank out ceiling.
Proof.
  unfold is_empty. intros H%andb_false_iff Hne. destruct H as [H|H].
  - apply negb_false_iff, String.eqb_eq in H. done.
  - by apply above_false.
Qed.

Lemma zlen_pos {A} (l : list A) : l <> [] -> (0 <? zlen l) = true.
Proof. destruct l; [done|]. intros _. apply Z.ltb_lt. unfold zlen. simpl. lia. Qed.

(** What [enforceCeilings] has checked. *)
Record ceilings_respected (out : Canonical) (sc : SourceCeilings) : Prop := {
  cr_trust : sc_TrustCeiling sc <> "" -> within RankTrust (c_Trust out) (sc_TrustCeiling sc);
  cr_authority : sc_AuthorityCeiling sc <> "" ->
    within RankAuthority (c_Authority out) (sc_AuthorityCeiling sc);
  cr_classification : sc_ClassificationCeiling sc <> "" ->
    within RankClassification (c_Classification out) (sc_ClassificationCeiling sc);
  cr_visibility : c_VisibilityRef out <> "" -> sc_AllowedVisibilityRefs sc <> [] ->
    c_VisibilityRef out ∈ sc_AllowedVisibilityRefs sc;
}.

Lemma enforceCeilings_Ok out sc u : enforceCeilings out sc = Ok u -> ceilings_respected out sc.
Proof.
  unfold enforceCeilings. intros Hr. do 3 ok_step Hr.
  repeat match goal with H : fail_if _ _ = Ok _ |- _ => apply fail_if_Ok in H end.
  split.
  1-3: by apply above_of_nonempty.
  intros Hv Hne. rewrite (zlen_pos _ Hne) in *. unfold is_empty in *.
  apply String.eqb_neq in Hv. rewrite Hv in *. simpl in *. bools. by apply mem_str_In.
Qed.

Lemma enforceConstraints_Ok c u : enforceConstraints c = Ok u -> c = zeroConstraints \/ CannotBroadenACL c = true.
Proof.
  unfold enforceConstraints. case_decide; [by left|]. intros Hr.
  repeat case_in Hr; simplify_eq/=; bools; auto.
Qed.

Section ApplyLemmas.
Context `{GoEnv, GoMapOrder}.

Lemma map_fields_org now1 now2 spec payload sc opts out :
  map_fields now1 now2 spec payload sc opts = Ok out ->
  c_OrganizationID out = sc_OrganizationID sc.
Proof.
  unfold map_fields. intros Hr. do 19 ok_step Hr. ok_step Hr. ok_step Hr.
  match type of Hr with (let '(_, _) := ?p in _) = _ => destruct p end. by simplify_eq/=.
Qed.

(** [Apply] taken apart. *)
Lemma Apply_Ok now1 now2 newID spec payload sc opts c :
  Apply now1 now2 newID spec payload sc opts = Ok c ->
  exists out0 out edges,
    map_fields now1 now2 spec payload sc opts = Ok out0 /\
    out = (fill_defaults newID out0) <| c_Attributes := derived_attributes (fill_defaults newID out0) |> /\
    resolveEdges spec payload out = Ok edges /\
    c = out <| c_Edges := edges |> /\
    ceilings_respected out0 sc /\
    enforceParentAuthzSync edges sc (sp_Constraints spec) = Ok tt /\
    (sp_Constraints spec = zeroConstraints \/ CannotBroadenACL (sp_Constraints spec) = true) /\
    (sc_AllowedRecordTypes sc <> [] -> c_ResourceType c ∈ sc_AllowedRecordTypes sc) /\
    sc_OrganizationID sc <> "".
Proof.
  unfold Apply. intros Hr. ok_step Hr. ok_step Hr. ok_step Hr. ok_step Hr. ok_step Hr.
  ok_step Hr. ok_step Hr. ok_step Hr. simplify_eq/=.
  repeat match goal with H : fail_if _ _ = Ok _ |- _ => apply fail_if_Ok in H end.
  repeat match goal with u : () |- _ => destruct u end.
  do 3 eexists. split_and!; try done.
  - by eapply enforceCeilings_Ok.
  - by eapply enforceConstraints_Ok.
  - intros Hne. rewrite (zlen_pos _ Hne) in *. simpl in *. bools. by apply mem_str_In.
  - unfold is_empty in *. bools. done.
Qed.
End ApplyLemmas.

(** *** Map order *)
Definition same_but_tags (a b : Canonical) : Prop :=
  a <| c_Tags := [] |> = b <| c_Tags := [] |> /\ c_Tags a ≡ₚ c_Tags b.

Definition same_outcome (r1 r2 : result GoError Canonical) : Prop :=
  match r1, r2 with
  | Ok a, Ok b => same_but_tags a b
  | Err e1, Err e2 => e1 = e2
  | _, _ => False
  end.

Lemma same_but_tags_inv a b :
  same_but_tags a b -> exists t, b = a <| c_Tags := t |> /\ c_Tags a ≡ₚ t.
Proof. destruct a, b. intros [Heq Hp]. cbn in *. injection Heq; intros; subst. eexists. split; [reflexivity | exact Hp]. Qed.

Lemma same_outcome_bind r1 r2 f :
  same_outcome r1 r2 ->
  (forall a t, c_Tags a ≡ₚ t -> same_outcome (f a) (f (a <| c_Tags := t |>))) ->
  same_outcome (r1 ≫= f) (r2 ≫= f).
Proof.
  intros H Hf. destruct r1, r2; try done.
  destruct (same_but_tags_inv _ _ H) as (t & -> & Hp). by apply Hf.
Qed.

Lemma same_outcome_check {A} (r : result GoError A) f g :
  (forall x, same_outcome (f x) (g x)) -> same_outcome (r ≫= f) (r ≫= g).
Proof. intros H. destruct r; [apply H | done]. Qed.

Section Order.
Context `{GoEnv}.

Lemma taxonomy_perm payload l1 l2 :
  l1 ≡ₚ l2 -> NoDup l1.*1 ->
  forall m t1 t2, t1 ≡ₚ t2 ->
  exists m' t1' t2', taxonomy payload l1 (m, t1) = Ok (m', t1') /\
                     taxonomy payload l2 (m, t2) = Ok (m', t2') /\ t1' ≡ₚ t2'.
Proof.
  induction 1 as [|[k e] l1 l2 Hp IH|[k1 e1] [k2 e2] l|l1 l2 l3 Hp1 IH1 Hp2 IH2];
    intros Hnd m t1 t2 Ht.
  - by exists m, t1, t2.
  - destruct (evalString_total e payload) as [v Hv]. apply NoDup_cons in Hnd as [_ Hnd].
    cbn [taxonomy]. rewrite Hv. cbn. destruct (is_empty v); apply IH; try done.
    by rewrite Ht.
  - destruct (evalString_total e1 payload) as [v1 Hv1].
    destruct (evalString_total e2 payload) as [v2 Hv2].
    assert (Hne : k1 <> k2) by (intros ->; cbn in Hnd; apply NoDup_cons in Hnd; set_solver).
    cbn [taxonomy]. rewrite ?Hv1, ?Hv2. cbn. rewrite ?Hv1, ?Hv2. cbn.
    assert (Hgen : forall l m t1 t2, t1 ≡ₚ t2 ->
      exists m' t1' t2', taxonomy payload l (m, t1) = Ok (m', t1') /\
                         taxonomy payload l (m, t2) = Ok (m', t2') /\ t1' ≡ₚ t2').
    { clear -H. induction l as [|[k e] l IH]; intros m t1 t2 Ht; [by exists m, t1, t2|].
      destruct (evalString_total e payload) as [v Hv]. cbn [taxonomy]. rewrite Hv. cbn.
      destruct (is_empty v); apply IH; [done|]. cbn. by rewrite Ht. }
    destruct (is_empty v1), (is_empty v2); cbn; try (apply Hgen; cbn; by rewrite Ht).
    rewrite (insert_insert_ne m k1 k2) by done. apply Hgen.
    rewrite Ht, <- !(assoc_L (++)). apply Permutation_app_head.
    apply Permutation_app_comm.
  - destruct (IH1 Hnd m t1 t1 ltac:(done)) as (m' & a & b & Ha & Hb & Hab).
    assert (Hnd2 : NoDup l2.*1) by (by rewrite <- Hp1).
    destruct (IH2 Hnd2 m t1 t2 Ht) as (m2 & b' & c & Hb' & Hc & Hbc).
    rewrite Hb in Hb'. simplify_eq. exists m2, a, c. split_and!; [done..|]. by etrans.
Qed.

Lemma map_fields_order (o1 o2 : GoMapOrder) now1 now2 spec payload sc opts :
  same_outcome (@map_fields _ o1 now1 now2 spec payload sc opts)
               (@map_fields _ o2 now1 now2 spec payload sc opts).
Proof.
  unfold map_fields. do 19 (apply same_outcome_check; intros ?).
  set (m := fm_ControlledTaxonomy _). set (t := if is_empty _ then _ else _).
  assert (Hp : @go_range o1 _ m ≡ₚ @go_range o2 _ m) by (by rewrite !go_range_perm).
  destruct (taxonomy_perm payload _ _ Hp (@NoDup_go_keys o1 _ m) ∅ t t ltac:(done))
    as (m' & t1 & t2 & H1 & H2 & Ht).
  rewrite H1, H2. done.
Qed.
End Order.

(** *** The allow-list of parents *)

(** [ref] names the parent: bare, as an object, or as a userset of it. *)
Definition names_parent (ref parentID : string) : Prop :=
  trim_space ref <> "" /\
  (trim_space ref = parentID \/ trim_space ref = "resource:" +:+ parentID \/
   ref_object (trim_space ref) = parentID \/
   ref_object (trim_space ref) = "resource:" +:+ parentID \/
   trim_prefix (ref_object (trim_space ref)) "resource:" = parentID).

Lemma parentAllowed_spec parentID allow :
  parentAllowedForAuthzSync parentID allow = true <->
  parentID <> "" /\ exists ref, ref ∈ allow /\ names_parent ref parentID.
Proof.
  unfold parentAllowedForAuthzSync, names_parent, is_empty.
  destruct (String.eqb_spec parentID "") as [->|Hne]; [split; [done | by intros [? _]]|].
  cbn [orb]. destruct (zlen allow =? 0) eqn:Hz.
  - split; [done|]. intros (_ & ref & Hin & _). destruct allow; [set_solver | done].
  - rewrite existsb_exists. setoid_rewrite <- list_elem_of_In. split.
    + intros (ref & Hin & Hb). split; [done|]. exists ref. split; [done|].
      destruct (String.eqb_spec (trim_space ref) ""); [done|]. split; [done|].
      apply existsb_exists in Hb as (c & Hc & Hb). rewrite !orb_true_iff, !String.eqb_eq in Hb.
      destruct Hc as [<-|[<-|[]]]; tauto.
    + intros (_ & ref & Hin & Hs & Hd). exists ref. split; [done|].
      apply String.eqb_neq in Hs as ->. cbn [existsb].
      rewrite !orb_true_iff, !String.eqb_eq. tauto.
Qed.

Lemma enforceParentAuthzSync_Ok edges sc c u :
  enforceParentAuthzSync edges sc c = Ok u -> c = zeroConstraints \/ CannotBroadenACL c = true ->
  forall e, e ∈ edges -> ce_SyncAuthzParent e = true ->
  parentAllowedForAuthzSync (ce_ToID e) (sc_AllowedVisibilityRefs sc) = true.
Proof.
  unfold enforceParentAuthzSync. intros Hr Hc e He Hs.
  assert (Hb : CannotBroadenACL c || bool_decide (c = zeroConstraints) = true).
  { apply orb_true_iff. destruct Hc as [->|Hc]; [right; by apply bool_decide_eq_true | by left]. }
  rewrite Hb in Hr. apply fail_if_Ok in Hr. apply not_false_iff_true. intros Hf.
  enough (existsb (fun e => ce_SyncAuthzParent e &&
            negb (parentAllowedForAuthzSync (ce_ToID e) (sc_AllowedVisibilityRefs sc))) edges
          = true) by congruence.
  apply existsb_exists. exists e. rewrite <- list_elem_of_In, Hs, Hf. done.
Qed.

(** ** Sample specification, for the evaluations below *)
Definition sample_env : GoEnv :=
  {| clock := fun n => 1700000000 * second + Z.of_nat n;
     fresh_id := fun n => "id-" +:+ itoa (Z.of_nat n);
     uuid_sha1_oid := fun s => "v5-" +:+ s |}.
Definition konst (s : string) : option Expr := Some (mkExpr (dquote +:+ s +:+ dquote) ANil "").
Definition path (s : string) : option Expr := Some (mkExpr s ANil "").
Definition sample_ceilings : SourceCeilings :=
  mkCeilings "org1" "trusted_internal" "source_of_truth" "confidential"
    ["resource:proj#viewer"] ["ticket"].
Definition sample_spec : Spec :=
  {| sp_APIVersion := "v1"; sp_ID := "spec1"; sp_Revision := "1"; sp_OrganizationID := "org1";
     sp_SourceID := "src1"; sp_Status := "active"; sp_Description := "";
     sp_Mappings := {|
       fm_SourceExternalID := path "$.id"; fm_SourceRevision := path "$.id";
       fm_ContextSpaceID := konst "default"; fm_ResourceID := path "$.id";
       fm_ResourceType := konst "ticket"; fm_BrandID := None;
       fm_Timestamps := mkTimestamps None (path "$.at"); fm_ContentLocator := None;
       fm_ControlledTaxonomy := {[ "area" := path "$.area"; "team" := konst "t1" ]};
       fm_VisibilityRef := None; fm_Classification := konst "internal";
       fm_PurposeAllowlist := konst "support"; fm_Trust := konst "untrusted_external";
       fm_SourceAuthority := None; fm_RetentionPolicyID := None; fm_Tags := konst "a, b";
       fm_OrganizationID := None; fm_Title := path "$.title"; fm_ParentResourceID := None |};
     sp_Edges := [mkEdgeMapping (konst "parent") None (path "$.project.id") None None (Some true)];
     sp_Constraints := zeroConstraints |}.
Definition sample_payload : list (string * any) :=
  [("id", AStr "T1"); ("title", AStr "Broken"); ("area", AStr "billing");
   ("at", AStr "2024-01-02T03:04:05Z");
   ("project", AObj [("id", AStr "proj")])].
Definition sample_apply : result GoError Canonical :=
  @Apply sample_env order_forward 5 6 "new" sample_spec sample_payload sample_ceilings
    (mkOptions false).
Definition sample_canonical : Canonical :=
  match sample_apply with
  | Ok c => c
  | Err _ => mkCanonical "" "" "" "" "" "" "" "" "" "" "" "" "" "" "" [] 0 0 ∅ [] false
  end.
Lemma sample_apply_Ok : sample_apply = Ok sample_canonical.
Proof. vm_compute. reflexivity. Qed.

(** ** Theorems *)
Section Theorems.
Context `{GoEnv, GoMapOrder}.

(** C16 Whatever the payload and the specification, an accepted mapping stays
    under the ceilings of the source registration: its organization, its
    trust, authority and classification ranks, its visibility reference and
    its record type. *)
Theorem apply_respects_ceilings now1 now2 newID spec payload sc opts c :
  Apply now1 now2 newID spec payload sc opts = Ok c ->
  c_OrganizationID c = sc_OrganizationID sc /\ ceilings_respected c sc /\
  (sc_AllowedRecordTypes sc <> [] -> c_ResourceType c ∈ sc_AllowedRecordTypes sc).
Proof.
  intros (out0 & out & edges & Hm & -> & _ & -> & [] & _ & _ & Ht & _)%Apply_Ok.
  apply map_fields_org in Hm. unfold fill_defaults in *.
  split; [|split; [split|done]]; destruct (is_empty (c_ResourceID out0)); cbn;
    destruct (is_empty (c_ResourceType out0)); cbn; assumption.
Qed.

(** The edges of an accepted mapping are well formed: both endpoints are
    named and differ, the predicate is one of the five of the ledger, the
    confidence is neither at most 0 nor above 1, and no triple (from,
    predicate, to) occurs twice. *)
Theorem apply_edges_wellformed now1 now2 newID spec payload sc opts c :
  Apply now1 now2 newID spec payload sc opts = Ok c ->
  Forall edge_ok (c_Edges c) /\ NoDup (triple <$> c_Edges c).
Proof.
  intros (out0 & out & edges & _ & _ & He & -> & _)%Apply_Ok.
  by eapply resolveEdges_ok.
Qed.

(** C17 No mapping can widen access by itself: an accepted edge that asks for
    authorization inheritance is a parent edge whose target the source
    registration lists among its allowed visibility references. Omitting the
    constraints, or setting only some of them, does not change this. *)
Theorem apply_no_acl_broadening now1 now2 newID spec payload sc opts c e :
  Apply now1 now2 newID spec payload sc opts = Ok c ->
  e ∈ c_Edges c -> ce_SyncAuthzParent e = true ->
  ce_Predicate e = EdgeParent /\
  exists ref, ref ∈ sc_AllowedVisibilityRefs sc /\ names_parent ref (ce_ToID e).
Proof.
  intros (out0 & out & edges & _ & _ & He & -> & _ & Hs & Hc & _)%Apply_Ok Hin Hsync.
  cbn in Hin. destruct (resolveEdges_ok _ _ _ _ He) as [Hok _].
  rewrite Forall_forall in Hok. destruct (Hok _ Hin) as (_ & _ & _ & _ & _ & _ & Hp).
  split; [auto|].
  eapply parentAllowed_spec, enforceParentAuthzSync_Ok; eauto.
Qed.
End Theorems.

(** The outcome of a mapping depends on the iteration order of Go maps only
    in the order of the tags: for any two orders, either both runs fail with the
    same error, or both succeed with results that differ at most in the order
    of [Tags]. *)
Theorem apply_order_independent `{GoEnv} (o1 o2 : GoMapOrder) now1 now2 newID spec payload sc opts :
  same_outcome (@Apply _ o1 now1 now2 newID spec payload sc opts)
               (@Apply _ o2 now1 now2 newID spec payload sc opts).
Proof.
  unfold Apply. do 2 (apply same_outcome_check; intros ?).
  apply same_outcome_bind; [apply map_fields_order|]. intros a t Ht.
  destruct a. unfold fill_defaults. cbn in *.
  destruct (is_empty c_ResourceID0); cbn; destruct (is_empty c_ResourceType0); cbn;
    do 5 (apply same_outcome_check; intros ?); done.
Qed.

Lemma apply_respects_ceilings_witness :
  sample_apply = Ok sample_canonical /\ ceilings_respected sample_canonical sample_ceilings.
Proof.
  split; [exact sample_apply_Ok|].
  exact (proj1 (proj2 (@apply_respects_ceilings sample_env order_forward _ _ _ _ _ _ _ _
                         sample_apply_Ok))).
Defined.

Lemma apply_edges_wellformed_witness :
  length (c_Edges sample_canonical) = 1%nat /\ Forall edge_ok (c_Edges sample_canonical).
Proof.
  split; [vm_compute; reflexivity|].
  exact (proj1 (@apply_edges_wellformed sample_env order_forward _ _ _ _ _ _ _ _
                  sample_apply_Ok)).
Defined.

Definition sample_edge : CanonicalEdge :=
  mkCanonicalEdge "T1" "proj" "parent" f_one true true "" "" "".
Lemma apply_no_acl_broadening_witness :
  ce_Predicate sample_edge = EdgeParent /\
  exists ref, ref ∈ sc_AllowedVisibilityRefs sample_ceilings /\ names_parent ref "proj".
Proof.
  apply (@apply_no_acl_broadening sample_env order_forward 5 6 "new" sample_spec sample_payload
           sample_ceilings (mkOptions false) sample_canonical sample_edge).
  - exact sample_apply_Ok.
  - replace (c_Edges sample_canonical) with [sample_edge] by (vm_compute; reflexivity). left.
  - reflexivity.
Defined.
