(* ===== verification/MappingSpec.v ===== *)
(** * [ParseSpec] of [internal/mapping]: a specification from its JSON document *)
From S2P Require Import Prelude GoStd Ports Platform Json Decode Mapping.

(** ** The structs of the package *)
#[export] Instance Expr_eta : Settable Expr := fun r => mkExpr (x_Expr r) (x_Default r) (x_Transform r).
#[export] Instance TimestampMappings_eta : Settable TimestampMappings := fun r =>
  mkTimestamps (tm_OccurredAt r) (tm_ObservedAt r).
#[export] Instance EdgeMapping_eta : Settable EdgeMapping := fun r =>
  mkEdgeMapping (em_Predicate r) (em_From r) (em_To r) (em_Confidence r) (em_EnsureEndpoints r)
    (em_SyncAuthzParent r).
#[export] Instance Constraints_eta : Settable Constraints := fun r =>
  mkConstraints (CannotMintOrganization r) (CannotBroadenACL r) (AuthorityCeilingFromSource r)
    (ClientFieldsMayOnlyNarrow r).

Definition dec_Expr : decoder Expr :=
  dec_struct [field "expr" x_Expr dec_string; field "default" x_Default dec_any;
              field "transform" x_Transform dec_string].
Definition dec_expr : decoder (option Expr) := dec_pointer (mkExpr "" ANil "") dec_Expr.

Definition dec_TimestampMappings : decoder TimestampMappings :=
  dec_struct [field "occurred_at" tm_OccurredAt dec_expr; field "observed_at" tm_ObservedAt dec_expr].

Definition dec_FieldMappings : decoder FieldMappings :=
  dec_struct
    [field "source_external_id" fm_SourceExternalID dec_expr;
     field "source_revision" fm_SourceRevision dec_expr;
     field "context_space_id" fm_ContextSpaceID dec_expr;
     field "resource_id" fm_ResourceID dec_expr;
     field "resource_type" fm_ResourceType dec_expr;
     field "brand_id" fm_BrandID dec_expr;
     field "timestamps" fm_Timestamps dec_TimestampMappings;
     field "content_locator" fm_ContentLocator dec_expr;
     field "controlled_taxonomy" fm_ControlledTaxonomy (dec_map None dec_expr);
     field "visibility_ref" fm_VisibilityRef dec_expr;
     field "classification" fm_Classification dec_expr;
     field "purpose_allowlist" fm_PurposeAllowlist dec_expr;
     field "trust" fm_Trust dec_expr;
     field "source_authority" fm_SourceAuthority dec_expr;
     field "retention_policy_id" fm_RetentionPolicyID dec_expr;
     field "tags" fm_Tags dec_expr;
     field "organization_id" fm_OrganizationID dec_expr;
     field "title" fm_Title dec_expr;
     field "parent_resource_id" fm_ParentResourceID dec_expr].

Definition dec_EdgeMapping : decoder EdgeMapping :=
  dec_struct
    [field "predicate" em_Predicate dec_expr; field "from" em_From dec_expr;
     field "to" em_To dec_expr; field "confidence" em_Confidence dec_expr;
     field "ensure_endpoints" em_EnsureEndpoints (dec_pointer false dec_bool);
     field "sync_authz_parent" em_SyncAuthzParent (dec_pointer false dec_bool)].
Definition zeroEdgeMapping : EdgeMapping := mkEdgeMapping None None None None None None.

Definition dec_Constraints : decoder Constraints :=
  dec_struct
    [field "cannot_mint_organization" CannotMintOrganization dec_bool;
     field "cannot_broaden_acl" CannotBroadenACL dec_bool;
     field "authority_ceiling_from_source" AuthorityCeilingFromSource dec_bool;
     field "client_fields_may_only_narrow" ClientFieldsMayOnlyNarrow dec_bool].

(** A specification with the backing array of its edges *)
Record Draft := mkDraft { dft_Spec : Spec; dft_Edges : Slice EdgeMapping }.
#[export] Instance Draft_eta : Settable Draft := fun r => mkDraft (dft_Spec r) (dft_Edges r).

Definition of_spec {A} (name : string) (f : Spec -> A) `{!Setter f} (dec : decoder A)
    : string * decoder Draft :=
  part dft_Spec (field name f dec).
Definition dec_Spec : decoder Draft :=
  dec_struct
    [of_spec "api_version" sp_APIVersion dec_string; of_spec "id" sp_ID dec_string;
     of_spec "revision" sp_Revision dec_string;
     of_spec "organization_id" sp_OrganizationID dec_string;
     of_spec "source_id" sp_SourceID dec_string; of_spec "status" sp_Status dec_string;
     of_spec "description" sp_Description dec_string;
     of_spec "mappings" sp_Mappings dec_FieldMappings;
     field "edges" dft_Edges (dec_slice zeroEdgeMapping dec_EdgeMapping);
     of_spec "constraints" sp_Constraints dec_Constraints].

Definition zeroFieldMappings : FieldMappings :=
  mkFieldMappings None None None None None None (mkTimestamps None None) None ∅ None None None None
    None None None None None None.
Definition zeroSpec : Spec := mkSpec "" "" "" "" "" "" "" zeroFieldMappings [] zeroConstraints.

Definition unmarshal_spec (raw : string) : option Spec :=
  d ← checked (unmarshal dec_Spec raw (mkDraft zeroSpec ([], [])));
  Some ((dft_Spec d) <| sp_Edges := (dft_Edges d).1 |>).

(** [why]: the text of the decoder's error on the document *)
Definition ParseSpec (why : string -> string) (raw : string) : result GoError Spec :=
  match unmarshal_spec raw with
  | Some s => Ok s
  | None => Err (ErrValidation ("invalid mapping spec: " +:+ why raw))
  end.

Definition obj (members : list string) : string := "{" +:+ join members "," +:+ "}".
Definition str_expr (e : string) : string := obj [json_str "expr" e].
Definition spec_document : string :=
  obj [json_str "ID" "spec-1"; json_member "mappings" (obj [json_member "title" (str_expr "$.t")]);
       json_member "edges" ("[" +:+ obj [json_member "to" (str_expr "$.p")] +:+ "]");
       json_member "mappings" (obj [json_member "resource_id" (str_expr "$.id");
                                    json_member "title" (obj [json_str "transform" "lower"])])].
(** The second [mappings] adds to the first, and the transform to the title. *)
Example ParseSpec_ex :
  unmarshal_spec spec_document
  = Some ((zeroSpec <| sp_ID := "spec-1" |>)
            <| sp_Mappings := (zeroFieldMappings <| fm_ResourceID := Some (mkExpr "$.id" ANil "") |>)
                                <| fm_Title := Some (mkExpr "$.t" ANil "lower") |> |>
            <| sp_Edges := [zeroEdgeMapping <| em_To := Some (mkExpr "$.p" ANil "") |>] |>).
Proof. vm_compute. reflexivity. Qed.
Example ParseSpec_bad :
  unmarshal_spec (obj [json_member "id" "7"]) = None /\ unmarshal_spec "null" = Some zeroSpec /\
  unmarshal_spec "{} x" = None.
Proof. split_and!; vm_compute; reflexivity. Qed.
