(* ===== verification/Reach.v ===== *)
(** * Depth-first search with a shared visited set

    The recursion scheme of an evaluator that marks nodes in one mutable
    [visiting] map, never unmarks them, and stops at the first success: it
    decides reachability of a goal node. *)
From S2P Require Import Prelude.

Section Dfs.
Context {N K : Type} `{Countable K}.
Variables (key : N -> K) (goal : N -> bool) (succ : N -> list N).
Context `{Hinj : !Inj (=) (=) key}.

(** [for _, p := range l { if f(p) { return true } }; return false], where [f]
    updates the visited set. *)
Fixpoint any_of {A} (f : A -> gset K -> bool * gset K) (l : list A) (vis : gset K)
    : bool * gset K :=
  match l with
  | [] => (false, vis)
  | p :: l' =>
      let '(b, vis) := f p vis in
      if b then (true, vis) else any_of f l' vis
  end.

Fixpoint dfs (fuel : nat) (n : N) (vis : gset K) : bool * gset K :=
  match fuel with
  | O => (false, vis)
  | S fuel' =>
      if decide (key n ∈ vis) then (false, vis) else
      let vis := {[key n]} ∪ vis in
      if goal n then (true, vis) else any_of (dfs fuel') (succ n) vis
  end.

Definition edge (a b : N) : Prop := b ∈ succ a.
Definition reaches (n : N) : Prop := exists g, rtc edge n g /\ goal g = true.

Lemma dfs_sound fuel n vis : (dfs fuel n vis).1 = true -> reaches n.
Proof.
  revert n vis. induction fuel as [|fuel IH]; intros n vis; simpl; [done|].
  case_decide; [done|]. destruct (goal n) eqn:Hg; [intros _; by exists n|].
  assert (Hany : forall l vis, (any_of (dfs fuel) l vis).1 = true ->
                 exists p, p ∈ l /\ reaches p).
  { induction l as [|p l IHl]; intros vis'; simpl; [done|].
    destruct (dfs fuel p vis') as [[] v] eqn:E.
    - intros _. exists p. split; [left|]. apply (IH p vis'). by rewrite E.
    - intros (q & ? & ?)%IHl. exists q. split; [by right | done]. }
  intros (p & Hp & g & Hr & Hgg)%Hany. exists g. split; [|done].
  by eapply rtc_l.
Qed.

(** Completeness, inside a finite universe of keys closed under [succ]. *)
Variable univ : gset K.
Hypothesis univ_closed : forall n s, key n ∈ univ -> s ∈ succ n -> key s ∈ univ.

Definition closed_from (vis vis' : gset K) : Prop :=
  vis ⊆ vis' /\ vis' ⊆ univ /\
  forall x, key x ∈ vis' -> key x ∉ vis ->
    goal x = false /\ forall s, s ∈ succ x -> key s ∈ vis'.

Lemma closed_from_trans a b c : closed_from a b -> closed_from b c -> closed_from a c.
Proof.
  intros (H1 & _ & H3) (H4 & H5 & H6). split; [set_solver|]. split; [done|].
  intros x Hx Hnx. destruct (decide (key x ∈ b)) as [Hb|Hb].
  - destruct (H3 x Hb Hnx) as [? Hs]. split; [done|]. intros s ?. apply H4. auto.
  - by apply H6.
Qed.

Lemma dfs_false fuel n vis vis' :
  key n ∈ univ -> vis ⊆ univ -> (size (univ ∖ vis) < fuel)%nat ->
  dfs fuel n vis = (false, vis') -> key n ∈ vis' /\ closed_from vis vis'.
Proof.
  revert n vis vis'. induction fuel as [|fuel IH]; intros n vis vis' Hn Hvis Hf; [lia|].
  simpl. case_decide as Hd.
  { intros [= <-]. split; [done|]. split; [done|]. split; [done|]. done. }
  destruct (goal n) eqn:Hg; [done|]. intros Hany.
  assert (Hsize : (size (univ ∖ ({[key n]} ∪ vis)) < fuel)%nat).
  { assert (size (univ ∖ ({[key n]} ∪ vis)) < size (univ ∖ vis))%nat; [|lia].
    apply subset_size. set_solver. }
  assert (Hloop : forall l v v', (forall p, p ∈ l -> key p ∈ univ) -> v ⊆ univ ->
    (size (univ ∖ v) < fuel)%nat -> any_of (dfs fuel) l v = (false, v') ->
    (forall p, p ∈ l -> key p ∈ v') /\ closed_from v v').
  { clear Hany. induction l as [|p l IHl]; intros v v' Hl Hv Hs; simpl.
    - intros [= <-]. split; [set_solver|]. by split.
    - destruct (dfs fuel p v) as [[] v1] eqn:E; [done|]. intros Hrest.
      destruct (IH p v v1) as [Hp Hc]; [apply Hl; left | done | done | done |].
      destruct (IHl v1 v') as [Hall Hc']; [intros; apply Hl; by right | apply Hc | | done |].
      { assert (size (univ ∖ v1) <= size (univ ∖ v))%nat; [|lia].
        apply subseteq_size. destruct Hc. set_solver. }
      split; [|by eapply closed_from_trans].
      intros q [->|Hq]%elem_of_cons; [|auto]. destruct Hc' as [Hsub _]. auto. }
  apply Hloop in Hany as [Hsucc Hc]; [|eauto | set_solver | done].
  destruct Hc as (H1 & H2 & H3). split; [set_solver|]. split; [set_solver|].
  split; [done|]. intros x Hx Hnx. destruct (decide (key x = key n)) as [->%Hinj|Hne].
  - split; [done|]. auto.
  - apply H3; set_solver.
Qed.

Lemma dfs_complete fuel n :
  key n ∈ univ -> (size univ < fuel)%nat -> reaches n -> (dfs fuel n ∅).1 = true.
Proof.
  intros Hn Hf (g & Hr & Hg). destruct (dfs fuel n ∅) as [[] vis'] eqn:E; [done|].
  exfalso. destruct (dfs_false fuel n ∅ vis') as [Hn' (_ & _ & Hc)];
    [done | set_solver | by rewrite difference_empty_L | done |].
  clear E Hn. induction Hr as [x|x y z Hxy Hyz IH].
  - destruct (Hc x Hn') as [? _]; [set_solver | congruence].
  - apply IH; [done|]. destruct (Hc x Hn') as [_ Hs]; [set_solver | by apply Hs].
Qed.

Theorem dfs_reaches fuel n :
  key n ∈ univ -> (size univ < fuel)%nat -> (dfs fuel n ∅).1 = true <-> reaches n.
Proof. intros. split; [apply dfs_sound | by apply dfs_complete]. Qed.
End Dfs.
