(* ===== verification/OpenFGA.v ===== *)
(** * [internal/adapters/openfga/memory.go]: the in-process relationship store

    Tuples are [Relations[object][relation][subject]]; [can_read] and
    [can_manage] are computed by a search through [parent] tuples with one
    shared visited map. [formatUser], [formatObject] and [mapRelation] are
    shared with the HTTP client ([client.go]). *)
From S2P Require Import Prelude GoStd Ports Platform Reach.

Abbreviation subjects := (gmap string bool).
Abbreviation relations := (gmap string subjects).

Record Memory := mkMemory {
  Relations : gmap string relations; ModelID : string; OrgMembers : gmap string subjects;
}.
#[export] Instance Memory_eta : Settable Memory := fun r =>
  mkMemory (Relations r) (ModelID r) (OrgMembers r).

Definition NewMemory : Memory := mkMemory ∅ "memory-model" ∅.

(** ** Names of users, objects and relations *)
Definition formatUser (p : Principal) : string :=
  let prefix :=
    match p_Kind p with
    | PrincipalKindAgent => "agent"
    | PrincipalKindService => "service"
    | _ => "user"
    end in
  let id := if is_empty (p_Subject p) then p_ID p else p_Subject p in
  if contains_str id ":" then id else prefix +:+ ":" +:+ id.

Definition formatObject (resourceID : string) : string :=
  if contains_str resourceID ":" then resourceID else "resource:" +:+ resourceID.

Definition mapRelation (action : string) : string :=
  if mem_str action ["context.search"; "context.get"; "context.brief"; "context.graph";
                     "can_read"; "reader"] then "can_read"
  else if mem_str action ["can_manage"; "context.manage"; "can_admin"; "context.delete";
                          "can_delete"] then "can_manage"
  else if String.eqb action "member" then "member"
  else if is_empty action then "can_read"
  else action.

(** ** Tuples *)

(** The subjects stored under a relation of an object. *)
Definition subjects_of (m : Memory) (object relation : string) : subjects :=
  inner (inner (Relations m) object) relation.

Definition has (m : Memory) (object relation subject : string) : bool :=
  default false (subjects_of m object relation !! subject).

(** [m[k1][k2] = true], creating [m[k1]] when it is missing *)
Definition add_member (k s : string) (m : gmap string subjects) : gmap string subjects :=
  insert2 k s true m.

Definition grantLocked (object relation subject : string) (m : Memory) : Memory :=
  let relation := if String.eqb relation "can_read" then "reader" else relation in
  let relation :=
    if String.eqb relation "can_delete" || String.eqb relation "can_admin"
    then "owner" else relation in
  let m := m <| Relations :=
    <[object := add_member relation subject (inner (Relations m) object)]> (Relations m) |> in
  if has_prefix object "organization:" && String.eqb relation "member"
  then m <| OrgMembers := add_member (trim_prefix object "organization:") subject (OrgMembers m) |>
  else m.

Definition Grant := grantLocked.

Definition Revoke (object relation subject : string) (m : Memory) : Memory :=
  let relation := if String.eqb relation "can_read" then "reader" else relation in
  match Relations m !! object with
  | Some rels =>
      match rels !! relation with
      | Some subs =>
          m <| Relations := <[object := <[relation := delete subject subs]> rels]> (Relations m) |>
      | None => m
      end
  | None => m
  end.

Definition incomplete (t : RelationshipTuple) : bool :=
  is_empty (t_Object t) || is_empty (t_Relation t) || is_empty (t_Subject t).

Fixpoint WriteTuples (tuples : list RelationshipTuple) (m : Memory) : Memory :=
  match tuples with
  | [] => m
  | t :: ts =>
      WriteTuples ts
        (if incomplete t then m else grantLocked (t_Object t) (t_Relation t) (t_Subject t) m)
  end.

Fixpoint DeleteTuples (tuples : list RelationshipTuple) (m : Memory) : Memory :=
  match tuples with
  | [] => m
  | t :: ts =>
      DeleteTuples ts
        (if incomplete t then m else Revoke (t_Object t) (t_Relation t) (t_Subject t) m)
  end.

Definition HasTuple (m : Memory) (t : RelationshipTuple) : bool :=
  has m (t_Object t) (t_Relation t) (t_Subject t).

Definition AddOrgMember (orgID subject : string) (m : Memory) : Memory :=
  let m := m <| OrgMembers := add_member orgID subject (OrgMembers m) |> in
  let user := if contains_str subject ":" then subject else "user:" +:+ subject in
  grantLocked ("organization:" +:+ orgID) "member" user m.

(** ** Evaluation *)
Section Eval.
Context `{GoMapOrder}.
Variable m : Memory.

Definition visit_key (object relation : string) : string := object +:+ "|" +:+ relation.

(** The recursion marks [object|relation] in [visiting] before it descends, so
    its depth is bounded by the number of keys; [fuel] bounds the depth. *)
Fixpoint can (fuel : nat) (object relation subject : string) (visiting : gset string)
    : bool * gset string :=
  match fuel with
  | O => (false, visiting)
  | S fuel =>
      let key := visit_key object relation in
      if decide (key ∈ visiting) then (false, visiting) else
      let visiting := {[key]} ∪ visiting in
      if String.eqb relation "can_read" then
        if has m object "reader" subject || has m object "restricted_reader" subject
           || has m object "owner" subject || has m object "assignee" subject
        then (true, visiting)
        else
          let '(managed, visiting) := can fuel object "can_manage" subject visiting in
          if managed then (true, visiting)
          else any_of (fun parent => can fuel parent "can_read" subject)
                 (go_keys (subjects_of m object "parent")) visiting
      else if String.eqb relation "can_manage" then
        if has_prefix object "organization:" then
          (has m object "manager" subject || has m object "knowledge_admin" subject
           || has m object "owner" subject, visiting)
        else if has m object "owner" subject then (true, visiting)
        else if existsb (fun org => has m org "manager" subject
                                    || has m org "knowledge_admin" subject)
                  (go_keys (subjects_of m object "organization"))
        then (true, visiting)
        else any_of (fun parent => can fuel parent "can_manage" subject)
               (go_keys (subjects_of m object "parent")) visiting
      else (has m object relation subject, visiting)
  end.

(** The objects a search from [object] may visit. *)
Definition reachable_objects (object : string) : gset string :=
  {[object]} ∪ ⋃ ((fun r : string * relations => dom (inner r.2 "parent"))
                  <$> map_to_list (Relations m)).

Definition can_fuel (object : string) : nat := S (S (2 * size (reachable_objects object))).

Definition evaluate (object relation subject : string) : bool :=
  (can (can_fuel object) object relation subject ∅).1.

Definition decision (now : Time) (r : AuthzCheck) : AuthzDecision :=
  let user := formatUser (ac_Principal r) in
  let obj := formatObject (ac_ResourceID r) in
  let rel := mapRelation (ac_Action r) in
  let allowed := evaluate obj rel user in
  let code := if allowed then "AUTHZ_ALLOW" else "AUTHZ_DENY" in
  mkAuthzDecision allowed code (ac_Consistency r) (ModelID m) now.

Definition BatchCheck (now : Time) (reqs : list AuthzCheck)
    : result GoError (list AuthzDecision) :=
  Ok (map (decision now) reqs).

(** [outs[0]] of the one-element batch *)
Definition Check_ (now : Time) (req : AuthzCheck) : result GoError AuthzDecision :=
  outs ← BatchCheck now [req];
  match outs with
  | d :: _ => Ok d
  | [] => Err (EPanic "index out of range")
  end.
End Eval.

Definition ResolveCandidateScope (m : Memory) (req : ScopeResolve)
    : result GoError CandidateScope :=
  let org := p_OrgID (sr_Principal req) in
  let user := formatUser (sr_Principal req) in
  if has m ("organization:" +:+ org) "member" user
  then Ok (mkCandidateScope org [] [] "AUTHZ_SCOPE_OK")
  else
    let subj := if is_empty (p_Subject (sr_Principal req)) then p_ID (sr_Principal req)
                else p_Subject (sr_Principal req) in
    let members := inner (OrgMembers m) org in
    let mem s := default false (members !! s) in
    if mem subj || mem user || mem ("user:" +:+ subj)
    then Ok (mkCandidateScope org [] [] "AUTHZ_SCOPE_OK")
    else Ok (mkCandidateScope org [] [] "AUTHZ_SCOPE_DENY").

(** ** The tuples after a write or a delete *)

(** The relation under which [Grant] stores a tuple, and the one [Revoke] removes. *)
Definition granted_relation (relation : string) : string :=
  if String.eqb relation "can_read" then "reader"
  else if String.eqb relation "can_delete" || String.eqb relation "can_admin" then "owner"
  else relation.
Definition revoked_relation (relation : string) : string :=
  if String.eqb relation "can_read" then "reader" else relation.

Definition same_tuple (o r s o' r' s' : string) : bool :=
  bool_decide (o' = o /\ r' = r /\ s' = s).

Lemma lookup_add_member m k s k' s' :
  inner (add_member k s m) k' !! s' =
  if decide (k' = k /\ s' = s) then Some true else inner m k' !! s'.
Proof. apply lookup2_insert2. Qed.

Lemma subjects_of_grant o r s m o' r' s' :
  subjects_of (grantLocked o r s m) o' r' !! s' =
  if decide (o' = o /\ r' = granted_relation r /\ s' = s) then Some true
  else subjects_of m o' r' !! s'.
Proof.
  unfold grantLocked, granted_relation, subjects_of.
  assert (Hrel : (let r := if String.eqb r "can_read" then "reader" else r in
                  if String.eqb r "can_delete" || String.eqb r "can_admin" then "owner" else r)
                 = granted_relation r).
  { unfold granted_relation. destruct (String.eqb_spec r "can_read"); reflexivity. }
  unfold granted_relation in Hrel. cbv zeta in *. rewrite Hrel.
  set (r1 := if String.eqb r "can_read" then _ else _).
  set (m1 := if has_prefix o _ && _ then _ else _).
  assert (Relations m1 = <[o := add_member r1 s (inner (Relations m) o)]> (Relations m)) as ->.
  { subst m1. by case_goal. }
  rewrite inner_insert. case_decide; subst.
  - rewrite lookup_add_member. repeat case_decide; tauto.
  - case_decide; [tauto | done].
Qed.

Lemma has_grant o r s m o' r' s' :
  has (grantLocked o r s m) o' r' s' =
  same_tuple o (granted_relation r) s o' r' s' || has m o' r' s'.
Proof.
  unfold has, same_tuple. rewrite subjects_of_grant.
  case_decide; [rewrite bool_decide_eq_true_2 by done | rewrite bool_decide_eq_false_2 by done]; done.
Qed.

Lemma subjects_of_revoke o r s m o' r' s' :
  subjects_of (Revoke o r s m) o' r' !! s' =
  if decide (o' = o /\ r' = revoked_relation r /\ s' = s) then None
  else subjects_of m o' r' !! s'.
Proof.
  unfold Revoke, subjects_of. fold (revoked_relation r). set (r1 := revoked_relation r).
  assert (Hnone : forall b, inner (inner (Relations m) o) r1 !! s = None ->
            (if decide (o' = o /\ r' = r1 /\ s' = s) then None
             else inner (inner (Relations m) o') r' !! s') = b ->
            inner (inner (Relations m) o') r' !! s' = b).
  { intros b Hn Hb. case_decide as Hd; [|done]. destruct Hd as (-> & -> & ->). congruence. }
  destruct (Relations m !! o) as [rels|] eqn:Ho; [destruct (rels !! r1) as [subs|] eqn:Hr|].
  - assert (Hin : inner (Relations m) o = rels) by (unfold inner; by rewrite Ho).
    assert (Hin2 : inner rels r1 = subs) by (unfold inner; by rewrite Hr).
    simpl. rewrite inner_insert. destruct (decide (o' = o)) as [->|];
      [rewrite Hin | case_decide; naive_solver].
    rewrite inner_insert. destruct (decide (r' = r1)) as [->|];
      [rewrite Hin2 | case_decide; naive_solver].
    rewrite lookup_delete. repeat case_decide; naive_solver.
  - eapply Hnone; [|reflexivity]. unfold inner. rewrite Ho. simpl. by rewrite Hr.
  - eapply Hnone; [|reflexivity]. unfold inner. by rewrite Ho.
Qed.

Lemma has_revoke o r s m o' r' s' :
  has (Revoke o r s m) o' r' s' =
  negb (same_tuple o (revoked_relation r) s o' r' s') && has m o' r' s'.
Proof.
  unfold has, same_tuple. rewrite subjects_of_revoke.
  case_decide; [rewrite bool_decide_eq_true_2 by done | rewrite bool_decide_eq_false_2 by done]; done.
Qed.

(** [WriteTuples] followed by a query: a tuple is present exactly when it was
    before, or when a complete tuple of the batch is stored under it
    ([can_read] as [reader], [can_delete] and [can_admin] as [owner]). *)
Theorem has_after_write ts m o r s :
  has (WriteTuples ts m) o r s = true <->
  has m o r s = true \/
  exists t, t ∈ ts /\ incomplete t = false /\
            t_Object t = o /\ granted_relation (t_Relation t) = r /\ t_Subject t = s.
Proof.
  revert m. induction ts as [|t ts IH]; intros m; simpl.
  - split; [auto | intros [|(? & []%not_elem_of_nil & _)]; done].
  - rewrite IH. setoid_rewrite elem_of_cons. destruct (incomplete t) eqn:Hi.
    + split; [intros [|(x & ? & ?)]; [by left | right; exists x; tauto]|].
      intros [|(x & [->|] & Hx & ?)]; [by left | congruence | right; exists x; tauto].
    + rewrite has_grant, orb_true_iff. unfold same_tuple. rewrite bool_decide_eq_true.
      split.
      * intros [[(-> & -> & ->)|]|(x & ? & ?)]; [| by left | right; exists x; tauto].
        right. exists t. tauto.
      * intros [|(x & [->|] & Hx & <- & <- & <-)]; [tauto | tauto |].
        right. exists x. tauto.
Qed.

(** [DeleteTuples] followed by a query: a tuple is present exactly when it
    was before and no complete tuple of the batch names it ([can_read] naming
    [reader]; [can_delete] and [can_admin], unlike in [Grant], name themselves). *)
Theorem has_after_delete ts m o r s :
  has (DeleteTuples ts m) o r s = true <->
  has m o r s = true /\
  forall t, t ∈ ts -> incomplete t = false ->
            ~ (t_Object t = o /\ revoked_relation (t_Relation t) = r /\ t_Subject t = s).
Proof.
  revert m. induction ts as [|t ts IH]; intros m; simpl.
  - split; [|tauto]. intros ?. split; [done|]. by intros ? ?%elem_of_nil.
  - rewrite IH. setoid_rewrite elem_of_cons. destruct (incomplete t) eqn:Hi.
    + split; intros [Hh Hall]; (split; [done|]); intros x Hx; [|by apply Hall; right].
      destruct Hx as [->|]; [congruence | by apply Hall].
    + rewrite has_revoke, andb_true_iff, negb_true_iff. unfold same_tuple.
      rewrite bool_decide_eq_false. split.
      * intros [[Hne Hh] Hall]. split; [done|].
        intros x [->|] Hx; [intros (<- & <- & <-); by apply Hne | by apply Hall].
      * intros [Hh Hall]. split; [split; [|done] | by intros x ?; apply Hall; right].
        intros (-> & -> & ->). by apply (Hall t); [left | |].
Qed.

(** ** What [can_read] and [can_manage] mean

    The relations of [model.fga] as this evaluator reads them, as least fixed
    points over the stored tuples. *)
Definition listed (m : Memory) (object relation subject : string) : Prop :=
  is_Some (subjects_of m object relation !! subject).
Definition is_org (object : string) : bool := has_prefix object "organization:".

Definition org_manages (m : Memory) (org s : string) : bool :=
  has m org "manager" s || has m org "knowledge_admin" s.

Inductive manages (m : Memory) (s : string) : string -> Prop :=
| manages_org o : is_org o = true -> org_manages m o s = true -> manages m s o
| manages_owner o : has m o "owner" s = true -> manages m s o
| manages_from_org o org : is_org o = false ->
    listed m o "organization" org -> org_manages m org s = true -> manages m s o
| manages_from_parent o p : is_org o = false ->
    listed m o "parent" p -> manages m s p -> manages m s o.

Definition direct_reader (m : Memory) (o s : string) : bool :=
  has m o "reader" s || has m o "restricted_reader" s || has m o "owner" s
  || has m o "assignee" s.

Inductive reads (m : Memory) (s : string) : string -> Prop :=
| reads_direct o : direct_reader m o s = true -> reads m s o
| reads_manager o : manages m s o -> reads m s o
| reads_from_parent o p : listed m o "parent" p -> reads m s p -> reads m s o.

Inductive level := Read | Manage.
#[export] Instance level_eq_dec : EqDecision level.
Proof. solve_decision. Defined.

Definition relation_of (l : level) : string :=
  match l with Read => "can_read" | Manage => "can_manage" end.

Definition authorized (m : Memory) (l : level) (s o : string) : Prop :=
  match l with Read => reads m s o | Manage => manages m s o end.

(** The evaluator is the depth-first search of [Reach] on pairs of a level and
    an object. *)
Section Correct.
Context `{GoMapOrder}.
Variables (m : Memory) (s : string).

Definition node_key (n : level * string) : string := visit_key n.2 (relation_of n.1).

Definition node_goal (n : level * string) : bool :=
  match n.1 with
  | Read => direct_reader m n.2 s
  | Manage =>
      if is_org n.2 then org_manages m n.2 s || has m n.2 "owner" s
      else has m n.2 "owner" s
           || existsb (fun org => org_manages m org s)
                (go_keys (subjects_of m n.2 "organization"))
  end.

Definition node_succ (n : level * string) : list (level * string) :=
  let parents := go_keys (subjects_of m n.2 "parent") in
  match n.1 with
  | Read => (Manage, n.2) :: map (pair Read) parents
  | Manage => if is_org n.2 then [] else map (pair Manage) parents
  end.

Lemma any_of_map {A B} (f : B -> gset string -> bool * gset string) (g : A -> B) l vis :
  any_of f (map g l) vis = any_of (fun a => f (g a)) l vis.
Proof.
  revert vis. induction l as [|a l IH]; intros vis; simpl; [done|].
  destruct (f (g a) vis) as [[] v]; [done | apply IH].
Qed.

Lemma any_of_ext {A} (f g : A -> gset string -> bool * gset string) l vis :
  (forall a v, f a v = g a v) -> any_of f l vis = any_of g l vis.
Proof.
  intros Hfg. revert vis. induction l as [|a l IH]; intros vis; simpl; [done|].
  rewrite Hfg. destruct (g a vis) as [[] v]; [done | apply IH].
Qed.

Lemma can_is_dfs fuel l o vis :
  can m fuel o (relation_of l) s vis = dfs node_key node_goal node_succ fuel (l, o) vis.
Proof.
  revert l o vis. induction fuel as [|fuel IH]; intros l o vis; [done|].
  cbn [can dfs]. change (visit_key o (relation_of l)) with (node_key (l, o)).
  case_decide; [done|]. destruct l; cbn -[any_of go_keys has_prefix orb existsb].
  - unfold direct_reader. destruct (_ || _ || _ || _)%bool; [done|].
    change "can_manage" with (relation_of Manage). rewrite IH. cbn [any_of].
    destruct (dfs _ _ _ fuel (Manage, o) _) as [[] v]; [done|]. rewrite any_of_map.
    apply any_of_ext. intros a v'. apply (IH Read).
  - unfold is_org. destruct (has_prefix o "organization:").
    + unfold org_manages. by destruct (_ || _ || _)%bool.
    + destruct (has m o "owner" s); [done|]. unfold org_manages.
      destruct (existsb _ _); [done|]. change (false || false)%bool with false.
      rewrite any_of_map. apply any_of_ext. intros a v'. apply (IH Manage).
Qed.

Lemma list_ascii_app x y :
  String.list_ascii_of_string (x +:+ y) =
  String.list_ascii_of_string x ++ String.list_ascii_of_string y.
Proof. induction x as [|c x IH]; simpl; [done|]. f_equal. apply IH. Qed.

#[local] Instance node_key_inj : Inj (=) (=) node_key.
Proof.
  intros [l1 o1] [l2 o2] Heq. apply (f_equal String.list_ascii_of_string) in Heq.
  unfold node_key, visit_key in Heq. simpl in Heq. rewrite !list_ascii_app in Heq.
  destruct l1, l2; simpl in Heq;
    [| by apply (f_equal last) in Heq; rewrite !last_app_cons in Heq ..|];
    apply app_inv_tail in Heq; f_equal;
    rewrite <- (String.string_of_list_ascii_of_string o1), Heq;
    apply String.string_of_list_ascii_of_string.
Qed.

Lemma elem_of_go_listed o r x : x ∈ go_keys (subjects_of m o r) <-> listed m o r x.
Proof.
  unfold go_keys, listed. rewrite list_elem_of_fmap. split.
  - intros ([k v] & -> & Hk%elem_of_go_range). eauto.
  - intros (v & Hv). exists (x, v). split; [done|]. by apply elem_of_go_range.
Qed.

Lemma reaches_authorized n : reaches node_goal node_succ n <-> authorized m n.1 s n.2.
Proof.
  split.
  - intros (g & Hr & Hg). induction Hr as [[l o]|[l o] [l' o'] z Hstep _ IH].
    + unfold node_goal in Hg. simpl in *. destruct l; [by apply reads_direct|].
      destruct (is_org o) eqn:Ho; apply orb_true_iff in Hg as [Hg|Hg].
      * by apply manages_org.
      * by apply manages_owner.
      * by apply manages_owner.
      * apply existsb_exists in Hg as (org & Hin & Hm).
        apply list_elem_of_In, elem_of_go_listed in Hin. by eapply manages_from_org.
    + specialize (IH Hg). unfold edge, node_succ in Hstep. simpl in *. destruct l.
      * apply elem_of_cons in Hstep as [[= -> ->]|Hp]; [by apply reads_manager|].
        apply list_elem_of_fmap in Hp as (p & [= -> ->] & Hp%elem_of_go_listed).
        by eapply reads_from_parent.
      * destruct (is_org o) eqn:Ho; [by apply not_elem_of_nil in Hstep|].
        apply list_elem_of_fmap in Hstep as (p & [= -> ->] & Hp%elem_of_go_listed).
        by eapply manages_from_parent.
  - destruct n as [l o]. simpl.
    assert (Hgoal : forall n, node_goal n = true -> reaches node_goal node_succ n).
    { intros n Hn. exists n. split; [apply rtc_refl | done]. }
    assert (Hstep : forall n n', n' ∈ node_succ n -> reaches node_goal node_succ n' ->
              reaches node_goal node_succ n).
    { intros n n' Hn (g & Hr & Hg). exists g. split; [by eapply rtc_l | done]. }
    assert (Hman : forall o, manages m s o -> reaches node_goal node_succ (Manage, o)).
    { clear o. intros o Hm. induction Hm as [o Ho Hm|o Hm|o org Ho Hl Hm|o p Ho Hl _ IH].
      - apply Hgoal. unfold node_goal. simpl. by rewrite Ho, Hm.
      - apply Hgoal. unfold node_goal. simpl. rewrite Hm. case_goal; [apply orb_true_r | done].
      - apply Hgoal. unfold node_goal. simpl. rewrite Ho, orb_true_iff. right.
        apply existsb_exists. exists org. split; [|done].
        by apply list_elem_of_In, elem_of_go_listed.
      - apply (Hstep _ (Manage, p)); [|done]. unfold node_succ. simpl. rewrite Ho.
        apply list_elem_of_fmap. exists p. split; [done|]. by apply elem_of_go_listed. }
    destruct l; [|apply Hman]. intros Hr. induction Hr as [o Hd|o Hm|o p Hl _ IH].
    + by apply Hgoal.
    + apply (Hstep _ (Manage, o)); [left | by apply Hman].
    + apply (Hstep _ (Read, p)); [|done]. right. apply list_elem_of_fmap.
      exists p. split; [done|]. by apply elem_of_go_listed.
Qed.

(** The keys a search from [object] can visit. *)
Definition key_universe (object : string) : gset string :=
  set_map (C := gset string) (D := gset string) (fun o => node_key (Read, o)) (reachable_objects m object)
  ∪ set_map (C := gset string) (D := gset string) (fun o => node_key (Manage, o)) (reachable_objects m object).

Lemma elem_of_universe l o object :
  node_key (l, o) ∈ key_universe object <-> o ∈ reachable_objects m object.
Proof.
  unfold key_universe. rewrite elem_of_union, !elem_of_map. split.
  - intros [(x & Heq & Hx)|(x & Heq & Hx)]; by apply node_key_inj in Heq as [= -> ->].
  - intros Ho. destruct l; [left | right]; by exists o.
Qed.

Lemma parent_reachable o p object :
  listed m o "parent" p -> p ∈ reachable_objects m object.
Proof.
  intros [v Hv]. unfold reachable_objects, subjects_of in *. apply elem_of_union. right.
  apply elem_of_union_list. exists (dom (inner (inner (Relations m) o) "parent")).
  split; [|by apply elem_of_dom]. apply list_elem_of_fmap.
  unfold inner at 2 in Hv. unfold inner at 2. destruct (Relations m !! o) as [r|] eqn:Ho.
  - exists (o, r). split; [done|]. by apply elem_of_map_to_list.
  - unfold inner in Hv. simpl in Hv. rewrite lookup_empty in Hv. simpl in Hv.
    by rewrite lookup_empty in Hv.
Qed.

Lemma evaluate_correct l object :
  evaluate m object (relation_of l) s = true <-> authorized m l s object.
Proof.
  unfold evaluate. rewrite can_is_dfs.
  rewrite (dfs_reaches _ _ _ (key_universe object)).
  - apply (reaches_authorized (l, object)).
  - intros [k o] [k' o'] Ho%elem_of_universe Hs. apply elem_of_universe.
    unfold node_succ in Hs. simpl in Hs. destruct k.
    + apply elem_of_cons in Hs as [[= -> ->]|Hs]; [done|].
      apply list_elem_of_fmap in Hs as (p & [= -> ->] & Hp%elem_of_go_listed).
      by eapply parent_reachable.
    + destruct (is_org o); [by apply not_elem_of_nil in Hs|].
      apply list_elem_of_fmap in Hs as (p & [= -> ->] & Hp%elem_of_go_listed).
      by eapply parent_reachable.
  - apply elem_of_universe. unfold reachable_objects. set_solver.
  - unfold can_fuel, key_universe. eapply Nat.le_lt_trans; [apply size_union_le|].
    pose proof (size_set_map_le (fun o => node_key (Read, o)) (reachable_objects m object)).
    pose proof (size_set_map_le (fun o => node_key (Manage, o)) (reachable_objects m object)).
    lia.
Qed.
End Correct.

(** ** Theorems *)
Definition permitted (m : Memory) (relation s o : string) : Prop :=
  if String.eqb relation "can_read" then reads m s o
  else if String.eqb relation "can_manage" then manages m s o
  else has m o relation s = true.

Lemma evaluate_permitted `{GoMapOrder} m o relation s :
  evaluate m o relation s = true <-> permitted m relation s o.
Proof.
  unfold permitted. destruct (String.eqb_spec relation "can_read") as [->|Hr].
  { apply (evaluate_correct m s Read). }
  destruct (String.eqb_spec relation "can_manage") as [->|Hm].
  { apply (evaluate_correct m s Manage). }
  unfold evaluate, can_fuel. cbn [can]. case_decide as Hd; [by apply not_elem_of_empty in Hd|].
  by rewrite (proj2 (String.eqb_neq _ _) Hr), (proj2 (String.eqb_neq _ _) Hm).
Qed.

(** C14 [BatchCheck] answers every request in its position, and allows it exactly
    when the stored tuples permit the mapped relation to the formatted user on
    the formatted object; [can_read] and [can_manage] are the least relations
    closed under direct grants, organization managers and [parent] tuples, so
    the search ends with the right answer on cyclic parent graphs too. *)
Theorem batch_check_correct `{GoMapOrder} m now reqs :
  exists ds, BatchCheck m now reqs = Ok ds /\
    Forall2 (fun r d =>
      (ad_Allowed d = true <->
       permitted m (mapRelation (ac_Action r)) (formatUser (ac_Principal r))
         (formatObject (ac_ResourceID r))) /\
      ad_ReasonCode d = (if ad_Allowed d then "AUTHZ_ALLOW" else "AUTHZ_DENY") /\
      ad_Consistency d = ac_Consistency r /\ ad_ModelRevision d = ModelID m) reqs ds.
Proof.
  eexists. split; [reflexivity|]. induction reqs as [|r reqs IH]; constructor; [|exact IH].
  split; [apply evaluate_permitted|]. done.
Qed.

(** The decisions do not depend on the order in which the runtime visits the
    [parent] and [organization] maps. *)
Theorem batch_check_order_independent (O1 O2 : GoMapOrder) m now reqs :
  @BatchCheck O1 m now reqs = @BatchCheck O2 m now reqs.
Proof.
  unfold BatchCheck. f_equal. apply map_ext. intros r. unfold decision.
  assert (Heq : forall o rel s, @evaluate O1 m o rel s = @evaluate O2 m o rel s).
  { intros o rel s. apply eq_true_iff_eq. by rewrite !evaluate_permitted. }
  by rewrite Heq.
Qed.

(** Every stored entry is [true], as [Grant] writes it. *)
Definition well_formed (m : Memory) : Prop :=
  forall o r s b, subjects_of m o r !! s = Some b -> b = true.

Lemma well_formed_has m o r s : well_formed m -> listed m o r s <-> has m o r s = true.
Proof.
  intros Hwf. unfold has, listed. split.
  - intros [b Hb]. rewrite Hb. simpl. by apply Hwf in Hb.
  - destruct (subjects_of m o r !! s) eqn:E; simpl; [eauto | done].
Qed.

Lemma well_formed_write ts m : well_formed m -> well_formed (WriteTuples ts m).
Proof.
  revert m. induction ts as [|t ts IH]; intros m Hwf; simpl; [done|].
  apply IH. case_goal; [done|]. intros o r s b. rewrite subjects_of_grant.
  case_decide; [by intros [= <-] | apply Hwf].
Qed.

Lemma well_formed_delete ts m : well_formed m -> well_formed (DeleteTuples ts m).
Proof.
  revert m. induction ts as [|t ts IH]; intros m Hwf; simpl; [done|].
  apply IH. case_goal; [done|]. intros o r s b. rewrite subjects_of_revoke.
  case_decide; [done | apply Hwf].
Qed.

Lemma well_formed_new : well_formed NewMemory.
Proof.
  intros o r s b. unfold subjects_of, inner, NewMemory. simpl.
  by rewrite lookup_empty; simpl; rewrite lookup_empty.
Qed.

Section Monotone.
Variables m m' : Memory.
Hypothesis Hwf : well_formed m.
Hypothesis Hmore : forall o r s, has m o r s = true -> has m' o r s = true.

Lemma listed_mono o r s : listed m o r s -> listed m' o r s.
Proof.
  rewrite (well_formed_has m) by done. intros Hh%Hmore. unfold has in Hh. unfold listed.
  destruct (subjects_of m' o r !! s); [eauto | done].
Qed.

Lemma org_manages_mono o s : org_manages m o s = true -> org_manages m' o s = true.
Proof. unfold org_manages. rewrite !orb_true_iff. intros [?|?]; eauto. Qed.

Lemma manages_mono s o : manages m s o -> manages m' s o.
Proof.
  induction 1; [apply manages_org | apply manages_owner | eapply manages_from_org
               | eapply manages_from_parent]; eauto using listed_mono, org_manages_mono.
Qed.

Lemma reads_mono s o : reads m s o -> reads m' s o.
Proof.
  induction 1 as [o Hd| |]; [apply reads_direct | apply reads_manager | eapply reads_from_parent];
    eauto using listed_mono, manages_mono.
  unfold direct_reader in *. rewrite !orb_true_iff in *. naive_solver.
Qed.

Lemma permitted_mono r s o : permitted m r s o -> permitted m' r s o.
Proof. unfold permitted. repeat case_match; eauto using reads_mono, manages_mono. Qed.
End Monotone.

(** Writing tuples never takes an access away, and deleting tuples never gives
    one: every relation permitted before a write still is after it, and every
    relation permitted after a delete already was. *)
Theorem permitted_monotone m ts r s o :
  well_formed m ->
  (permitted m r s o -> permitted (WriteTuples ts m) r s o) /\
  (permitted (DeleteTuples ts m) r s o -> permitted m r s o).
Proof.
  intros Hwf. split; apply permitted_mono.
  - done.
  - intros. apply has_after_write. by left.
  - by apply well_formed_delete.
  - intros *. rewrite has_after_delete. tauto.
Qed.

Definition doc_tuple : RelationshipTuple := mkTuple "resource:doc" "parent" "resource:folder".
Definition sample_memory : Memory :=
  WriteTuples [doc_tuple; mkTuple "resource:folder" "parent" "resource:doc";
               mkTuple "resource:folder" "can_read" "user:alice"] NewMemory.

(** A cycle of parents: the search still finds the reader of the folder. *)
Example sample_evaluate :
  @evaluate order_forward sample_memory "resource:doc" "can_read" "user:alice" = true /\
  @evaluate order_forward sample_memory "resource:doc" "can_manage" "user:alice" = false.
Proof. split; vm_compute; reflexivity. Qed.

Lemma permitted_monotone_witness :
  permitted sample_memory "can_read" "user:alice" "resource:doc" /\
  permitted (WriteTuples [doc_tuple] sample_memory) "can_read" "user:alice" "resource:doc".
Proof.
  assert (Hp : permitted sample_memory "can_read" "user:alice" "resource:doc").
  { apply (@evaluate_permitted order_forward). vm_compute. reflexivity. }
  split; [exact Hp|].
  refine (proj1 (permitted_monotone sample_memory [doc_tuple] "can_read" "user:alice"
                   "resource:doc" _) Hp).
  apply well_formed_write, well_formed_new.
Defined.

Lemma OrgMembers_delete ts m : OrgMembers (DeleteTuples ts m) = OrgMembers m.
Proof.
  revert m. induction ts as [|t ts IH]; intros m; simpl; [done|].
  rewrite IH. case_goal; [done|]. unfold Revoke. by repeat case_goal.
Qed.

Lemma OrgMembers_grant o r s m k x :
  inner (OrgMembers m) k !! x = Some true ->
  inner (OrgMembers (grantLocked o r s m)) k !! x = Some true.
Proof.
  intros Hk. unfold grantLocked. cbv zeta. destruct (_ && _)%bool; [|exact Hk].
  change (inner (add_member (trim_prefix o "organization:") s (OrgMembers m)) k !! x = Some true).
  rewrite lookup_add_member. by case_decide.
Qed.

(** Deleting tuples does not end a membership: a subject that [AddOrgMember]
    registered still resolves to the organization's scope after any deletion,
    that of its own [member] tuple included, because [OrgMembers] is never
    updated on revocation. *)
Theorem scope_survives_delete m orgID subject ts req :
  p_OrgID (sr_Principal req) = orgID -> p_Subject (sr_Principal req) = subject ->
  subject <> "" ->
  ResolveCandidateScope (DeleteTuples ts (AddOrgMember orgID subject m)) req =
  Ok (mkCandidateScope orgID [] [] "AUTHZ_SCOPE_OK").
Proof.
  intros Horg Hsubj Hne. unfold ResolveCandidateScope. rewrite Horg, Hsubj.
  unfold is_empty. rewrite (proj2 (String.eqb_neq _ _) Hne).
  case_goal; [done|]. rewrite OrgMembers_delete.
  assert (Hm : inner (OrgMembers (AddOrgMember orgID subject m)) orgID !! subject = Some true).
  { apply OrgMembers_grant.
    change (inner (add_member orgID subject (OrgMembers m)) orgID !! subject = Some true).
    rewrite lookup_add_member. case_decide; tauto. }
  by rewrite Hm.
Qed.

Lemma scope_survives_delete_witness :
  ResolveCandidateScope
    (DeleteTuples [mkTuple "organization:acme" "member" "user:bob"]
       (AddOrgMember "acme" "bob" NewMemory))
    (mkScopeResolve (mkPrincipal "p1" PrincipalKindUser "acme" "local" "bob" [] [] [] "" ∅) ""
       ConsistencyUnset)
  = Ok (mkCandidateScope "acme" [] [] "AUTHZ_SCOPE_OK").
Proof. apply scope_survives_delete; [reflexivity | reflexivity | discriminate]. Defined.
