(* ===== verification/Ledger.v ===== *)
(** * [internal/adapters/memory/ledger.go]: the in-memory ledger

    [Store] keeps every table in maps keyed by organization. Each method runs
    under the store's mutex, so it is one atomic step: a call in the monad
    [M GoError Store]. A method that reads the clock takes the reading [now] as
    an argument, one that may draw an identifier takes it as [newid].
    Legal holds and export jobs are declared in [credentials.go]. *)
From S2P Require Import Prelude GoStd Ports Platform Json Mapping.

Record AccessRequest := mkAccessRequest {
  ar_RequestID : string; ar_OrgID : string; ar_ResourceID : string; ar_Purpose : string;
  ar_Justification : string; ar_Status : string; ar_CreatedAt : Time; ar_AuditID : string;
}.

Record ExportJob := mkExportJob {
  ej_JobID : string; ej_OrgID : string; ej_Status : string; ej_CreatedAt : Time;
  ej_Manifest : any;
}.

Abbreviation tenants V := (gmap string (gmap string V)).

(** The [webhooks] table is declared but never read or written. *)
Record Store := mkStore {
  orgs : gmap string Organization;
  records : tenants LedgerRecord;
  revisions : tenants Revision;
  sources : tenants SourceRegistration;
  delegations : tenants DelegationGrant;
  outbox : list OutboxEntry;
  outboxLease : gmap string Time;
  inbox : gmap string InboxEntry;
  idempotency : gmap string IdempotencyRecord;
  changes : gmap string (list ChangeEvent);
  audits : gmap string (list AuditEvent);
  quotas : gmap string Quota;
  accessReqs : tenants AccessRequest;
  exports : tenants ExportJob;
  holds : tenants bool;
  mappings : gmap string Spec;
  edges : tenants GraphEdge;
  authzTuples : tenants AuthzTupleOp;
}.
#[export] Instance Store_eta : Settable Store := fun r =>
  mkStore (orgs r) (records r) (revisions r) (sources r) (delegations r) (outbox r)
    (outboxLease r) (inbox r) (idempotency r) (changes r) (audits r) (quotas r)
    (accessReqs r) (exports r) (holds r) (mappings r) (edges r) (authzTuples r).

Definition NewStore : Store :=
  mkStore ∅ ∅ ∅ ∅ ∅ [] ∅ ∅ ∅ ∅ ∅ ∅ ∅ ∅ ∅ ∅ ∅ ∅.

Abbreviation ledger := (M GoError Store).

(** [m[a][b]], or the error for a missing row *)
Definition find {V} (tbl : Store -> tenants V) (a b : string) (missing : string) : ledger V :=
  fun s => match lookup2 (tbl s) a b with
           | Some v => (Ok v, s)
           | None => (Err (ErrNotFound missing), s)
           end.

Definition or_now (t now : Time) : Time := if is_zero_time t then now else t.
Definition or_default (s d : string) : string := if is_empty s then d else s.
Definition or_limit (limit d : Z) : Z := if limit <=? 0 then d else limit.

(** [for ... { if keep(x) { out = append(out, x); if len(out) >= limit { break } } }]
    where the body runs before the test, so that one element is always taken. *)
Fixpoint take_matching {A} (keep : A -> bool) (limit : Z) (l : list A) (out : list A) : list A :=
  match l with
  | [] => out
  | x :: l' =>
      if keep x then
        let out := out ++ [x] in
        if limit <=? zlen out then out else take_matching keep limit l' out
      else take_matching keep limit l' out
  end.

(** [WithOrgTx]: a no-op transaction; a failing [fn] is not rolled back. *)
Definition WithOrgTx {S A} (orgID : string) (fn : M GoError S A) : M GoError S A :=
  if is_empty orgID then throw (ErrValidation "organization_id required") else fn.
Definition WithTenant {S A} (orgID : string) (fn : M GoError S A) : M GoError S A :=
  WithOrgTx orgID fn.

(** ** Organizations *)
Definition CreateOrganization (now : Time) (org : Organization) : ledger unit :=
  fun s =>
    match orgs s !! org_ID org with
    | Some _ => (Err (ErrConflict "organization exists"), s)
    | None =>
        let org := org <| org_CreatedAt := or_now (org_CreatedAt org) now |> in
        (Ok tt, s <| orgs := <[org_ID org := org]> (orgs s) |>)
    end.

Definition GetOrganization (orgID : string) : ledger Organization :=
  fun s => match orgs s !! orgID with
           | Some o => (Ok o, s)
           | None => (Err (ErrNotFound "organization not found"), s)
           end.

(** ** Records *)
Definition UpsertRecord (now : Time) (rec : LedgerRecord) : ledger unit :=
  if is_empty (rec_OrgID rec) || is_empty (rec_ResourceID rec)
  then throw (ErrValidation "org and resource required")
  else
    let rec := rec <| rec_CreatedAt := or_now (rec_CreatedAt rec) now |> in
    let rec := rec <| rec_UpdatedAt := now |> in
    modify (fun s => s <| records := insert2 (rec_OrgID rec) (rec_ResourceID rec) rec (records s) |>).

Definition GetRecord (orgID resourceID : string) : ledger LedgerRecord :=
  find records orgID resourceID "record not found".
Definition GetRecordTx := GetRecord.

Definition record_less : LedgerRecord -> LedgerRecord -> bool :=
  then_by rec_CreatedAt Z.ltb (fun a b => str_lt (rec_ResourceID a) (rec_ResourceID b)).

(** [s[i:j]] panics unless [0 <= i <= j <= len(s)]. *)
Definition slice {A} (i j : Z) (l : list A) : result GoError (list A) :=
  if (0 <=? i) && (i <=? j) && (j <=? zlen l) then Ok (ztake (j - i) (zdrop i l))
  else Err (EPanic "slice bounds out of range").

Definition ListRecords `{GoMapOrder} (orgID : string) (limit : Z) (cursor : string)
    : ledger (list LedgerRecord * string) :=
  fun s =>
    let limit := or_limit limit 50 in
    let all := sort_slice record_less (go_values (inner (records s) orgID)) in
    let offset :=
      match parse_int cursor with
      | (n, None) => if negb (is_empty cursor) && (0 <? n) then n else 0
      | _ => 0
      end in
    if zlen all <=? offset then (Ok ([], ""), s)
    else
      let end_ := wrap64 (offset + limit) in
      let end_ := if zlen all <? end_ then zlen all else end_ in
      match slice offset end_ all with
      | Ok out => (Ok (out, if end_ <? zlen all then itoa end_ else ""), s)
      | Err e => (Err e, s)
      end.

Definition InsertPlaceholder (now : Time) (rec : LedgerRecord) : ledger bool :=
  if is_empty (rec_OrgID rec) || is_empty (rec_ResourceID rec)
  then throw (ErrValidation "org and resource required")
  else fun s =>
    match lookup2 (records s) (rec_OrgID rec) (rec_ResourceID rec) with
    | Some _ => (Ok false, s)
    | None =>
        let rec := rec <| rec_State := LifecyclePlaceholder |> in
        let rec := rec <| rec_CreatedAt := or_now (rec_CreatedAt rec) now |> in
        let rec := rec <| rec_UpdatedAt := now |> in
        let rec := rec <| rec_Attributes := <["placeholder" := "true"]> (rec_Attributes rec) |> in
        (Ok true, s <| records := insert2 (rec_OrgID rec) (rec_ResourceID rec) rec (records s) |>)
    end.

Definition unresolved_state (state : string) : bool :=
  String.eqb state LifecyclePlaceholder || String.eqb state LifecycleEnsured.

(** The two branches for an existing record do the same. *)
Definition PromotePlaceholder (now : Time) (rec : LedgerRecord) : ledger unit :=
  modify (fun s =>
    let rec :=
      match lookup2 (records s) (rec_OrgID rec) (rec_ResourceID rec) with
      | Some existing => rec <| rec_CreatedAt := rec_CreatedAt existing |>
      | None => rec <| rec_CreatedAt := or_now (rec_CreatedAt rec) now |>
      end in
    let rec :=
      if is_empty (rec_State rec) || unresolved_state (rec_State rec)
      then rec <| rec_State := LifecycleAccepted |> else rec in
    let rec := rec <| rec_UpdatedAt := now |> in
    let rec := rec <| rec_Attributes :=
      delete "ensured" (delete "placeholder" (rec_Attributes rec)) |> in
    s <| records := insert2 (rec_OrgID rec) (rec_ResourceID rec) rec (records s) |>).

(** ** Revisions *)
Definition AppendRevision (now : Time) (rev : Revision) : ledger unit :=
  modify (fun s =>
    let rev := rev <| rev_CreatedAt := or_now (rev_CreatedAt rev) now |> in
    s <| revisions := insert2 (rev_OrgID rev) (rev_RevisionID rev) rev (revisions s) |>).

Definition GetRevision (orgID revisionID : string) : ledger Revision :=
  find revisions orgID revisionID "revision not found".

Definition ListRevisions `{GoMapOrder} (orgID resourceID : string) (limit : Z)
    : ledger (list Revision) :=
  gets (fun s =>
    take_matching (fun r => String.eqb (rev_ResourceID r) resourceID) (or_limit limit 50)
      (go_values (inner (revisions s) orgID)) []).

(** ** Outbox and inbox *)
Definition EnqueueOutbox (now : Time) (newid : string) (entry : OutboxEntry) : ledger unit :=
  let entry := entry <| ob_ID := or_default (ob_ID entry) newid |> in
  let entry := entry <| ob_CreatedAt := or_now (ob_CreatedAt entry) now |> in
  modify (fun s => s <| outbox := outbox s ++ [entry] |>).

(** The header a claim writes goes into the stored entry too when its header map
    exists, the copy sharing it; a [nil] map is replaced in the copy only. *)
Definition leased (now : Time) (e : OutboxEntry) : OutboxEntry :=
  let h := default ∅ (ob_Headers e) in
  e <| ob_Headers := Some (<["leased_at" := format_rfc3339nano now]> h) |>.

Fixpoint claim_outbox (now leaseUntil : Time) (limit : Z) (entries : list OutboxEntry)
    (lease : gmap string Time) (out : list OutboxEntry)
    : list OutboxEntry * gmap string Time * list OutboxEntry :=
  match entries with
  | [] => ([], lease, out)
  | e :: rest =>
      let skip :=
        match ob_Published e with
        | Some _ => true
        | None => match lease !! ob_ID e with Some until => after until now | None => false end
        end in
      if skip then
        let '(rest, lease, out) := claim_outbox now leaseUntil limit rest lease out in
        (e :: rest, lease, out)
      else
        let lease := <[ob_ID e := leaseUntil]> lease in
        let stored := match ob_Headers e with Some _ => leased now e | None => e end in
        let out := out ++ [leased now e] in
        if limit <=? zlen out then (stored :: rest, lease, out)
        else
          let '(rest, lease, out) := claim_outbox now leaseUntil limit rest lease out in
          (stored :: rest, lease, out)
  end.

Definition ClaimOutbox (now : Time) (limit : Z) : ledger (list OutboxEntry) :=
  fun s =>
    let '(entries, lease, out) :=
      claim_outbox now (add_time now (30 * second)) (or_limit limit 10)
        (outbox s) (outboxLease s) [] in
    (Ok out, (s <| outbox := entries |>) <| outboxLease := lease |>).

Definition ListOutboxPending (orgID : string) (limit : Z) : ledger (list OutboxEntry) :=
  gets (fun s =>
    take_matching
      (fun e => match ob_Published e with
                | Some _ => false
                | None => is_empty orgID || String.eqb (ob_OrgID e) orgID
                end)
      (or_limit limit 100) (outbox s) []).

Definition MarkOutboxPublished (ids : list string) (at_ : Time) : ledger unit :=
  modify (fun s =>
    (s <| outboxLease := foldl (fun m id => delete id m) (outboxLease s) ids |>)
      <| outbox := map (fun e => if mem_str (ob_ID e) ids then e <| ob_Published := Some at_ |>
                                 else e) (outbox s) |>).

Definition inbox_key (orgID consumer msgID : string) : string :=
  orgID +:+ "|" +:+ consumer +:+ "|" +:+ msgID.
Definition PutInbox (entry : InboxEntry) : ledger unit :=
  modify (fun s => s <| inbox :=
    <[inbox_key (in_OrgID entry) (in_Consumer entry) (in_MsgID entry) := entry]> (inbox s) |>).
Definition HasInbox (orgID consumer msgID : string) : ledger bool :=
  gets (fun s => bool_decide (is_Some (inbox s !! inbox_key orgID consumer msgID))).

(** ** Mapping specs, keyed by the source alone *)
Definition PutMappingSpec (orgID sourceID : string) (spec : Spec) : ledger unit :=
  if is_empty sourceID then throw (ErrValidation "source_id required")
  else
    let spec := spec <| sp_OrganizationID := or_default (sp_OrganizationID spec) orgID |> in
    let spec := spec <| sp_SourceID := or_default (sp_SourceID spec) sourceID |> in
    modify (fun s => s <| mappings := <[sourceID := spec]> (mappings s) |>).

Definition GetMappingSpec (orgID sourceID : string) : ledger Spec :=
  fun s =>
    match mappings s !! sourceID with
    | None => (Err (ErrNotFound "mapping spec not found"), s)
    | Some spec =>
        if negb (is_empty orgID) && negb (is_empty (sp_OrganizationID spec))
           && negb (String.eqb (sp_OrganizationID spec) orgID)
        then (Err (ErrNotFound "mapping spec not found"), s)
        else (Ok spec, s)
    end.

(** ** Access requests *)
Definition PutAccessRequest (now : Time)
    (orgID requestID resourceID purpose justification auditID : string) : ledger unit :=
  if is_empty orgID || is_empty requestID
  then throw (ErrValidation "org and request_id required")
  else
    let req := mkAccessRequest requestID orgID resourceID purpose justification "pending" now
                 auditID in
    modify (fun s => s <| accessReqs := insert2 orgID requestID req (accessReqs s) |>).
Definition GetAccessRequest (orgID requestID : string) : ledger AccessRequest :=
  find accessReqs orgID requestID "access request not found".

(** ** Idempotency keys *)
Definition idem_key (orgID key : string) : string := orgID +:+ "|" +:+ key.
Definition GetIdempotency (orgID key : string) : ledger IdempotencyRecord :=
  fun s => match idempotency s !! idem_key orgID key with
           | Some rec => (Ok rec, s)
           | None => (Err (ErrNotFound "idempotency key not found"), s)
           end.
Definition PutIdempotency (now : Time) (rec : IdempotencyRecord) : ledger unit :=
  fun s =>
    let key := idem_key (idem_OrgID rec) (idem_IdempotencyKey rec) in
    match idempotency s !! key with
    | Some _ => (Err (ErrConflict "idempotency key exists"), s)
    | None =>
        let rec := rec <| idem_CreatedAt := or_now (idem_CreatedAt rec) now |> in
        (Ok tt, s <| idempotency := <[key := rec]> (idempotency s) |>)
    end.

(** ** Sources *)
Definition UpsertSource (now : Time) (src : SourceRegistration) : ledger unit :=
  let src := src <| src_CreatedAt := or_now (src_CreatedAt src) now |> in
  let src := src <| src_UpdatedAt := now |> in
  let src := src <| src_MappingSpecInline := "" |> in
  modify (fun s => s <| sources := insert2 (src_OrgID src) (src_SourceID src) src (sources s) |>).
Definition GetSource (orgID sourceID : string) : ledger SourceRegistration :=
  find sources orgID sourceID "source not found".
Definition ListSources `{GoMapOrder} (orgID : string) : ledger (list SourceRegistration) :=
  gets (fun s => go_values (inner (sources s) orgID)).

(** ** Delegations *)
Definition CreateDelegation (now : Time) (grant : DelegationGrant) : ledger unit :=
  let grant := grant <| dg_CreatedAt := or_now (dg_CreatedAt grant) now |> in
  modify (fun s => s <| delegations := insert2 (dg_OrgID grant) (dg_ID grant) grant (delegations s) |>).
Definition GetDelegation (orgID grantID : string) : ledger DelegationGrant :=
  find delegations orgID grantID "delegation not found".
Definition RevokeDelegation (orgID grantID : string) : ledger unit :=
  g ← find delegations orgID grantID "delegation not found";
  modify (fun s => s <| delegations :=
    insert2 orgID grantID (g <| dg_Revoked := true |>) (delegations s) |>).
Definition ListDelegations `{GoMapOrder} (orgID actorID : string) : ledger (list DelegationGrant) :=
  gets (fun s => filter (fun g => is_empty actorID || String.eqb (dg_ActorID g) actorID = true)
                   (go_values (inner (delegations s) orgID))).

(** ** Graph edges *)

(** The first binding of [l] that satisfies [p]. *)
Definition find_entry {V} (p : V -> bool) (l : list (string * V)) : option (string * V) :=
  match filter (fun kv => p kv.2 = true) l with
  | kv :: _ => Some kv
  | [] => None
  end.

Definition active_triple (edge existing : GraphEdge) : bool :=
  String.eqb (edge_State existing) "ACTIVE"
  && String.eqb (edge_FromID existing) (edge_FromID edge)
  && String.eqb (edge_ToID existing) (edge_ToID edge)
  && String.eqb (edge_Predicate existing) (edge_Predicate edge).

Definition UpsertEdge `{GoMapOrder} (now : Time) (newid : string) (edge : GraphEdge)
    : ledger unit :=
  if is_empty (edge_OrgID edge) || is_empty (edge_FromID edge) || is_empty (edge_ToID edge)
     || is_empty (edge_Predicate edge)
  then throw (ErrValidation "org, from_id, to_id, predicate required")
  else if String.eqb (edge_FromID edge) (edge_ToID edge)
  then throw (ErrValidation "self-edges are not allowed")
  else
    let edge := edge <| edge_EdgeID := or_default (edge_EdgeID edge) newid |> in
    let edge := edge <| edge_CreatedAt := or_now (edge_CreatedAt edge) now |> in
    let edge := edge <| edge_UpdatedAt := now |> in
    let edge := edge <| edge_State := or_default (edge_State edge) "ACTIVE" |> in
    modify (fun s =>
      match find_entry (active_triple edge) (go_range (inner (edges s) (edge_OrgID edge))) with
      | Some (id, existing) =>
          let existing := existing <| edge_Confidence := edge_Confidence edge |> in
          let existing := existing <| edge_SyncAuthz := edge_SyncAuthz edge |> in
          let existing := existing <| edge_Attributes := edge_Attributes edge |> in
          let existing := existing <| edge_UpdatedAt := now |> in
          s <| edges := insert2 (edge_OrgID edge) id existing (edges s) |>
      | None => s <| edges := insert2 (edge_OrgID edge) (edge_EdgeID edge) edge (edges s) |>
      end).

Definition GetEdge (orgID edgeID : string) : ledger GraphEdge :=
  find edges orgID edgeID "edge not found".

Definition edge_wanted (opts : EdgeListOptions) (e : GraphEdge) : bool :=
  (opt_IncludeDead opts || negb (String.eqb (edge_State e) "TOMBSTONED"))
  && (match opt_ResourceIDs opts with [] => true | _ => false end
      || mem_str (edge_FromID e) (opt_ResourceIDs opts)
      || mem_str (edge_ToID e) (opt_ResourceIDs opts))
  && (match opt_Predicates opts with [] => true | _ => false end
      || mem_str (edge_Predicate e) (opt_Predicates opts)).

Definition edge_less : GraphEdge -> GraphEdge -> bool :=
  then_by edge_FromID str_lt (then_by edge_Predicate str_lt (then_by edge_ToID str_lt
    (then_by edge_CreatedAt Z.ltb (fun a b => str_lt (edge_EdgeID a) (edge_EdgeID b))))).

Definition ListEdges `{GoMapOrder} (orgID : string) (opts : EdgeListOptions)
    : ledger (list GraphEdge) :=
  gets (fun s =>
    let out := filter (fun e => edge_wanted opts e = true) (go_values (inner (edges s) orgID)) in
    ztake (or_limit (opt_Limit opts) 200) (sort_slice edge_less out)).

Definition TombstoneEdge (now : Time) (orgID edgeID : string) : ledger unit :=
  e ← find edges orgID edgeID "edge not found";
  let e := e <| edge_State := "TOMBSTONED" |> in
  let e := e <| edge_UpdatedAt := now |> in
  modify (fun s => s <| edges := insert2 orgID edgeID e (edges s) |>).

(** [for oid, m := range tbl { if orgID != "" && oid != orgID { continue };
    for id, v := range m { ... } }] *)
Definition tenant_entries `{GoMapOrder} {V} (tbl : tenants V) (orgID : string)
    : list (string * string * V) :=
  o ← filter (fun om : string * gmap string V => is_empty orgID || String.eqb om.1 orgID = true)
        (go_range tbl);
  (fun kv : string * V => (o.1, kv.1, kv.2)) <$> go_range o.2.

Definition ListActiveParentEdgesNeedingAuthz `{GoMapOrder} (orgID : string) (limit : Z)
    : ledger (list GraphEdge) :=
  gets (fun s =>
    take_matching (fun e => String.eqb (edge_State e) "ACTIVE"
                            && String.eqb (edge_Predicate e) EdgeParent && edge_SyncAuthz e)
      (or_limit limit 100) (tenant_entries (edges s) orgID).*2 []).

(** ** The queue of authorization tuples *)
Definition same_pending (op existing : AuthzTupleOp) : bool :=
  String.eqb (op_Status existing) "pending"
  && String.eqb (op_Operation existing) (op_Operation op)
  && String.eqb (op_Object existing) (op_Object op)
  && String.eqb (op_Relation existing) (op_Relation op)
  && String.eqb (op_Subject existing) (op_Subject op).

Definition EnqueueAuthzTuple `{GoMapOrder} (now : Time) (newid : string) (op : AuthzTupleOp)
    : ledger unit :=
  if is_empty (op_OrgID op) || is_empty (op_Object op) || is_empty (op_Relation op)
     || is_empty (op_Subject op)
  then throw (ErrValidation "authz tuple fields required")
  else
    let op := op <| op_ID := or_default (op_ID op) newid |> in
    let op := op <| op_Operation := or_default (op_Operation op) "write" |> in
    let op := op <| op_Status := or_default (op_Status op) "pending" |> in
    let op := op <| op_CreatedAt := or_now (op_CreatedAt op) now |> in
    let op := op <| op_UpdatedAt := now |> in
    let op := op <| op_NextAttempt := or_now (op_NextAttempt op) now |> in
    modify (fun s =>
      match find_entry (same_pending op) (go_range (inner (authzTuples s) (op_OrgID op))) with
      | Some (id, existing) =>
          let existing := existing <| op_EdgeID := op_EdgeID op |> in
          let existing := existing <| op_UpdatedAt := now |> in
          s <| authzTuples := insert2 (op_OrgID op) id existing (authzTuples s) |>
      | None => s <| authzTuples := insert2 (op_OrgID op) (op_ID op) op (authzTuples s) |>
      end).

Definition claimable (now : Time) (op : AuthzTupleOp) : bool :=
  String.eqb (op_Status op) "pending"
  && negb (match op_LeaseUntil op with Some t => after t now | None => false end)
  && negb (after (op_NextAttempt op) now).

Definition lease_op (now until : Time) (op : AuthzTupleOp) : AuthzTupleOp :=
  (op <| op_LeaseUntil := Some until |>) <| op_UpdatedAt := now |>.

(** Each row is updated in place when it is taken; a [range] never sees the same
    key twice, so the rows still to come are those of the table at the start. *)
Fixpoint claim_tuples (now until : Time) (limit : Z) (rows : list (string * string * AuthzTupleOp))
    (tbl : tenants AuthzTupleOp) (out : list AuthzTupleOp)
    : list AuthzTupleOp * tenants AuthzTupleOp :=
  match rows with
  | [] => (out, tbl)
  | (orgID, id, op) :: rest =>
      if claimable now op then
        let op := lease_op now until op in
        let tbl := insert2 orgID id op tbl in
        let out := out ++ [op] in
        if limit <=? zlen out then (out, tbl) else claim_tuples now until limit rest tbl out
      else claim_tuples now until limit rest tbl out
  end.

Definition ClaimAuthzTuples `{GoMapOrder} (now : Time) (limit lease : Z)
    : ledger (list AuthzTupleOp) :=
  fun s =>
    let limit := or_limit limit 20 in
    let lease := or_limit lease (30 * second) in
    let '(out, tbl) := claim_tuples now (add_time now lease) limit
                         (tenant_entries (authzTuples s) "") (authzTuples s) [] in
    (Ok out, s <| authzTuples := tbl |>).

(** The first organization, in iteration order, that has a row [id]. *)
Definition org_of_tuple `{GoMapOrder} (id : string) (tbl : tenants AuthzTupleOp)
    : option (string * AuthzTupleOp) :=
  match filter (fun om : string * gmap string AuthzTupleOp => is_Some (om.2 !! id)) (go_range tbl) with
  | (orgID, m) :: _ => (fun op => (orgID, op)) <$> m !! id
  | [] => None
  end.

Definition update_tuple `{GoMapOrder} (id : string) (f : AuthzTupleOp -> AuthzTupleOp)
    : ledger unit :=
  fun s =>
    match org_of_tuple id (authzTuples s) with
    | Some (orgID, op) => (Ok tt, s <| authzTuples := insert2 orgID id (f op) (authzTuples s) |>)
    | None => (Err (ErrNotFound "authz tuple not found"), s)
    end.

Definition MarkAuthzTupleApplied `{GoMapOrder} (id : string) (at_ : Time) : ledger unit :=
  update_tuple id (fun op =>
    let op := op <| op_Status := "applied" |> in
    let op := op <| op_AppliedAt := Some at_ |> in
    let op := op <| op_UpdatedAt := at_ |> in
    let op := op <| op_LeaseUntil := None |> in
    op <| op_LastError := "" |>).

Definition MarkAuthzTupleFailed `{GoMapOrder} (now : Time) (id : string) (attempts : Z)
    (next : Time) (errMsg : string) (dead : bool) : ledger unit :=
  update_tuple id (fun op =>
    let op := op <| op_Attempts := attempts |> in
    let op := op <| op_NextAttempt := next |> in
    let op := op <| op_LastError := errMsg |> in
    let op := op <| op_LeaseUntil := None |> in
    let op := op <| op_UpdatedAt := now |> in
    if dead then op <| op_Status := "dead" |> else op).

Definition count_status (status : string) (ops : list AuthzTupleOp) : Z :=
  zlen (filter (fun op => op_Status op = status) ops).
Definition CountAuthzTuplePending `{GoMapOrder} (orgID : string) : ledger (Z * Z) :=
  gets (fun s =>
    let ops := (tenant_entries (authzTuples s) orgID).*2 in
    (count_status "pending" ops, count_status "dead" ops)).

Definition tuple_is (operation object relation subject : string) (op : AuthzTupleOp) : bool :=
  String.eqb (op_Operation op) (or_default operation "write")
  && (String.eqb (op_Object op) object && String.eqb (op_Relation op) relation
      && String.eqb (op_Subject op) subject).

Definition HasAuthzTupleCoverage `{GoMapOrder} (orgID operation object relation subject : string)
    : ledger bool :=
  gets (fun s =>
    existsb (fun op => tuple_is operation object relation subject op
                       && (String.eqb (op_Status op) "pending" || String.eqb (op_Status op) "applied"))
      (tenant_entries (authzTuples s) orgID).*2).

Definition HasAuthzTuplePending `{GoMapOrder} (orgID operation object relation subject : string)
    : ledger bool :=
  gets (fun s =>
    existsb (fun op => tuple_is operation object relation subject op
                       && String.eqb (op_Status op) "pending")
      (tenant_entries (authzTuples s) orgID).*2).

(** ** Audit log, change feed, quotas *)
Definition entries_of {V} (m : gmap string (list V)) (orgID : string) : list V :=
  default [] (m !! orgID).

Definition AppendAudit (event : AuditEvent) : ledger unit :=
  modify (fun s => s <| audits :=
    <[aud_OrgID event := entries_of (audits s) (aud_OrgID event) ++ [event]]> (audits s) |>).

Definition ListAudit (orgID : string) (limit : Z) : ledger (list AuditEvent) :=
  gets (fun s =>
    let ev := entries_of (audits s) orgID in
    let limit := if (limit <=? 0) || (zlen ev <? limit) then zlen ev else limit in
    zdrop (zlen ev - limit) ev).

Definition AppendChange (ev : ChangeEvent) : ledger unit :=
  modify (fun s => s <| changes :=
    <[chg_OrgID ev := entries_of (changes s) (chg_OrgID ev) ++ [ev]]> (changes s) |>).

Definition change_less : ChangeEvent -> ChangeEvent -> bool :=
  then_by chg_OccurredAt Z.ltb (fun a b => str_lt (chg_EventID a) (chg_EventID b)).

(** ["<RFC3339Nano>|<id>"]; [None] when the cursor is ignored. *)
Definition parse_change_cursor (cursor : string) : option (Time * string) :=
  i ← index_byte cursor "|";
  t ← parse_rfc3339 (take_str i cursor);
  Some (t, drop_str (S i) cursor).

Definition after_cursor (cur : option (Time * string)) (ev : ChangeEvent) : bool :=
  match cur with
  | Some (t, id) =>
      negb (before (chg_OccurredAt ev) t
            || (chg_OccurredAt ev =? t) && negb (str_lt id (chg_EventID ev)))
  | None => true
  end.

Definition change_cursor (ev : ChangeEvent) : string :=
  format_rfc3339nano (chg_OccurredAt ev) +:+ "|" +:+ chg_EventID ev.

Definition ListChanges (orgID cursor : string) (limit : Z) : ledger (list ChangeEvent * string) :=
  gets (fun s =>
    let all := sort_slice change_less (entries_of (changes s) orgID) in
    let out := take_matching (after_cursor (parse_change_cursor cursor)) (or_limit limit 50) all [] in
    (out, from_option change_cursor cursor (last out))).

Definition GetQuotas (orgID : string) : ledger Quota :=
  gets (fun s => default (mkQuota 60 120 10 25) (quotas s !! orgID)).
Definition SetQuotas (orgID : string) (q : Quota) : ledger unit :=
  modify (fun s => s <| quotas := <[orgID := q]> (quotas s) |>).

(** ** Legal holds and export jobs *)
Definition SetLegalHold (orgID resourceID : string) (held : bool) : ledger unit :=
  modify (fun s => s <| holds := insert2 orgID resourceID held (holds s) |>).
Definition HasLegalHold (orgID resourceID : string) : ledger bool :=
  gets (fun s => default false (lookup2 (holds s) orgID resourceID)).

Definition PutExportJob (now : Time) (orgID jobID status : string) (manifest : any) : ledger unit :=
  modify (fun s => s <| exports :=
    insert2 orgID jobID (mkExportJob jobID orgID status now manifest) (exports s) |>).
Definition LookupExportJob (orgID jobID : string) : ledger ExportJob :=
  find exports orgID jobID "export not found".
Definition GetExportJob (orgID jobID : string) : ledger (string * string * any) :=
  j ← LookupExportJob orgID jobID;
  mret (ej_JobID j, ej_Status j, ej_Manifest j).

(** ** The key of a mapping spec *)

(** Mapping specs are keyed by the source alone: once a second organization
    registers a spec for the same source identifier, the first organization no
    longer finds its own. *)
Theorem mapping_spec_overwritten org1 org2 sourceID sp1 sp2 s :
  sourceID <> "" -> org1 <> "" -> org2 <> "" -> org1 <> org2 -> sp_OrganizationID sp2 = "" ->
  let s1 := (PutMappingSpec org1 sourceID sp1 s).2 in
  let s2 := (PutMappingSpec org2 sourceID sp2 s1).2 in
  (GetMappingSpec org1 sourceID s2).1 = Err (ErrNotFound "mapping spec not found").
Proof.
  intros Hs H1 H2 Hne Hsp. apply is_empty_false in Hs, H1, H2. simpl.
  unfold PutMappingSpec. rewrite !Hs. simpl. unfold GetMappingSpec. simpl.
  rewrite lookup_insert_eq. simpl. rewrite Hsp. unfold or_default. simpl.
  rewrite H1, H2. simpl. apply String.eqb_neq in Hne. rewrite String.eqb_sym in Hne. by rewrite Hne.
Qed.

Lemma mapping_spec_overwritten_witness :
  let s1 := (PutMappingSpec "acme" "src1" sample_spec NewStore).2 in
  let s2 := (PutMappingSpec "globex" "src1" (sample_spec <| sp_OrganizationID := "" |>) s1).2 in
  (GetMappingSpec "acme" "src1" s2).1 = Err (ErrNotFound "mapping spec not found").
Proof. apply mapping_spec_overwritten; [discriminate.. | reflexivity]. Defined.
