(* ===== verification/LedgerFacts.v ===== *)
(** * The ledger as a state machine: invariants and query contracts

    [call] lists the state-changing methods of the store; [exec] runs one and
    [run] a sequence of them, in any interleaving, since each method holds the
    store's mutex. Invariants are proved by induction on the sequence. *)
From S2P Require Import Prelude GoStd Ports Platform Json Mapping Ledger.

Inductive call :=
| CCreateOrganization (now : Time) (org : Organization)
| CUpsertRecord (now : Time) (rec : LedgerRecord)
| CInsertPlaceholder (now : Time) (rec : LedgerRecord)
| CPromotePlaceholder (now : Time) (rec : LedgerRecord)
| CAppendRevision (now : Time) (rev : Revision)
| CEnqueueOutbox (now : Time) (newid : string) (entry : OutboxEntry)
| CClaimOutbox (now : Time) (limit : Z)
| CMarkOutboxPublished (ids : list string) (at_ : Time)
| CPutInbox (entry : InboxEntry)
| CPutMappingSpec (orgID sourceID : string) (spec : Spec)
| CPutAccessRequest (now : Time) (orgID requestID resourceID purpose justification auditID : string)
| CPutIdempotency (now : Time) (rec : IdempotencyRecord)
| CUpsertSource (now : Time) (src : SourceRegistration)
| CCreateDelegation (now : Time) (grant : DelegationGrant)
| CRevokeDelegation (orgID grantID : string)
| CUpsertEdge (now : Time) (newid : string) (edge : GraphEdge)
| CTombstoneEdge (now : Time) (orgID edgeID : string)
| CEnqueueAuthzTuple (now : Time) (newid : string) (op : AuthzTupleOp)
| CClaimAuthzTuples (now : Time) (limit lease : Z)
| CMarkAuthzTupleApplied (id : string) (at_ : Time)
| CMarkAuthzTupleFailed (now : Time) (id : string) (attempts : Z) (next : Time)
    (errMsg : string) (dead : bool)
| CAppendAudit (event : AuditEvent)
| CAppendChange (ev : ChangeEvent)
| CSetQuotas (orgID : string) (q : Quota)
| CSetLegalHold (orgID resourceID : string) (held : bool)
| CPutExportJob (now : Time) (orgID jobID status : string) (manifest : any).

Section Run.
Context `{GoMapOrder}.

Definition exec (c : call) (s : Store) : Store :=
  match c with
  | CCreateOrganization now org => (CreateOrganization now org s).2
  | CUpsertRecord now rec => (UpsertRecord now rec s).2
  | CInsertPlaceholder now rec => (InsertPlaceholder now rec s).2
  | CPromotePlaceholder now rec => (PromotePlaceholder now rec s).2
  | CAppendRevision now rev => (AppendRevision now rev s).2
  | CEnqueueOutbox now newid entry => (EnqueueOutbox now newid entry s).2
  | CClaimOutbox now limit => (ClaimOutbox now limit s).2
  | CMarkOutboxPublished ids at_ => (MarkOutboxPublished ids at_ s).2
  | CPutInbox entry => (PutInbox entry s).2
  | CPutMappingSpec orgID sourceID spec => (PutMappingSpec orgID sourceID spec s).2
  | CPutAccessRequest now orgID requestID resourceID purpose justification auditID =>
      (PutAccessRequest now orgID requestID resourceID purpose justification auditID s).2
  | CPutIdempotency now rec => (PutIdempotency now rec s).2
  | CUpsertSource now src => (UpsertSource now src s).2
  | CCreateDelegation now grant => (CreateDelegation now grant s).2
  | CRevokeDelegation orgID grantID => (RevokeDelegation orgID grantID s).2
  | CUpsertEdge now newid edge => (UpsertEdge now newid edge s).2
  | CTombstoneEdge now orgID edgeID => (TombstoneEdge now orgID edgeID s).2
  | CEnqueueAuthzTuple now newid op => (EnqueueAuthzTuple now newid op s).2
  | CClaimAuthzTuples now limit lease => (ClaimAuthzTuples now limit lease s).2
  | CMarkAuthzTupleApplied id at_ => (MarkAuthzTupleApplied id at_ s).2
  | CMarkAuthzTupleFailed now id attempts next errMsg dead =>
      (MarkAuthzTupleFailed now id attempts next errMsg dead s).2
  | CAppendAudit event => (AppendAudit event s).2
  | CAppendChange ev => (AppendChange ev s).2
  | CSetQuotas orgID q => (SetQuotas orgID q s).2
  | CSetLegalHold orgID resourceID held => (SetLegalHold orgID resourceID held s).2
  | CPutExportJob now orgID jobID status manifest =>
      (PutExportJob now orgID jobID status manifest s).2
  end.

Definition run (cs : list call) (s : Store) : Store := foldl (fun s c => exec c s) s cs.
End Run.

(** ** Generic lemmas on nested tables *)

(** Every row of a table satisfies [P], given its two keys. *)
Definition all_rows {V} (P : string -> string -> V -> Prop) (m : tenants V) : Prop :=
  forall a b v, lookup2 m a b = Some v -> P a b v.

Lemma all_rows_empty {V} (P : string -> string -> V -> Prop) : all_rows P ∅.
Proof. intros a b v. by rewrite lookup2_empty. Qed.

Lemma all_rows_insert2 {V} (P : string -> string -> V -> Prop) m a b v :
  all_rows P m -> P a b v -> all_rows P (insert2 a b v m).
Proof.
  intros Hm Hv a' b' v'. rewrite lookup2_insert2. case_decide as Hd; [|apply Hm].
  destruct Hd as [-> ->]. by intros [= <-].
Qed.

(** At most one row of each organization in which [live] holds has a given
    [key]. *)
Definition unique_key {V K} (live : V -> Prop) (key : V -> K) (m : tenants V) : Prop :=
  forall a b1 b2 v1 v2,
    lookup2 m a b1 = Some v1 -> lookup2 m a b2 = Some v2 ->
    live v1 -> live v2 -> key v1 = key v2 -> b1 = b2.

Lemma unique_key_empty {V K} (live : V -> Prop) (key : V -> K) : unique_key live key ∅.
Proof. intros a b1 b2 v1 v2. by rewrite lookup2_empty. Qed.

Lemma unique_key_insert2 {V K} (live : V -> Prop) (key : V -> K) m a b v :
  unique_key live key m ->
  (live v -> forall b' v', lookup2 m a b' = Some v' -> live v' -> key v' = key v -> b' = b) ->
  unique_key live key (insert2 a b v m).
Proof.
  intros Hm Hnew a' b1 b2 v1 v2. rewrite !lookup2_insert2.
  case_decide as H1; case_decide as H2.
  - naive_solver.
  - destruct H1 as [-> ->]. intros [= <-] Hl2 L1 L2 Hk. symmetry. by eapply Hnew.
  - destruct H2 as [-> ->]. intros Hl1 [= <-] L1 L2 Hk. by eapply Hnew.
  - apply Hm.
Qed.

(** A row update that keeps the key and revives nothing. *)
Lemma unique_key_update {V K} (live : V -> Prop) (key : V -> K) m a b v v0 :
  unique_key live key m -> lookup2 m a b = Some v0 -> (live v -> live v0) -> key v = key v0 ->
  unique_key live key (insert2 a b v m).
Proof.
  intros Hm H0 Hl Hk. apply unique_key_insert2; [done|].
  intros Hv b' v' H' Hl' Hk'. eapply Hm; eauto. congruence.
Qed.

Lemma find_entry_Some {V} (p : V -> bool) l k v :
  find_entry p l = Some (k, v) -> (k, v) ∈ l /\ p v = true.
Proof.
  unfold find_entry. destruct (filter _ l) as [|kv l'] eqn:E; [done|]. intros [= ->].
  assert (Hin : (k, v) ∈ filter (fun kv : string * V => p kv.2 = true) l) by (rewrite E; left).
  apply list_elem_of_filter in Hin as [? ?]. done.
Qed.

Lemma find_entry_None {V} (p : V -> bool) l k v :
  find_entry p l = None -> (k, v) ∈ l -> p v = false.
Proof.
  unfold find_entry. destruct (filter _ l) as [|kv l'] eqn:E; [|done]. intros _ Hin.
  destruct (p v) eqn:Hp; [|done]. exfalso.
  assert (Hf : (k, v) ∈ filter (fun kv : string * V => p kv.2 = true) l).
  { by apply list_elem_of_filter. }
  rewrite E in Hf. by apply not_elem_of_nil in Hf.
Qed.

Section Ranges.
Context `{GoMapOrder} {V : Type}.

Lemma find_row_Some (p : V -> bool) (m : tenants V) a k v :
  find_entry p (go_range (inner m a)) = Some (k, v) -> lookup2 m a k = Some v /\ p v = true.
Proof. intros [Hin Hp]%find_entry_Some. by apply elem_of_go_range in Hin. Qed.

Lemma find_row_None (p : V -> bool) (m : tenants V) a k v :
  find_entry p (go_range (inner m a)) = None -> lookup2 m a k = Some v -> p v = false.
Proof. intros Hf Hk. eapply find_entry_None; [done|]. by apply elem_of_go_range. Qed.

Lemma elem_of_tenant_entries (tbl : tenants V) orgID a b v :
  (a, b, v) ∈ tenant_entries tbl orgID <->
  lookup2 tbl a b = Some v /\ (orgID = "" \/ orgID = a).
Proof.
  unfold tenant_entries. rewrite list_elem_of_bind. split.
  - intros ([o m] & Hin & Hf). apply list_elem_of_filter in Hf as [Horg Hm].
    apply elem_of_go_range in Hm. apply list_elem_of_fmap in Hin as ([k w] & [= -> -> ->] & Hk).
    apply elem_of_go_range in Hk. simpl in *. split.
    + unfold lookup2, inner. by rewrite Hm.
    + apply orb_true_iff in Horg as [Horg|Horg]; apply String.eqb_eq in Horg; auto.
  - intros [Hl Horg]. unfold lookup2, inner in Hl. destruct (tbl !! a) as [m|] eqn:Ha.
    + exists (a, m). split.
      * apply list_elem_of_fmap. exists (b, v). split; [done|]. by apply elem_of_go_range.
      * apply list_elem_of_filter. split; [|by apply elem_of_go_range].
        apply orb_true_iff. unfold is_empty. rewrite !String.eqb_eq. naive_solver.
    + simpl in Hl. by rewrite lookup_empty in Hl.
Qed.

Lemma NoDup_go_range {W} (m : gmap string W) : NoDup (go_range m).
Proof. rewrite go_range_perm. apply NoDup_map_to_list. Qed.

Lemma NoDup_tenant_entries (tbl : tenants V) orgID :
  NoDup (tenant_entries tbl orgID).*1.
Proof.
  apply NoDup_fmap_fst.
  - intros [a b] v1 v2 [H1 _]%elem_of_tenant_entries [H2 _]%elem_of_tenant_entries. congruence.
  - unfold tenant_entries. apply NoDup_bind.
    + intros [o1 m1] [o2 m2] [[a b] v] [_ H1]%list_elem_of_filter [_ H2]%list_elem_of_filter.
      intros (? & [= <- _ _] & _)%list_elem_of_fmap (? & [= <- _ _] & _)%list_elem_of_fmap.
      apply elem_of_go_range in H1, H2. congruence.
    + intros [o m] _. apply NoDup_fmap_2_strong; [|apply NoDup_go_range].
      by intros [] [] _ _ [=-> ->].
    + apply NoDup_filter, NoDup_go_range.
Qed.
End Ranges.

(** ** What a claim takes *)

(** [tbl'] is [tbl] with [f] applied to the rows of [taken]. *)
Definition rows_updated {V} (f : V -> V) (taken : list (string * string * V))
    (tbl tbl' : tenants V) : Prop :=
  forall a b, lookup2 tbl' a b =
    match list_find (fun row => row.1 = (a, b)) taken with
    | Some (_, row) => Some (f row.2)
    | None => lookup2 tbl a b
    end.

Lemma rows_updated_in {V} (f : V -> V) taken tbl tbl' a b v :
  rows_updated f taken tbl tbl' -> NoDup taken.*1 -> ((a, b), v) ∈ taken ->
  lookup2 tbl' a b = Some (f v).
Proof.
  intros Hu Hnd Hin. rewrite Hu. destruct (list_find _ taken) as [[i row]|] eqn:E.
  - apply list_find_Some in E as (Hi & Hrow & _). destruct row as [k w]. simpl in *. subst k.
    apply list_elem_of_lookup_2 in Hi. do 2 f_equal.
    exact (NoDup_fst_functional taken (a, b) w v Hnd Hi Hin).
  - apply list_find_None in E. by destruct (proj1 (Forall_forall _ _) E ((a, b), v) Hin).
Qed.

Lemma rows_updated_out {V} (f : V -> V) taken tbl tbl' a b :
  rows_updated f taken tbl tbl' -> (a, b) ∉ taken.*1 -> lookup2 tbl' a b = lookup2 tbl a b.
Proof.
  intros Hu Hout. rewrite Hu. destruct (list_find _ taken) as [[i row]|] eqn:E; [|done].
  apply list_find_Some in E as (Hi & Hrow & _). destruct Hout.
  apply list_elem_of_fmap. exists row. split; [done|]. by eapply list_elem_of_lookup_2.
Qed.

Lemma claim_tuples_spec now until limit rows tbl out0 out tbl' :
  claim_tuples now until limit rows tbl out0 = (out, tbl') -> NoDup rows.*1 ->
  exists taken,
    taken `sublist_of` rows /\
    Forall (fun row => claimable now row.2 = true) taken /\
    out = out0 ++ ((fun row => lease_op now until row.2) <$> taken) /\
    rows_updated (lease_op now until) taken tbl tbl' /\
    (zlen out0 < limit -> zlen out <= limit).
Proof.
  revert tbl out0. induction rows as [|[[a b] op] rows IH]; intros tbl out0; simpl.
  - intros [= <- <-] _. exists []. rewrite app_nil_r. repeat split; try constructor; lia.
  - intros Hc [Hnin Hnd]%NoDup_cons. destruct (claimable now op) eqn:Hcl.
    + assert (Hupd : forall taken tbl', (a, b) ∉ taken.*1 ->
        rows_updated (lease_op now until) taken (insert2 a b (lease_op now until op) tbl) tbl' ->
        rows_updated (lease_op now until) ((a, b, op) :: taken) tbl tbl').
      { intros taken t Hout Hu a' b'. cbn [list_find]. rewrite Hu. simpl.
        destruct (decide ((a, b) = (a', b'))) as [[= <- <-]|Hne].
        - destruct (list_find _ taken) as [[i row]|] eqn:E; simpl.
          + apply list_find_Some in E as (Hi & Hrow & _). destruct Hout. rewrite <- Hrow.
            apply list_elem_of_fmap. exists row. split; [done|]. by eapply list_elem_of_lookup_2.
          + by rewrite lookup2_insert2_eq.
        - destruct (list_find _ taken) as [[i row]|]; simpl; [done|].
          rewrite lookup2_insert2. case_decide; [naive_solver | done]. }
      destruct (Z.leb_spec limit (zlen (out0 ++ [lease_op now until op]))) as [Hl|Hl].
      * injection Hc as <- <-. exists [(a, b, op)]. split; [|split; [|split; [done|split]]].
        -- apply sublist_skip, sublist_nil_l.
        -- by repeat constructor.
        -- apply Hupd; [by apply not_elem_of_nil|]. by intros a' b'.
        -- unfold zlen in *. rewrite length_app in *. simpl in *. lia.
      * apply IH in Hc as (taken & Hsub & Hall & -> & Hu & Hlen); [|done].
        exists ((a, b, op) :: taken). split; [by apply sublist_skip|].
        split; [by constructor|]. split; [by rewrite <- app_assoc|]. split; [|].
        -- apply Hupd; [|done]. intros Hin. apply Hnin.
           eapply elem_of_sublist; [done | by apply fmap_sublist].
        -- auto.
    + apply IH in Hc as (taken & Hsub & Hall & -> & Hu & Hlen); [|done].
      exists taken. split; [by apply sublist_cons|]. done.
Qed.

(** ** The invariant of the store *)
Definition triple (e : GraphEdge) : string * string * string :=
  (edge_FromID e, edge_ToID e, edge_Predicate e).
Definition tuple_key (op : AuthzTupleOp) : string * string * string * string :=
  (op_Operation op, op_Object op, op_Relation op, op_Subject op).

(** Every row is filed under its own organization and identifier; an edge has two
    different endpoints, a tuple three non-empty names; no two active edges of an
    organization are the same triple and no two pending operations the same. *)
Record edges_ok (m : tenants GraphEdge) : Prop := {
  edges_filed : all_rows (fun a b e => edge_OrgID e = a /\ edge_EdgeID e = b) m;
  edges_named : all_rows (fun _ _ e =>
    edge_OrgID e <> "" /\ edge_FromID e <> "" /\ edge_ToID e <> "" /\ edge_Predicate e <> "" /\
    edge_FromID e <> edge_ToID e) m;
  edges_unique : unique_key (fun e => edge_State e = "ACTIVE") triple m;
}.

Record tuples_ok (m : tenants AuthzTupleOp) : Prop := {
  tuples_filed : all_rows (fun a b op => op_OrgID op = a /\ op_ID op = b) m;
  tuples_named : all_rows (fun _ _ op =>
    op_OrgID op <> "" /\ op_Object op <> "" /\ op_Relation op <> "" /\ op_Subject op <> "") m;
  tuples_unique : unique_key (fun op => op_Status op = "pending") tuple_key m;
}.

Record ledger_ok (s : Store) : Prop := {
  ok_orgs : forall k o, orgs s !! k = Some o -> org_ID o = k;
  ok_records : all_rows (fun a b r => rec_OrgID r = a /\ rec_ResourceID r = b) (records s);
  ok_revisions : all_rows (fun a b r => rev_OrgID r = a /\ rev_RevisionID r = b) (revisions s);
  ok_sources : all_rows (fun a b r => src_OrgID r = a /\ src_SourceID r = b) (sources s);
  ok_delegations : all_rows (fun a b g => dg_OrgID g = a /\ dg_ID g = b) (delegations s);
  ok_access : all_rows (fun a b r => ar_OrgID r = a /\ ar_RequestID r = b) (accessReqs s);
  ok_exports : all_rows (fun a b j => ej_OrgID j = a /\ ej_JobID j = b) (exports s);
  ok_audits : forall a e, e ∈ entries_of (audits s) a -> aud_OrgID e = a;
  ok_changes : forall a e, e ∈ entries_of (changes s) a -> chg_OrgID e = a;
  ok_edges : edges_ok (edges s);
  ok_tuples : tuples_ok (authzTuples s);
}.

Lemma edges_ok_empty : edges_ok ∅.
Proof. split; [apply all_rows_empty | apply all_rows_empty | apply unique_key_empty]. Qed.
Lemma tuples_ok_empty : tuples_ok ∅.
Proof. split; [apply all_rows_empty | apply all_rows_empty | apply unique_key_empty]. Qed.

Lemma entries_append {V} (m : gmap string (list V)) k x a y :
  y ∈ entries_of (<[k := entries_of m k ++ [x]]> m) a <->
  y ∈ entries_of m a \/ (a = k /\ y = x).
Proof.
  unfold entries_of. rewrite lookup_insert. case_decide as Hd; simpl.
  - subst. rewrite elem_of_app, list_elem_of_singleton. naive_solver.
  - naive_solver.
Qed.

Lemma ledger_ok_new : ledger_ok NewStore.
Proof.
  split; simpl; try apply all_rows_empty; try apply edges_ok_empty; try apply tuples_ok_empty;
    unfold entries_of; intros *; rewrite lookup_empty; simpl; by rewrite ?elem_of_nil.
Qed.

Lemma edges_ok_update m a b e e0 :
  edges_ok m -> lookup2 m a b = Some e0 ->
  edge_OrgID e = edge_OrgID e0 -> edge_EdgeID e = edge_EdgeID e0 -> triple e = triple e0 ->
  (edge_State e = "ACTIVE" -> edge_State e0 = "ACTIVE") ->
  edges_ok (insert2 a b e m).
Proof.
  intros [Hf Hn Hu] H0 Ho Hi Ht Hs. pose proof (Hf _ _ _ H0) as [? ?].
  pose proof (Hn _ _ _ H0) as Hn0. injection Ht as Hfrom Hto Hp. split.
  - apply all_rows_insert2; [done|]. split; congruence.
  - apply all_rows_insert2; [done|]. by rewrite Ho, Hfrom, Hto, Hp.
  - eapply unique_key_update; eauto. unfold triple. congruence.
Qed.

Lemma tuples_ok_update m a b op op0 :
  tuples_ok m -> lookup2 m a b = Some op0 ->
  op_OrgID op = op_OrgID op0 -> op_ID op = op_ID op0 -> tuple_key op = tuple_key op0 ->
  (op_Status op = "pending" -> op_Status op0 = "pending") ->
  tuples_ok (insert2 a b op m).
Proof.
  intros [Hf Hn Hu] H0 Ho Hi Ht Hs. pose proof (Hf _ _ _ H0) as [? ?].
  pose proof (Hn _ _ _ H0) as Hn0. injection Ht as Hop Hobj Hrel Hsub. split.
  - apply all_rows_insert2; [done|]. split; congruence.
  - apply all_rows_insert2; [done|]. by rewrite Ho, Hobj, Hrel, Hsub.
  - eapply unique_key_update; eauto. unfold tuple_key. congruence.
Qed.

Section Preservation.
Context `{GoMapOrder}.

Lemma UpsertEdge_ok now newid edge s :
  edges_ok (edges s) -> edges_ok (edges (UpsertEdge now newid edge s).2).
Proof.
  intros Hok. unfold UpsertEdge.
  destruct (_ || _ || _ || _)%bool eqn:Hempty; [done|].
  destruct (String.eqb_spec (edge_FromID edge) (edge_ToID edge)); [done|].
  repeat (apply orb_false_iff in Hempty as [Hempty ?]). rewrite !is_empty_false in *.
  cbv zeta. simpl.
  match goal with |- context [find_entry (active_triple ?e)] => set (e1 := e) end.
  destruct (find_entry _ _) as [[id existing]|] eqn:Hfind; simpl.
  - apply find_row_Some in Hfind as [Hrow _].
    eapply edges_ok_update; [done | exact Hrow | done..].
  - destruct Hok as [Hf Hn Hu]. split.
    + by apply all_rows_insert2.
    + apply all_rows_insert2; [done|]. simpl. auto.
    + apply unique_key_insert2; [done|]. intros Hlive b' v' Hrow Hl' Hk. exfalso.
      apply (find_row_None _ _ _ _ _ Hfind) in Hrow. unfold active_triple in Hrow.
      unfold triple in Hk. simpl in Hk. injection Hk as Hk1 Hk2 Hk3.
      subst e1. simpl in Hrow. rewrite Hl', Hk1, Hk2, Hk3, !String.eqb_refl in Hrow. done.
Qed.

Lemma TombstoneEdge_ok now orgID edgeID s :
  edges_ok (edges s) -> edges_ok (edges (TombstoneEdge now orgID edgeID s).2).
Proof.
  intros Hok. unfold TombstoneEdge, find, mbind, M_bind.
  destruct (lookup2 (edges s) orgID edgeID) as [e|] eqn:He; simpl; [|done].
  eapply edges_ok_update; [done | exact He | done..].
Qed.

Lemma EnqueueAuthzTuple_ok now newid op s :
  tuples_ok (authzTuples s) -> tuples_ok (authzTuples (EnqueueAuthzTuple now newid op s).2).
Proof.
  intros Hok. unfold EnqueueAuthzTuple.
  destruct (_ || _ || _ || _)%bool eqn:Hempty; [done|].
  repeat (apply orb_false_iff in Hempty as [Hempty ?]). rewrite !is_empty_false in *.
  cbv zeta. simpl.
  match goal with |- context [find_entry (same_pending ?o)] => set (op1 := o) end.
  destruct (find_entry _ _) as [[id existing]|] eqn:Hfind; simpl.
  - apply find_row_Some in Hfind as [Hrow _].
    eapply tuples_ok_update; [done | exact Hrow | done..].
  - destruct Hok as [Hf Hn Hu]. split.
    + by apply all_rows_insert2.
    + apply all_rows_insert2; [done|]. simpl. auto.
    + apply unique_key_insert2; [done|]. intros Hlive b' v' Hrow Hl' Hk. exfalso.
      apply (find_row_None _ _ _ _ _ Hfind) in Hrow. unfold same_pending in Hrow.
      unfold tuple_key in Hk. simpl in Hk. injection Hk as Hk1 Hk2 Hk3 Hk4.
      subst op1. simpl in Hrow. rewrite Hl', Hk1, Hk2, Hk3, Hk4, !String.eqb_refl in Hrow. done.
Qed.

Lemma org_of_tuple_Some id (tbl : tenants AuthzTupleOp) a op :
  org_of_tuple id tbl = Some (a, op) -> lookup2 tbl a id = Some op.
Proof.
  unfold org_of_tuple. destruct (filter _ _) as [|[o m] l] eqn:E; [done|].
  intros Hop. destruct (m !! id) as [op'|] eqn:Hm; [|done]. injection Hop as <- <-.
  assert (Hin : (o, m) ∈ filter (fun om : string * gmap string AuthzTupleOp =>
                   is_Some (om.2 !! id)) (go_range tbl)) by (rewrite E; left).
  apply list_elem_of_filter in Hin as [_ Hin%elem_of_go_range].
  unfold lookup2, inner. by rewrite Hin.
Qed.

Lemma update_tuple_ok id f s :
  (forall op, op_OrgID (f op) = op_OrgID op /\ op_ID (f op) = op_ID op /\
              tuple_key (f op) = tuple_key op /\
              (op_Status (f op) = "pending" -> op_Status op = "pending")) ->
  tuples_ok (authzTuples s) -> tuples_ok (authzTuples (update_tuple id f s).2).
Proof.
  intros Hf Hok. unfold update_tuple.
  destruct (org_of_tuple id _) as [[a op]|] eqn:E; [|done]. simpl.
  apply org_of_tuple_Some in E. destruct (Hf op) as (? & ? & ? & ?).
  by eapply tuples_ok_update.
Qed.

Lemma claim_tuples_ok now until limit rows tbl out0 :
  tuples_ok tbl -> (forall a b op, ((a, b), op) ∈ rows -> exists op0, lookup2 tbl a b = Some op0 /\
    op_OrgID op = op_OrgID op0 /\ op_ID op = op_ID op0 /\ tuple_key op = tuple_key op0 /\
    op_Status op = op_Status op0) ->
  tuples_ok (claim_tuples now until limit rows tbl out0).2.
Proof.
  revert tbl out0. induction rows as [|[[a b] op] rows IH]; intros tbl out0 Hok Hrows; simpl; [done|].
  destruct (Hrows a b op) as (op0 & Hl & Ho & Hi & Hk & Hs); [by left|].
  assert (Hok' : tuples_ok (insert2 a b (lease_op now until op) tbl)).
  { eapply tuples_ok_update; [done | exact Hl | done | done | done |]. simpl. congruence. }
  destruct (claimable now op); [destruct (limit <=? _); [done|]|].
  - apply IH; [done|]. intros a' b' op' Hin. rewrite lookup2_insert2. case_decide as Hd.
    + destruct Hd as [-> ->]. exists (lease_op now until op). split; [done|].
      destruct (Hrows a b op') as (op1 & Hl' & ? & ? & ? & ?); [by right|].
      assert (op1 = op0) as -> by congruence. unfold tuple_key in *. simpl. naive_solver congruence.
    + apply Hrows. by right.
  - apply IH; [done|]. intros. apply Hrows. by right.
Qed.

Lemma ClaimAuthzTuples_ok now limit lease s :
  tuples_ok (authzTuples s) -> tuples_ok (authzTuples (ClaimAuthzTuples now limit lease s).2).
Proof.
  intros Hok. unfold ClaimAuthzTuples.
  pose proof (claim_tuples_ok now (add_time now (or_limit lease (30 * second)))
    (or_limit limit 20) (tenant_entries (authzTuples s) "") (authzTuples s) [] Hok) as Hc.
  destruct (claim_tuples _ _ _ _ _ _) as [out tbl]. apply Hc.
  intros a b op [Hl _]%elem_of_tenant_entries. by exists op.
Qed.
End Preservation.

(** Opens a call that touches one table directly. *)
Ltac open_call :=
  unfold CreateOrganization, UpsertRecord, InsertPlaceholder, PromotePlaceholder, AppendRevision,
    EnqueueOutbox, ClaimOutbox, MarkOutboxPublished, PutInbox, PutMappingSpec, PutAccessRequest,
    PutIdempotency, UpsertSource, CreateDelegation, RevokeDelegation, UpsertEdge, TombstoneEdge,
    EnqueueAuthzTuple, ClaimAuthzTuples, MarkAuthzTupleApplied, MarkAuthzTupleFailed,
    update_tuple, AppendAudit, AppendChange, SetQuotas, SetLegalHold, PutExportJob,
    throw, modify, find, mbind, M_bind;
  repeat case_match; simplify_eq.

Section Invariant.
Context `{GoMapOrder}.

Lemma exec_edges_ok c s : edges_ok (edges s) -> edges_ok (edges (exec c s)).
Proof.
  intros Hok. destruct c; cbn [exec];
    try (by apply UpsertEdge_ok); try (by apply TombstoneEdge_ok);
    open_call; exact Hok.
Qed.

Lemma exec_tuples_ok c s : tuples_ok (authzTuples s) -> tuples_ok (authzTuples (exec c s)).
Proof.
  intros Hok. destruct c; cbn [exec];
    try (by apply EnqueueAuthzTuple_ok); try (by apply ClaimAuthzTuples_ok);
    try (apply update_tuple_ok; [|exact Hok]; intros op; simpl; try case_match; naive_solver);
    open_call; exact Hok.
Qed.

Lemma exec_ok c s : ledger_ok s -> ledger_ok (exec c s).
Proof.
  intros [].
  assert (edges_ok (edges (exec c s))) by (by apply exec_edges_ok).
  assert (tuples_ok (authzTuples (exec c s))) by (by apply exec_tuples_ok).
  destruct c; split; try assumption; cbn [exec]; clear - ok_orgs0 ok_records0 ok_revisions0
    ok_sources0 ok_delegations0 ok_access0 ok_exports0 ok_audits0 ok_changes0; open_call; simpl;
    try assumption; try (apply all_rows_insert2; [assumption | done]).
  all: try (intros k o'; rewrite lookup_insert; case_decide; naive_solver).
  all: try (intros a e [|[-> ->]]%entries_append; by eauto).
  apply all_rows_insert2; [assumption|]. simpl. by apply ok_delegations0.
Qed.

Lemma run_ok cs s : ledger_ok s -> ledger_ok (run cs s).
Proof.
  unfold run. revert s. induction cs as [|c cs IH]; intros s Hs; simpl; [done|].
  apply IH. by apply exec_ok.
Qed.
End Invariant.

(** ** Invariant and isolation *)

(** Whatever calls are made, in whatever order and interleaving: every row is
    filed under its own organization and identifier, no edge is a self-loop or
    lacks a name, an organization has at most one active edge per (from, to,
    predicate) and at most one pending tuple operation per tuple. *)
Theorem ledger_invariant `{GoMapOrder} cs : ledger_ok (run cs NewStore).
Proof. apply run_ok, ledger_ok_new. Qed.

(** Everything the tables keyed by organization hold for [a]. *)
Definition tenant_view (s : Store) (a : string) :=
  (orgs s !! a, inner (records s) a, inner (revisions s) a, inner (sources s) a,
   (inner (delegations s) a, inner (edges s) a, inner (authzTuples s) a),
   (entries_of (audits s) a, entries_of (changes s) a, quotas s !! a),
   (inner (accessReqs s) a, inner (exports s) a, inner (holds s) a)).

(** The organization a call names; the workers' calls on the tuple queue name
    none and may touch every one. *)
Definition may_touch (c : call) (a : string) : bool :=
  match c with
  | CCreateOrganization _ org => String.eqb (org_ID org) a
  | CUpsertRecord _ rec | CInsertPlaceholder _ rec | CPromotePlaceholder _ rec =>
      String.eqb (rec_OrgID rec) a
  | CAppendRevision _ rev => String.eqb (rev_OrgID rev) a
  | CEnqueueOutbox _ _ _ | CClaimOutbox _ _ | CMarkOutboxPublished _ _ | CPutInbox _
  | CPutMappingSpec _ _ _ | CPutIdempotency _ _ => false
  | CPutAccessRequest _ orgID _ _ _ _ _ => String.eqb orgID a
  | CUpsertSource _ src => String.eqb (src_OrgID src) a
  | CCreateDelegation _ grant => String.eqb (dg_OrgID grant) a
  | CRevokeDelegation orgID _ => String.eqb orgID a
  | CUpsertEdge _ _ edge => String.eqb (edge_OrgID edge) a
  | CTombstoneEdge _ orgID _ => String.eqb orgID a
  | CEnqueueAuthzTuple _ _ op => String.eqb (op_OrgID op) a
  | CClaimAuthzTuples _ _ _ | CMarkAuthzTupleApplied _ _ | CMarkAuthzTupleFailed _ _ _ _ _ _ => true
  | CAppendAudit event => String.eqb (aud_OrgID event) a
  | CAppendChange ev => String.eqb (chg_OrgID ev) a
  | CSetQuotas orgID _ | CSetLegalHold orgID _ _ | CPutExportJob _ orgID _ _ _ => String.eqb orgID a
  end.

Lemma entries_of_insert_ne {V} (m : gmap string (list V)) k v a :
  k <> a -> entries_of (<[k := v]> m) a = entries_of m a.
Proof. intros Hne. unfold entries_of. by rewrite lookup_insert_ne. Qed.

Lemma exec_isolated `{GoMapOrder} c s a :
  may_touch c a = false -> tenant_view (exec c s) a = tenant_view s a.
Proof.
  intros Hc. destruct c; simpl in Hc; try done; try (apply String.eqb_neq in Hc);
    cbn [exec]; open_call; try done; unfold tenant_view; simpl;
    rewrite ?inner_insert2_ne, ?lookup_insert_ne, ?entries_of_insert_ne by done; done.
Qed.

(** Tenant isolation: a call that names one organization changes no record,
    revision, source, delegation, edge, tuple, audit or change entry, quota,
    request, export or hold of another. *)
Theorem tenant_isolation `{GoMapOrder} c s a :
  may_touch c a = false -> tenant_view (exec c s) a = tenant_view s a.
Proof. apply exec_isolated. Qed.

Definition sample_edge : GraphEdge :=
  mkEdge "" "acme" "a" "b" EdgeParent f_one "" true ∅ zero_time zero_time.

Lemma tenant_isolation_witness :
  tenant_view (@exec order_forward (CUpsertEdge 5 "e1" sample_edge) NewStore) "other" =
  tenant_view NewStore "other".
Proof. apply tenant_isolation. reflexivity. Defined.

Lemma run_keeps_key `{GoMapOrder} cs s k r :
  idempotency s !! k = Some r -> idempotency (run cs s) !! k = Some r.
Proof.
  unfold run. revert s. induction cs as [|c cs IH]; intros s Hr; simpl; [done|].
  apply IH. clear IH. destruct c; cbn [exec]; open_call; simpl; try done.
  rewrite lookup_insert. case_decide; [congruence | done].
Qed.

(** An idempotency key is written once: whatever is called later, a stored
    record stays as it is, [GetIdempotency] returns it and a second
    [PutIdempotency] of the key is a conflict. *)
Theorem idempotency_write_once `{GoMapOrder} cs s r now r' :
  idempotency s !! idem_key (idem_OrgID r') (idem_IdempotencyKey r') = Some r ->
  let s' := run cs s in
  GetIdempotency (idem_OrgID r') (idem_IdempotencyKey r') s' = (Ok r, s') /\
  PutIdempotency now r' s' = (Err (ErrConflict "idempotency key exists"), s').
Proof.
  intros Hr. cbv zeta. unfold GetIdempotency, PutIdempotency.
  by rewrite (run_keeps_key cs s _ r Hr).
Qed.

Definition sample_idem : IdempotencyRecord := mkIdempotency "acme" "k1" "ev1" "res1" "rev1" 7.
Definition idem_store : Store := exec (H := order_forward) (CPutIdempotency 7 sample_idem) NewStore.

Lemma idempotency_write_once_witness :
  (PutIdempotency 9 sample_idem
     (run (H := order_forward) [CSetLegalHold "acme" "res1" true; CPutIdempotency 8 sample_idem]
        idem_store)).1
  = Err (ErrConflict "idempotency key exists").
Proof.
  refine (f_equal fst (proj2 (@idempotency_write_once order_forward
    [CSetLegalHold "acme" "res1" true; CPutIdempotency 8 sample_idem] idem_store sample_idem 9
    sample_idem _))).
  vm_compute. reflexivity.
Defined.

(** ** Leases on the tuple queue *)

(** The row is leased at least until [t]. *)
Definition held (s : Store) (a b : string) (t : Time) : Prop :=
  exists op u, lookup2 (authzTuples s) a b = Some op /\ op_LeaseUntil op = Some u /\ t <= u.

(** The calls that release or replace the lease of the row [id] are the marks of
    its result and an enqueue under its identifier. *)
Definition keeps_lease (id : string) (c : call) : bool :=
  match c with
  | CMarkAuthzTupleApplied id' _ | CMarkAuthzTupleFailed _ id' _ _ _ _ => negb (String.eqb id' id)
  | CEnqueueAuthzTuple _ newid op => negb (String.eqb (or_default (op_ID op) newid) id)
  | _ => true
  end.

Lemma or_limit_pos limit d : 0 < d -> 0 < or_limit limit d.
Proof. intros. unfold or_limit. destruct (Z.leb_spec limit 0); lia. Qed.

Section Leases.
Context `{GoMapOrder}.

Lemma ClaimAuthzTuples_spec now limit lease s out s' :
  ClaimAuthzTuples now limit lease s = (Ok out, s') ->
  let until := add_time now (or_limit lease (30 * second)) in
  exists taken,
    NoDup taken.*1 /\
    (forall a b op, ((a, b), op) ∈ taken ->
       lookup2 (authzTuples s) a b = Some op /\ claimable now op = true) /\
    out = (fun row => lease_op now until row.2) <$> taken /\
    rows_updated (lease_op now until) taken (authzTuples s) (authzTuples s') /\
    zlen out <= or_limit limit 20.
Proof.
  unfold ClaimAuthzTuples. set (until := add_time now _).
  destruct (claim_tuples _ _ _ _ _ _) as [out' tbl] eqn:E. intros [= <- <-]. simpl.
  apply claim_tuples_spec in E as (taken & Hsub & Hall & -> & Hu & Hlen);
    [|apply NoDup_tenant_entries].
  exists taken. split; [|split; [|split; [done | split; [done|]]]].
  - eapply sublist_NoDup; [apply (NoDup_tenant_entries (authzTuples s) "")|].
    by apply fmap_sublist.
  - intros a b op Hin. split.
    + eapply elem_of_tenant_entries. by eapply elem_of_sublist.
    + by apply (proj1 (Forall_forall _ _) Hall _ Hin).
  - apply Hlen. apply (or_limit_pos limit 20). lia.
Qed.

Lemma held_claim now limit lease s a b t :
  held s a b t -> held (exec (CClaimAuthzTuples now limit lease) s) a b t.
Proof.
  intros (op & u & Hl & Hu & Ht). cbn [exec].
  destruct (ClaimAuthzTuples now limit lease s) as [r s'] eqn:E. simpl.
  assert (exists out, r = Ok out) as [out ->].
  { unfold ClaimAuthzTuples in E. destruct (claim_tuples _ _ _ _ _ _). simplify_eq. eauto. }
  apply ClaimAuthzTuples_spec in E as (taken & Hnd & Hrows & _ & Hupd & _).
  destruct (decide ((a, b) ∈ taken.*1)) as [Hin|Hout].
  - apply list_elem_of_fmap in Hin as ([k op'] & Hk0 & Hin). simpl in Hk0. subst k.
    destruct (Hrows _ _ _ Hin) as [Hl' Hc]. assert (op' = op) as -> by congruence.
    eexists _, _. split; [exact (rows_updated_in _ _ _ _ _ _ _ Hupd Hnd Hin)|].
    split; [reflexivity|]. unfold claimable in Hc. rewrite Hu in Hc. bools.
    unfold after in *. bools. unfold add_time.
    pose proof (or_limit_pos lease (30 * second) ltac:(unfold second; lia)). lia.
  - exists op, u. by rewrite (rows_updated_out _ _ _ _ _ _ Hupd Hout).
Qed.

Lemma held_insert2 s s' a b t a' b' op :
  held s a b t -> authzTuples s' = insert2 a' b' op (authzTuples s) ->
  (a = a' -> b = b' -> exists op0, lookup2 (authzTuples s) a b = Some op0 /\
                             op_LeaseUntil op = op_LeaseUntil op0) ->
  held s' a b t.
Proof.
  intros (op1 & u & Hl & Hu & Ht) Htbl Hsame. unfold held. rewrite Htbl.
  setoid_rewrite lookup2_insert2. case_decide as Hd; [|by exists op1, u].
  destruct Hd as [-> ->]. destruct Hsame as (op0 & Hl0 & Heq); [done..|].
  exists op, u. naive_solver congruence.
Qed.

Lemma held_update id f s a b t :
  id <> b -> held s a b t -> held (update_tuple id f s).2 a b t.
Proof.
  intros Hne Hh. unfold update_tuple. destruct (org_of_tuple _ _) as [[a' op]|]; [|done].
  eapply held_insert2; [done | reflexivity | congruence].
Qed.

Lemma held_exec c s a b t : keeps_lease b c = true -> held s a b t -> held (exec c s) a b t.
Proof.
  intros Hc Hh. destruct c; cbn [exec];
    try (by apply (held_claim now limit lease)); try (simpl in Hc; bools; by apply held_update).
  all: try (open_call; exact Hh).
  unfold EnqueueAuthzTuple. destruct (_ || _ || _ || _)%bool; [done|]. simpl in *. bools.
  destruct (find_entry _ _) as [[id existing]|] eqn:Hf.
  - apply find_row_Some in Hf as [Hrow _].
    eapply held_insert2; [done | reflexivity|]. intros -> ->. by exists existing.
  - eapply held_insert2; [done | reflexivity|]. intros -> ->. done.
Qed.

Lemma held_run cs s a b t :
  forallb (keeps_lease b) cs = true -> held s a b t -> held (run cs s) a b t.
Proof.
  unfold run. revert s. induction cs as [|c cs IH]; intros s Hcs Hh; simpl in *; [done|].
  bools. apply IH; [done|]. by apply held_exec.
Qed.
End Leases.

(** C15 Lease exclusivity: the operations a claim returns are pending rows of the
    queue, no row twice and no more than the limit; until the lease ends, no
    later claim by any worker returns one of them again, whatever calls come in
    between, unless the row's result is marked or its identifier enqueued anew. *)
Theorem claim_tuples_exclusive `{GoMapOrder} now1 limit1 lease1 s out1 s1 :
  ledger_ok s -> ClaimAuthzTuples now1 limit1 lease1 s = (Ok out1, s1) ->
  NoDup ((fun op => (op_OrgID op, op_ID op)) <$> out1) /\ zlen out1 <= or_limit limit1 20 /\
  (forall op, op ∈ out1 -> op_Status op = "pending") /\
  forall op cs now2 limit2 lease2 out2 s2,
    op ∈ out1 -> forallb (keeps_lease (op_ID op)) cs = true ->
    ClaimAuthzTuples now2 limit2 lease2 (run cs s1) = (Ok out2, s2) ->
    now2 < add_time now1 (or_limit lease1 (30 * second)) ->
    forall op2, op2 ∈ out2 -> (op_OrgID op2, op_ID op2) <> (op_OrgID op, op_ID op).
Proof.
  intros Hok Hc1. assert (Hok1 : ledger_ok s1).
  { pose proof (exec_ok (CClaimAuthzTuples now1 limit1 lease1) s Hok) as Hx. simpl in Hx.
    by rewrite Hc1 in Hx. }
  apply ClaimAuthzTuples_spec in Hc1 as (taken & Hnd & Hrows & -> & Hupd & Hlen).
  assert (Hkey : forall a b op, ((a, b), op) ∈ taken -> op_OrgID op = a /\ op_ID op = b).
  { intros a b op [Hl _]%Hrows. exact (tuples_filed _ (ok_tuples _ Hok) _ _ _ Hl). }
  split; [|split; [exact Hlen|split]].
  - rewrite <- list_fmap_compose. erewrite list_fmap_ext; [exact Hnd|].
    intros i [[a b] op] Hi%list_elem_of_lookup_2. simpl. by destruct (Hkey _ _ _ Hi) as [-> ->].
  - intros op Hin%list_elem_of_fmap. destruct Hin as ([[a b] op'] & -> & Hin). simpl.
    apply Hrows in Hin as [_ Hc]. unfold claimable in Hc. by bools.
  - intros op cs now2 limit2 lease2 out2 s2 Hin Hcs Hc2 Hlt op2 Hin2 Heq.
    apply list_elem_of_fmap in Hin as ([[a b] op0] & -> & Hin). simpl in *.
    destruct (Hkey _ _ _ Hin) as [<- <-].
    assert (Hheld : held (run cs s1) (op_OrgID op0) (op_ID op0)
                      (add_time now1 (or_limit lease1 (30 * second)))).
    { apply held_run; [done|]. eexists _, _. split; [by eapply rows_updated_in|].
      split; [reflexivity|]. lia. }
    assert (Hok2 : ledger_ok (run cs s1)) by (by apply run_ok).
    apply ClaimAuthzTuples_spec in Hc2 as (taken2 & _ & Hrows2 & -> & _ & _).
    apply list_elem_of_fmap in Hin2 as ([[a b] op3] & -> & Hin2). simpl in *.
    apply Hrows2 in Hin2 as [Hl3 Hc3].
    assert (Hkey3 : op_OrgID op3 = a /\ op_ID op3 = b).
    { exact (tuples_filed _ (ok_tuples _ Hok2) _ _ _ Hl3). }
    destruct Hkey3 as [<- <-]. injection Heq as Ho Hi. rewrite Ho, Hi in Hl3.
    destruct Hheld as (op4 & u & Hl4 & Hu & Hle). assert (op4 = op3) as -> by congruence.
    unfold claimable in Hc3. rewrite Hu in Hc3. bools. unfold after in *. bools. lia.
Qed.

Definition sample_op : AuthzTupleOp :=
  mkTupleOp "" "acme" "write" "resource:doc" "parent" "resource:folder" "e1" "" 0 "" None
    zero_time zero_time zero_time None.
Definition queue_store : Store :=
  run (H := order_forward)
    [CEnqueueAuthzTuple 5 "t1" sample_op;
     CEnqueueAuthzTuple 6 "t2" (sample_op <| op_Subject := "resource:other" |>)] NewStore.
Definition first_claim := ClaimAuthzTuples (H := order_forward) 10 1 0 queue_store.

Definition claimed_op : AuthzTupleOp :=
  match first_claim.1 with Ok (op :: _) => op | _ => sample_op end.
Definition second_claim := ClaimAuthzTuples (H := order_forward) 11 5 0 first_claim.2.

Definition next_op : AuthzTupleOp :=
  match second_claim.1 with Ok (op :: _) => op | _ => sample_op end.

Lemma queue_store_ok : ledger_ok queue_store.
Proof. apply run_ok, ledger_ok_new. Qed.
Lemma first_claim_ok : first_claim = (Ok [claimed_op], first_claim.2).
Proof. vm_compute. reflexivity. Qed.
Lemma second_claim_ok : second_claim = (Ok [next_op], second_claim.2).
Proof. vm_compute. reflexivity. Qed.
Lemma claim_in_time : 11 < add_time 10 (or_limit 0 (30 * second)).
Proof. vm_compute. reflexivity. Qed.

(** A worker claims one row; what a second one gets a moment later is another. *)
Lemma claim_tuples_exclusive_witness :
  (op_OrgID next_op, op_ID next_op) <> (op_OrgID claimed_op, op_ID claimed_op).
Proof.
  refine (proj2 (proj2 (proj2 (@claim_tuples_exclusive order_forward 10 1 0 queue_store _ _
    queue_store_ok first_claim_ok))) claimed_op [] 11 5 0 [next_op] second_claim.2 _ eq_refl
    second_claim_ok claim_in_time next_op _); left.
Defined.
