(* ===== verification/LedgerQueries.v ===== *)
(** * The ledger's queries, its outbox and its cursors

    What the listing methods return (the filter, the order, the limit, the
    independence from the iteration order of the maps), the pagination of
    records, the change feed's cursor and the leases of the outbox. *)
From S2P Require Import Prelude GoStd Ports Platform Ledger LedgerFacts.

(** ** [take_matching] is a filter cut at the limit *)
Lemma take_matching_app {A} (keep : A -> bool) limit l out :
  take_matching keep limit l out = out ++ take_matching keep (limit - zlen out) l [].
Proof.
  revert limit out. induction l as [|x l IH]; intros limit out; simpl; [by rewrite app_nil_r|].
  destruct (keep x); [|apply IH]. rewrite (IH limit (out ++ [x])), (IH (limit - zlen out) [x]).
  unfold zlen. rewrite length_app. simpl.
  destruct (Z.leb_spec limit (Z.of_nat (length out + 1))),
    (Z.leb_spec (limit - Z.of_nat (length out)) (Z.of_nat 1)); try lia; [done|].
  rewrite <- app_assoc. simpl. do 3 f_equal. lia.
Qed.

Lemma take_matching_spec {A} (keep : A -> bool) limit l :
  0 < limit -> take_matching keep limit l [] = ztake limit (filter (fun x => keep x = true) l).
Proof.
  revert limit. induction l as [|x l IH]; intros limit Hl.
  - unfold ztake. cbn. by destruct (Z.to_nat limit).
  - rewrite filter_cons. simpl. case_decide as Hk.
    + rewrite Hk. unfold zlen. simpl. destruct (Z.leb_spec limit (Z.of_nat 1)).
      * assert (limit = 1) as -> by lia. done.
      * rewrite take_matching_app. unfold zlen. simpl. rewrite IH by lia. unfold ztake.
        replace (Z.to_nat limit) with (S (Z.to_nat (limit - 1))) by lia. done.
    + apply not_true_is_false in Hk. rewrite Hk. by apply IH.
Qed.

(** ** The outbox *)

(** Entry identifiers under lease at least until [t]. *)
Definition leased_until (s : Store) (id : string) (t : Time) : Prop :=
  exists u : Time, outboxLease s !! id = Some u /\ t <= u.

(** A claim at [now] leaves a lease alone or, if it is over, sets it to [until]. *)
Definition free_at (now : Time) (lease : gmap string Time) (id : string) : Prop :=
  forall u : Time, lease !! id = Some u -> u <= now.
Definition extends (now until : Time) (lease lease' : gmap string Time) : Prop :=
  forall id, lease' !! id = lease !! id \/ (lease' !! id = Some until /\ free_at now lease id).

Lemma extends_refl now until lease : extends now until lease lease.
Proof. intros id. by left. Qed.

Lemma extends_insert now until lease id :
  free_at now lease id -> extends now until lease (<[id := until]> lease).
Proof.
  intros Hf id'. rewrite lookup_insert. case_decide as Hd; [subst; by right | by left].
Qed.

Lemma extends_trans (now until : Time) a b c :
  now < until -> extends now until a b -> extends now until b c -> extends now until a c.
Proof.
  intros Hlt Hab Hbc id. destruct (Hbc id) as [->|[-> Hf]]; [apply Hab|].
  destruct (Hab id) as [Hb|[Hb Ha]]; [|by right].
  right. split; [done|]. intros u Hu. apply Hf. by rewrite Hb.
Qed.

Lemma claim_outbox_spec (now until : Time) limit entries lease out0 entries' lease' out :
  now < until -> claim_outbox now until limit entries lease out0 = (entries', lease', out) ->
  exists taken,
    out = out0 ++ taken /\ extends now until lease lease' /\
    Forall (fun e => ob_Published e = None /\ free_at now lease (ob_ID e) /\
                     lease' !! ob_ID e = Some until) taken /\
    NoDup (ob_ID <$> taken) /\ (zlen out0 < limit -> zlen out <= limit).
Proof.
  intros Hlt. revert lease out0 entries' lease' out.
  induction entries as [|e entries IH]; intros lease out0 entries' lease' out; simpl.
  { intros [= <- <- <-]. exists []. rewrite app_nil_r.
    split; [done | split; [apply extends_refl | split; [done | split; [constructor | lia]]]]. }
  match goal with |- (if ?b then _ else _) = _ -> _ => destruct b eqn:Hskip end.
  { destruct (claim_outbox _ _ _ entries lease out0) as [[r l] o] eqn:E.
    intros [= <- <- <-]. by eapply IH. }
  destruct (ob_Published e) eqn:Hpub; [done|].
  assert (Hfree : free_at now lease (ob_ID e)).
  { intros u Hu. rewrite Hu in Hskip. unfold after in Hskip. bools. lia. }
  assert (Hext := extends_insert now until lease (ob_ID e) Hfree).
  destruct (Z.leb_spec limit (zlen (out0 ++ [leased now e]))) as [Hl|Hl].
  - intros [= <- <- <-]. exists [leased now e].
    split; [done | split; [done | split; [|split]]].
    + constructor; [|done]. split; [done | split; [done|]]. apply lookup_insert_eq.
    + apply NoDup_singleton.
    + unfold zlen in *. rewrite length_app. simpl. lia.
  - destruct (claim_outbox _ _ _ entries _ _) as [[r l] o] eqn:E. intros [= <- <- <-].
    apply IH in E as (taken & -> & Hext' & Hall & Hnd & Hlen).
    exists (leased now e :: taken). split; [by rewrite <- app_assoc|].
    split; [by eapply extends_trans|]. rewrite Forall_forall in Hall.
    assert (Hid : l !! ob_ID e = Some until).
    { destruct (Hext' (ob_ID e)) as [->|[-> _]]; [|done]. apply lookup_insert_eq. }
    split; [|split; [|auto]].
    + constructor; [done|]. apply Forall_forall. intros x Hx.
      destruct (Hall x Hx) as (Hp & Hf & Hu). split; [done | split; [|done]].
      intros u Hu'. destruct (Hext (ob_ID x)) as [Heq|[Heq ?]]; [|by auto].
      apply Hf. by rewrite Heq.
    + rewrite fmap_cons. constructor; [|done]. simpl.
      intros (x & Heq & Hx)%list_elem_of_fmap. destruct (Hall x Hx) as (_ & Hf & _).
      specialize (Hf until). rewrite <- Heq, lookup_insert_eq in Hf.
      specialize (Hf eq_refl). lia.
Qed.

(** The only call that ends a lease is the publication of the entry. *)
Definition keeps_outbox_lease (id : string) (c : call) : bool :=
  match c with
  | CMarkOutboxPublished ids _ => negb (mem_str id ids)
  | _ => true
  end.

Lemma add_lease now : now < add_time now (30 * second).
Proof. unfold add_time, second. lia. Qed.

Lemma add_lease_le now t : t <? add_time now (30 * second) = true -> t < add_time now (30 * second).
Proof. apply Z.ltb_lt. Qed.

Lemma leased_until_extends (now until : Time) s s' id t :
  now < until -> extends now until (outboxLease s) (outboxLease s') -> leased_until s id t ->
  leased_until s' id t.
Proof.
  intros Hlt Hext (u & Hu & Ht). unfold leased_until.
  destruct (Hext id) as [->|[-> Hf]]; [by eauto|]. apply Hf in Hu. exists until. split; [done | lia].
Qed.

Section Outbox.
Context `{GoMapOrder}.

Lemma ClaimOutbox_spec now limit s :
  exists out s', ClaimOutbox now limit s = (Ok out, s') /\
    extends now (add_time now (30 * second)) (outboxLease s) (outboxLease s') /\
    Forall (fun e => ob_Published e = None /\ free_at now (outboxLease s) (ob_ID e) /\
                     outboxLease s' !! ob_ID e = Some (add_time now (30 * second))) out /\
    NoDup (ob_ID <$> out) /\ zlen out <= or_limit limit 10.
Proof.
  unfold ClaimOutbox.
  destruct (claim_outbox _ _ _ _ _ _) as [[entries lease] out] eqn:E. eexists _, _.
  split; [reflexivity|].
  apply claim_outbox_spec in E as (taken & -> & Hext & Hall & Hnd & Hlen); [|apply add_lease].
  split; [done | split; [done | split; [done|]]]. apply Hlen, or_limit_pos. lia.
Qed.

Lemma leased_until_exec c s id t :
  keeps_outbox_lease id c = true -> leased_until s id t -> leased_until (exec c s) id t.
Proof.
  intros Hc Hl. destruct c; cbn [exec].
  7: { destruct (ClaimOutbox_spec now limit s) as (out & s' & -> & Hext & _).
       eapply leased_until_extends; [apply add_lease | exact Hext | done]. }
  7: { simpl in Hc. bools. apply mem_str_not_In in Hc.
       destruct Hl as (u & Hu & Ht). exists u. split; [|done]. simpl.
       revert Hu. generalize (outboxLease s). clear - Hc.
       induction ids as [|i ids IH]; intros m Hm; simpl; [done|].
       apply not_elem_of_cons in Hc as [Hne Hc]. apply IH; [done|]. by rewrite lookup_delete_ne. }
  all: open_call; exact Hl.
Qed.

Lemma leased_until_run cs s id t :
  forallb (keeps_outbox_lease id) cs = true -> leased_until s id t -> leased_until (run cs s) id t.
Proof.
  unfold run. revert s. induction cs as [|c cs IH]; intros s Hcs Hh; simpl in *; [done|].
  bools. apply IH; [done|]. by apply leased_until_exec.
Qed.
End Outbox.

(** Outbox leases: a claim returns unpublished entries, no identifier twice
    and no more than the limit; for 30 seconds no other claim returns an entry
    with one of these identifiers, whatever calls come in between, unless the
    entry is marked published. *)
Theorem claim_outbox_exclusive `{GoMapOrder} now1 limit1 s out1 s1 :
  ClaimOutbox now1 limit1 s = (Ok out1, s1) ->
  NoDup (ob_ID <$> out1) /\ zlen out1 <= or_limit limit1 10 /\
  (forall e, e ∈ out1 -> ob_Published e = None) /\
  forall e cs now2 limit2 out2 s2,
    e ∈ out1 -> forallb (keeps_outbox_lease (ob_ID e)) cs = true ->
    ClaimOutbox now2 limit2 (run cs s1) = (Ok out2, s2) ->
    now2 < add_time now1 (30 * second) ->
    forall e2, e2 ∈ out2 -> ob_ID e2 <> ob_ID e.
Proof.
  intros H1. destruct (ClaimOutbox_spec now1 limit1 s) as (? & ? & Heq & _ & Hall & Hnd & Hlen).
  rewrite H1 in Heq. injection Heq as <- <-. rewrite Forall_forall in Hall.
  split; [done | split; [done | split; [by intros e He; apply Hall|]]].
  intros e cs now2 limit2 out2 s2 He Hcs H2 Hlt e2 He2 Hid.
  assert (Hleased : leased_until (run cs s1) (ob_ID e) (add_time now1 (30 * second))).
  { apply leased_until_run; [done|]. eexists. split; [by apply Hall | lia]. }
  destruct (ClaimOutbox_spec now2 limit2 (run cs s1)) as (? & ? & Heq2 & _ & Hall2 & _).
  rewrite H2 in Heq2. injection Heq2 as <- <-. rewrite Forall_forall in Hall2. destruct (Hall2 e2 He2) as (_ & Hf & _).
  destruct Hleased as (u & Hu & Ht). rewrite <- Hid in Hu. apply Hf in Hu. lia.
Qed.

(** ** Listing edges *)
#[export] Instance edge_less_weak : StrictWeak edge_less.
Proof. unfold edge_less. apply _. Qed.

Lemma edge_less_tie a b :
  edge_less a b = false -> edge_less b a = false -> edge_EdgeID a = edge_EdgeID b.
Proof.
  unfold edge_less. intros H1 H2.
  do 4 (apply then_by_tie in H1 as (_ & H1 & H2'); [|apply _ | exact H2]; clear H2; rename H2' into H2).
  by apply (total_eq (lt := str_lt)).
Qed.

Definition wanted_edge (opts : EdgeListOptions) (e : GraphEdge) : Prop :=
  (opt_IncludeDead opts = true \/ edge_State e <> "TOMBSTONED") /\
  (opt_ResourceIDs opts = [] \/ edge_FromID e ∈ opt_ResourceIDs opts \/
   edge_ToID e ∈ opt_ResourceIDs opts) /\
  (opt_Predicates opts = [] \/ edge_Predicate e ∈ opt_Predicates opts).

Lemma edge_wanted_spec opts e : edge_wanted opts e = true <-> wanted_edge opts e.
Proof.
  unfold edge_wanted, wanted_edge. rewrite !andb_true_iff, !orb_true_iff, !mem_str_In.
  rewrite negb_true_iff, String.eqb_neq.
  destruct (opt_ResourceIDs opts), (opt_Predicates opts); naive_solver.
Qed.

Lemma NoDup_values `{GoMapOrder} {V} (key : V -> string) (m : gmap string V) :
  (forall k v, m !! k = Some v -> key v = k) -> NoDup (go_values m).
Proof.
  intros Hkey. unfold go_values. apply NoDup_fmap_2_strong; [|apply NoDup_go_range].
  intros [k1 v1] [k2 v2] H1%elem_of_go_range H2%elem_of_go_range. simpl. intros ->.
  f_equal. by rewrite <- (Hkey _ _ H1), <- (Hkey _ _ H2).
Qed.

Section Edges.
Variables (s : Store) (orgID : string) (opts : EdgeListOptions).
Hypothesis Hok : ledger_ok s.

Definition matching_edges `{GoMapOrder} : list GraphEdge :=
  filter (fun e => edge_wanted opts e = true) (go_values (inner (edges s) orgID)).

Lemma edge_key k e : inner (edges s) orgID !! k = Some e -> edge_EdgeID e = k.
Proof. intros Hk. apply (edges_filed _ (ok_edges _ Hok) _ _ _ Hk). Qed.

Lemma edges_no_tie `{GoMapOrder} x y :
  x ∈ matching_edges -> y ∈ matching_edges ->
  edge_less x y = false -> edge_less y x = false -> x = y.
Proof.
  intros [_ (k1 & H1)%elem_of_go_values]%list_elem_of_filter.
  intros [_ (k2 & H2)%elem_of_go_values]%list_elem_of_filter Hxy Hyx.
  pose proof (edge_less_tie _ _ Hxy Hyx) as Heq.
  rewrite (edge_key _ _ H1), (edge_key _ _ H2) in Heq. congruence.
Qed.

Lemma matching_edges_perm (O1 O2 : GoMapOrder) : @matching_edges O1 ≡ₚ @matching_edges O2.
Proof. unfold matching_edges. by rewrite !go_values_perm. Qed.
End Edges.

(** [ListEdges] returns, in (from, predicate, to, creation, identifier) order,
    the first [Limit] (200 by default) of exactly the organization's edges that
    are not tombstoned, touch a requested resource and have a requested
    predicate, each once; the answer does not depend on the order in which the
    runtime visits the map. *)
Theorem list_edges_contract (O1 O2 : GoMapOrder) s orgID opts :
  ledger_ok s ->
  @ListEdges O1 orgID opts s = @ListEdges O2 orgID opts s /\
  exists full,
    (@ListEdges O1 orgID opts s).1 = Ok (ztake (or_limit (opt_Limit opts) 200) full) /\
    StronglySorted (not_greater edge_less) full /\ NoDup full /\
    forall e, e ∈ full <->
      (exists id, lookup2 (edges s) orgID id = Some e) /\ wanted_edge opts e.
Proof.
  intros Hok. split.
  { unfold ListEdges, gets. do 3 f_equal. apply sort_slice_unique; [apply _| |].
    - intros x y. by apply (@edges_no_tie s orgID opts Hok O1).
    - apply (matching_edges_perm s orgID opts). }
  exists (sort_slice edge_less (@matching_edges s orgID opts O1)).
  split; [done | split; [apply sort_slice_sorted, _ | split]].
  - rewrite sort_slice_perm. apply NoDup_filter, (NoDup_values edge_EdgeID).
    intros k v. by apply edge_key.
  - intros e. rewrite elem_of_sort_slice. unfold matching_edges.
    rewrite list_elem_of_filter, edge_wanted_spec, elem_of_go_values. tauto.
Qed.

Definition edge_store : Store :=
  run (H := order_forward)
    [CUpsertEdge 5 "e1" sample_edge;
     CUpsertEdge 6 "e2" (sample_edge <| edge_ToID := "c" |>)] NewStore.

Lemma list_edges_contract_witness :
  @ListEdges order_forward "acme" (mkEdgeOpts ["c"] [] false 0) edge_store =
  @ListEdges order_backward "acme" (mkEdgeOpts ["c"] [] false 0) edge_store.
Proof. apply list_edges_contract, run_ok, ledger_ok_new. Defined.

(** ** Pages of records *)
#[export] Instance record_less_weak : StrictWeak record_less.
Proof. unfold record_less. apply _. Qed.

Section Pages.
Context `{GoMapOrder}.

Definition sorted_records (s : Store) (orgID : string) : list LedgerRecord :=
  sort_slice record_less (go_values (inner (records s) orgID)).

(** A client that follows the cursor from page to page. *)
Fixpoint walk_records (fuel : nat) (orgID : string) (limit : Z) (cursor : string) (s : Store)
    : result GoError (list (list LedgerRecord)) :=
  match fuel with
  | O => Ok []
  | S fuel =>
      match (ListRecords orgID limit cursor s).1 with
      | Ok (out, next) =>
          if is_empty next then Ok [out]
          else cons out <$> walk_records fuel orgID limit next s
      | Err e => Err e
      end
  end.

Lemma ListRecords_at s orgID limit n cursor :
  let all := sorted_records s orgID in
  0 < limit -> 0 <= n < zlen all -> zlen all + limit <= int_max ->
  (cursor = itoa n \/ cursor = "" /\ n = 0) ->
  let end_ := Z.min (n + limit) (zlen all) in
  (ListRecords orgID limit cursor s).1 =
  Ok (ztake (end_ - n) (zdrop n all), if end_ <? zlen all then itoa end_ else "").
Proof.
  intros all Hl Hn Hmax Hcur. unfold ListRecords. fold (sorted_records s orgID). fold all.
  cbv zeta. assert (Hoff : (match parse_int cursor with
      | (n, None) => if negb (is_empty cursor) && (0 <? n) then n else 0
      | _ => 0
      end) = n).
  { destruct Hcur as [->|[-> ->]]; [|done].
    destruct (parse_int_itoa n) as [-> Hne]; [unfold zlen in *; lia|].
    apply is_empty_false in Hne as ->. simpl. destruct (Z.ltb_spec 0 n); lia. }
  rewrite Hoff. destruct (Z.leb_spec (zlen all) n); [lia|].
  unfold or_limit. destruct (Z.leb_spec limit 0); [lia|].
  rewrite wrap64_id by (unfold in_int, int_min, int_max in *; lia).
  assert (Hend : (if zlen all <? n + limit then zlen all else n + limit) = Z.min (n + limit) (zlen all)).
  { destruct (Z.ltb_spec (zlen all) (n + limit)); lia. }
  rewrite Hend. unfold slice.
  destruct (Z.leb_spec 0 n), (Z.leb_spec n (Z.min (n + limit) (zlen all))),
    (Z.leb_spec (Z.min (n + limit) (zlen all)) (zlen all)); try lia. done.
Qed.

Lemma zdrop_split {A} (n k : Z) (l : list A) :
  0 <= n -> 0 <= k -> ztake k (zdrop n l) ++ zdrop (n + k) l = zdrop n l.
Proof.
  intros Hn Hk. unfold ztake, zdrop. rewrite Z2Nat.inj_add by lia. rewrite <- drop_drop.
  apply take_drop.
Qed.

Lemma walk_records_at s orgID limit fuel n cursor :
  let all := sorted_records s orgID in
  0 < limit -> 0 <= n < zlen all -> zlen all + limit <= int_max ->
  (cursor = itoa n \/ cursor = "" /\ n = 0) -> zlen all - n < Z.of_nat fuel ->
  exists pages, walk_records fuel orgID limit cursor s = Ok pages /\
    concat pages = zdrop n all /\ Forall (fun p => 0 < zlen p <= limit) pages.
Proof.
  intros all Hl. revert n cursor. induction fuel as [|fuel IH]; intros n cursor Hn Hmax Hcur Hf; [lia|].
  cbn [walk_records]. rewrite (ListRecords_at s orgID limit n cursor) by done. fold all.
  set (end_ := Z.min (n + limit) (zlen all)).
  assert (Hpage : 0 < zlen (ztake (end_ - n) (zdrop n all)) <= limit).
  { unfold zlen, ztake, zdrop in *. rewrite length_take, length_drop. lia. }
  destruct (Z.ltb_spec end_ (zlen all)) as [Hlt|Hge].
  - destruct (parse_int_itoa end_) as [_ Hne]; [unfold int_max in *; lia|].
    apply is_empty_false in Hne as ->.
    destruct (IH end_ (itoa end_)) as (pages & -> & Hjoin & Hall); [lia | done | by left | lia |].
    eexists. split; [reflexivity|]. split; [|by constructor].
    cbn [concat]. rewrite Hjoin. replace end_ with (n + (end_ - n)) at 2 by lia.
    apply zdrop_split; lia.
  - simpl. eexists. split; [reflexivity|]. split; [|by constructor].
    cbn. rewrite app_nil_r. unfold ztake, zdrop, zlen in *. apply take_ge. rewrite length_drop. lia.
Qed.
End Pages.

(** Pagination of records: a client that follows the cursors through an
    unchanged store, with any positive limit, gets non-empty pages no longer
    than the limit whose concatenation is every record of the organization,
    once, by creation time and identifier; the walk ends after at most one page
    per record. *)
Theorem list_records_pages `{GoMapOrder} s orgID limit :
  ledger_ok s -> 0 < limit -> inner (records s) orgID <> ∅ ->
  zlen (sorted_records s orgID) + limit <= int_max ->
  exists pages,
    walk_records (S (length (sorted_records s orgID))) orgID limit "" s = Ok pages /\
    Forall (fun p => 0 < zlen p <= limit) pages /\
    StronglySorted (not_greater record_less) (concat pages) /\ NoDup (concat pages) /\
    forall r, r ∈ concat pages <-> exists id, lookup2 (records s) orgID id = Some r.
Proof.
  intros Hok Hl Hne Hmax.
  assert (Hpos : 0 < zlen (sorted_records s orgID)).
  { unfold zlen, sorted_records. rewrite sort_slice_perm. rewrite go_values_perm, length_fmap.
    destruct (map_to_list (inner (records s) orgID)) eqn:E; simpl; [|lia].
    by apply map_to_list_empty_iff in E. }
  destruct (walk_records_at s orgID limit (S (length (sorted_records s orgID))) 0 "")
    as (pages & Hw & Hjoin & Hall); [done | lia | done | by right | unfold zlen; lia |].
  exists pages. split; [done|]. split; [done|]. rewrite Hjoin.
  change (zdrop 0 ?l) with l. unfold sorted_records. split; [apply sort_slice_sorted, _|].
  split.
  - rewrite sort_slice_perm. apply (NoDup_values rec_ResourceID). intros k v Hk.
    apply (ok_records _ Hok _ _ _ Hk).
  - intros r. rewrite elem_of_sort_slice. apply elem_of_go_values.
Qed.

Definition sample_record (id : string) : LedgerRecord :=
  mkRecord id "acme" "doc" "T" "internal" [] "src1" id "" "" ∅ zero_time zero_time.
Definition record_store : Store :=
  run (H := order_forward)
    [CUpsertRecord 5 (sample_record "b"); CUpsertRecord 5 (sample_record "a");
     CUpsertRecord 9 (sample_record "c")] NewStore.

Lemma list_records_pages_witness :
  exists pages,
    walk_records (H := order_forward) 4 "acme" 2 "" record_store = Ok pages /\
    Forall (fun p => 0 < zlen p <= 2) pages.
Proof.
  destruct (list_records_pages (H := order_forward) record_store "acme" 2)
    as (pages & Hw & Hall & _).
  - apply run_ok, ledger_ok_new.
  - reflexivity.
  - vm_compute. discriminate.
  - vm_compute. discriminate.
  - exists pages. split; [exact Hw | exact Hall].
Defined.

(** The pages are those one expects. *)
Example sample_pages :
  match walk_records (H := order_backward) 4 "acme" 2 "" record_store with
  | Ok pages => map (map rec_ResourceID) pages
  | Err _ => []
  end = [["a"; "b"]; ["c"]].
Proof. vm_compute. reflexivity. Qed.

(** ** The change feed *)
#[export] Instance change_less_weak : StrictWeak change_less.
Proof. unfold change_less. apply _. Qed.

Definition change_key (ev : ChangeEvent) : Time * string := (chg_OccurredAt ev, chg_EventID ev).

Lemma after_cursor_less x ev : after_cursor (Some (change_key x)) ev = change_less x ev.
Proof.
  unfold after_cursor, change_less, then_by, change_key, before. case_decide as Hd.
  - rewrite Hd, Z.ltb_irrefl, Z.eqb_refl. simpl. by rewrite negb_involutive.
  - destruct (Z.ltb_spec (chg_OccurredAt ev) (chg_OccurredAt x)),
      (Z.eqb_spec (chg_OccurredAt ev) (chg_OccurredAt x)),
      (Z.ltb_spec (chg_OccurredAt x) (chg_OccurredAt ev)); simpl; try done; lia.
Qed.

Lemma change_less_trans x y z :
  change_less x y = true -> change_less y z = true -> change_less x z = true.
Proof.
  intros Hxy Hyz. destruct (change_less x z) eqn:E; [done|].
  apply less_asym in Hyz. pose proof (less_ntrans _ _ _ E Hyz). congruence.
Qed.

(** The cursor selects an upper set of the order. *)
Lemma after_cursor_up cur x ev :
  after_cursor cur x = true -> change_less x ev = true -> after_cursor cur ev = true.
Proof.
  destruct cur as [[t id]|]; [|done]. set (c := mkChangeEvent id "" "" "" "" "" t).
  change (Some (t, id)) with (Some (change_key c)). rewrite !after_cursor_less.
  apply change_less_trans.
Qed.

Section Changes.
Variables (s : Store) (orgID : string).
Let feed := sort_slice change_less (entries_of (changes s) orgID).
Hypothesis Hkeys : NoDup (change_key <$> entries_of (changes s) orgID).

Definition pending_changes (cursor : string) : list ChangeEvent :=
  filter (fun ev => after_cursor (parse_change_cursor cursor) ev = true) feed.

Lemma feed_strict : StronglySorted (fun x y => change_less x y = true) feed.
Proof.
  assert (Hnd : NoDup (change_key <$> feed)).
  { unfold feed. by rewrite sort_slice_perm. }
  assert (Hs : StronglySorted (not_greater change_less) feed) by apply sort_slice_sorted, _.
  clearbody feed. induction feed as [|x l IH]; [constructor|].
  apply StronglySorted_inv in Hs as [Hs Hx]. apply NoDup_cons in Hnd as [Hnin Hnd].
  constructor; [by apply IH|]. apply Forall_forall. intros y Hy.
  rewrite Forall_forall in Hx. specialize (Hx y Hy). unfold not_greater in Hx.
  destruct (change_less x y) eqn:E; [done|]. exfalso. apply Hnin.
  apply list_elem_of_fmap. exists y. split; [|done]. unfold change_key.
  apply then_by_tie in E as (-> & E1 & E2); [|apply _ | exact Hx].
  f_equal. by apply (total_eq (lt := str_lt)).
Qed.

Lemma filter_after_split l1 x l2 :
  StronglySorted (fun x y => change_less x y = true) (l1 ++ x :: l2) ->
  filter (fun ev => change_less x ev = true) (l1 ++ x :: l2) = l2.
Proof.
  induction l1 as [|y l1 IH]; simpl; intros [Hs Hy]%StronglySorted_inv.
  - rewrite Forall_forall in Hy. rewrite filter_cons_False.
    + apply filter_all. by apply Forall_forall.
    + intros Hx. pose proof (less_asym _ _ Hx). congruence.
  - rewrite Forall_forall in Hy. rewrite filter_cons_False; [by apply IH|].
    intros Hx. assert (Hyx : change_less y x = true) by (apply Hy; set_solver).
    apply less_asym in Hyx. congruence.
Qed.

(** Cursors of stored events are read back as the position of the event. *)
Hypothesis Hread : forall ev, ev ∈ entries_of (changes s) orgID ->
  parse_change_cursor (change_cursor ev) = Some (change_key ev).

Lemma resume_after cursor k :
  0 < k ->
  pending_changes (from_option change_cursor cursor (last (ztake k (pending_changes cursor)))) =
  zdrop k (pending_changes cursor).
Proof.
  intros Hk. set (L := pending_changes cursor).
  destruct (last (ztake k L)) as [x|] eqn:Hlast.
  - apply last_Some in Hlast as (l1 & Hl1). simpl.
    assert (HL : L = l1 ++ x :: zdrop k L).
    { rewrite <- (take_drop (Z.to_nat k) L) at 1. unfold ztake in Hl1. rewrite Hl1.
      by rewrite <- app_assoc. }
    assert (Hx : x ∈ L) by (rewrite HL; set_solver).
    pose proof Hx as [Hcx Hfx]%list_elem_of_filter. unfold feed in Hfx.
    rewrite elem_of_sort_slice in Hfx. unfold pending_changes. rewrite (Hread x Hfx).
    rewrite (list_filter_iff _ (fun ev => change_less x ev = true))
      by (intros ev; by rewrite after_cursor_less).
    rewrite <- (list_filter_filter_l _ (fun ev => after_cursor (parse_change_cursor cursor) ev = true));
      [|intros ev; by apply after_cursor_up].
    fold (pending_changes cursor). fold L. rewrite HL at 1. apply filter_after_split.
    rewrite <- HL. apply StronglySorted_filter, feed_strict.
  - apply last_None in Hlast. simpl. fold L. unfold ztake, zdrop in *.
    destruct L as [|y L']; [by rewrite drop_nil|].
    destruct (Z.to_nat k) eqn:E; [lia | done].
Qed.
End Changes.

(** The change feed is resumable: a poll returns, in (time, identifier) order,
    the first [limit] (50 by default) events after the cursor, and what a poll
    from the returned cursor would see is exactly the rest: no event is lost or
    delivered twice between polls. *)
Theorem list_changes_resume s orgID cursor limit :
  NoDup (change_key <$> entries_of (changes s) orgID) ->
  (forall ev, ev ∈ entries_of (changes s) orgID ->
     parse_change_cursor (change_cursor ev) = Some (change_key ev)) ->
  exists out next,
    (ListChanges orgID cursor limit s).1 = Ok (out, next) /\
    pending_changes s orgID cursor = out ++ pending_changes s orgID next /\
    zlen out = Z.min (or_limit limit 50) (zlen (pending_changes s orgID cursor)) /\
    StronglySorted (fun x y => change_less x y = true) (pending_changes s orgID cursor).
Proof.
  intros Hkeys Hread. assert (Hpos : 0 < or_limit limit 50) by (apply or_limit_pos; lia).
  eexists _, _. split; [reflexivity|]. rewrite take_matching_spec by done.
  fold (pending_changes s orgID cursor). rewrite resume_after by done.
  split; [|split].
  - unfold ztake, zdrop. by rewrite take_drop.
  - unfold zlen, ztake. rewrite length_take. lia.
  - apply StronglySorted_filter. by apply feed_strict.
Qed.

Definition change_at (id : string) (t : Time) : ChangeEvent :=
  mkChangeEvent id "acme" "doc" "" "updated" "" t.
Definition change_store : Store :=
  run (H := order_forward)
    [CAppendChange (change_at "e2" 1700000000123456789); CAppendChange (change_at "e1" 1700000000123456789);
     CAppendChange (change_at "e3" 1700000001000000000)] NewStore.

Lemma list_changes_resume_witness :
  exists out next, (ListChanges "acme" "" 2 change_store).1 = Ok (out, next) /\ zlen out = 2 /\
    pending_changes change_store "acme" "" = out ++ pending_changes change_store "acme" next.
Proof.
  destruct (list_changes_resume change_store "acme" "" 2) as (out & next & Hl & Happ & Hlen & _).
  - apply (bool_decide_unpack _). vm_compute. exact I.
  - intros ev Hev. assert (Hall : Forall (fun ev => parse_change_cursor (change_cursor ev) = Some (change_key ev))
      (entries_of (changes change_store) "acme")) by (repeat constructor; vm_compute; reflexivity).
    by apply (proj1 (Forall_forall _ _) Hall).
  - exists out, next. split; [exact Hl|]. split; [|exact Happ]. rewrite Hlen. vm_compute. reflexivity.
Defined.

Definition sample_outbox (id : string) : OutboxEntry :=
  mkOutbox id "acme" "change.updated" "{}" None zero_time None.
Definition outbox_store : Store :=
  run (H := order_forward)
    [CEnqueueOutbox 5 "" (sample_outbox "o1"); CEnqueueOutbox 5 "" (sample_outbox "o2")] NewStore.
Definition outbox_claim := ClaimOutbox 10 1 outbox_store.
Definition outbox_next := ClaimOutbox 20 1 outbox_claim.2.
Definition claimed_by (r : result GoError (list OutboxEntry)) : OutboxEntry :=
  match r with Ok (e :: _) => e | _ => sample_outbox "" end.

Lemma outbox_claim_ok : outbox_claim = (Ok [claimed_by outbox_claim.1], outbox_claim.2).
Proof. vm_compute. reflexivity. Qed.
Lemma outbox_next_ok : outbox_next = (Ok [claimed_by outbox_next.1], outbox_next.2).
Proof. vm_compute. reflexivity. Qed.

Lemma claim_outbox_exclusive_witness :
  ob_ID (claimed_by outbox_next.1) <> ob_ID (claimed_by outbox_claim.1).
Proof.
  refine (proj2 (proj2 (proj2 (@claim_outbox_exclusive order_forward 10 1 outbox_store _ _
    outbox_claim_ok))) (claimed_by outbox_claim.1) [] 20 1 [claimed_by outbox_next.1] outbox_next.2
    _ eq_refl outbox_next_ok (add_lease_le 10 20 _) (claimed_by outbox_next.1) _);
    [left | reflexivity | left].
Defined.
