(* ===== verification/Index.v ===== *)
(** * [internal/adapters/memory/index.go] and [evidence.go]

    The in-memory candidate index (documents listed per organization, one per
    resource) and the versioned evidence store. *)
From S2P Require Import Prelude GoStd Ports Platform LedgerFacts Ledger LedgerQueries.

Record Index := mkIndex { docs : gmap string (list IndexDocument) }.
Definition NewIndex : Index := mkIndex ∅.

(** [list[i] = d] at the first document of the same resource, else append *)
Fixpoint replace_doc (d : IndexDocument) (l : list IndexDocument) : list IndexDocument :=
  match l with
  | [] => [d]
  | x :: l' => if String.eqb (doc_ResourceID x) (doc_ResourceID d) then d :: l'
               else x :: replace_doc d l'
  end.

Definition upsert_doc (idx : Index) (d : IndexDocument) : Index :=
  mkIndex (<[doc_OrgID d := replace_doc d (entries_of (docs idx) (doc_OrgID d))]> (docs idx)).
Definition Upsert (ds : list IndexDocument) (idx : Index) : Index := foldl upsert_doc idx ds.

Definition Delete (orgID : string) (resourceIDs : list string) (idx : Index) : Index :=
  mkIndex (<[orgID := filter (fun d => mem_str (doc_ResourceID d) resourceIDs = false)
                        (entries_of (docs idx) orgID)]> (docs idx)).

Definition classRank (c : string) : Z :=
  let c := to_lower c in
  if String.eqb c "public" then 1
  else if String.eqb c "internal" then 2
  else if String.eqb c "confidential" then 3
  else if String.eqb c "restricted" then 4
  else 2.

Definition purpose_matches (d : IndexDocument) (purpose : string) : bool :=
  existsb (fun l => String.eqb l ("purpose:" +:+ purpose) || equal_fold l purpose) (doc_Labels d)
  || (let allow := attr (doc_Attributes d) "purpose_allowlist" in
      negb (is_empty allow)
      && existsb (fun p => String.eqb (trim_space p) purpose) (split_byte allow ",")).

Definition tags_match (d : IndexDocument) (tags : string) : bool :=
  forallb (fun t => let t := trim_space t in is_empty t || mem_str t (doc_Labels d))
    (split_byte tags ",").

(** [if v := filters[name]; v != "" { ... }] *)
Definition when_set (v : string) (test : string -> bool) : bool := is_empty v || test v.

Definition matchFilters (d : IndexDocument) (filters : strmap) : bool :=
  when_set (attr filters "purpose") (purpose_matches d)
  && when_set (attr filters "classification_ceiling") (fun ceiling =>
       let docClass := or_default (attr (doc_Attributes d) "classification") "internal" in
       classRank docClass <=? classRank ceiling)
  && when_set (attr filters "include_tags") (tags_match d)
  && when_set (attr filters "context_space_id") (String.eqb (attr (doc_Attributes d) "context_space_id"))
  && when_set (attr filters "resource_id") (String.eqb (doc_ResourceID d)).

Definition query_matches (q : string) (filters : strmap) (d : IndexDocument) : bool :=
  is_empty q
  || (let rid := attr filters "resource_id" in negb (is_empty rid) && String.eqb (doc_ResourceID d) rid)
  || equal_fold (doc_ResourceID d) q
  || contains_str (to_lower (doc_Text d)) q.

Definition SearchCandidates (orgID query : string) (limit : Z) (filters : strmap) (idx : Index)
    : list SearchHit :=
  let q := to_lower (trim_space query) in
  (fun d => mkHit (doc_ResourceID d) (doc_RevisionID d) f_one) <$>
    take_matching (fun d => matchFilters d filters && query_matches q filters d)
      (or_limit limit 12) (entries_of (docs idx) orgID) [].

Definition GetDocument (orgID resourceID : string) (idx : Index) : option IndexDocument :=
  head (filter (fun d => doc_ResourceID d = resourceID) (entries_of (docs idx) orgID)).

(** ** Evidence *)
Record evidenceBlob := mkBlob { bl_meta : EvidenceObject; bl_data : string }.
Record EvidenceStore := mkEvidence { objs : gmap string (gmap string evidenceBlob) }.
Definition NewEvidence : EvidenceStore := mkEvidence ∅.

(** [body] is what [io.ReadAll] returned. *)
Definition Put (newid key body contentType : string) (meta : strmap)
    : M GoError EvidenceStore EvidenceObject :=
  fun e =>
    let obj := mkEvidenceObject key newid "" (Z.of_nat (String.length body)) contentType meta in
    (Ok obj, mkEvidence (insert2 key newid (mkBlob obj body) (objs e))).

Definition Get `{GoMapOrder} (key versionID : string)
    : M GoError EvidenceStore (string * EvidenceObject) :=
  fun e =>
    match objs e !! key with
    | None => (Err (ErrNotFound "evidence not found"), e)
    | Some m =>
        if is_empty versionID then
          match go_values m with
          | b :: _ => (Ok (bl_data b, bl_meta b), e)
          | [] => (Err (ErrNotFound "evidence not found"), e)
          end
        else
          match m !! versionID with
          | Some b => (Ok (bl_data b, bl_meta b), e)
          | None => (Err (ErrNotFound "evidence version not found"), e)
          end
    end.

Definition PresignPut (now : Time) (key : string) (expiresIn : Z) : string * Time :=
  ("memory://upload/" +:+ key,
   if expiresIn <=? 0 then add_time now (15 * minute) else add_time now expiresIn).

Definition DeleteVersion (key versionID : string) : M GoError EvidenceStore unit :=
  fun e =>
    match objs e !! key with
    | None => (Err (ErrNotFound "evidence not found"), e)
    | Some m => (Ok tt, mkEvidence (<[key := delete versionID m]> (objs e)))
    end.

(** ** Theorems *)

(** One document per resource, filed under its organization. *)
Definition index_ok (idx : Index) : Prop :=
  forall org, NoDup (doc_ResourceID <$> entries_of (docs idx) org) /\
              Forall (fun d => doc_OrgID d = org) (entries_of (docs idx) org).

Lemma entries_of_insert {V} (m : gmap string (list V)) k v a :
  entries_of (<[k := v]> m) a = if decide (a = k) then v else entries_of m a.
Proof. unfold entries_of. rewrite lookup_insert. repeat case_decide; done. Qed.

Lemma replace_doc_ids d l :
  doc_ResourceID <$> replace_doc d l =
  (doc_ResourceID <$> l) ++
    (if mem_str (doc_ResourceID d) (doc_ResourceID <$> l) then [] else [doc_ResourceID d]).
Proof.
  induction l as [|x l IH]; simpl; [done|]. rewrite (String.eqb_sym (doc_ResourceID d)).
  destruct (String.eqb_spec (doc_ResourceID x) (doc_ResourceID d)) as [Heq|]; simpl.
  - by rewrite app_nil_r, Heq.
  - f_equal. exact IH.
Qed.

Lemma elem_of_replace_doc d l x :
  NoDup (doc_ResourceID <$> l) ->
  x ∈ replace_doc d l <-> x = d \/ (x ∈ l /\ doc_ResourceID x <> doc_ResourceID d).
Proof.
  induction l as [|y l IH]; simpl; [set_solver|]. intros [Hy Hnd]%NoDup_cons.
  destruct (String.eqb_spec (doc_ResourceID y) (doc_ResourceID d)) as [Heq|Hne].
  - rewrite elem_of_cons. split; [|set_solver]. intros [->|Hx]; [by left|]. right. split; [set_solver|].
    intros Hxd. apply Hy. rewrite Heq, <- Hxd. by apply list_elem_of_fmap_2.
  - rewrite !elem_of_cons, IH by done. naive_solver.
Qed.

Lemma upsert_doc_ok idx d : index_ok idx -> index_ok (upsert_doc idx d).
Proof.
  intros Hok org. unfold upsert_doc. simpl. rewrite entries_of_insert. case_decide as Hd; [|apply Hok].
  subst org. destruct (Hok (doc_OrgID d)) as [Hnd Hall]. split.
  - rewrite replace_doc_ids. destruct (mem_str _ _) eqn:Hm; [by rewrite app_nil_r|].
    apply mem_str_not_In in Hm. apply NoDup_app. split; [done|]. split; [set_solver|].
    apply NoDup_singleton.
  - apply Forall_forall. intros x [->|[Hx _]]%elem_of_replace_doc; [done | | done].
    by apply (proj1 (Forall_forall _ _) Hall).
Qed.

Lemma Upsert_ok ds idx : index_ok idx -> index_ok (Upsert ds idx).
Proof.
  unfold Upsert. revert idx. induction ds as [|d ds IH]; intros idx Hok; simpl; [done|].
  by apply IH, upsert_doc_ok.
Qed.

Lemma Delete_ok org ids idx : index_ok idx -> index_ok (Delete org ids idx).
Proof.
  intros Hok org'. unfold Delete. simpl. rewrite entries_of_insert. case_decide as Hd; [|apply Hok].
  subst org'. destruct (Hok org) as [Hnd Hall]. split.
  - eapply sublist_NoDup; [exact Hnd|]. apply fmap_sublist, sublist_filter.
  - apply Forall_forall. intros d [_ Hd]%list_elem_of_filter.
    by apply (proj1 (Forall_forall _ _) Hall).
Qed.

Lemma NewIndex_ok : index_ok NewIndex.
Proof.
  intros org. unfold entries_of, NewIndex. simpl. rewrite lookup_empty. simpl. by split; constructor.
Qed.

(** The candidates of a search are documents of the organization that pass
    every mandatory filter, no resource twice and at most [limit] (12 by
    default); in particular none is above the classification ceiling, and none
    of another organization is ever returned. *)
Theorem search_candidates_sound orgID query limit filters idx :
  index_ok idx ->
  let hits := SearchCandidates orgID query limit filters idx in
  zlen hits <= or_limit limit 12 /\ NoDup (hit_ResourceID <$> hits) /\
  forall h, h ∈ hits -> exists d,
    d ∈ entries_of (docs idx) orgID /\ doc_OrgID d = orgID /\
    hit_ResourceID h = doc_ResourceID d /\ hit_RevisionID h = doc_RevisionID d /\
    matchFilters d filters = true /\
    (attr filters "classification_ceiling" <> "" ->
     classRank (or_default (attr (doc_Attributes d) "classification") "internal")
     <= classRank (attr filters "classification_ceiling")).
Proof.
  intros Hok. cbv zeta. unfold SearchCandidates.
  assert (Hpos : 0 < or_limit limit 12) by (apply or_limit_pos; lia).
  rewrite take_matching_spec by done. destruct (Hok orgID) as [Hnd Hall]. split; [|split].
  - unfold zlen, ztake. rewrite length_fmap, length_take. lia.
  - rewrite <- list_fmap_compose. eapply sublist_NoDup; [exact Hnd|].
    apply (fmap_sublist doc_ResourceID). etrans; [apply sublist_take | apply sublist_filter].
  - intros h (d & -> & Hd)%list_elem_of_fmap. exists d. simpl.
    pose proof (elem_of_sublist _ _ _ Hd (sublist_take _ _)) as Hd'. clear Hd. rename Hd' into Hd.
    apply list_elem_of_filter in Hd as [Hm Hd]. apply andb_true_iff in Hm as [Hm _].
    split; [done|]. split; [by apply (proj1 (Forall_forall _ _) Hall)|].
    split; [done | split; [done | split; [done|]]]. intros Hne.
    unfold matchFilters, when_set in Hm. bools. apply is_empty_false in Hne. rewrite Hne in *.
    simpl in *. by bools.
Qed.

Definition sample_doc (org id text : string) : IndexDocument :=
  mkIndexDocument id "rev1" org text ["purpose:support"] {["classification" := "internal"]}.
Definition sample_index : Index :=
  Upsert [sample_doc "acme" "r1" "Quarterly report"; sample_doc "globex" "r2" "Quarterly report";
          sample_doc "acme" "r1" "Yearly report"] NewIndex.

Lemma search_candidates_sound_witness :
  zlen (SearchCandidates "acme" "yearly" 5 {["purpose" := "support"]} sample_index) <= 5.
Proof. apply search_candidates_sound, Upsert_ok, NewIndex_ok. Defined.

Example sample_search :
  map hit_ResourceID (SearchCandidates "acme" " YEARLY " 5 {["purpose" := "support"]} sample_index)
  = ["r1"] /\
  SearchCandidates "acme" "quarterly" 5 {["purpose" := "support"]} sample_index = [].
Proof. split; vm_compute; reflexivity. Qed.
