(* ===== verification/AuditLog.v ===== *)
(** * [internal/audit]: the append-only audit log

    Both loggers sanitize an event before storing it: [MemoryLogger] in a list,
    [LedgerLogger] through the ledger's [AppendAudit]. *)
From S2P Require Import Prelude GoStd Ports Platform Ledger.

Definition forbiddenAttrKeys : list string :=
  ["query"; "q"; "content"; "body"; "token"; "access_token"; "refresh_token"; "authorization";
   "api_key"; "password"; "secret"; "raw"].

Definition forbidden (k : string) : bool := mem_str (to_lower k) forbiddenAttrKeys.

(** An event whose attributes are [nil] returns before the sample is cut. *)
Definition sanitize (e : AuditEvent) : AuditEvent :=
  match aud_Attributes e with
  | None => e
  | Some attrs =>
      let clean := filter (fun kv : string * string => forbidden kv.1 = false) attrs in
      let e := e <| aud_Attributes := Some clean |> in
      if 16 <? zlen (aud_ResourceIDsSample e)
      then e <| aud_ResourceIDsSample := ztake 16 (aud_ResourceIDsSample e) |> else e
  end.

(** What is stored for an event: [newid] and [now] fill in what it lacks. *)
Definition stored_event (now : Time) (newid : string) (event : AuditEvent) : AuditEvent :=
  let event := sanitize event in
  let event := event <| aud_AuditID := or_default (aud_AuditID event) newid |> in
  event <| aud_CreatedAt := or_now (aud_CreatedAt event) now |>.

(** [MemoryLogger] *)
Definition MemoryAppend (now : Time) (newid : string) (event : AuditEvent)
    : M GoError (list AuditEvent) unit :=
  modify (fun events => events ++ [stored_event now newid event]).

(** [LedgerLogger] with a configured writer *)
Definition LedgerAppend (now : Time) (newid : string) (event : AuditEvent) : ledger unit :=
  AppendAudit (stored_event now newid event).

(** No secret reaches the log: whatever event is appended, the stored one
    keeps its organization, principal, action and reason, has no attribute
    whose lower-case name is forbidden, and loses no other attribute. *)
Theorem audit_sanitized now newid event events :
  exists e, MemoryAppend now newid event events = (Ok tt, events ++ [e]) /\
    aud_OrgID e = aud_OrgID event /\ aud_PrincipalID e = aud_PrincipalID event /\
    aud_Action e = aud_Action event /\ aud_ReasonCode e = aud_ReasonCode event /\
    aud_ResourceCount e = aud_ResourceCount event /\
    (aud_AuditID event <> "" -> aud_AuditID e = aud_AuditID event) /\
    forall k v, default ∅ (aud_Attributes e) !! k = Some v <->
      default ∅ (aud_Attributes event) !! k = Some v /\ to_lower k ∉ forbiddenAttrKeys.
Proof.
  eexists. split; [reflexivity|]. unfold stored_event, sanitize. simpl.
  destruct (aud_Attributes event) as [attrs|] eqn:Hattrs.
  - assert (Hkeys : forall k v, filter (fun kv : string * string => forbidden kv.1 = false) attrs !! k
              = Some v <-> attrs !! k = Some v /\ to_lower k ∉ forbiddenAttrKeys).
    { intros k v. rewrite map_lookup_filter_Some. simpl. unfold forbidden.
      by rewrite mem_str_not_In. }
    destruct (16 <? _); simpl; (do 5 (split; [done|]));
      (split; [|exact Hkeys]); unfold or_default; intros ->%is_empty_false; done.
  - simpl. (do 5 (split; [done|])). split.
    + unfold or_default. by intros ->%is_empty_false.
    + intros k v. rewrite Hattrs. simpl. rewrite lookup_empty. split; [done | by intros []].
Qed.

(** The sample of resource identifiers is cut to 16 only when the event has
    attributes: with [nil] attributes the whole sample is stored. *)
Theorem sample_cap_needs_attributes now newid event events :
  exists e, MemoryAppend now newid event events = (Ok tt, events ++ [e]) /\
    aud_ResourceIDsSample e =
      match aud_Attributes event with
      | Some _ => ztake 16 (aud_ResourceIDsSample event)
      | None => aud_ResourceIDsSample event
      end.
Proof.
  eexists. split; [reflexivity|]. unfold stored_event, sanitize. simpl.
  destruct (aud_Attributes event); [|done]. simpl.
  destruct (Z.ltb_spec 16 (zlen (aud_ResourceIDsSample event))) as [|Hle]; simpl; [done|].
  unfold ztake, zlen in *. symmetry. apply take_ge. lia.
Qed.
