(* ===== verification/Credentials.v ===== *)
(** * [internal/adapters/memory/credentials.go]: agent API keys

    [CredentialStore] files a credential under the hash of its secret, under its
    identifier, and the identifiers of an agent under ["org|agent"]. Every method
    runs under the store's mutex except [RotateAgentCredential], which takes it
    once to read the identifiers and once for each call it makes. What
    [crypto/rand] answers is an argument. *)
From stdpp Require Import relations.
From S2P Require Import Prelude GoStd Sha256 Ports Platform Ledger.

Record AgentCredential := mkAgentCredential {
  agc_CredentialID : string; agc_AgentID : string; agc_OrgID : string; agc_Secret : string;
  agc_ExpiresAt : option Time; agc_CreatedAt : Time;
}.
#[export] Instance AgentCredential_eta : Settable AgentCredential := fun r =>
  mkAgentCredential (agc_CredentialID r) (agc_AgentID r) (agc_OrgID r) (agc_Secret r)
    (agc_ExpiresAt r) (agc_CreatedAt r).

Record CreateAgentCredentialRequest := mkCreateCredential {
  ccr_OrgID : string; ccr_AgentID : string; ccr_OwnerID : string; ccr_DelegationID : string;
  ccr_ExpiresAt : option Time; ccr_Label : string;
}.

Record agentCred := mkCred {
  cred_meta : AgentCredential; cred_hash : string; cred_orgID : string; cred_owner : string;
  cred_revoked : bool; cred_agent : AgentPrincipal;
}.
#[export] Instance agentCred_eta : Settable agentCred := fun r =>
  mkCred (cred_meta r) (cred_hash r) (cred_orgID r) (cred_owner r) (cred_revoked r) (cred_agent r).

Record CredentialStore := mkCredentialStore {
  byKey : gmap string agentCred;
  byID : gmap string agentCred;
  byAgent : gmap string (list string);
}.
#[export] Instance CredentialStore_eta : Settable CredentialStore := fun r =>
  mkCredentialStore (byKey r) (byID r) (byAgent r).
Definition NewCredentialStore : CredentialStore := mkCredentialStore ∅ ∅ ∅.

Abbreviation credentials := (M GoError CredentialStore).

Definition key_hash (key : string) : string := hex_encode (sha256 key).
Definition agent_key (orgID agentID : string) : string := orgID +:+ "|" +:+ agentID.

(** A credential that is accepted at [now] *)
Definition live (now : Time) (c : agentCred) : bool :=
  negb (cred_revoked c)
  && negb (match agc_ExpiresAt (cred_meta c) with Some t => after now t | None => false end).

Definition ResolveAPIKey (now : Time) (key : string) : credentials AgentPrincipal :=
  fun s =>
    match byKey s !! key_hash key with
    | Some cred =>
        if cred_revoked cred then (Err (ErrUnauthorized "invalid api key"), s)
        else if negb (live now cred) then (Err (ErrUnauthorized "api key expired"), s)
        else (Ok (cred_agent cred), s)
    | None => (Err (ErrUnauthorized "invalid api key"), s)
    end.

Definition randomSecret (bytes : result GoError string) : result GoError string :=
  b ← bytes; Ok ("cfak_" +:+ hex_encode b).

Definition agent_principal (id : string) (req : CreateAgentCredentialRequest) : AgentPrincipal :=
  mkAgentPrincipal
    (mkPrincipal ("agent|" +:+ ccr_AgentID req) PrincipalKindAgent (ccr_OrgID req)
       "context-fabric/apikey" (ccr_AgentID req) [] [] ["context:search"; "context:read"] "" ∅)
    (ccr_AgentID req) id (ccr_OwnerID req).

Definition new_cred (now : Time) (id secret : string) (req : CreateAgentCredentialRequest)
    : agentCred :=
  mkCred (mkAgentCredential id (ccr_AgentID req) (ccr_OrgID req) "" (ccr_ExpiresAt req) now)
    (key_hash secret) (ccr_OrgID req) (ccr_OwnerID req) false (agent_principal id req).

Definition CreateAgentCredential (now : Time) (bytes : result GoError string) (id : string)
    (req : CreateAgentCredentialRequest) : credentials AgentCredential :=
  _ ← throw_if (is_empty (ccr_OrgID req) || is_empty (ccr_AgentID req))
        (ErrValidation "org and agent required");
  secret ← of_result (randomSecret bytes);
  let rec := new_cred now id secret req in
  let key := agent_key (ccr_OrgID req) (ccr_AgentID req) in
  _ ← modify (fun s =>
        mkCredentialStore (<[cred_hash rec := rec]> (byKey s)) (<[id := rec]> (byID s))
          (<[key := entries_of (byAgent s) key ++ [id]]> (byAgent s)));
  mret ((cred_meta rec) <| agc_Secret := secret |>).

Definition Revoke (orgID credentialID : string) : credentials unit :=
  if is_empty orgID || is_empty credentialID
  then throw (ErrValidation "org and credential required")
  else fun s =>
    match byID s !! credentialID with
    | Some cred =>
        if negb (String.eqb (cred_orgID cred) orgID)
        then (Err (ErrNotFound "credential not found"), s)
        else
          let cred := cred <| cred_revoked := true |> in
          (Ok tt, (s <| byID := <[credentialID := cred]> (byID s) |>)
                    <| byKey := <[cred_hash cred := cred]> (byKey s) |>)
    | None => (Err (ErrNotFound "credential not found"), s)
    end.

(** The identifiers that the agent had when the mutex was taken are revoked,
    errors ignored, before the new key is made. *)
Definition RotateAgentCredential (now : Time) (bytes : result GoError string) (id : string)
    (req : CreateAgentCredentialRequest) : credentials AgentCredential :=
  ids ← gets (fun s => entries_of (byAgent s) (agent_key (ccr_OrgID req) (ccr_AgentID req)));
  _ ← for_each (fun old => _ ← attempt (Revoke (ccr_OrgID req) old); mret tt) ids;
  CreateAgentCredential now bytes id req.

(** ** Histories of the store

    A key is made with an identifier and a secret never seen before: identifiers
    are random UUIDs, secrets carry 24 random bytes, and hashes do not collide. *)
Definition unused (s : CredentialStore) (id secret : string) : Prop :=
  id <> "" /\ byID s !! id = None /\ byKey s !! key_hash secret = None.

Definition secret_of (b : string) : string := "cfak_" +:+ hex_encode b.

(** A rotation is a revocation per key and a creation, each of them a step. *)
Inductive step (s : CredentialStore) : CredentialStore -> Prop :=
| step_create now b id req :
    unused s id (secret_of b) -> step s (CreateAgentCredential now (Ok b) id req s).2
| step_revoke orgID id : step s (Revoke orgID id s).2.

Definition reachable (s : CredentialStore) : Prop := rtc step NewCredentialStore s.

(** The tables agree: a credential is filed under its identifier, its hash and
    its agent; no secret is kept. *)
Record cred_ok (s : CredentialStore) : Prop := {
  cok_id : forall id c, byID s !! id = Some c ->
    id <> "" /\ byKey s !! cred_hash c = Some c /\ agc_CredentialID (cred_meta c) = id /\
    agc_Secret (cred_meta c) = "" /\ cred_orgID c <> "" /\
    p_OrgID (ap_Principal (cred_agent c)) = cred_orgID c /\
    id ∈ entries_of (byAgent s) (agent_key (cred_orgID c) (ap_AgentID (cred_agent c)));
  cok_key : forall h c, byKey s !! h = Some c ->
    cred_hash c = h /\ byID s !! agc_CredentialID (cred_meta c) = Some c;
  cok_agent : forall k id, id ∈ entries_of (byAgent s) k ->
    exists c, byID s !! id = Some c /\ k = agent_key (cred_orgID c) (ap_AgentID (cred_agent c));
}.

Definition revoke_cred (c : agentCred) : agentCred := c <| cred_revoked := true |>.

Lemma cred_ok_new : cred_ok NewCredentialStore.
Proof.
  split; simpl.
  - intros id c. by rewrite lookup_empty.
  - intros h c. by rewrite lookup_empty.
  - intros k id. unfold entries_of. rewrite lookup_empty. simpl. by intros ?%elem_of_nil.
Qed.

Lemma entries_of_snoc {V} (m : gmap string (list V)) k k' x :
  entries_of (<[k := entries_of m k ++ [x]]> m) k' =
  if decide (k' = k) then entries_of m k ++ [x] else entries_of m k'.
Proof.
  unfold entries_of. case_decide as Hk.
  - subst. by rewrite lookup_insert_eq.
  - by rewrite lookup_insert_ne by congruence.
Qed.

(** What a creation stores *)
Lemma CreateAgentCredential_Ok now bytes id req s cred s' :
  CreateAgentCredential now bytes id req s = (Ok cred, s') ->
  exists b, bytes = Ok b /\ ccr_OrgID req <> "" /\ ccr_AgentID req <> "" /\
    let rec := new_cred now id (secret_of b) req in
    let key := agent_key (ccr_OrgID req) (ccr_AgentID req) in
    cred = (cred_meta rec) <| agc_Secret := secret_of b |> /\
    s' = mkCredentialStore (<[cred_hash rec := rec]> (byKey s)) (<[id := rec]> (byID s))
           (<[key := entries_of (byAgent s) key ++ [id]]> (byAgent s)).
Proof.
  unfold CreateAgentCredential, throw_if, of_result, mbind, M_bind, fail_if.
  destruct (is_empty (ccr_OrgID req)) eqn:H1, (is_empty (ccr_AgentID req)) eqn:H2; simpl; try done.
  destruct bytes as [b|]; simpl; [|done]. apply is_empty_false in H1, H2.
  intros [= <- <-]. by exists b.
Qed.

(** A creation that fails stores nothing. *)
Lemma CreateAgentCredential_cases now bytes id req s :
  (exists e, CreateAgentCredential now bytes id req s = (Err e, s)) \/
  exists cred s', CreateAgentCredential now bytes id req s = (Ok cred, s').
Proof.
  unfold CreateAgentCredential, throw_if, of_result, mbind, M_bind, fail_if.
  destruct (_ || _); simpl; [eauto|]. destruct bytes; simpl; eauto.
Qed.

(** What a revocation does to each credential *)
Lemma Revoke_cases orgID id s :
  (exists e, Revoke orgID id s = (Err e, s)) \/
  exists c, byID s !! id = Some c /\ cred_orgID c = orgID /\ orgID <> "" /\ id <> "" /\
    Revoke orgID id s =
      (Ok tt, mkCredentialStore (<[cred_hash c := revoke_cred c]> (byKey s))
                (<[id := revoke_cred c]> (byID s)) (byAgent s)).
Proof.
  unfold Revoke. destruct (is_empty orgID) eqn:H1, (is_empty id) eqn:H2; simpl; try by left; eexists.
  destruct (byID s !! id) as [c|] eqn:Hc; [|by left; eexists].
  destruct (String.eqb_spec (cred_orgID c) orgID); simpl; [|by left; eexists].
  right. exists c. by rewrite <- !is_empty_false.
Qed.

Lemma cred_ok_create now b id req s :
  unused s id (secret_of b) -> cred_ok s -> cred_ok (CreateAgentCredential now (Ok b) id req s).2.
Proof.
  intros (Hid & Hfi & Hfk) Hok.
  destruct (CreateAgentCredential_cases now (Ok b) id req s) as [[e ->]|(cred & s' & Hc)]; [done|].
  rewrite Hc. apply CreateAgentCredential_Ok in Hc as (b' & [= <-] & Ho & Ha & _ & ->).
  simpl. split; simpl.
  - intros i c. rewrite lookup_insert, lookup_insert, entries_of_snoc. case_decide as Hi.
    + intros [= <-]. subst. simpl. rewrite !decide_True by done. split_and!; try done. set_solver.
    + intros Hc. destruct (cok_id s Hok i c Hc) as (? & Hk & ? & ? & ? & ? & Hin).
      rewrite (decide_False (P := key_hash _ = _)) by congruence.
      split_and!; try done. case_decide as Heq; [|done]. rewrite <- Heq. set_solver.
  - intros h c. rewrite lookup_insert, lookup_insert. case_decide as Hh.
    + intros [= <-]. simpl. split; [done|]. by rewrite decide_True.
    + intros Hc. destruct (cok_key s Hok h c Hc) as [? Hk]. split; [done|].
      rewrite decide_False; [done|]. intros Heq. simpl in *. congruence.
  - intros k i. rewrite entries_of_snoc. intros Hin.
    assert (Hor : i = id /\ k = agent_key (ccr_OrgID req) (ccr_AgentID req) \/
                  i ∈ entries_of (byAgent s) k) by (case_decide; set_solver).
    rewrite lookup_insert. destruct Hor as [[-> ->]|Hk].
    + rewrite decide_True by done. by eexists.
    + destruct (cok_agent s Hok k i Hk) as (c & Hc & ->).
      rewrite decide_False by congruence. by eexists.
Qed.

Lemma cred_ok_revoke orgID id s : cred_ok s -> cred_ok (Revoke orgID id s).2.
Proof.
  intros Hok. destruct (Revoke_cases orgID id s) as [[e ->]|(c & Hc & Ho & _ & _ & ->)]; [done|].
  destruct (cok_id s Hok id c Hc) as (? & Hk & Hi & ? & ? & ? & Hin). simpl.
  split; simpl.
  - intros i c'. rewrite lookup_insert, lookup_insert. case_decide as Heq.
    + intros [= <-]. subst. by rewrite decide_True.
    + intros Hc'. destruct (cok_id s Hok i c' Hc') as (? & Hk' & ? & ? & ? & ? & ?).
      rewrite decide_False; [done|]. intros Hh. rewrite <- Hh in Hk'. congruence.
  - intros h c'. rewrite lookup_insert, lookup_insert. case_decide as Heq.
    + intros [= <-]. simpl. by rewrite decide_True.
    + intros Hc'. destruct (cok_key s Hok h c' Hc') as [? Hk']. split; [done|].
      rewrite decide_False; [done|]. intros ?. congruence.
  - intros k i Hki. destruct (cok_agent s Hok k i Hki) as (c' & Hc' & ->).
    rewrite lookup_insert. case_decide as Heq; [|by eexists].
    exists (revoke_cred c). split; [done|]. by replace c' with c by congruence.
Qed.

Lemma reachable_ok s s' : rtc step s s' -> cred_ok s -> cred_ok s'.
Proof.
  induction 1 as [|s s1 s2 Hs _ IH]; [done|]. intros Hok. apply IH.
  destruct Hs; auto using cred_ok_create, cred_ok_revoke.
Qed.

(** Whom a key stands for, read off the table of identifiers *)
Lemma ResolveAPIKey_iff now key s a :
  cred_ok s ->
  (ResolveAPIKey now key s).1 = Ok a <->
  exists id c, byID s !! id = Some c /\ cred_hash c = key_hash key /\ live now c = true /\
               cred_agent c = a.
Proof.
  intros Hok. unfold ResolveAPIKey. split.
  - destruct (byKey s !! key_hash key) as [c|] eqn:Hk; [|done].
    destruct (cok_key s Hok _ _ Hk) as [Hh Hc].
    destruct (cred_revoked c) eqn:Hr; [done|]. destruct (live now c) eqn:Hl; simpl; [|done].
    intros [= <-]. eauto 10.
  - intros (id & c & Hc & Hh & Hl & <-). destruct (cok_id s Hok id c Hc) as (_ & Hk & _).
    rewrite <- Hh, Hk, Hl. unfold live in Hl. by destruct (cred_revoked c).
Qed.

(** A revoked credential stays under its identifier and its hash, revoked. *)
Lemma step_keeps_revoked s s' id c :
  cred_ok s -> step s s' -> byID s !! id = Some c -> cred_revoked c = true ->
  byID s' !! id = Some c.
Proof.
  intros Hok Hs Hc Hr. destruct Hs as [now b id' req (_ & Hfi & _)|orgID id'].
  - destruct (CreateAgentCredential_cases now (Ok b) id' req s) as [[e ->]|(cr & s1 & H)]; [done|].
    rewrite H. apply CreateAgentCredential_Ok in H as (b' & _ & _ & _ & _ & ->). simpl.
    by rewrite lookup_insert_ne by congruence.
  - destruct (Revoke_cases orgID id' s) as [[e ->]|(c' & Hc' & _ & _ & _ & ->)]; [done|]. simpl.
    rewrite lookup_insert. case_decide as Heq; [|done]. subst. replace c' with c by congruence.
    f_equal. destruct c; unfold revoke_cred, set; simpl in *; by subst.
Qed.

Lemma revoked_does_not_resolve now key s id c :
  cred_ok s -> byID s !! id = Some c -> cred_revoked c = true -> key_hash key = cred_hash c ->
  (ResolveAPIKey now key s).1 = Err (ErrUnauthorized "invalid api key").
Proof.
  intros Hok Hc Hr Hk. destruct (cok_id s Hok id c Hc) as (_ & Hb & _).
  unfold ResolveAPIKey. by rewrite Hk, Hb, Hr.
Qed.

(** Revocation is final: once a key was revoked no later history of
    creations, rotations and revocations makes it resolve again. *)
Theorem revoked_key_stays_dead s id c s1 s2 key now :
  reachable s -> byID s !! id = Some c -> key_hash key = cred_hash c ->
  Revoke (cred_orgID c) id s = (Ok tt, s1) -> rtc step s1 s2 ->
  (ResolveAPIKey now key s2).1 = Err (ErrUnauthorized "invalid api key").
Proof.
  intros Hreach Hc Hk Hrev Hsteps.
  pose proof (reachable_ok _ _ Hreach cred_ok_new) as Hok.
  assert (Hok1 : cred_ok s1).
  { replace s1 with (Revoke (cred_orgID c) id s).2 by (by rewrite Hrev). by apply cred_ok_revoke. }
  assert (Hc1 : byID s1 !! id = Some (revoke_cred c)).
  { destruct (Revoke_cases (cred_orgID c) id s) as [[e H]|(c' & Hc' & _ & _ & _ & H)];
      rewrite H in Hrev; simplify_eq. simpl. by rewrite lookup_insert_eq. }
  assert (Hc2 : cred_ok s2 /\ byID s2 !! id = Some (revoke_cred c)).
  { clear Hrev. induction Hsteps as [|s1 s3 s2 Hs _ IH]; [done|].
    apply IH; [by eapply reachable_ok; [apply rtc_once|]|by eapply step_keeps_revoked]. }
  destruct Hc2 as [Hok2 Hc2]. by eapply (revoked_does_not_resolve now key s2 id).
Qed.

(** ** Rotation *)
Definition revoke_of (orgID : string) (ids : list string) (i : string) (c : agentCred) : agentCred :=
  if bool_decide (i ∈ ids /\ cred_orgID c = orgID) then revoke_cred c else c.

Definition revoke_all (orgID : string) (ids : list string) : credentials unit :=
  for_each (fun old => _ ← attempt (Revoke orgID old); mret tt) ids.

Lemma revoke_of_idem orgID i c : revoke_of orgID [i] i (revoke_cred c) = revoke_cred c.
Proof. unfold revoke_of. by case_bool_decide. Qed.

(** The loop revokes exactly the listed credentials of the organization. *)
Lemma revoke_all_spec orgID ids s :
  cred_ok s -> orgID <> "" ->
  exists s', revoke_all orgID ids s = (Ok tt, s') /\ cred_ok s' /\ byAgent s' = byAgent s /\
    (forall i, byID s' !! i = revoke_of orgID ids i <$> byID s !! i) /\
    dom (byKey s') = dom (byKey s).
Proof.
  intros Hok Ho. revert s Hok. induction ids as [|id ids IH]; intros s Hok.
  - exists s. split_and!; try done. intros i. destruct (byID s !! i) as [c|]; [|done]. simpl.
    unfold revoke_of. rewrite bool_decide_false; [done|]. by intros [?%elem_of_nil _].
  - unfold revoke_all. simpl. unfold mbind, M_bind, attempt.
    destruct (IH (Revoke orgID id s).2) as (s' & Hrun & Hok' & Hag & Hid & Hdom);
      [by apply cred_ok_revoke|].
    exists s'. destruct (Revoke orgID id s) as [r s1] eqn:HR. simpl in *.
    split; [exact Hrun|]. split; [done|].
    destruct (Revoke_cases orgID id s) as [[e HE]|(c & Hc & Hco & _ & Hne & HE)];
      rewrite HR in HE; injection HE as -> ->; simpl in *.
    + split; [done|]. split; [|done]. intros i. rewrite Hid.
      destruct (byID s !! i) as [c|] eqn:Hc; [|done]. simpl. f_equal. unfold revoke_of.
      erewrite bool_decide_ext; [reflexivity|]. rewrite elem_of_cons. split; [tauto|]. intros [[->|] Heq]; [|done].
      exfalso. subst. destruct (cok_id s Hok id c Hc) as (Hne & _).
      apply is_empty_false in Hne, Ho. unfold Revoke in HR.
      rewrite Ho, Hne in HR. simpl in HR. by rewrite Hc, String.eqb_refl in HR.
    + split; [done|]. split.
      * intros i. rewrite Hid, lookup_insert. case_decide as Heq.
        -- subst i. rewrite Hc. simpl. f_equal. unfold revoke_of at 2.
           rewrite bool_decide_true by (split; [left | done]). unfold revoke_of. by case_bool_decide.
        -- destruct (byID s !! i) as [c'|]; [|done]. simpl. f_equal. unfold revoke_of.
           erewrite bool_decide_ext; [reflexivity|]. rewrite elem_of_cons. naive_solver.
      * destruct (cok_id s Hok id c Hc) as (_ & Hk & _).
        rewrite Hdom, dom_insert_L. apply elem_of_dom_2 in Hk. set_solver.
Qed.

Definition holder (a : AgentPrincipal) : string * string := (p_OrgID (ap_Principal a), ap_AgentID a).

Lemma agent_key_inj org a1 a2 : agent_key org a1 = agent_key org a2 -> a1 = a2.
Proof. unfold agent_key. induction org; simpl; intros; simplify_eq; auto. Qed.

(** The agent's listed credentials of its organization are those it holds. *)
Lemma listed_iff_held s i c org agent :
  cred_ok s -> byID s !! i = Some c ->
  i ∈ entries_of (byAgent s) (agent_key org agent) /\ cred_orgID c = org <->
  holder (cred_agent c) = (org, agent).
Proof.
  intros Hok Hc. destruct (cok_id s Hok i c Hc) as (_ & _ & _ & _ & _ & Ho & Hin). unfold holder.
  rewrite Ho. split.
  - intros [Hl Heq]. destruct (cok_agent s Hok _ _ Hl) as (c' & Hc' & Hk).
    replace c' with c in Hk by congruence. rewrite Heq in *. by apply agent_key_inj in Hk as <-.
  - intros [= <- <-]. done.
Qed.

(** A rotation is its revocations and then a creation in a store where the
    identifier and the secret are still unused. *)
Lemma Rotate_Ok now b id req s cred s' :
  cred_ok s -> unused s id (secret_of b) ->
  RotateAgentCredential now (Ok b) id req s = (Ok cred, s') ->
  cred_ok s' /\ agc_Secret cred = secret_of b /\
  forall i, byID s' !! i =
    if decide (i = id) then Some (new_cred now id (secret_of b) req)
    else revoke_of (ccr_OrgID req)
           (entries_of (byAgent s) (agent_key (ccr_OrgID req) (ccr_AgentID req))) i <$> byID s !! i.
Proof.
  intros Hok (Hne & Hfi & Hfk). unfold RotateAgentCredential. rewrite bind_Ok.
  intros (ids & s0 & [= <- <-] & H). rewrite bind_Ok in H. destruct H as (u & s1 & Hrev & Hcr).
  destruct (CreateAgentCredential_Ok _ _ _ _ _ _ _ Hcr) as (b' & [= <-] & Ho & _ & -> & Hs').
  destruct (revoke_all_spec (ccr_OrgID req)
    (entries_of (byAgent s) (agent_key (ccr_OrgID req) (ccr_AgentID req))) s Hok Ho)
    as (s1' & Hrev' & Hok1 & _ & Hid & Hdom).
  unfold revoke_all in Hrev'. rewrite Hrev in Hrev'. injection Hrev' as _ <-.
  assert (Hun : unused s1 id (secret_of b)).
  { split; [done|]. split; [by rewrite Hid, Hfi|].
    rewrite <- not_elem_of_dom in Hfk |- *. by rewrite Hdom. }
  split; [|split; [done|]].
  - replace s' with (CreateAgentCredential now (Ok b) id req s1).2 by (by rewrite Hcr).
    by apply cred_ok_create.
  - intros i. rewrite Hs'. simpl. rewrite lookup_insert, Hid.
    repeat case_decide; congruence.
Qed.

(** Rotating an agent's key: the returned secret resolves to the agent of the
    request until it expires; whatever else resolves afterwards did so before
    and belongs to someone else, so every earlier key of the agent is dead; and
    the keys of everyone else resolve as before. *)
Theorem rotation_replaces s now b id req cred s' t key a :
  reachable s -> unused s id (secret_of b) ->
  RotateAgentCredential now (Ok b) id req s = (Ok cred, s') ->
  (ResolveAPIKey t key s').1 = Ok a <->
  key_hash key = key_hash (agc_Secret cred) /\ a = agent_principal id req /\
    from_option (fun e => t <= e) True (ccr_ExpiresAt req) \/
  (ResolveAPIKey t key s).1 = Ok a /\ holder a <> (ccr_OrgID req, ccr_AgentID req).
Proof.
  intros Hreach Hun Hrot. pose proof (reachable_ok _ _ Hreach cred_ok_new) as Hok.
  destruct (Rotate_Ok now b id req s cred s' Hok Hun Hrot) as (Hok' & -> & Hid).
  rewrite !ResolveAPIKey_iff by done. split.
  - intros (i & c & Hc & Hh & Hl & <-). rewrite Hid in Hc. case_decide as Heq.
    + injection Hc as <-. left. split; [done|]. split; [done|]. unfold live in Hl. simpl in Hl.
      destruct (ccr_ExpiresAt req); simpl; [|done]. unfold after in Hl. lia.
    + right. destruct (byID s !! i) as [c0|] eqn:Hc0; [|done]. simpl in Hc. injection Hc as <-.
      unfold revoke_of in *. case_bool_decide as Hb; [done|].
      rewrite (listed_iff_held s) in Hb by done. eauto 10.
  - intros [(Hh & -> & Hexp)|[(i & c & Hc & Hh & Hl & <-) Hn]].
    + exists id. eexists. split; [rewrite Hid, decide_True by done; reflexivity|].
      split; [done|]. split; [|done]. unfold live. simpl.
      destruct (ccr_ExpiresAt req); simpl in *; [|done]. unfold after. lia.
    + exists i, c. split; [|done]. destruct Hun as (_ & Hfi & _).
      rewrite Hid, decide_False by congruence. rewrite Hc. simpl. f_equal.
      unfold revoke_of. rewrite bool_decide_false; [done|]. by rewrite (listed_iff_held s).
Qed.

(** ** Witnesses *)
Definition sample_create (org agent : string) : CreateAgentCredentialRequest :=
  mkCreateCredential org agent "owner1" "" (Some 100) "".
Definition one_key : CredentialStore :=
  (CreateAgentCredential 1 (Ok "r1") "c1" (sample_create "acme" "bot") NewCredentialStore).2.
Definition rotated := RotateAgentCredential 2 (Ok "r2") "c2" (sample_create "acme" "bot") one_key.

Lemma one_key_reachable : reachable one_key.
Proof.
  apply rtc_once. apply step_create. split; [discriminate|]. split; apply lookup_empty.
Qed.

Lemma revoked_key_stays_dead_witness :
  (ResolveAPIKey 5 (secret_of "r1") rotated.2).1 = Err (ErrUnauthorized "invalid api key").
Proof.
  refine (revoked_key_stays_dead one_key "c1"
    (new_cred 1 "c1" (secret_of "r1") (sample_create "acme" "bot"))
    (Revoke "acme" "c1" one_key).2 rotated.2 (secret_of "r1") 5 one_key_reachable _ _ _ _).
  - vm_compute. reflexivity.
  - vm_compute. reflexivity.
  - vm_compute. reflexivity.
  - apply rtc_once.
    refine (step_create (Revoke "acme" "c1" one_key).2 2 "r2" "c2" (sample_create "acme" "bot") _).
    split; [discriminate|]. split; vm_compute; reflexivity.
Defined.

Lemma rotation_replaces_witness :
  (ResolveAPIKey 50 (secret_of "r2") rotated.2).1 =
    Ok (agent_principal "c2" (sample_create "acme" "bot")).
Proof.
  refine (proj2 (rotation_replaces one_key 2 "r2" "c2" (sample_create "acme" "bot")
    ((cred_meta (new_cred 2 "c2" (secret_of "r2") (sample_create "acme" "bot")))
       <| agc_Secret := secret_of "r2" |>) rotated.2 50 (secret_of "r2")
    (agent_principal "c2" (sample_create "acme" "bot")) one_key_reachable _ _) _).
  - split; [discriminate|]. split; vm_compute; reflexivity.
  - vm_compute. reflexivity.
  - left. split; [reflexivity|]. split; [reflexivity|]. simpl. lia.
Defined.
