(* ===== verification/Authn.v ===== *)
(** * [internal/authn]: who the caller is

    The local tokens of the demo profile ([local.go]), agent API keys ([apikey.go]),
    bearer JWTs ([oidc.go]) and their chain ([chain.go]). The key set is what the last
    fetch answered; the signature primitives of [crypto/rsa] and [crypto/ecdsa] are the
    parameter [Verifier], and so is the text that [fmt.Sprint] gives a claim that is not
    a string. *)
From Corelib Require Import SpecFloat.
From S2P Require Import Prelude GoStd Sha256 Ports Platform Json Ledger Credentials.

(** ** Text *)

(** [strings.Fields]: [cur] is the field being read, reversed. *)
Definition flush (cur : list ascii) (rest : list string) : list string :=
  match cur with [] => rest | _ => of_bytes (reverse cur) :: rest end.
Fixpoint fields_go (fuel : nat) (l cur : list ascii) : list string :=
  match fuel with
  | O => []
  | S fuel =>
      match l with
      | [] => flush cur []
      | c :: l' =>
          let trimmed := trim_left l in
          if (length trimmed <? length l)%nat then flush cur (fields_go fuel trimmed [])
          else fields_go fuel l' (c :: cur)
      end
  end.
Definition fields (s : string) : list string := fields_go (S (String.length s)) (bytes_of s) [].

(** [base64.RawURLEncoding]: line breaks are skipped, nothing is padded. *)
Definition base64_digit (c : ascii) : option Z :=
  let n := Z.of_nat (code c) in
  if (65 <=? n) && (n <=? 90) then Some (n - 65)
  else if (97 <=? n) && (n <=? 122) then Some (n - 71)
  else if (48 <=? n) && (n <=? 57) then Some (n + 4)
  else if n =? 45 then Some 62
  else if n =? 95 then Some 63
  else None.
Definition byte_at (v shift : Z) : ascii := byte_of (Z.to_nat (Z.land (Z.shiftr v shift) 255)).
Fixpoint base64_quanta (l : list Z) : option (list ascii) :=
  match l with
  | [] => Some []
  | [a; b] => Some [byte_at (Z.shiftl a 18 + Z.shiftl b 12) 16]
  | [a; b; c] =>
      let v := Z.shiftl a 18 + Z.shiftl b 12 + Z.shiftl c 6 in Some [byte_at v 16; byte_at v 8]
  | a :: b :: c :: d :: l =>
      let v := Z.shiftl a 18 + Z.shiftl b 12 + Z.shiftl c 6 + d in
      rest ← base64_quanta l; Some (byte_at v 16 :: byte_at v 8 :: byte_at v 0 :: rest)
  | _ => None
  end.
Definition base64_decode (s : string) : option string :=
  let l := filter (fun c => negb ((code c =? 10)%nat || (code c =? 13)%nat) = true) (bytes_of s) in
  digits ← mapM base64_digit l;
  of_bytes <$> base64_quanta digits.

(** [strings.TrimSpace], [TrimPrefix("Bearer ")], [TrimSpace] *)
Definition bearer (token : string) : string :=
  trim_space (trim_prefix (trim_space token) "Bearer ").

(** ** [local.go] *)
Definition localIssuer : string := "local".
Definition scopesAdmin : list string :=
  ["context:search"; "context:read"; "context:ingest"; "context:audit_read";
   "context:request_access"; "context:manage_policy"].
Definition scopesMember : list string := ["context:search"; "context:read"; "context:ingest"].
Definition scopesAgent : list string := ["context:search"; "context:read"].

Definition scopesForRole (role : string) : list string :=
  let role := to_lower (trim_space role) in
  if mem_str role ["admin"; "manager"; "owner"; "knowledge_admin"] then scopesAdmin
  else if mem_str role ["member"; "employee"; "user"] then scopesMember
  else if mem_str role ["agent"; "service"] then scopesAgent
  else scopesMember.

Definition kindForRole (role : string) : PrincipalKind :=
  let role := to_lower role in
  if String.eqb role "agent" then PrincipalKindAgent
  else if String.eqb role "service" then PrincipalKindService
  else if String.eqb role "group" then PrincipalKindGroup
  else PrincipalKindUser.

Definition local_principal (org sub role : string) : Principal :=
  mkPrincipal (localIssuer +:+ "|" +:+ sub) (kindForRole role) org localIssuer sub [role] []
    (scopesForRole role) "" ∅.

Definition LocalAuthenticate (creds : Credentials) : result GoError Principal :=
  let raw := bearer (cr_BearerToken creds) in
  if is_empty raw then Err (ErrUnauthorized "missing bearer token")
  else if negb (has_prefix raw "local:") then Err (ErrUnauthorized "not a local token")
  else match split_byte raw ":" with
  | [_; org; sub; role] =>
      if is_empty org || is_empty sub || is_empty role
      then Err (ErrUnauthorized "local token fields must be non-empty")
      else Ok (local_principal org sub role)
  | _ => Err (ErrUnauthorized "local token must be local:<org>:<sub>:<role>")
  end.

(** ** [apikey.go] *)
Definition DefaultAPIKeyAudience : string := "context-fabric".

Record AgentClaims := mkAgentClaims {
  cl_Issuer : string; cl_Subject : string; cl_Audience : string; cl_OrgID : string;
  cl_AgentID : string; cl_CredentialID : string; cl_IssuedAt : Z; cl_ExpiresAt : Z;
  cl_Scope : list string;
}.

(** [Unix()] *)
Definition unix (t : Time) : Z := t / second.

(** [t] is the clock of the credential store, [now] that of the resolver, with the
    audience and the time to live of [NewAPIKeyResolver]. *)
Definition agent_claims (now : Time) (agent : AgentPrincipal) : AgentClaims :=
  mkAgentClaims "context-fabric/apikey" (p_Subject (ap_Principal agent)) DefaultAPIKeyAudience
    (p_OrgID (ap_Principal agent)) (ap_AgentID agent) (ap_CredentialID agent) (unix now)
    (unix (add_time now (5 * minute))) [].
Definition Resolve (t now : Time) (apiKey : string) : credentials (AgentPrincipal * AgentClaims) :=
  let key := trim_space apiKey in
  if is_empty key then throw (ErrUnauthorized "missing api key")
  else
    agent ← ResolveAPIKey t key;
    mret (agent, agent_claims now agent).

(** ** [oidc.go]: keys and claims *)
Record OIDCConfig := mkOIDC {
  oc_Issuer : string; oc_Audience : string; oc_ClaimSubject : string; oc_ClaimEmail : string;
  oc_ClaimGroups : string; oc_ClaimOrg : string; oc_ClaimScopes : string;
}.
(** [NewOIDC] *)
Definition NewOIDC (c : OIDCConfig) : OIDCConfig :=
  mkOIDC (oc_Issuer c) (oc_Audience c) (or_default (oc_ClaimSubject c) "sub")
    (or_default (oc_ClaimEmail c) "email") (or_default (oc_ClaimGroups c) "groups")
    (or_default (oc_ClaimOrg c) "org_id") (or_default (oc_ClaimScopes c) "scope").

Record jwk := mkJwk {
  jwk_Kty : string; jwk_Kid : string; jwk_Alg : string; jwk_N : string; jwk_E : string;
  jwk_Crv : string; jwk_X : string; jwk_Y : string;
}.

Inductive PublicKey :=
| RSAKey (n e : Z)
| ECKey (crv : string) (x y : Z).

(** [new(big.Int).SetBytes(b)] *)
Definition big_endian (s : string) : Z :=
  foldl (fun n c => n * 256 + Z.of_nat (code c)) 0 (bytes_of s).

Definition decoded (s : string) : result GoError string :=
  match base64_decode s with
  | Some b => Ok b
  | None => Err (EPlain "illegal base64 data")
  end.

Definition rsaPublic (k : jwk) : result GoError PublicKey :=
  nb ← decoded (jwk_N k);
  eb ← decoded (jwk_E k);
  Ok (RSAKey (big_endian nb)
        (foldl (fun e c => wrap64 (wrap64 (Z.shiftl e 8) + Z.of_nat (code c))) 0 (bytes_of eb))).

Definition ecPublic (k : jwk) : result GoError PublicKey :=
  if mem_str (jwk_Crv k) ["P-256"; "P-384"; "P-521"] then
    xb ← decoded (jwk_X k);
    yb ← decoded (jwk_Y k);
    Ok (ECKey (jwk_Crv k) (big_endian xb) (big_endian yb))
  else Err (EPlain ("unsupported curve " +:+ jwk_Crv k)).

Fixpoint keyFor (keys : list jwk) (kid alg : string) : result GoError PublicKey :=
  match keys with
  | [] => Err (EPlain ("no matching jwk for kid=" +:+ kid +:+ " alg=" +:+ alg))
  | k :: keys =>
      if negb (is_empty kid) && negb (String.eqb (jwk_Kid k) kid) then keyFor keys kid alg
      else if negb (is_empty alg) && negb (is_empty (jwk_Alg k)) && negb (String.eqb (jwk_Alg k) alg)
      then keyFor keys kid alg
      else if String.eqb (jwk_Kty k) "RSA" then rsaPublic k
      else if String.eqb (jwk_Kty k) "EC" then ecPublic k
      else keyFor keys kid alg
  end.

Abbreviation claimset := (list (string * any)).

Fixpoint uniqueNonEmpty_go (seen : list string) (l : list string) : list string :=
  match l with
  | [] => []
  | s :: l =>
      let s := trim_space s in
      if is_empty s || mem_str s seen then uniqueNonEmpty_go seen l
      else s :: uniqueNonEmpty_go (s :: seen) l
  end.
Definition uniqueNonEmpty (l : list string) : list string := uniqueNonEmpty_go [] l.

(** The strings among the elements *)
Definition strings_in (l : list any) : list string :=
  omap (fun x => match x with AStr s => Some s | _ => None end) l.

Definition normalizeScopes (v : option any) : list string :=
  match v with
  | Some (AStr t) => uniqueNonEmpty (fields t)
  | Some (AArr l) => uniqueNonEmpty (strings_in l ≫= fields)
  | _ => []
  end.

Definition claimScopes (claims : claimset) (primary : string) : list string :=
  let primary := or_default primary "scope" in
  match normalizeScopes (assoc claims primary) with
  | [] => if String.eqb primary "scp" then [] else normalizeScopes (assoc claims "scp")
  | scopes => scopes
  end.

Definition claimStringSlice (m : claimset) (key : string) : list string :=
  match assoc m key with
  | Some (AArr l) => strings_in l
  | Some (AStr s) => if is_empty s then [] else [s]
  | _ => []
  end.

Definition claimInt64 (m : claimset) (key : string) : option Z :=
  match assoc m key with
  | Some (ANum x) => Some (f_to_int x)
  | _ => None
  end.

Definition audienceContains (aud : option any) (want : string) : bool :=
  match aud with
  | Some (AStr s) => String.eqb s want
  | Some (AArr l) => mem_str want (strings_in l)
  | _ => false
  end.

(** ** [oidc.go]: the token *)

(** [json.Unmarshal] into a [map[string]any] that is empty; a number outside the range of
    [float64] is an error. *)
Definition unmarshal_claims (body : string) : option claimset :=
  v ← parse_document body;
  if numbers_ok v then
    match to_any v with AObj m => Some m | ANil => Some [] | _ => None end
  else None.

Record jwtHeader := mkHeader { hd_Alg : string; hd_Kid : string; hd_Typ : string }.
#[export] Instance jwtHeader_eta : Settable jwtHeader := fun r =>
  mkHeader (hd_Alg r) (hd_Kid r) (hd_Typ r).

(** A member whose name is a field's up to case sets it; [null] leaves it alone. *)
Definition set_header (h : option jwtHeader) (m : string * node) : option jwtHeader :=
  h ← h;
  let '(k, (_, v)) := m in
  let put (f : string -> jwtHeader) : option jwtHeader :=
    match v with
    | JStr s => Some (f s)
    | JNull => Some h
    | _ => None
    end in
  if equal_fold k "alg" then put (fun s => h <| hd_Alg := s |>)
  else if equal_fold k "kid" then put (fun s => h <| hd_Kid := s |>)
  else if equal_fold k "typ" then put (fun s => h <| hd_Typ := s |>)
  else Some h.

Definition unmarshal_header (body : string) : option jwtHeader :=
  v ← parse_document body;
  match v with
  | JObj m => foldl set_header (Some (mkHeader "" "" "")) m
  | JNull => Some (mkHeader "" "" "")
  | _ => None
  end.

Class Verifier := {
  (** [rsa.VerifyPKCS1v15] with SHA-256: modulus, exponent, hash, signature *)
  verify_pkcs1v15 : Z -> Z -> string -> string -> bool;
  (** [ecdsa.Verify]: curve, point, hash, [r], [s] *)
  verify_ecdsa : string -> Z -> Z -> string -> Z -> Z -> bool;
  (** [fmt.Sprint] of a claim that is not a string *)
  sprint : any -> string;
}.

Section OIDC.
Context `{Verifier}.

Definition claimString (m : claimset) (key : string) : string :=
  match assoc m key with
  | None | Some ANil => ""
  | Some (AStr s) => s
  | Some v => sprint v
  end.

Definition check_signature (alg : string) (pub : PublicKey) (sum sig : string) : result GoError unit :=
  if String.eqb alg "RS256" then
    match pub with
    | RSAKey n e => fail_if (negb (verify_pkcs1v15 n e sum sig)) (EPlain "invalid signature")
    | ECKey _ _ _ => Err (EPlain "rsa key required")
    end
  else
    match pub with
    | ECKey crv x y =>
        if negb (Z.of_nat (String.length sig) =? 64) then Err (EPlain "invalid es256 signature length")
        else fail_if (negb (verify_ecdsa crv x y sum (big_endian (take_str 32 sig))
                              (big_endian (drop_str 32 sig)))) (EPlain "invalid signature")
    | RSAKey _ _ => Err (EPlain "ec key required")
    end.

Definition or_fail {A} (o : option A) (msg : string) : result GoError A :=
  match o with Some a => Ok a | None => Err (EPlain msg) end.

(** The claims of a token that is in force at [now] for the issuer and the audience *)
Definition check_claims (now : Time) (wantIss wantAud : string) (claims : claimset) : result GoError unit :=
  exp ← or_fail (claimInt64 claims "exp") "token missing exp";
  _ ← fail_if (exp <=? unix now) (EPlain "token expired");
  _ ← fail_if (match claimInt64 claims "nbf" with Some nbf => unix now <? nbf | None => false end)
        (EPlain "token not yet valid");
  _ ← fail_if (negb (is_empty wantIss) && negb (String.eqb (claimString claims "iss") wantIss))
        (EPlain "issuer mismatch");
  fail_if (negb (is_empty wantAud) && negb (audienceContains (assoc claims "aud") wantAud))
    (EPlain "audience mismatch").

Definition parseAndVerifyJWT (now : Time) (keys : list jwk) (wantIss wantAud token : string)
    : result GoError (jwtHeader * claimset) :=
  match split_byte token "." with
  | [part0; part1; part2] =>
      hb ← or_fail (base64_decode part0) "invalid header encoding";
      header ← or_fail (unmarshal_header hb) "invalid header json";
      _ ← fail_if (negb (mem_str (hd_Alg header) ["RS256"; "ES256"]))
            (EPlain ("unsupported alg " +:+ hd_Alg header));
      sig ← or_fail (base64_decode part2) "invalid signature encoding";
      pub ← keyFor keys (hd_Kid header) (hd_Alg header);
      _ ← check_signature (hd_Alg header) pub (sha256 (part0 +:+ "." +:+ part1)) sig;
      cb ← or_fail (base64_decode part1) "invalid claims encoding";
      claims ← or_fail (unmarshal_claims cb) "invalid claims json";
      _ ← check_claims now wantIss wantAud claims;
      Ok (header, claims)
  | _ => Err (EPlain "malformed jwt")
  end.

Definition principal_of (cfg : OIDCConfig) (claims : claimset) : Principal :=
  let sub := claimString claims (oc_ClaimSubject cfg) in
  let iss := claimString claims "iss" in
  mkPrincipal (iss +:+ "|" +:+ sub)
    (if String.eqb (claimString claims "principal_kind") "service" then PrincipalKindService
     else PrincipalKindUser)
    (claimString claims (oc_ClaimOrg cfg)) iss sub (claimStringSlice claims "roles")
    (claimStringSlice claims (oc_ClaimGroups cfg)) (claimScopes claims (oc_ClaimScopes cfg))
    (claimString claims (oc_ClaimEmail cfg)) ∅.

(** [jwks]: the key set as [ensureJWKS] leaves it *)
Definition OIDCAuthenticate (now : Time) (jwks : result GoError (list jwk)) (cfg : OIDCConfig)
    (creds : Credentials) : result GoError Principal :=
  let token := trim_space (cr_BearerToken creds) in
  if is_empty token then Err (ErrUnauthorized "missing bearer token")
  else
    let token := trim_space (trim_prefix token "Bearer ") in
    match jwks with
    | Err e => Err (ErrUnavailable ("jwks unavailable: " +:+ error_string e))
    | Ok keys =>
        match parseAndVerifyJWT now keys (oc_Issuer cfg) (oc_Audience cfg) token with
        | Err e => Err (ErrUnauthorized (error_string e))
        | Ok (_, claims) =>
            if is_empty (claimString claims (oc_ClaimSubject cfg))
            then Err (ErrUnauthorized "missing subject claim")
            else Ok (principal_of cfg claims)
        end
    end.
End OIDC.

(** ** [chain.go] *)
Definition DefaultAgentScopes : list string := ["context:search"; "context:read"].

Definition looksLikeJWT (token : string) : bool :=
  if is_empty token || has_prefix token "local:" || has_prefix token "cfak_" then false
  else (count_byte token "." =? 2)%nat.

(** A kind is never empty here. *)
Definition key_principal (agent : AgentPrincipal) : Principal :=
  let prin := ap_Principal agent in
  match p_Scopes prin with
  | [] => prin <| p_Scopes := DefaultAgentScopes |>
  | _ => prin
  end.
Definition authenticateKey (t now : Time) (key : string) : credentials Principal :=
  '(agent, _) ← Resolve t now key; mret (key_principal agent).

(** [primary]: the answer of the local or of the OIDC provider *)
Definition ChainAuthenticate (primary : Credentials -> result GoError Principal) (t now : Time)
    (creds : Credentials) : credentials Principal :=
  let key := trim_space (cr_APIKey creds) in
  if negb (is_empty key) then authenticateKey t now key
  else
    let token := bearer (cr_BearerToken creds) in
    if looksLikeJWT token then of_result (primary creds)
    else if is_empty token then of_result (primary creds)
    else
      r ← attempt (authenticateKey t now token);
      match r with
      | Ok prin => mret prin
      | Err _ => of_result (primary creds)
      end.

Example fields_ex : fields "  a b  c " = ["a"; "b"; "c"] /\ fields "" = [].
Proof. vm_compute. done. Qed.
Example base64_ex : base64_decode "eyJhIjoxfQ" = Some ("{" +:+ quote "a" +:+ ":1}") /\ base64_decode "a" = None.
Proof. vm_compute. done. Qed.
Example header_ex :
  unmarshal_header ("{" +:+ quote "ALG" +:+ ":" +:+ quote "RS256" +:+ "," +:+ quote "kid" +:+ ":null}")
  = Some (mkHeader "RS256" "" "").
Proof. vm_compute. reflexivity. Qed.
