(* ===== verification/AuthnFacts.v ===== *)
(** * What an accepted credential proves

    A JWT is accepted exactly when it is signed by a key of the set and in force for the
    issuer and audience; a local token exactly when it has the documented form; an API
    key speaks for the agent it was issued to, with read access at most. *)
From S2P Require Import Prelude GoStd Sha256 Ports Platform Json Ledger Credentials Authn.

(** ** Splitting *)
Lemma split_byte_nonempty s c : split_byte s c <> [].
Proof. destruct s as [|d s]; simpl; [done|]. destruct (Ascii.eqb d c); [done|]. by destruct (split_byte s c). Qed.

(** A string without the separator is one piece, and the pieces joined are the string. *)
Lemma split_byte_none s c : count_byte s c = O -> split_byte s c = [s].
Proof.
  induction s as [|d s IH]; simpl; [done|]. destruct (Ascii.eqb d c); [done|].
  intros Hc. by rewrite IH.
Qed.

Lemma split_byte_cons p s c :
  count_byte p c = O -> split_byte (p +:+ str1 c +:+ s) c = p :: split_byte s c.
Proof.
  induction p as [|d p IH]; simpl.
  - intros _. by rewrite Ascii.eqb_refl.
  - destruct (Ascii.eqb d c) eqn:Hd; [done|]. intros Hc. by rewrite IH.
Qed.

Lemma split_byte_pieces s c p ps :
  split_byte s c = p :: ps ->
  count_byte p c = O /\ s = match ps with [] => p | _ => p +:+ str1 c +:+ join ps (str1 c) end /\
  (ps <> [] -> split_byte (join ps (str1 c)) c = ps).
Proof.
  revert p ps. induction s as [|d s IH]; intros p ps; simpl; [by intros [= <- <-]|].
  destruct (Ascii.eqb_spec d c) as [->|Hne].
  - intros [= <- <-]. destruct (split_byte s c) as [|q qs] eqn:Hs; [by apply split_byte_nonempty in Hs|].
    destruct (IH q qs eq_refl) as (_ & Hj & _). split; [done|].
    assert (Hjoin : s = join (q :: qs) (str1 c)) by (rewrite Hj; by destruct qs).
    split; [by rewrite <- Hjoin|]. intros _. by rewrite <- Hjoin, Hs.
  - destruct (split_byte s c) as [|q qs] eqn:Hs; [by apply split_byte_nonempty in Hs|].
    intros [= <- <-]. destruct (IH q qs eq_refl) as (Hq & Hj & Hrest).
    split; [simpl; by destruct (Ascii.eqb_spec d c)|]. split; [|done].
    rewrite Hj. by destruct qs.
Qed.

Lemma has_prefix_app s pre : has_prefix s pre = true -> exists r, s = pre +:+ r.
Proof.
  unfold has_prefix. revert s. induction pre as [|c pre IH]; intros s; [by exists s|].
  destruct s as [|d s]; simpl; [done|]. destruct (ascii_dec c d) as [->|]; [|done].
  intros (r & ->)%IH. by exists r.
Qed.

Lemma app_has_prefix pre s : has_prefix (pre +:+ s) pre = true.
Proof.
  unfold has_prefix. induction pre as [|c pre IH]; [by destruct s|]. simpl.
  by destruct (ascii_dec c c).
Qed.

(** ** Local tokens *)
Definition local_token (org sub role : string) : string :=
  "local:" +:+ org +:+ ":" +:+ sub +:+ ":" +:+ role.
(** A field of a token: not empty, without a colon *)
Definition token_field (s : string) : Prop := s <> "" /\ count_byte s ":" = O.

(** Local tokens are read back: the demo provider accepts a bearer token exactly when
    it is the text [local:<org>:<sub>:<role>] of three non-empty fields without a colon,
    and the principal has that organization, subject and role, and the scopes of the
    role. *)
Theorem local_token_roundtrip creds p :
  LocalAuthenticate creds = Ok p <->
  exists org sub role, bearer (cr_BearerToken creds) = local_token org sub role /\
    token_field org /\ token_field sub /\ token_field role /\ p = local_principal org sub role.
Proof.
  unfold LocalAuthenticate. split.
  - destruct (is_empty _); [done|].
    destruct (has_prefix _ _) eqn:Hp; [|done]. apply has_prefix_app in Hp as [raw ->]. cbn [negb].
    change (split_byte ("local:" +:+ raw) ":") with ("local" :: split_byte raw ":").
    destruct (split_byte raw ":") as [|org [|sub [|role [|]]]] eqn:Hs; try done.
    destruct (is_empty org) eqn:H1, (is_empty sub) eqn:H2, (is_empty role) eqn:H3; try done.
    intros [= <-]. apply is_empty_false in H1, H2, H3.
    destruct (split_byte_pieces _ _ _ _ Hs) as (Ho & -> & Hr); specialize (Hr ltac:(done)).
    destruct (split_byte_pieces _ _ _ _ Hr) as (Hsb & _ & Hr2); specialize (Hr2 ltac:(done)).
    destruct (split_byte_pieces _ _ _ _ Hr2) as (Hrl & _ & _).
    by exists org, sub, role.
  - intros (org & sub & role & -> & [H1 Ho] & [H2 Hs] & [H3 Hr] & ->). unfold local_token.
    set (raw := org +:+ _).
    replace (is_empty ("local:" +:+ raw)) with false by done.
    rewrite app_has_prefix. cbn [negb].
    replace (split_byte ("local:" +:+ raw) ":") with ("local" :: split_byte raw ":") by done.
    unfold raw.
    change ":" with (str1 ":"). rewrite (split_byte_cons org), (split_byte_cons sub), split_byte_none by done.
    apply is_empty_false in H1 as ->. apply is_empty_false in H2 as ->. by apply is_empty_false in H3 as ->.
Qed.

(** ** JWTs *)
Section Tokens.
Context `{Verifier}.

(** The signature is one of the key, under the algorithm the header names. *)
Definition vouched (alg : string) (pub : PublicKey) (sum sig : string) : Prop :=
  match pub with
  | RSAKey n e => alg = "RS256" /\ verify_pkcs1v15 n e sum sig = true
  | ECKey crv x y => alg = "ES256" /\ String.length sig = 64%nat /\
      verify_ecdsa crv x y sum (big_endian (take_str 32 sig)) (big_endian (drop_str 32 sig)) = true
  end.

(** Three parts, a header, a signature of a key of the set over the first two, claims *)
Definition genuine (keys : list jwk) (token : string) (claims : claimset) : Prop :=
  exists part0 part1 part2 hb header sig pub cb,
    split_byte token "." = [part0; part1; part2] /\
    base64_decode part0 = Some hb /\ unmarshal_header hb = Some header /\
    base64_decode part2 = Some sig /\ keyFor keys (hd_Kid header) (hd_Alg header) = Ok pub /\
    vouched (hd_Alg header) pub (sha256 (part0 +:+ "." +:+ part1)) sig /\
    base64_decode part1 = Some cb /\ unmarshal_claims cb = Some claims.

Definition in_force (now : Time) (wantIss wantAud : string) (claims : claimset) : Prop :=
  (exists exp, claimInt64 claims "exp" = Some exp /\ unix now < exp) /\
  (forall nbf, claimInt64 claims "nbf" = Some nbf -> nbf <= unix now) /\
  (wantIss <> "" -> claimString claims "iss" = wantIss) /\
  (wantAud <> "" -> audienceContains (assoc claims "aud") wantAud = true).

Lemma or_fail_Ok {A} (o : option A) msg a : or_fail o msg = Ok a <-> o = Some a.
Proof. destruct o; simpl; split; congruence. Qed.

Lemma signature_holds alg pub sum sig u :
  mem_str alg ["RS256"; "ES256"] = true ->
  check_signature alg pub sum sig = Ok u <-> vouched alg pub sum sig.
Proof.
  intros Halg. apply mem_str_In in Halg. unfold check_signature, vouched.
  assert (Hn : forall n, (Z.of_nat n =? 64) = true <-> n = 64%nat) by (intros n; rewrite Z.eqb_eq; lia).
  apply elem_of_cons in Halg as [->|Halg].
  - cbn [String.eqb]. simpl. destruct pub; [|by split; [|intros []]].
    rewrite fail_if_Ok, negb_false_iff. tauto.
  - apply list_elem_of_singleton in Halg as ->. simpl. destruct pub; [by split; [|intros []]|].
    destruct (Z.of_nat (String.length sig) =? 64) eqn:Hl; simpl.
    + apply Hn in Hl. rewrite fail_if_Ok, negb_false_iff. tauto.
    + split; [done|]. intros (_ & Hl' & _). apply Hn in Hl'. congruence.
Qed.

Lemma guard_ok x b : negb (is_empty x) && negb b = false <-> (x <> "" -> b = true).
Proof. rewrite <- is_empty_false. destruct (is_empty x), b; simpl; naive_solver. Qed.

Lemma nbf_ok now claims :
  match claimInt64 claims "nbf" with Some nbf => unix now <? nbf | None => false end = false <->
  (forall nbf, claimInt64 claims "nbf" = Some nbf -> nbf <= unix now).
Proof.
  destruct (claimInt64 claims "nbf") as [n|]; [|by split].
  rewrite Z.ltb_ge. split; [by intros ? ? [= <-] | auto].
Qed.

Lemma check_claims_Ok now iss aud claims :
  check_claims now iss aud claims = Ok tt <-> in_force now iss aud claims.
Proof.
  unfold check_claims, in_force. split.
  - intros (exp & H1%or_fail_Ok & Hr)%result_bind_Ok.
    apply result_bind_Ok in Hr as ([] & H2%fail_if_Ok & Hr).
    apply result_bind_Ok in Hr as ([] & H3%fail_if_Ok & Hr).
    pose proof (proj1 (nbf_ok now claims) H3) as Hnbf.
    apply result_bind_Ok in Hr as ([] & H4%fail_if_Ok & H5%fail_if_Ok).
    rewrite guard_ok in H4, H5. split_and!; try done.
    + exists exp. split; [done|]. by apply Z.leb_gt.
    + intros Hi. by apply String.eqb_eq, H4.
  - intros ((exp & H1 & H2) & H3%nbf_ok & H4 & H5). apply result_bind_Ok. exists exp.
    split; [by apply or_fail_Ok|]. rewrite (proj2 (Z.leb_gt _ _) H2), H3. cbn [fail_if mbind result_bind].
    apply result_bind_Ok. exists tt. split; apply fail_if_Ok, guard_ok; [|done].
    intros Hi. by apply String.eqb_eq, H4.
Qed.

Lemma parse_Ok now keys iss aud token header claims :
  parseAndVerifyJWT now keys iss aud token = Ok (header, claims) ->
  genuine keys token claims /\ in_force now iss aud claims.
Proof.
  unfold parseAndVerifyJWT. destruct (split_byte token ".") as [|p0 [|p1 [|p2 [|]]]] eqn:Hs; try done.
  intros (hb & H1%or_fail_Ok & Hr)%result_bind_Ok.
  apply result_bind_Ok in Hr as (hd & H2%or_fail_Ok & Hr).
  apply result_bind_Ok in Hr as ([] & Halg%fail_if_Ok & Hr). apply negb_false_iff in Halg.
  apply result_bind_Ok in Hr as (sig & H3%or_fail_Ok & Hr).
  apply result_bind_Ok in Hr as (pub & H4 & Hr).
  apply result_bind_Ok in Hr as (u & H5 & Hr). apply signature_holds in H5; [|done].
  apply result_bind_Ok in Hr as (cb & H6%or_fail_Ok & Hr).
  apply result_bind_Ok in Hr as (cl & H7%or_fail_Ok & Hr).
  apply result_bind_Ok in Hr as ([] & H8%check_claims_Ok & [= <- <-]).
  split; [|done]. by exists p0, p1, p2, hb, hd, sig, pub, cb.
Qed.

Lemma parse_complete now keys iss aud token claims :
  genuine keys token claims -> in_force now iss aud claims ->
  exists header, parseAndVerifyJWT now keys iss aud token = Ok (header, claims).
Proof.
  intros (p0 & p1 & p2 & hb & hd & sig & pub & cb & Hs & H1 & H2 & H3 & H4 & H5 & H6 & H7) Hf.
  assert (Halg : mem_str (hd_Alg hd) ["RS256"; "ES256"] = true).
  { destruct pub; destruct H5 as [-> _]; done. }
  exists hd. unfold parseAndVerifyJWT. rewrite Hs, H1. cbn [or_fail mbind result_bind].
  rewrite H2. cbn [or_fail mbind result_bind]. rewrite Halg, H3. cbn [fail_if negb or_fail mbind result_bind].
  rewrite H4. cbn [mbind result_bind]. rewrite (proj2 (signature_holds _ _ _ _ tt Halg) H5).
  cbn [mbind result_bind]. rewrite H6. cbn [or_fail mbind result_bind]. rewrite H7.
  cbn [or_fail mbind result_bind]. by rewrite (proj2 (check_claims_Ok _ _ _ _) Hf).
Qed.

(** C34 A bearer JWT is accepted exactly when it is genuine and in force: three base64url
    parts whose header names RS256 or ES256, signed over the first two by the key that
    the fetched set has for the header's key id and algorithm, and of the kind the
    algorithm needs; not expired, with an expiry, not before its time, of the configured
    issuer and audience; with a subject. The principal is read from the claims alone. *)
Theorem jwt_accepted_iff now jwks cfg creds p :
  OIDCAuthenticate now jwks cfg creds = Ok p <->
  exists keys claims, jwks = Ok keys /\ trim_space (cr_BearerToken creds) <> "" /\
    genuine keys (bearer (cr_BearerToken creds)) claims /\
    in_force now (oc_Issuer cfg) (oc_Audience cfg) claims /\
    claimString claims (oc_ClaimSubject cfg) <> "" /\ p = principal_of cfg claims.
Proof.
  unfold OIDCAuthenticate. fold (bearer (cr_BearerToken creds)). split.
  - destruct (is_empty (trim_space _)) eqn:Ht; [done|]. destruct jwks as [keys|]; [|done].
    destruct (parseAndVerifyJWT _ _ _ _ _) as [[hd claims]|] eqn:Hp; [|done].
    destruct (is_empty (claimString _ _)) eqn:Hs; [done|]. intros [= <-].
    apply parse_Ok in Hp as [Hg Hf]. apply is_empty_false in Ht, Hs. by exists keys, claims.
  - intros (keys & claims & -> & Ht%is_empty_false & Hg & Hf & Hs%is_empty_false & ->). rewrite Ht.
    destruct (parse_complete now keys (oc_Issuer cfg) (oc_Audience cfg) _ claims Hg Hf) as [hd ->].
    by rewrite Hs.
Qed.
End Tokens.

(** ** API keys *)

(** The scopes and the kind of a stored agent are those it was created with. *)
Definition confined (s : CredentialStore) : Prop :=
  forall h c, byKey s !! h = Some c ->
    p_Scopes (ap_Principal (cred_agent c)) = ["context:search"; "context:read"] /\
    p_Kind (ap_Principal (cred_agent c)) = PrincipalKindAgent /\
    p_Roles (ap_Principal (cred_agent c)) = [] /\ p_Groups (ap_Principal (cred_agent c)) = [] /\
    p_OrgID (ap_Principal (cred_agent c)) = cred_orgID c.

Lemma confined_step s s' : cred_ok s -> step s s' -> confined s -> confined s'.
Proof.
  intros Hok Hs Hc. destruct Hs as [now b id req _|orgID id].
  - destruct (CreateAgentCredential_cases now (Ok b) id req s) as [[e ->]|(cr & s1 & Hr)]; [done|].
    rewrite Hr. apply CreateAgentCredential_Ok in Hr as (b' & _ & _ & _ & _ & ->). simpl.
    intros h c. simpl. rewrite lookup_insert. case_decide; [by intros [= <-] | apply Hc].
  - destruct (Revoke_cases orgID id s) as [[e ->]|(c' & Hc' & _ & _ & _ & ->)]; [done|]. simpl.
    intros h c. simpl. rewrite lookup_insert. case_decide; [|apply Hc]. intros [= <-].
    destruct (cok_id s Hok _ _ Hc') as (_ & Hk & _). apply (Hc _ _ Hk).
Qed.

Lemma reachable_confined s : reachable s -> confined s.
Proof.
  unfold reachable. intros Hr. assert (Hboth : cred_ok s /\ confined s); [|apply Hboth].
  revert Hr. apply (rtc_ind_r (fun s => cred_ok s /\ confined s)).
  - split; [apply cred_ok_new|]. intros h c. simpl. by rewrite lookup_empty.
  - intros s1 s2 _ Hstep [Hok Hc]. split; [|by eapply confined_step].
    eapply reachable_ok; [by apply rtc_once | done].
Qed.

Lemma authenticateKey_spec t now key s p s' :
  confined s -> authenticateKey t now key s = (Ok p, s') ->
  s' = s /\ exists c, byKey s !! key_hash (trim_space key) = Some c /\ live t c = true /\
    p = ap_Principal (cred_agent c).
Proof.
  intros Hconf. unfold authenticateKey, Resolve.
  destruct (is_empty (trim_space key)); [done|]. intros Hr.
  apply bind_Ok in Hr as ([a cl] & s1 & Hr & [= <- <-]).
  apply bind_Ok in Hr as (a' & s2 & Hr & [= -> <- <-]). unfold ResolveAPIKey in Hr.
  destruct (byKey s !! _) as [c|] eqn:Hk; [|done]. destruct (cred_revoked c) eqn:Hrev; [done|].
  destruct (live t c) eqn:Hl; simpl in Hr; [|done]. injection Hr as <- <-.
  split; [done|]. exists c. split_and!; try done.
  unfold key_principal. destruct (Hconf _ _ Hk) as [-> _]. done.
Qed.

(** An API key speaks for its agent only: whatever happened to the store of
    credentials, a caller that presents a key in the key header is authenticated only as
    the agent of a stored credential that is neither revoked nor expired, in the
    organization of that credential, as an agent without roles or groups and with the two
    read scopes; the store is not changed and the primary provider not asked. *)
Theorem api_key_confined primary t now creds s p s' :
  reachable s -> trim_space (cr_APIKey creds) <> "" ->
  ChainAuthenticate primary t now creds s = (Ok p, s') ->
  s' = s /\ exists c, byKey s !! key_hash (trim_space (trim_space (cr_APIKey creds))) = Some c /\
    live t c = true /\ p = ap_Principal (cred_agent c) /\ p_OrgID p = cred_orgID c /\
    p_Kind p = PrincipalKindAgent /\ p_Roles p = [] /\ p_Groups p = [] /\
    p_Scopes p = ["context:search"; "context:read"].
Proof.
  intros Hreach Hkey%is_empty_false. unfold ChainAuthenticate. rewrite Hkey. cbn [negb].
  apply reachable_confined in Hreach as Hconf.
  intros (-> & c & Hk & Hl & ->)%authenticateKey_spec; [|done].
  split; [done|]. exists c. destruct (Hconf _ _ Hk) as (? & ? & ? & ? & ?). done.
Qed.

(** Without a key, the principal is that of a bearer key or that of the primary. *)
Lemma chain_bearer primary t now creds s p s' :
  confined s -> trim_space (cr_APIKey creds) = "" ->
  ChainAuthenticate primary t now creds s = (Ok p, s') ->
  s' = s /\ (primary creds = Ok p \/
    exists c, byKey s !! key_hash (trim_space (bearer (cr_BearerToken creds))) = Some c /\
      live t c = true /\ p = ap_Principal (cred_agent c)).
Proof.
  intros Hconf Hkey. unfold ChainAuthenticate. rewrite Hkey. cbn [is_empty String.eqb negb].
  assert (Hprim : of_result (primary creds) s = (Ok p, s') -> s' = s /\ primary creds = Ok p).
  { unfold of_result. by intros [= -> ->]. }
  destruct (looksLikeJWT _); [intros [-> ?]%Hprim; tauto|].
  destruct (is_empty (bearer _)); [intros [-> ?]%Hprim; tauto|].
  intros (r & s1 & Hr & Hk)%bind_Ok. unfold attempt in Hr.
  destruct (authenticateKey t now (bearer (cr_BearerToken creds)) s) as [[q|e] s2] eqn:Ha;
    injection Hr as <- <-.
  - apply authenticateKey_spec in Ha as (-> & c & Hc & Hl & ->); [|done].
    injection Hk as <- <-. split; [done|]. right. by exists c.
  - assert (s2 = s) as ->.
    { revert Ha. unfold authenticateKey, Resolve, ResolveAPIKey. clear.
      destruct (is_empty _); [by intros [= _ ->]|]. unfold mbind, M_bind, throw, mret, M_ret.
      destruct (byKey s !! _) as [c|]; [|by intros [= _ ->]].
      destruct (cred_revoked c); [by intros [= _ ->]|].
      destruct (live t c); simpl; by intros [= _ ->]. }
    apply Hprim in Hk as [-> ?]. tauto.
Qed.

Definition key_caller : Credentials := mkCredentials "" (secret_of "r1") ∅.
Definition one_agent : Principal := ap_Principal (agent_principal "c1" (sample_create "acme" "bot")).

Lemma one_agent_resolves :
  ChainAuthenticate (fun _ => Err (ErrUnauthorized "missing bearer token")) 5 5 key_caller one_key
  = (Ok one_agent, one_key).
Proof. vm_compute. reflexivity. Qed.

Lemma api_key_confined_witness :
  p_OrgID one_agent = "acme" /\ p_Scopes one_agent = ["context:search"; "context:read"].
Proof.
  destruct (api_key_confined _ 5 5 key_caller one_key one_agent one_key one_key_reachable
    ltac:(vm_compute; discriminate) one_agent_resolves) as (_ & c & _ & _ & _ & Ho & _ & _ & _ & Hs).
  split; [vm_compute; reflexivity | exact Hs].
Defined.
