(* ===== verification/Wiring.v ===== *)
(** * [cmd/context-fabric/main.go]: which parts a process runs with

    [wire] as a choice of adapters: the configuration decides which identity provider,
    ledger, evidence store, index, authorization store and bus the services get, or that
    the process does not start. The constructors it calls ([openfga.NewFromEnv],
    [s3store.NewRouter], [natsbus.ConnectConfig]) are modelled up to the client libraries,
    whose connections are arguments. *)
From S2P Require Import Prelude GoStd Ports Platform Json OpenFGA Authn Config.

(** ** The role of the process *)
Definition roles : list string :=
  ["serve"; "worker"; "connector"; "migrate"; "bootstrap"; "doctor"; "backup"; "restore"; "reconcile"; "all"].
Definition oneShotRoles : list string :=
  ["migrate"; "bootstrap"; "doctor"; "backup"; "restore"; "reconcile"; "connector"].
(** [args] is [os.Args] *)
Definition resolveRole (environ : strmap) (args : list string) : string :=
  let argv := trim_space (default "" (nth_error args 1)) in
  let role := trim_space (os_getenv environ "CONTEXT_FABRIC_ROLE") in
  if negb (is_empty argv) && mem_str argv oneShotRoles then argv
  else if negb (is_empty role) then role
  else if negb (is_empty argv) then argv
  else "serve".

(** ** Durations *)

(** [time.ParseDuration]; [None] on an error. [leading_int] stops at an overflow of the 63
    bits and [leading_frac] ignores the digits beyond them. *)
Fixpoint leading_int (x : Z) (s : string) : option (Z * string) :=
  match s with
  | String c s' =>
      if is_digit c then
        if 2 ^ 63 / 10 <? x then None
        else let x := x * 10 + digit_val c in if 2 ^ 63 <? x then None else leading_int x s'
      else Some (x, s)
  | EmptyString => Some (x, s)
  end.
Fixpoint leading_frac (x : Z) (scale : float64) (over : bool) (s : string) : Z * float64 * string :=
  match s with
  | String c s' =>
      if is_digit c then
        if over then leading_frac x scale true s'
        else if (2 ^ 63 - 1) / 10 <? x then leading_frac x scale true s'
        else
          let y := x * 10 + digit_val c in
          if 2 ^ 63 <? y then leading_frac x scale true s'
          else leading_frac y (f_mul scale (f_of_Z 10)) false s'
      else (x, scale, s)
  | EmptyString => (x, scale, s)
  end.
Definition is_number (c : ascii) : bool := Ascii.eqb c "." || is_digit c.
Fixpoint span_unit (s : string) : string * string :=
  match s with
  | String c s' => if is_number c then ("", s) else let '(u, r) := span_unit s' in (String c u, r)
  | EmptyString => ("", s)
  end.
Definition micro (b : nat) (c : nat) : string := String (byte_of b) (String (byte_of c) "s").
Definition unit_of (u : string) : option Z :=
  if String.eqb u "ns" then Some 1
  else if mem_str u ["us"; micro 194 181; micro 206 188] then Some 1000
  else if String.eqb u "ms" then Some millisecond
  else if String.eqb u "s" then Some second
  else if String.eqb u "m" then Some minute
  else if String.eqb u "h" then Some (60 * minute)
  else None.

(** One number with its unit *)
Definition duration_part (s : string) : option (Z * string) :=
  '(v, s1) ← leading_int 0 s;
  let pre := negb (String.length s1 =? String.length s)%nat in
  let '(f, scale, s2, post) :=
    match s1 with
    | String "." s' =>
        let '(f, scale, s2) := leading_frac 0 f_one false s' in
        (f, scale, s2, negb (String.length s2 =? String.length s')%nat)
    | _ => (0, f_one, s1, false)
    end in
  if negb pre && negb post then None
  else
    let '(u, rest) := span_unit s2 in
    unit ← unit_of u;
    if 2 ^ 63 / unit <? v then None
    else
      let v := v * unit in
      let v := if 0 <? f then v + f_to_int (f_mul (f_of_Z f) (f_div (f_of_Z unit) scale)) else v in
      if 2 ^ 63 <? v then None else Some (v, rest).
Fixpoint duration_parts (fuel : nat) (d : Z) (s : string) : option Z :=
  match s, fuel with
  | EmptyString, _ => Some d
  | _, O => None
  | _, S fuel =>
      '(v, rest) ← duration_part s;
      let d := (d + v) mod 2 ^ 64 in
      if 2 ^ 63 <? d then None else duration_parts fuel d rest
  end.
Definition parse_duration (s : string) : option Z :=
  let '(neg, body) :=
    match s with
    | String "-" s' => (true, s')
    | String "+" s' => (false, s')
    | _ => (false, s)
    end in
  if String.eqb body "0" then Some 0
  else if is_empty body then None
  else
    d ← duration_parts (String.length body) 0 body;
    if neg : bool then Some (- d) else if 2 ^ 63 - 1 <? d then None else Some d.

Example parse_duration_ex :
  parse_duration "1h30m" = Some (90 * minute) /\ parse_duration "1.5s" = Some (1500 * millisecond)
  /\ parse_duration "-2ms" = Some (- (2 * millisecond)) /\ parse_duration ".5m" = Some (30 * second)
  /\ parse_duration "10" = None /\ parse_duration "." = None /\ parse_duration "3x" = None
  /\ parse_duration "9223372036s" = Some (9223372036 * second) /\ parse_duration "9223372037s" = None.
Proof. vm_compute. repeat split; reflexivity. Qed.

Record httpServerConfig := mkHttpServerConfig {
  hs_ReadHeaderTimeout : Z; hs_ReadTimeout : Z; hs_WriteTimeout : Z; hs_IdleTimeout : Z;
  hs_MaxHeaderBytes : Z; hs_ShutdownTimeout : Z;
}.
Definition durationEnv (environ : strmap) (key : string) (def : Z) : Z :=
  let v := trim_space (os_getenv environ key) in
  if is_empty v then def
  else match parse_duration v with Some d => if d <=? 0 then def else d | None => def end.
Definition positiveEnv (environ : strmap) (key : string) (def : Z) : Z :=
  let v := trim_space (os_getenv environ key) in
  if is_empty v then def
  else match parse_int v with (n, None) => if n <=? 0 then def else n | _ => def end.
Definition httpServerConfigFromEnv (environ : strmap) (cfg : Config) : httpServerConfig :=
  let grace := wrap64 (rt_ShutdownGraceSeconds (cfg_Runtime cfg) * second) in
  let v := trim_space (os_getenv environ "SHUTDOWN_GRACE_SECONDS") in
  let grace :=
    if is_empty v then grace
    else match parse_int v with (n, None) => if 0 <? n then wrap64 (n * second) else grace | _ => grace end in
  let grace := if grace <=? 0 then 10 * second else grace in
  mkHttpServerConfig (durationEnv environ "HTTP_READ_HEADER_TIMEOUT" (5 * second))
    (durationEnv environ "HTTP_READ_TIMEOUT" (30 * second))
    (durationEnv environ "HTTP_WRITE_TIMEOUT" (30 * second))
    (durationEnv environ "HTTP_IDLE_TIMEOUT" (120 * second))
    (positiveEnv environ "HTTP_MAX_HEADER_BYTES" 1048576) grace.

(** ** The signing secrets *)
Definition signing_secret_of (name def val : string) (cfg : Config) : result GoError string :=
  let s := trim_space val in
  if negb (is_empty s) then
    if negb (AllowMemoryAuth cfg) && IsPlaceholderValue s
    then Err (EPlain (name +:+ " contains a bootstrap placeholder"))
    else Ok s
  else if AllowMemoryAuth cfg then Ok def
  else Err (EPlain (name +:+ " is required for production profiles")).
Definition requireWebhookSigningSecret (cfg : Config) : result GoError string :=
  signing_secret_of "WEBHOOK_SIGNING_SECRET" "demo-webhook-signing-secret"
    (se_WebhookSigningSecret (cfg_Secrets cfg)) cfg.
Definition requireDeletionSigningSecret (cfg : Config) : result GoError string :=
  signing_secret_of "DELETION_SIGNING_SECRET" "demo-deletion-signing-secret"
    (se_DeletionSigningSecret (cfg_Secrets cfg)) cfg.

(** [firstEnv] of the command: its last argument is a default if it looks like one. *)
Definition upper_byte (c : ascii) : ascii :=
  if (97 <=? code c)%nat && (code c <=? 122)%nat then byte_of (code c - 32) else c.
Fixpoint to_upper (s : string) : string :=
  match s with String c s' => String (upper_byte c) (to_upper s') | EmptyString => "" end.
Definition is_default (k : string) : bool :=
  has_prefix k ":" || negb (contains_str k "_") && negb (String.eqb (to_upper k) k).
Fixpoint first_env_or (environ : strmap) (keys : list string) : string :=
  match keys with
  | [] => ""
  | [k] =>
      let v := trim_space (os_getenv environ k) in
      if is_empty v then if is_default k then k else "" else v
  | k :: keys =>
      let v := trim_space (os_getenv environ k) in
      if is_empty v then first_env_or environ keys else v
  end.

(** ** Adapters *)

(** [s3store.Store], as [New] makes it, and the three of a router *)
Record BucketStore := mkBucketStore {
  bk_Endpoint : string; bk_Region : string; bk_AccessKeyID : string; bk_SecretAccessKey : string;
  bk_PathStyle : bool; bk_Bucket : string; bk_MaxBytes : Z;
}.
Definition defaultMaxBytes : Z := 67108864.
Definition MaxBytesFromEnv (environ : strmap) : Z := positiveEnv environ "EVIDENCE_MAX_BYTES" defaultMaxBytes.
Definition or_else (s def : string) : string := if is_empty s then def else s.
Definition NewBucketStore (environ : strmap) (c : BucketStore) : result GoError BucketStore :=
  if is_empty (trim_space (bk_Endpoint c)) then Err (EPlain "s3 endpoint required")
  else Ok (mkBucketStore (bk_Endpoint c) (or_else (bk_Region c) "us-east-1") (bk_AccessKeyID c)
             (bk_SecretAccessKey c) (bk_PathStyle c) (or_else (bk_Bucket c) "context-quarantine")
             (if bk_MaxBytes c <=? 0 then MaxBytesFromEnv environ else bk_MaxBytes c)).
Record EvidenceRouter := mkRouter {
  er_quarantine : BucketStore; er_raw : BucketStore; er_derived : BucketStore;
}.
Definition wrap_error {A} (msg : string) (r : result GoError A) : result GoError A :=
  match r with Err e => Err (EWrap msg e) | Ok x => Ok x end.
Definition NewRouter (environ : strmap) (c : S3Config) (maxBytes : Z) : result GoError EvidenceRouter :=
  if is_empty (trim_space (s3_Endpoint c)) then Err (EPlain "s3 endpoint required")
  else
    let with_bucket b :=
      NewBucketStore environ (mkBucketStore (s3_Endpoint c) (s3_Region c) (s3_AccessKeyID c)
                                (s3_SecretAccessKey c) (s3_PathStyle c) b maxBytes) in
    q ← wrap_error "quarantine bucket" (with_bucket (or_else (s3_BucketQuarantine c) "context-quarantine"));
    raw ← wrap_error "raw bucket" (with_bucket (or_else (s3_BucketRaw c) "context-raw"));
    derived ← wrap_error "derived bucket" (with_bucket (or_else (s3_BucketDerived c) "context-derived"));
    Ok (mkRouter q raw derived).

(** [strings.SplitN(strings.Trim(key, "/"), "/", 3)]: the second part is the tier. *)
Fixpoint trim_slashes (s : string) : string :=
  match s with String "/" s' => trim_slashes s' | _ => s end.
Definition trim_right_slashes (s : string) : string :=
  of_bytes (reverse (bytes_of (trim_slashes (of_bytes (reverse (bytes_of s)))))).
Definition evidenceTier (key : string) : string :=
  match split_byte (trim_right_slashes (trim_slashes key)) "/" with
  | _ :: tier :: _ => if mem_str tier ["raw"; "derived"; "quarantine"] then tier else "quarantine"
  | _ => "quarantine"
  end.
Definition storeFor (r : EvidenceRouter) (key : string) : BucketStore :=
  let tier := evidenceTier key in
  if String.eqb tier "raw" then er_raw r
  else if String.eqb tier "derived" then er_derived r else er_quarantine r.

(** [openfga.Client] *)
Record FGAClient := mkFGAClient {
  fc_APIURL : string; fc_StoreID : string; fc_ModelID : string; fc_APIToken : string;
}.
Definition firstNonEmpty (vals : list string) : string :=
  default "" (head (filter (fun v => v <> "") (trim_space <$> vals))).
Definition file_or (read_file : string -> file) (path old : string) : string :=
  if is_empty path then old
  else match read_file path with FileText b => trim_space b | _ => old end.
Definition NewFromEnv (environ : strmap) (read_file : string -> file) : result GoError FGAClient :=
  let get := os_getenv environ in
  let api := firstNonEmpty [get "OPENFGA_API_URL"; get "OPENFGA_URL"] in
  let store := trim_space (get "OPENFGA_STORE_ID") in
  let store :=
    if is_empty store || String.eqb store "replace-after-bootstrap"
    then file_or read_file (trim_space (get "OPENFGA_STORE_ID_FILE")) store else store in
  let model := firstNonEmpty [get "OPENFGA_MODEL_ID"; get "AUTHZ_MODEL_ID"] in
  let model :=
    if IsOpenFGAModelPlaceholder model
    then file_or read_file (trim_space (get "OPENFGA_MODEL_ID_FILE")) model else model in
  if is_empty api || is_empty store || is_empty model
  then Err (EPlain "OPENFGA_API_URL, OPENFGA_STORE_ID, and OPENFGA_MODEL_ID are required")
  else if String.eqb store "replace-after-bootstrap"
  then Err (EPlain ("OPENFGA_STORE_ID is still " +:+ sprint_q store +:+ "; run bootstrap or set a real store id"))
  else Ok (mkFGAClient (trim_right_slashes api) store model (get "OPENFGA_API_TOKEN")).

(** ** [wire] *)
Inductive IdentityAdapter := LocalIdentity | OIDCIdentity (c : OIDCConfig) (discoveryURL jwksURL : string).
Inductive Backend := MemoryBackend | PostgresBackend (dsn : string).
Inductive EvidenceAdapter := MemoryEvidence | BucketEvidence (r : EvidenceRouter).
Inductive AuthzAdapter := MemoryAuthz | OpenFGAAuthz (c : FGAClient).
Inductive BusAdapter := NoopBus | NATSBus (url : string).

(** The ledger's backend is that of the change lister, the quota, extra and job stores, the
    legal holds, the agent credentials and the audit log too; the durable webhook store
    comes with Postgres. *)
Record Deployment := mkDeployment {
  dep_Identity : IdentityAdapter; dep_Ledger : Backend; dep_Evidence : EvidenceAdapter;
  dep_Index : Backend; dep_Authz : AuthzAdapter; dep_Bus : BusAdapter;
  dep_WebhookSecret : string; dep_DeletionSecret : string;
  dep_ProductVersion : string; dep_ModelID : string;
}.

Section Wire.
(** What the client libraries answer: a connection to Postgres, one to NATS with the
    credentials file if there is one; [is_file] is [os.Stat] of a plain file. *)
Variables (environ : strmap) (read_file : string -> file) (is_file : string -> bool)
          (postgres_connect : string -> result GoError unit)
          (nats_connect : string -> option string -> result GoError unit)
          (buildVersion : string).

Definition credentialsFilePath (raw : string) : option string :=
  let raw := trim_space raw in if negb (is_empty raw) && is_file raw then Some raw else None.
Definition ConnectConfig (cfg : NATSConfig) : result GoError BusAdapter :=
  let url := trim_space (nats_URL cfg) in
  if is_empty url then Err (EPlain "nats url required")
  else _ ← nats_connect url (credentialsFilePath (nats_Credentials cfg)); Ok (NATSBus url).
(** A bus that is optional *)
Definition bus_or_noop (cfg : NATSConfig) : BusAdapter :=
  if is_empty (trim_space (nats_URL cfg)) then NoopBus
  else match ConnectConfig cfg with Ok b => b | Err _ => NoopBus end.

Definition oidc_config (c : OIDCSettings) : OIDCConfig :=
  NewOIDC (mkOIDC (oi_Issuer c) (oi_Audience c) (oi_ClaimSubject c) (oi_ClaimEmail c)
             (oi_ClaimGroups c) (oi_ClaimOrg c) (oi_ClaimScopes c)).

Definition postgres_evidence (cfg : Config) : result GoError EvidenceAdapter :=
  if is_empty (trim_space (s3_Endpoint (cfg_S3 cfg))) then Ok MemoryEvidence
  else match NewRouter environ (cfg_S3 cfg) 0 with
       | Ok r => Ok (BucketEvidence r)
       | Err err => if AllowMemoryAuth cfg then Ok MemoryEvidence
                    else Err (EWrap "s3 evidence required (fail-closed)" err)
       end.
Definition postgres_index (role : string) (cfg : Config) : result GoError Backend :=
  if mem_str (to_lower (trim_space (rt_IndexBackend (cfg_Runtime cfg)))) ["postgres"; "pg"; "search_documents"]
  then Ok (PostgresBackend (pg_DSN (cfg_Postgres cfg)))
  else if String.eqb role "serve" || String.eqb role "worker"
  then Err (EPlain "in-memory index cannot be shared across separate serve/worker processes; use CONTEXT_FABRIC_ROLE=all (or CMD all) or set INDEX_BACKEND=postgres")
  else Ok MemoryBackend.
Definition identity_and_authz (cfg : Config) : result GoError (IdentityAdapter * AuthzAdapter) :=
  if AllowMemoryAuth cfg then Ok (LocalIdentity, MemoryAuthz)
  else if is_empty (trim_space (oi_Issuer (cfg_OIDC cfg)))
  then Err (EPlain "OIDC_ISSUER is required when not using memory/demo auth")
  else
    fga ← wrap_error "openfga required (fail-closed)" (NewFromEnv environ read_file);
    Ok (OIDCIdentity (oidc_config (cfg_OIDC cfg)) (oi_DiscoveryURL (cfg_OIDC cfg)) (oi_JWKSURL (cfg_OIDC cfg)),
        OpenFGAAuthz fga).
Definition postgres_bus (cfg : Config) : result GoError BusAdapter :=
  let natsURL := or_else (trim_space (nats_URL (cfg_NATS cfg))) (trim_space (os_getenv environ "NATS_URL")) in
  if AllowMemoryAuth cfg then
    if is_empty natsURL then Ok NoopBus
    else Ok (match ConnectConfig (cfg_NATS cfg) with Ok b => b | Err _ => NoopBus end)
  else if is_empty natsURL then Err (EPlain "NATS_URL is required when not using memory/demo profile")
  else wrap_error "nats required (fail-closed)" (ConnectConfig (cfg_NATS cfg)).

(** The bucket store of the memory profile *)
Definition memory_evidence : EvidenceAdapter :=
  let get k := os_getenv environ k in
  let ep := trim_space (get "S3_ENDPOINT") in
  if is_empty ep then MemoryEvidence
  else match NewRouter environ
               (mkS3Config ep (first_env_or environ ["S3_REGION"; "us-east-1"]) (get "S3_ACCESS_KEY_ID")
                  (get "S3_SECRET_ACCESS_KEY") true (first_env_or environ ["S3_BUCKET_RAW"; "context-raw"])
                  (first_env_or environ ["S3_BUCKET_DERIVED"; "context-derived"])
                  (first_env_or environ ["S3_BUCKET_QUARANTINE"; "context-quarantine"]) "") 0 with
       | Ok r => BucketEvidence r
       | Err _ => MemoryEvidence
       end.

Definition model_id (a : AuthzAdapter) : string :=
  match a with MemoryAuthz => ModelID NewMemory | OpenFGAAuthz c => fc_ModelID c end.
Definition wire (role : string) (cfg : Config) : result GoError Deployment :=
  '(identity, ledger, evidence, index, authz, bus) ←
    (if UseMemory cfg then
       Ok (LocalIdentity, MemoryBackend, memory_evidence, MemoryBackend, MemoryAuthz,
           bus_or_noop (cfg_NATS cfg))
     else
       _ ← postgres_connect (pg_DSN (cfg_Postgres cfg));
       evidence ← postgres_evidence cfg;
       index ← postgres_index role cfg;
       '(identity, authz) ← identity_and_authz cfg;
       bus ← postgres_bus cfg;
       Ok (identity, PostgresBackend (pg_DSN (cfg_Postgres cfg)), evidence, index, authz, bus));
  webhookSecret ← requireWebhookSigningSecret cfg;
  deletionSecret ← requireDeletionSigningSecret cfg;
  Ok (mkDeployment identity ledger evidence index authz bus webhookSecret deletionSecret
        (first_env_or environ [buildVersion; "CONTEXT_FABRIC_VERSION"; "0.0.0-dev"]) (model_id authz)).

(** [runServe], [runUntilSignal] of a worker: a configuration that loads, then [wire] *)
Definition start `{GoMapOrder} (yaml : string -> result GoError (gmap string any)) (role : string)
    : result GoError (Config * Deployment) :=
  cfg ← Load environ read_file yaml;
  dep ← wire role cfg;
  Ok (cfg, dep).
End Wire.
