(* ===== verification/KeySet.v ===== *)
(** * [internal/authn/oidc.go]: the key set and the discovery document

    [OIDCProvider] keeps the metadata and the keys of the issuer, fetched when a token is
    to be verified and cached. The web is an argument: what a [GET] is answered may depend
    on all the fetches so far, whose log, the last one first, is part of the state. The
    calls are taken one at a time; between two of them another one may run. *)
From S2P Require Import Prelude GoStd Ports Platform Json Decode Ledger Authn Wiring.

(** [RequestError]: no request can be made for the URL. A body may be [cut] by an error. *)
Inductive Reply :=
| RequestError (msg : string) | NoReply (msg : string)
| Answer (status : Z) (body : string) (cut : option string).
Record Fetch := mkFetch { ft_URL : string; ft_Reply : Reply }.
Class Web := {
  get : list Fetch -> string -> Reply;
  (** The text of an error of [encoding/json] *)
  json_error : string -> string;
}.

Record OIDCMetadata := mkMeta {
  om_Issuer : string; om_AuthorizationEndpoint : string; om_TokenEndpoint : string; om_JWKSURI : string;
  om_UserinfoEndpoint : string; om_ScopesSupported : Slice string;
}.
#[export] Instance OIDCMetadata_eta : Settable OIDCMetadata := fun r =>
  mkMeta (om_Issuer r) (om_AuthorizationEndpoint r) (om_TokenEndpoint r) (om_JWKSURI r)
    (om_UserinfoEndpoint r) (om_ScopesSupported r).
Definition zero_meta : OIDCMetadata := mkMeta "" "" "" "" "" ([], []).
Definition dec_OIDCMetadata : decoder OIDCMetadata :=
  dec_struct
    [field "issuer" om_Issuer dec_string; field "authorization_endpoint" om_AuthorizationEndpoint dec_string;
     field "token_endpoint" om_TokenEndpoint dec_string; field "jwks_uri" om_JWKSURI dec_string;
     field "userinfo_endpoint" om_UserinfoEndpoint dec_string;
     field "scopes_supported" om_ScopesSupported dec_strings].

#[export] Instance jwk_eta : Settable jwk := fun r =>
  mkJwk (jwk_Kty r) (jwk_Kid r) (jwk_Alg r) (jwk_N r) (jwk_E r) (jwk_Crv r) (jwk_X r) (jwk_Y r).
Definition zero_jwk : jwk := mkJwk "" "" "" "" "" "" "" "".
Definition dec_jwk : decoder jwk :=
  dec_struct
    [field "kty" jwk_Kty dec_string; field "kid" jwk_Kid dec_string; field "alg" jwk_Alg dec_string;
     unused "use" "" dec_string; field "n" jwk_N dec_string; field "e" jwk_E dec_string;
     field "crv" jwk_Crv dec_string; field "x" jwk_X dec_string; field "y" jwk_Y dec_string].
Definition dec_jwksDoc : decoder (Slice jwk) := dec_struct [("keys", dec_slice zero_jwk dec_jwk)].

(** The configuration of the fetches, besides that of the claims *)
Record ProviderConfig := mkProviderConfig {
  pc_OIDC : OIDCConfig; pc_DiscoveryURL : string; pc_JWKSURL : string; pc_CacheTTL : Z;
}.
(** [op_clock] counts the readings of the clock. *)
Record OIDCProvider := mkProvider {
  op_jwks : list jwk; op_jwksURL : string; op_meta : OIDCMetadata; op_fetchedAt : Time;
  op_log : list Fetch; op_clock : nat;
}.
#[export] Instance OIDCProvider_eta : Settable OIDCProvider := fun r =>
  mkProvider (op_jwks r) (op_jwksURL r) (op_meta r) (op_fetchedAt r) (op_log r) (op_clock r).
Abbreviation oidc := (M GoError OIDCProvider).

Definition NewProvider (c : ProviderConfig) : ProviderConfig * OIDCProvider :=
  (mkProviderConfig (NewOIDC (pc_OIDC c)) (pc_DiscoveryURL c) (pc_JWKSURL c)
     (if pc_CacheTTL c =? 0 then 10 * minute else pc_CacheTTL c),
   mkProvider [] (pc_JWKSURL c) zero_meta zero_time [] 0).

Section Provider.
Context `{GoEnv, Web, Verifier}.
Variable cfg : ProviderConfig.
Abbreviation Issuer := (oc_Issuer (pc_OIDC cfg)).

Definition now : oidc Time := fun p => (Ok (clock (op_clock p)), p <| op_clock := S (op_clock p) |>).
(** [http.NewRequestWithContext] and [client.Do] *)
Definition fetch (url : string) : oidc (Z * string * option string) := fun p =>
  let r := get (op_log p) url in
  let p := p <| op_log := mkFetch url r :: op_log p |> in
  match r with
  | RequestError msg | NoReply msg => (Err (EPlain msg), p)
  | Answer status body cut => (Ok (status, body, cut), p)
  end.

(** [time.Since(p.fetchedAt) < p.cfg.CacheTTL] *)
Definition recent : oidc bool :=
  t ← now; at_ ← gets op_fetchedAt; mret (sub_time t at_ <? pc_CacheTTL cfg).
Definition discovery_url : string :=
  if is_empty (pc_DiscoveryURL cfg) && negb (is_empty Issuer)
  then trim_right_slashes Issuer +:+ "/.well-known/openid-configuration" else pc_DiscoveryURL cfg.
Definition store_meta (meta : OIDCMetadata) : oidc unit :=
  t ← now;
  modify (fun p =>
    ((p <| op_meta := meta |>)
       <| op_jwksURL := or_default (om_JWKSURI meta) (op_jwksURL p) |>) <| op_fetchedAt := t |>).

(** Metadata made from the configuration alone leave the URL of the keys as it is. *)
Definition synthetic : oidc unit :=
  t ← now;
  modify (fun p => (p <| op_meta := mkMeta Issuer "" "" (pc_JWKSURL cfg) "" ([], []) |>) <| op_fetchedAt := t |>).

Definition issuer_matches (meta : OIDCMetadata) : bool :=
  is_empty (om_Issuer meta) || is_empty Issuer || String.eqb (om_Issuer meta) Issuer.
Definition ensureMeta : oidc unit :=
  r ← recent;
  meta ← gets op_meta;
  if r && negb (is_empty (om_Issuer meta)) then mret tt
  else if is_empty discovery_url then synthetic
  else
    '(status, body, _) ← fetch discovery_url;
    _ ← throw_if (negb (status =? 200)) (EPlain ("discovery status " +:+ itoa status));
    match checked (decode dec_OIDCMetadata body zero_meta) with
    | None => throw (EPlain (json_error body))
    | Some meta =>
        _ ← throw_if (negb (issuer_matches meta))
              (EPlain ("discovery issuer " +:+ sprint_q (om_Issuer meta)
                       +:+ " does not match configured issuer " +:+ sprint_q Issuer));
        store_meta meta
    end.
Definition Discover : oidc OIDCMetadata := _ ← ensureMeta; gets op_meta.

(** [io.ReadAll(io.LimitReader(res.Body, 1<<20))]; [None] on an error *)
Definition jwks_body (body : string) (cut : option string) : result GoError string :=
  match cut with
  | Some msg => if Z.of_nat (String.length body) <? 1048576 then Err (EPlain msg) else Ok (limited 1048576 body)
  | None => Ok (limited 1048576 body)
  end.
Definition store_keys (url : string) (doc : list jwk) : oidc unit :=
  t ← now;
  modify (fun p => ((p <| op_jwks := doc |>) <| op_jwksURL := url |>) <| op_fetchedAt := t |>).
Definition ensureJWKS : oidc unit :=
  _ ← attempt ensureMeta;
  r ← recent;
  keys ← gets op_jwks;
  url ← gets op_jwksURL;
  if r && negb (Nat.eqb (length keys) 0) then mret tt
  else
    let url := or_default url (pc_JWKSURL cfg) in
    if is_empty url then throw (EPlain "jwks url not configured")
    else
      '(status, body, cut) ← fetch url;
      body ← of_result (jwks_body body cut);
      _ ← throw_if (negb (status =? 200)) (EPlain ("jwks status " +:+ itoa status));
      match checked (unmarshal dec_jwksDoc body ([], [])) with
      | None => throw (EPlain (json_error body))
      | Some doc => store_keys url doc.1
      end.

(** A token that is refused before its claims are looked at reads the clock too here. *)
Definition Authenticate (creds : Credentials) : oidc Principal :=
  if is_empty (trim_space (cr_BearerToken creds)) then throw (ErrUnauthorized "missing bearer token")
  else
    r ← attempt ensureJWKS;
    keys ← gets op_jwks;
    t ← now;
    of_result (OIDCAuthenticate t (match r with Ok _ => Ok keys | Err e => Err e end) (pc_OIDC cfg) creds).
End Provider.
