(* ===== verification/KeySetFacts.v ===== *)
(** * Where the keys come from

    The keys that verify a token were served under the configured URL, or under one that a
    discovery document of the configured issuer names. *)
From S2P Require Import Prelude GoStd Ports Platform Json Decode Ledger Credentials Authn AuthnFacts Wiring.
From S2P Require Import KeySet.

Section Keys.
Context `{GoEnv, Web, Verifier}.
Variable cfg : ProviderConfig.

(** The log holds the discovery document that names [u]. *)
Definition endorsed (log : list Fetch) (u : string) : Prop :=
  u = pc_JWKSURL cfg \/
  exists body cut meta, mkFetch (discovery_url cfg) (Answer 200 body cut) ∈ log /\
    checked (decode dec_OIDCMetadata body zero_meta) = Some meta /\
    (om_Issuer meta = "" \/ oc_Issuer (pc_OIDC cfg) = "" \/ om_Issuer meta = oc_Issuer (pc_OIDC cfg)) /\
    om_JWKSURI meta = u.
Lemma issuer_matches_spec meta :
  issuer_matches cfg meta = true <->
  om_Issuer meta = "" \/ oc_Issuer (pc_OIDC cfg) = "" \/ om_Issuer meta = oc_Issuer (pc_OIDC cfg).
Proof. unfold issuer_matches. rewrite !orb_true_iff, !is_empty_true, String.eqb_eq. tauto. Qed.
(** The log holds the answer that [keys] are decoded from. *)
Definition served (log : list Fetch) (u : string) (keys : list jwk) : Prop :=
  exists body cut raw doc, mkFetch u (Answer 200 body cut) ∈ log /\ jwks_body body cut = Ok raw /\
    checked (unmarshal dec_jwksDoc raw ([], [])) = Some doc /\ doc.1 = keys.
Definition trusted (log : list Fetch) (keys : list jwk) : Prop :=
  keys = [] \/ exists u, endorsed log u /\ served log u keys.
Definition provider_ok (p : OIDCProvider) : Prop :=
  endorsed (op_log p) (op_jwksURL p) /\ trusted (op_log p) (op_jwks p).

Lemma endorsed_mono log log' u : log ⊆ log' -> endorsed log u -> endorsed log' u.
Proof. intros Hl [->|(b & c & m & Hin & Hm)]; [by left | right; exists b, c, m; split; [by apply Hl | done]]. Qed.
Lemma trusted_mono log log' keys : log ⊆ log' -> trusted log keys -> trusted log' keys.
Proof.
  intros Hl [->|(u & Hu & b & c & r & d & Hin & Hd)]; [by left|]. right. exists u.
  split; [by eapply endorsed_mono|]. exists b, c, r, d. split; [by apply Hl | done].
Qed.

(** A call keeps the log and the invariant. *)
Definition keeps {A} (m : oidc A) : Prop :=
  forall p, provider_ok p -> provider_ok (m p).2 /\ op_log p ⊆ op_log (m p).2.
Lemma keeps_pure {A} (m : oidc A) :
  (forall p, op_log (m p).2 = op_log p /\ op_jwksURL (m p).2 = op_jwksURL p /\ op_jwks (m p).2 = op_jwks p) ->
  keeps m.
Proof. intros Hm p Hp. destruct (Hm p) as (Hl & Hu & Hk). unfold provider_ok. by rewrite Hl, Hu, Hk. Qed.
Lemma keeps_bind {A B} (m : oidc A) (f : A -> oidc B) : keeps m -> (forall x, keeps (f x)) -> keeps (m ≫= f).
Proof.
  intros Hm Hf p Hp. destruct (Hm p Hp) as [Hok L1]. unfold mbind, M_bind.
  destruct (m p) as [[x|e] p1]; [|done]. destruct (Hf x p1 Hok) as [Hok2 L2]. split; [done|]. by etrans.
Qed.
Lemma keeps_attempt {A} (m : oidc A) : keeps m -> keeps (attempt m).
Proof. intros Hm p Hp. destruct (Hm p Hp). unfold attempt. by destruct (m p). Qed.
Ltac pure_keeps := apply keeps_pure; intros ?; by repeat split.

(** A fetch adds to the log; what it answers is in it. *)
Lemma fetch_spec url p r p' :
  fetch url p = (r, p') -> provider_ok p ->
  provider_ok p' /\ op_log p ⊆ op_log p' /\ op_jwks p' = op_jwks p /\
  match r with Ok (status, body, cut) => mkFetch url (Answer status body cut) ∈ op_log p' | Err _ => True end.
Proof.
  unfold fetch. cbv zeta. intros Hf [Hu Hk].
  assert (op_log p ⊆ mkFetch url (get (op_log p) url) :: op_log p) as Hl by (intros x Hx; by apply list_elem_of_further).
  destruct (get _ _) as [msg|msg|status body cut] eqn:Hg; injection Hf as <- <-; simpl;
    (split_and!; [split; [by eapply endorsed_mono | by eapply trusted_mono] | exact Hl | done | ..]); try done.
  apply list_elem_of_here.
Qed.

Lemma keeps_ensureMeta : keeps (ensureMeta cfg).
Proof.
  unfold ensureMeta. apply keeps_bind; [pure_keeps|]. intros r. apply keeps_bind; [pure_keeps|]. intros old.
  destruct (r && _); [pure_keeps|]. destruct (is_empty (discovery_url cfg)); [pure_keeps|].
  intros p Hp. destruct (fetch (discovery_url cfg) p) as [x p1] eqn:Hf.
  pose proof (fetch_spec _ _ _ _ Hf Hp) as (Hp1 & Hl & Hk & Hin).
  destruct x as [[[status body] cut]|e]; [rewrite (bind_run _ _ _ _ _ Hf)|by rewrite (bind_fail _ _ _ _ _ Hf)].
  unfold mbind, M_bind, throw_if, of_result, fail_if.
  destruct (status =? 200) eqn:Hs; [apply Z.eqb_eq in Hs as ->|by split]. cbn [negb].
  destruct (checked _) as [meta|] eqn:Hd; [|by split].
  destruct (issuer_matches cfg meta) eqn:Hm; [|by split]. cbn [negb].
  split; [|exact Hl]. destruct Hp1 as [Hu1 Hk1]. split; [|exact Hk1]. simpl. unfold or_default.
  destruct (is_empty (om_JWKSURI meta)); [exact Hu1|]. apply issuer_matches_spec in Hm. right. by exists body, cut, meta.
Qed.

Lemma keeps_ensureJWKS : keeps (ensureJWKS cfg).
Proof.
  unfold ensureJWKS. apply keeps_bind; [apply keeps_attempt, keeps_ensureMeta|]. intros _.
  apply keeps_bind; [pure_keeps|]. intros r. intros p Hp.
  rewrite (bind_run (gets op_jwks) _ p (op_jwks p) p eq_refl), (bind_run (gets op_jwksURL) _ p (op_jwksURL p) p eq_refl).
  destruct (r && _); [by split; [exact Hp|]|]. cbv zeta.
  destruct (is_empty _) eqn:He; [by split; [exact Hp|]|].
  set (url := or_default (op_jwksURL p) (pc_JWKSURL cfg)) in *.
  assert (endorsed (op_log p) url) as Hurl.
  { unfold url, or_default. destruct Hp as [Hu _]. destruct (is_empty (op_jwksURL p)); [by left | exact Hu]. }
  destruct (fetch url p) as [x p1] eqn:Hf. pose proof (fetch_spec _ _ _ _ Hf Hp) as (Hp1 & Hl & Hk & Hin).
  destruct x as [[[status body] cut]|e]; [rewrite (bind_run _ _ _ _ _ Hf)|by rewrite (bind_fail _ _ _ _ _ Hf)].
  unfold mbind, M_bind, throw_if, of_result, fail_if.
  destruct (jwks_body body cut) as [raw|e] eqn:Hraw; [|by split].
  destruct (status =? 200) eqn:Hs; [apply Z.eqb_eq in Hs as ->|by split]. cbn [negb].
  destruct (checked _) as [doc|] eqn:Hd; [|by split].
  assert (endorsed (op_log p1) url) by by eapply endorsed_mono.
  split; [|exact Hl]. split; simpl; [done|]. right. exists url. split; [done|]. by exists body, cut, raw, doc.
Qed.

Lemma keeps_Discover : keeps (Discover cfg).
Proof. apply keeps_bind; [apply keeps_ensureMeta | intros _; pure_keeps]. Qed.
Lemma keeps_Authenticate creds : keeps (Authenticate cfg creds).
Proof.
  unfold Authenticate. destruct (is_empty _); [pure_keeps|].
  apply keeps_bind; [apply keeps_attempt, keeps_ensureJWKS|]. intros r.
  apply keeps_bind; [pure_keeps|]. intros keys. apply keeps_bind; [pure_keeps|]. intros t. pure_keeps.
Qed.

(** The calls of a provider *)
Inductive used (p : OIDCProvider) : OIDCProvider -> Prop :=
| use_discover : used p (Discover cfg p).2
| use_authenticate creds : used p (Authenticate cfg creds p).2.

Lemma used_ok p p' : provider_ok p -> rtc used p p' -> provider_ok p'.
Proof.
  intros Hp Hs. induction Hs as [p|p p1 p2 Hu _ IH]; [done|]. apply IH.
  destruct Hu; [by apply keeps_Discover | by apply keeps_Authenticate].
Qed.
End Keys.

(** C35 A bearer token is accepted only under keys that the issuer published: whatever was
    asked before and whatever the web answers, the keys that verified the token were decoded
    from a [200] answer under the configured URL, or under the URL that a discovery document
    fetched from the issuer names; a document that names another issuer than the configured
    one is never followed. *)
Theorem keys_endorsed `{GoEnv, Web, Verifier} c p creds prin p' :
  let cfg := (NewProvider c).1 in
  rtc (used cfg) (NewProvider c).2 p -> Authenticate cfg creds p = (Ok prin, p') ->
  exists u keys claims, endorsed cfg (op_log p') u /\ served (op_log p') u keys /\
    genuine keys (bearer (cr_BearerToken creds)) claims /\ prin = principal_of (pc_OIDC cfg) claims.
Proof.
  intros cfg Hs Ha.
  assert (Hp : provider_ok cfg p) by (eapply used_ok; [|exact Hs]; split; by left).
  pose proof (keeps_Authenticate cfg creds p Hp) as [Hp' _]. rewrite Ha in Hp'. simpl in Hp'.
  unfold Authenticate in Ha. destruct (is_empty _) eqn:He; [done|].
  apply bind_Ok in Ha as (r & p1 & Hr & Ha). apply bind_Ok in Ha as (keys & p2 & Hk & Ha).
  apply bind_Ok in Ha as (t & p3 & Ht & Ha). injection Hk as <- <-. injection Ht as <- <-.
  injection Ha as Ha <-. destruct r as [[]|e]; unfold OIDCAuthenticate in Ha; rewrite He in Ha; [|done].
  destruct (parseAndVerifyJWT _ _ _ _ _) as [[hd claims]|] eqn:Hparse; [|done].
  destruct (is_empty (claimString _ _)); [done|]. injection Ha as <-.
  apply parse_Ok in Hparse as [Hg _]. destruct Hp' as [_ [Hnil|(u & Hu & Hsv)]]; simpl in *.
  - rewrite Hnil in Hg. by destruct Hg as (? & ? & ? & ? & ? & ? & ? & ? & _ & _ & _ & _ & ? & _).
  - by exists u, (op_jwks p1), claims.
Qed.

(** ** Rotation of the keys *)

Lemma ensureMeta_jwks `{GoEnv, Web, Verifier} cfg p : op_jwks (ensureMeta cfg p).2 = op_jwks p.
Proof.
  unfold ensureMeta, recent, now, synthetic, store_meta, fetch, throw_if, fail_if, of_result, modify, gets, throw.
  unfold mbind, M_bind, mret, M_ret. by repeat (case_match; simplify_eq/=).
Qed.

(** The metadata and the keys share one time of fetching: a successful refresh of the
    metadata makes the keys look fresh, whatever their age. *)
Lemma refresh_skips_keys `{GoEnv, Web, Verifier} cfg p p1 :
  op_jwks p <> [] -> ensureMeta cfg p = (Ok tt, p1) ->
  sub_time (clock (op_clock p1)) (op_fetchedAt p1) < pc_CacheTTL cfg ->
  ensureJWKS cfg p = (Ok tt, p1 <| op_clock := S (op_clock p1) |>) /\ op_jwks p1 = op_jwks p.
Proof.
  intros Hk Hm Ht. pose proof (ensureMeta_jwks cfg p) as Hsame. rewrite Hm in Hsame. simpl in Hsame.
  split; [|exact Hsame]. unfold ensureJWKS. rewrite (bind_run _ _ _ _ _ (attempt_run _ _ _ _ Hm)).
  rewrite (bind_run _ _ p1 true (p1 <| op_clock := S (op_clock p1) |>)).
  2: { unfold recent, now, gets, mbind, M_bind, mret, M_ret. simpl. by rewrite (proj2 (Z.ltb_lt _ _) Ht). }
  unfold gets, mbind, M_bind. simpl. rewrite Hsame. by destruct (op_jwks p).
Qed.

(** ** An issuer that rotates its keys with every fetch *)
Definition quoted (l : list (string * string)) : string := json_struct ((fun kv => json_str kv.1 kv.2) <$> l).
Definition rotating_web : Web := {|
  get log url :=
    if String.eqb url "https://idp/keys"
    then Answer 200 (json_struct [json_member "keys" ("[" +:+ quoted
           [("kty", "RSA"); ("kid", "k" +:+ itoa (zlen log)); ("n", "AQAB"); ("e", "AQAB")] +:+ "]")]) None
    else if String.eqb url "https://idp/.well-known/openid-configuration"
    then Answer 200 (quoted [("issuer", "https://idp"); ("jwks_uri", "https://idp/keys")]) None
    else NoReply "unknown host";
  json_error := fun _ => "invalid";
|}.
Definition ticking : GoEnv :=
  {| clock := fun n => Z.of_nat n * minute; fresh_id := fun n => ""; uuid_sha1_oid := fun s => s |}.
Definition trusting : Verifier :=
  {| verify_pkcs1v15 := fun _ _ _ _ => true; verify_ecdsa := fun _ _ _ _ _ _ => false; sprint := fun _ => "" |}.
#[local] Existing Instances rotating_web ticking trusting.
Definition idp : ProviderConfig * OIDCProvider :=
  NewProvider (mkProviderConfig (mkOIDC "https://idp" "cf" "" "" "" "" "") "" "" 0).
Definition ann_token : Credentials :=
  mkCredentials "Bearer eyJhbGciOiJSUzI1NiIsImtpZCI6ImsxIn0.eyJpc3MiOiJodHRwczovL2lkcCIsInN1YiI6ImFubiIsImF1ZCI6ImNmIiwiZXhwIjo5MDAwMDAwMDAwLCJvcmdfaWQiOiJhY21lIiwic2NvcGUiOiJjb250ZXh0OnJlYWQifQ.c2ln" "" ∅.

Definition ann_accepted : result GoError Principal * OIDCProvider := Authenticate idp.1 ann_token idp.2.
(** The provider after [n] calls of [Discover], some minutes apart *)
Fixpoint later (n : nat) (p : OIDCProvider) : OIDCProvider :=
  match n with O => p | S n => later n (Discover idp.1 p).2 end.

(** An hour later the metadata were fetched again and again, the keys never: a token under a
    key that the issuer has withdrawn since is accepted. *)
Lemma rotation_unseen :
  let p := later 60 ann_accepted.2 in
  (length (op_log p) > 5)%nat /\
  length (List.filter (fun f => String.eqb (ft_URL f) "https://idp/keys") (op_log (Authenticate idp.1 ann_token p).2)) = 1%nat /\
  is_ok (Authenticate idp.1 ann_token p).1 = true.
Proof. vm_compute. split_and!; [repeat constructor | reflexivity..]. Qed.

Lemma keys_endorsed_witness :
  exists u keys claims, endorsed idp.1 (op_log ann_accepted.2) u /\ served (op_log ann_accepted.2) u keys /\
    genuine keys (bearer (cr_BearerToken ann_token)) claims.
Proof.
  destruct (@keys_endorsed ticking rotating_web trusting
    (mkProviderConfig (mkOIDC "https://idp" "cf" "" "" "" "" "") "" "" 0) idp.2 ann_token
    (match ann_accepted.1 with Ok p => p | Err _ => mkPrincipal "" PrincipalKindUser "" "" "" [] [] [] "" ∅ end)
    ann_accepted.2 (rtc_refl _ _)) as (u & keys & claims & Hu & Hs & Hg & _).
  - vm_compute. reflexivity.
  - by exists u, keys, claims.
Defined.
