(* ===== verification/FGAClient.v ===== *)
(** * [internal/adapters/openfga/client.go]: the client of an OpenFGA server

    The server is an argument: what it replies may depend on all the requests so far. A
    request is its path, the bearer token and the JSON value of its body, whose members
    [json.Marshal] writes in the order of their names. The log of the exchanges, the last
    one first, is the state. *)
From S2P Require Import Prelude GoStd Ports Platform Json Decode OpenFGA Config Wiring.

(** [RequestError]: the request cannot be made from the configured address *)
Inductive Reply := RequestError (msg : string) | NoReply (msg : string) | Answer (status : Z) (body : string).
Record Exchange := mkExchange { ex_URL : string; ex_Token : string; ex_Payload : any; ex_Reply : Reply }.
Class FGAServer := {
  reply : list Exchange -> string -> any -> Reply;
  (** The text of an error of [encoding/json] *)
  json_error : string -> string;
  (** The clock after these exchanges *)
  clock_at : list Exchange -> Time;
}.
Abbreviation fga := (M GoError (list Exchange)).

Definition str_object (l : list (string * string)) : any := AObj ((fun kv => (kv.1, AStr kv.2)) <$> l).
Definition ConsistencyPreference (mode : ConsistencyMode) : string :=
  match mode with ConsistencyFullyConsistent => "HIGHER_CONSISTENCY" | _ => "MINIMIZE_LATENCY" end.
Definition reason (allowed : bool) : string := if allowed then "AUTHZ_ALLOW" else "AUTHZ_DENY".

(** The entries of a batch's answer *)
Record CheckEntry := mkCheckEntry { en_Allowed : bool; en_Error : option string }.
#[export] Instance CheckEntry_eta : Settable CheckEntry := fun r => mkCheckEntry (en_Allowed r) (en_Error r).
Definition dec_CheckEntry : decoder CheckEntry :=
  dec_struct
    [field "allowed" en_Allowed dec_bool;
     field "error" en_Error (dec_pointer "" (dec_struct [("message", dec_string)]))].
Definition dec_result : decoder (gmap string CheckEntry) :=
  dec_struct [("result", dec_map (mkCheckEntry false None) dec_CheckEntry)].
Definition dec_allowed : decoder bool := dec_struct [("allowed", dec_bool)].
Definition dec_tuples : decoder (Slice string) := dec_struct [("tuples", dec_slice "" dec_raw)].

Section Client.
Context `{FGAServer}.
Variable c : FGAClient.

(** [postJSON]; an answer that is asked for is decoded from [zero]. *)
Definition post_body (path : string) (payload : any) : fga string := fun log =>
  let r := reply log (fc_APIURL c +:+ path) payload in
  let log := mkExchange (fc_APIURL c +:+ path) (fc_APIToken c) payload r :: log in
  match r with
  | RequestError msg => (Err (EPlain msg), log)
  | NoReply msg => (Err (ErrUnavailable msg), log)
  | Answer status body =>
      (if 300 <=? status
       then Err (ErrUnavailable ("openfga status " +:+ itoa status +:+ ": " +:+ body)) else Ok body, log)
  end.
Definition postJSON {A} (path : string) (payload : any) (dec : decoder A) (zero : A) : fga A :=
  body ← post_body path payload;
  match checked (unmarshal dec body zero) with
  | Some x => mret x
  | None => throw (EPlain (json_error body))
  end.
Definition store_path (op : string) : string := "/stores/" +:+ fc_StoreID c +:+ "/" +:+ op.

(** ** Checks *)
Definition check_key (r : AuthzCheck) : any :=
  str_object [("object", formatObject (ac_ResourceID r)); ("relation", mapRelation (ac_Action r));
              ("user", formatUser (ac_Principal r))].
Definition check_payload (r : AuthzCheck) : any :=
  AObj [("authorization_model_id", AStr (fc_ModelID c));
        ("consistency", AStr (ConsistencyPreference (ac_Consistency r))); ("tuple_key", check_key r)].
Fixpoint batch_checks (i : Z) (reqs : list AuthzCheck) : list any :=
  match reqs with
  | [] => []
  | r :: reqs => AObj [("correlation_id", AStr (itoa i)); ("tuple_key", check_key r)] :: batch_checks (i + 1) reqs
  end.
Definition batch_mode (reqs : list AuthzCheck) : ConsistencyMode :=
  if existsb (fun r => match ac_Consistency r with ConsistencyFullyConsistent => true | _ => false end) reqs
  then ConsistencyFullyConsistent else ConsistencyMinLatency.
Definition batch_payload (reqs : list AuthzCheck) : any :=
  AObj [("authorization_model_id", AStr (fc_ModelID c)); ("checks", AArr (batch_checks 0 reqs));
        ("consistency", AStr (ConsistencyPreference (batch_mode reqs)))].

Definition fga_decision (now : Time) (r : AuthzCheck) (allowed : bool) : AuthzDecision :=
  mkAuthzDecision allowed (reason allowed) (ac_Consistency r) (fc_ModelID c) now.
Definition entry_allowed (result : gmap string CheckEntry) (i : Z) : bool :=
  match result !! itoa i with
  | Some e => en_Allowed e && match en_Error e with None => true | Some _ => false end
  | None => false
  end.
Fixpoint batch_decisions (now : Time) (result : gmap string CheckEntry) (i : Z) (reqs : list AuthzCheck)
    : list AuthzDecision :=
  match reqs with
  | [] => []
  | r :: reqs => fga_decision now r (entry_allowed result i) :: batch_decisions now result (i + 1) reqs
  end.
Definition batchCheckNative (reqs : list AuthzCheck) : fga (list AuthzDecision) :=
  result ← postJSON (store_path "batch-check") (batch_payload reqs) dec_result ∅;
  now ← gets clock_at;
  mret (batch_decisions now result 0 reqs).
Definition checkOne (r : AuthzCheck) : fga bool :=
  postJSON (store_path "check") (check_payload r) dec_allowed false.
Fixpoint check_each (reqs : list AuthzCheck) : fga (list AuthzDecision) :=
  match reqs with
  | [] => mret []
  | r :: reqs =>
      allowed ← checkOne r;
      now ← gets clock_at;
      rest ← check_each reqs;
      mret (fga_decision now r allowed :: rest)
  end.
(** The batch, else the checks one by one *)
Definition BatchCheck (reqs : list AuthzCheck) : fga (list AuthzDecision) :=
  match reqs with
  | [] => mret []
  | _ =>
      r ← attempt (batchCheckNative reqs);
      match r with Ok out => mret out | Err _ => check_each reqs end
  end.
Definition Check_ (req : AuthzCheck) : fga AuthzDecision :=
  outs ← BatchCheck [req];
  match outs with
  | d :: _ => mret d
  | [] => now ← gets clock_at; mret (mkAuthzDecision false "AUTHZ_EMPTY" (ac_Consistency req) "" now)
  end.

Definition ResolveCandidateScope (req : ScopeResolve) : fga CandidateScope :=
  let org := p_OrgID (sr_Principal req) in
  let payload :=
    AObj [("authorization_model_id", AStr (fc_ModelID c));
          ("consistency", AStr (ConsistencyPreference (sr_Consistency req)));
          ("tuple_key", str_object [("object", "organization:" +:+ org); ("relation", "member");
                                    ("user", formatUser (sr_Principal req))])] in
  allowed ← postJSON (store_path "check") payload dec_allowed false;
  mret (mkCandidateScope org [] [] (if allowed : bool then "AUTHZ_SCOPE_OK" else "AUTHZ_SCOPE_DENY")).

(** ** Tuples *)
Definition tuple_key (t : RelationshipTuple) : any :=
  str_object [("object", t_Object t); ("relation", t_Relation t); ("user", t_Subject t)].
Definition write_payload (removing : bool) (keys : list RelationshipTuple) : any :=
  AObj [("authorization_model_id", AStr (fc_ModelID c));
        (if removing then "deletes" else "writes", AObj [("tuple_keys", AArr (tuple_key <$> keys))])].
(** The errors that a retry meets *)
Definition already_done (removing : bool) (err : GoError) : bool :=
  let msg := to_lower (error_string err) in
  contains_str msg "already exists" || contains_str msg "cannot write a tuple which already exists"
  || removing && (contains_str msg "not found" || contains_str msg "does not exist").
Definition mutate_batch (removing : bool) (tuples : list RelationshipTuple) : fga unit :=
  match filter (fun t => incomplete t = false) tuples with
  | [] => mret tt
  | keys =>
      r ← attempt (post_body (store_path "write") (write_payload removing keys));
      match r with
      | Ok _ => mret tt
      | Err err => if already_done removing err then mret tt else throw err
      end
  end.
Definition batchSize : nat := 40.
(** [fuel] bounds the batches; one per tuple is enough. *)
Fixpoint batches {A} (fuel : nat) (l : list A) : list (list A) :=
  match l, fuel with
  | [], _ | _, O => []
  | _, S fuel => take batchSize l :: batches fuel (drop batchSize l)
  end.
Definition mutateTuples (tuples : list RelationshipTuple) (removing : bool) : fga unit :=
  for_each (mutate_batch removing) (batches (length tuples) tuples).
Definition WriteTuples (tuples : list RelationshipTuple) : fga unit := mutateTuples tuples false.
Definition DeleteTuples (tuples : list RelationshipTuple) : fga unit := mutateTuples tuples true.

Definition HasTuple (t : RelationshipTuple) : fga bool :=
  if incomplete t then mret false
  else
    tuples ← postJSON (store_path "read") (AObj [("tuple_key", tuple_key t)]) dec_tuples ([], []);
    mret (negb (Nat.eqb (length tuples.1) 0)).
End Client.
