(* ===== verification/FGAClientFacts.v ===== *)
(** * What the OpenFGA client makes of the server's answers *)
From S2P Require Import Prelude GoStd Ports Platform Json Decode OpenFGA Config Wiring FGAClient.

Section Checks.
Context `{FGAServer}.
Variable c : FGAClient.
Implicit Types (log new : list Exchange) (r : AuthzCheck).

(** The server answered a request with success, and what it then said of a check *)
Definition answered log (op : string) (payload : any) (body : string) : Prop :=
  exists status, status < 300 /\
    mkExchange (fc_APIURL c +:+ store_path c op) (fc_APIToken c) payload (Answer status body) ∈ log.
Definition says_in_batch log (reqs : list AuthzCheck) (i : nat) : Prop :=
  exists body result, answered log "batch-check" (batch_payload c reqs) body /\
    unmarshal dec_result body ∅ = (result, true) /\
    exists en, result !! itoa (Z.of_nat i) = Some en /\ en_Allowed en = true /\ en_Error en = None.
Definition says_alone log r : Prop :=
  exists body, answered log "check" (check_payload c r) body /\ unmarshal dec_allowed body false = (true, true).

Lemma entry_allowed_spec result i :
  entry_allowed result i = true ->
  exists en, result !! itoa i = Some en /\ en_Allowed en = true /\ en_Error en = None.
Proof.
  unfold entry_allowed. destruct (result !! itoa i) as [en|]; [|done].
  intros [Ha He]%andb_true_iff. exists en. by destruct (en_Error en).
Qed.

Lemma says_alone_mono log log' r : log ⊆ log' -> says_alone log r -> says_alone log' r.
Proof. intros Hs (body & (st & Hst & Hin) & Hu). exists body. split; [exists st; auto | done]. Qed.

(** One call adds one exchange, and its result is decoded from an answer. *)
Lemma postJSON_spec {A} op payload (dec : decoder A) zero log :
  exists e, (postJSON c (store_path c op) payload dec zero log).2 = e :: log /\
    match (postJSON c (store_path c op) payload dec zero log).1 with
    | Ok x => exists body, answered [e] op payload body /\ unmarshal dec body zero = (x, true)
    | Err _ => True
    end.
Proof.
  unfold postJSON. unfold mbind, M_bind, post_body.
  set (r := reply log (fc_APIURL c +:+ store_path c op) payload).
  exists (mkExchange (fc_APIURL c +:+ store_path c op) (fc_APIToken c) payload r).
  destruct r as [msg|msg|status body]; [done | done |].
  destruct (300 <=? status) eqn:Hst; [done|]. apply Z.leb_gt in Hst. cbv beta iota.
  unfold checked. destruct (unmarshal dec body zero) as [x ok] eqn:Hu. destruct ok; [|done].
  split; [done|]. cbn [fst mret M_ret snd]. exists body. split; [|exact Hu].
  exists status. split; [lia|]. by apply list_elem_of_singleton.
Qed.

(** A decision for a request, allowed only with a reason *)
Definition decided (granted : Prop) r (d : AuthzDecision) : Prop :=
  ad_Consistency d = ac_Consistency r /\ ad_ModelRevision d = fc_ModelID c /\
  ad_ReasonCode d = reason (ad_Allowed d) /\ (ad_Allowed d = true -> granted).

Lemma batch_decisions_spec now result i reqs k r :
  reqs !! k = Some r ->
  exists d, batch_decisions c now result i reqs !! k = Some d /\
    decided (entry_allowed result (i + Z.of_nat k) = true) r d.
Proof.
  revert i k. induction reqs as [|r0 reqs IH]; intros i [|k] Hk; simplify_eq/=.
  - exists (fga_decision c now r (entry_allowed result i)). split; [done|].
    unfold decided. cbn. by rewrite Z.add_0_r.
  - destruct (IH (i + 1) k Hk) as (d & Hd & Hdec). exists d. split; [exact Hd|].
    by replace (i + Z.of_nat (S k)) with (i + 1 + Z.of_nat k) by lia.
Qed.
Lemma batch_decisions_length now result i reqs :
  length (batch_decisions c now result i reqs) = length reqs.
Proof. revert i. induction reqs as [|r reqs IH]; intros i; [done|]. simpl. by rewrite IH. Qed.

Lemma check_each_spec reqs log :
  exists new, (check_each c reqs log).2 = new ++ log /\
    match (check_each c reqs log).1 with
    | Ok ds => Forall2 (fun r d => decided (says_alone new r) r d) reqs ds
    | Err _ => True
    end.
Proof.
  revert log. induction reqs as [|r reqs IH]; intros log; [exists []; by split; [|constructor]|].
  destruct (postJSON_spec "check" (check_payload c r) dec_allowed false log) as (e & He & Hr).
  cbn [check_each]. unfold checkOne. unfold mbind, M_bind.
  destruct (postJSON c _ _ _ _ log) as [[allowed|err] log1] eqn:E; cbn [fst snd] in He, Hr; subst log1;
    [|by exists [e]].
  cbn [gets]. destruct (IH (e :: log)) as (new & Hn & Hds).
  destruct (check_each c reqs (e :: log)) as [[ds|err] log2] eqn:E2; cbn [fst snd] in Hn, Hds; subst log2;
    exists (new ++ [e]); rewrite <-app_assoc; (split; [done|]); [|done].
  cbn [fst mret M_ret]. constructor.
  - destruct Hr as (body & Ha & Hu). split_and!; try done. cbn. intros ->.
    apply (says_alone_mono [e]); [set_solver | by exists body].
  - eapply Forall2_impl; [exact Hds|]. intros r1 d (H1 & H2 & H3 & H4). split_and!; try done.
    intros Hd. eapply says_alone_mono, H4, Hd. set_solver.
Qed.

(** C39 The OpenFGA client fails closed: whatever the server replies, [BatchCheck] either
    returns an error or one decision for every request, in their order, with the request's
    consistency and the pinned model; and a check is allowed only if during this call the
    server answered with success, under the pinned store, that exactly this user has this
    relation to this object, in the answer to the batch (at its position and without an
    error) or to the check of its own. The log only grows. *)
Theorem fga_checks_fail_closed reqs log :
  let '(res, log') := FGAClient.BatchCheck c reqs log in
  exists new, log' = new ++ log /\
    match res with
    | Ok ds => length ds = length reqs /\
        forall i r, reqs !! i = Some r ->
          exists d, ds !! i = Some d /\ decided (says_in_batch new reqs i \/ says_alone new r) r d
    | Err _ => reqs <> []
    end.
Proof.
  destruct reqs as [|r0 rest]; [by exists []|]. unfold FGAClient.BatchCheck.
  set (reqs := r0 :: rest).
  destruct (postJSON_spec "batch-check" (batch_payload c reqs) dec_result ∅ log) as (e & He & Hr).
  unfold batchCheckNative, attempt. unfold mbind, M_bind.
  destruct (postJSON c _ _ _ _ log) as [[result|err] log1] eqn:E; cbn [fst snd] in He, Hr; subst log1.
  - cbn [gets mret M_ret]. exists [e]. split; [done|]. split; [by rewrite batch_decisions_length|].
    intros i r Hi. destruct Hr as (body & Ha & Hu).
    destruct (batch_decisions_spec (clock_at (e :: log)) result 0 reqs i r Hi) as (d & Hd & H1 & H2 & H3 & H4).
    exists d. split; [exact Hd|]. split_and!; try done. intros Hd1. left. exists body, result.
    split_and!; try done. apply entry_allowed_spec. by rewrite <-(H4 Hd1).
  - destruct (check_each_spec reqs (e :: log)) as (new & Hn & Hds).
    destruct (check_each c reqs (e :: log)) as [[ds|err2] log2] eqn:E2; cbn [fst snd] in Hn, Hds; subst log2;
      exists (new ++ [e]); rewrite <-app_assoc; (split; [done|]); [|done].
    split; [by apply Forall2_length in Hds|]. intros i r Hi.
    destruct (Forall2_lookup_l _ _ _ _ _ Hds Hi) as (d & Hd & H1 & H2 & H3 & H4). exists d.
    split; [exact Hd|]. split_and!; try done. intros Hd1. right.
    eapply says_alone_mono, H4, Hd1. set_solver.
Qed.
End Checks.

(** ** Writes *)
Lemma batches_spec {A} fuel (l : list A) :
  (length l <= fuel)%nat ->
  concat (batches fuel l) = l /\ Forall (fun b => (length b <= batchSize)%nat) (batches fuel l).
Proof.
  revert l. induction fuel as [|fuel IH]; intros [|x l] Hl; try (simpl in Hl; lia); try (by split; [|constructor]).
  cbn [batches concat]. destruct (IH (drop batchSize (x :: l))) as [Hc Hb].
  { rewrite length_drop. unfold batchSize. simpl in *. lia. }
  rewrite Hc. split; [apply take_drop|]. constructor; [apply firstn_le_length | exact Hb].
Qed.

Section Writes.
Context `{FGAServer}.
Variable c : FGAClient.

(** The request in which a tuple went out, and that its reply counts as a success *)
Definition sent (new : list Exchange) (removing : bool) (t : RelationshipTuple) : Prop :=
  exists keys rep, t ∈ keys /\ (length keys <= batchSize)%nat /\
    mkExchange (fc_APIURL c +:+ store_path c "write") (fc_APIToken c) (write_payload c removing keys) rep ∈ new /\
    match rep with
    | Answer status body => status < 300 \/
        already_done removing (ErrUnavailable ("openfga status " +:+ itoa status +:+ ": " +:+ body)) = true
    | NoReply msg => already_done removing (ErrUnavailable msg) = true
    | RequestError msg => already_done removing (EPlain msg) = true
    end.

Lemma mutate_batch_spec removing tuples log :
  (length tuples <= batchSize)%nat ->
  exists new, (mutate_batch c removing tuples log).2 = new ++ log /\
    ((mutate_batch c removing tuples log).1 = Ok tt ->
     forall t, t ∈ tuples -> incomplete t = false -> sent new removing t).
Proof.
  intros Hl. unfold mutate_batch.
  destruct (filter _ tuples) as [|k keys] eqn:Hf.
  { exists []. split; [done|]. intros _ t Ht Hi.
    assert (Hin : t ∈ filter (fun t => incomplete t = false) tuples) by (by apply list_elem_of_filter).
    rewrite Hf in Hin. by apply elem_of_nil in Hin. }
  rewrite <-Hf. set (ks := filter _ tuples).
  assert (Hk : (length ks <= batchSize)%nat) by (etrans; [apply length_filter | exact Hl]).
  unfold attempt, mbind, M_bind, post_body.
  set (r := reply log _ _). exists [mkExchange (fc_APIURL c +:+ store_path c "write") (fc_APIToken c) (write_payload c removing ks) r].
  assert (Hs : forall t, t ∈ tuples -> incomplete t = false -> t ∈ ks) by (intros; by apply list_elem_of_filter).
  assert (Hdone : forall t, t ∈ tuples -> incomplete t = false ->
            match r with
            | Answer status body => status < 300 \/
                already_done removing (ErrUnavailable ("openfga status " +:+ itoa status +:+ ": " +:+ body)) = true
            | NoReply msg => already_done removing (ErrUnavailable msg) = true
            | RequestError msg => already_done removing (EPlain msg) = true
            end ->
            sent [mkExchange (fc_APIURL c +:+ store_path c "write") (fc_APIToken c) (write_payload c removing ks) r] removing t).
  { intros t Ht Hi Hr. exists ks, r. split_and!; auto. by apply list_elem_of_singleton. }
  revert Hdone. generalize r. intros [msg|msg|status body] Hdone.
  - destruct (already_done removing (EPlain msg)); split; try done; auto.
  - destruct (already_done removing (ErrUnavailable msg)); split; try done; auto.
  - destruct (300 <=? status) eqn:E; cbv beta iota.
    + destruct (already_done removing (ErrUnavailable _)) eqn:Ea; split; try done; auto.
    + apply Z.leb_gt in E. split; [done|]. intros _ t Ht Hi. apply Hdone; auto.
Qed.

(** A write that succeeds has sent every complete tuple, in requests of 40 at most, each of
    which was answered with success or with an error that the client takes for one. *)
Lemma mutate_spec removing tuples log :
  exists new, (mutateTuples c tuples removing log).2 = new ++ log /\
    ((mutateTuples c tuples removing log).1 = Ok tt ->
     forall t, t ∈ tuples -> incomplete t = false -> sent new removing t).
Proof.
  unfold mutateTuples. destruct (batches_spec (length tuples) tuples (le_n _)) as [Hc Hb].
  revert Hc Hb. generalize (batches (length tuples) tuples). intros bs <- Hb.
  revert log. induction Hb as [|b bs Hl _ IH]; intros log.
  { exists []. split; [done|]. intros _ t Ht. by apply elem_of_nil in Ht. }
  cbn [for_each concat]. unfold mbind, M_bind.
  destruct (mutate_batch_spec removing b log Hl) as (n1 & H1 & Ht1).
  destruct (mutate_batch c removing b log) as [[[]|err] log1]; cbn [fst snd] in H1, Ht1; subst log1;
    [|by exists n1].
  destruct (IH (n1 ++ log)) as (n2 & H2 & Ht2). exists (n2 ++ n1). rewrite <-app_assoc.
  split; [exact H2|]. intros Hok t [Ht|Ht]%elem_of_app Hi.
  - destruct (Ht1 eq_refl t Ht Hi) as (keys & rep & Hk & Hlen & Hin & Hr). exists keys, rep.
    split_and!; auto. rewrite elem_of_app. by right.
  - destruct (Ht2 Hok t Ht Hi) as (keys & rep & Hk & Hlen & Hin & Hr). exists keys, rep.
    split_and!; auto. rewrite elem_of_app. by left.
Qed.
End Writes.

(** ** A server that refuses a write as a whole *)

(** The tuples of a body, and those stored by the writes that succeeded *)
Definition body_keys (op : string) (payload : any) : list any :=
  match payload with
  | AObj m => match assoc m op with
              | Some (AObj w) => match assoc w "tuple_keys" with Some (AArr l) => l | _ => [] end
              | _ => [] end
  | _ => []
  end.
Definition same_key (a b : any) : bool :=
  match a, b with
  | AObj [(_, AStr x1); (_, AStr x2); (_, AStr x3)], AObj [(_, AStr y1); (_, AStr y2); (_, AStr y3)] =>
      String.eqb x1 y1 && String.eqb x2 y2 && String.eqb x3 y3
  | _, _ => false
  end.
Fixpoint stored (log : list Exchange) : list any :=
  match log with
  | [] => []
  | e :: log =>
      match ex_Reply e with
      | Answer 200 _ => body_keys "writes" (ex_Payload e) ++ stored log
      | _ => stored log
      end
  end.
Definition read_key (payload : any) : any :=
  match payload with AObj m => default ANil (assoc m "tuple_key") | _ => ANil end.
(** Writing is atomic: a tuple that exists makes the server refuse the request. *)
Definition demo_fga (log : list Exchange) (url : string) (payload : any) : Reply :=
  if has_suffix url "/write" then
    if existsb (fun k => existsb (same_key k) (stored log)) (body_keys "writes" payload)
    then Answer 400 "cannot write a tuple which already exists"
    else if has_prefix url "http://fga/stores/gone" then Answer 404 "store id not found"
    else Answer 200 "{}"
  else if has_suffix url "/read" then
    Answer 200 (if existsb (same_key (read_key payload)) (stored log)
                then "{" +:+ json_member "tuples" "[{}]" +:+ "}" else "{" +:+ json_member "tuples" "[]" +:+ "}")
  else NoReply "down".
#[local] Instance demo_fga_server : FGAServer :=
  {| reply := demo_fga; json_error := fun _ => "json"; clock_at := fun log => Z.of_nat (length log) |}.
Definition demo_fga_client (store : string) : FGAClient := mkFGAClient "http://fga" store "01M" "".

Definition owner_tuple : RelationshipTuple := mkTuple "resource:a" "owner" "user:ann".
Definition reader_tuple : RelationshipTuple := mkTuple "resource:a" "reader" "user:bob".

(** One tuple of a batch exists: the server stores none of them, the client reports success
    and the other tuple is lost. *)
Lemma batch_write_lost :
  let c := demo_fga_client "01H" in
  let '(r, log) := (FGAClient.WriteTuples c [owner_tuple] ≫= fun _ =>
                    FGAClient.WriteTuples c [owner_tuple; reader_tuple] ≫= fun _ =>
                    FGAClient.HasTuple c reader_tuple) [] in
  r = Ok false /\ length log = 3%nat.
Proof. vm_compute. split; reflexivity. Qed.

(** A revocation against a store that is gone is reported as done. *)
Lemma delete_swallows_not_found :
  (FGAClient.DeleteTuples (demo_fga_client "gone") [owner_tuple] []).1 = Ok tt.
Proof. vm_compute. reflexivity. Qed.

Example fga_roundtrip :
  let c := demo_fga_client "01H" in
  ((FGAClient.WriteTuples c [owner_tuple] ≫= fun _ => FGAClient.HasTuple c owner_tuple) []).1 = Ok true.
Proof. vm_compute. reflexivity. Qed.
