(* ===== verification/Quota.v ===== *)
(** * [internal/quota/quota.go]: token buckets

    A bucket per (organization, source, principal, operation), refilled with the time
    since it was last touched, in [float64] arithmetic. [Allow] and [SetOrgLimits] run
    under the limiter's mutex. *)
From Corelib Require Import SpecFloat.
From S2P Require Import Prelude GoStd Ports Platform.

Inductive Operation := OpSearch | OpIntake | OpExport | OpOther (s : string).
Definition op_string (o : Operation) : string :=
  match o with OpSearch => "search" | OpIntake => "intake" | OpExport => "export" | OpOther s => s end.

Record Key := mkKey { k_OrgID : string; k_SourceID : string; k_PrincipalID : string; k_Op : Operation }.
Definition key_string (k : Key) : string :=
  k_OrgID k +:+ "|" +:+ k_SourceID k +:+ "|" +:+ k_PrincipalID k +:+ "|" +:+ op_string (k_Op k).

Record Limits := mkLimits {
  li_SearchPerMinute : float64; li_IntakePerMinute : float64; li_ExportPerMinute : float64;
  li_Burst : float64;
}.
#[export] Instance Limits_eta : Settable Limits := fun r =>
  mkLimits (li_SearchPerMinute r) (li_IntakePerMinute r) (li_ExportPerMinute r) (li_Burst r).
#[export] Instance Limits_eq_dec : EqDecision Limits.
Proof. solve_decision. Defined.

Definition DefaultLimits : Limits := mkLimits (f_of_Z 60) (f_of_Z 120) (f_of_Z 10) (f_of_Z 20).

Record bucket := mkBucket {
  bk_tokens : float64; bk_capacity : float64; bk_refillRate : float64; bk_last : Time;
}.
#[export] Instance bucket_eta : Settable bucket := fun r =>
  mkBucket (bk_tokens r) (bk_capacity r) (bk_refillRate r) (bk_last r).

Record Limiter := mkLimiter {
  lm_limits : Limits; lm_orgLimits : gmap string Limits; lm_buckets : gmap string bucket;
}.
#[export] Instance Limiter_eta : Settable Limiter := fun r =>
  mkLimiter (lm_limits r) (lm_orgLimits r) (lm_buckets r).

Definition with_burst (l : Limits) : Limits :=
  if f_le (li_Burst l) f_zero then l <| li_Burst := f_one |> else l.
Definition NewLimiter (limits : Limits) : Limiter := mkLimiter (with_burst limits) ∅ ∅.

Definition SetOrgLimits (orgID : string) (limits : Limits) (l : Limiter) : Limiter :=
  if is_empty (trim_space orgID) then l
  else
    let prefix := orgID +:+ "|" in
    (l <| lm_orgLimits := <[orgID := with_burst limits]> (lm_orgLimits l) |>)
      <| lm_buckets := filter (fun kb => has_prefix kb.1 prefix = false) (lm_buckets l) |>.

Definition rateForLimits (l : Limits) (op : Operation) : float64 :=
  match op with
  | OpSearch => li_SearchPerMinute l
  | OpIntake => li_IntakePerMinute l
  | OpExport => li_ExportPerMinute l
  | OpOther _ => f_zero
  end.

Definition maxBuckets : Z := 100000.

Definition evictIdleLocked (now : Time) (buckets : gmap string bucket) : gmap string bucket :=
  filter (fun kb => (sub_time now (bk_last kb.2) <=? 10 * minute) = true) buckets.

(** [d.Seconds()] *)
Definition seconds (d : Z) : float64 :=
  f_add (f_of_Z (Z.quot d second)) (f_div (f_of_Z (Z.rem d second)) (f_of_Z 1000000000)).

Definition new_bucket (burst rate : float64) (now : Time) : bucket :=
  mkBucket burst burst (f_div rate (f_of_Z 60)) now.

Definition refill (now : Time) (b : bucket) : bucket :=
  let elapsed := seconds (sub_time now (bk_last b)) in
  if f_lt f_zero elapsed then
    let tokens := f_add (bk_tokens b) (f_mul elapsed (bk_refillRate b)) in
    let tokens := if f_lt (bk_capacity b) tokens then bk_capacity b else tokens in
    (b <| bk_tokens := tokens |>) <| bk_last := now |>
  else b.

(** One token is taken from a full enough bucket; otherwise the caller is told when to
    come back. *)
Definition take_token (op : Operation) (b : bucket) : result GoError unit * bucket :=
  if f_lt (bk_tokens b) f_one then
    let retry := f_to_int (f_mul (f_div (f_sub f_one (bk_tokens b)) (bk_refillRate b))
                             (f_of_Z second)) in
    let retry := if retry <? millisecond then millisecond else retry in
    (Err (ErrRateLimited ("quota exceeded for " +:+ op_string op) retry), b)
  else (Ok tt, b <| bk_tokens := f_sub (bk_tokens b) f_one |>).

Definition limits_of (l : Limiter) (orgID : string) : Limits :=
  default (lm_limits l) (lm_orgLimits l !! orgID).

(** [now]: the reading of the clock, taken when a rate applies *)
Definition Allow (now : Time) (key : Key) : M GoError Limiter unit := fun l =>
  let limits := limits_of l (k_OrgID key) in
  let burst := if f_le (li_Burst limits) f_zero then f_one else li_Burst limits in
  let rate := rateForLimits limits (k_Op key) in
  if f_le rate f_zero then (Ok tt, l)
  else
    let id := key_string key in
    let '(b, buckets) :=
      match lm_buckets l !! id with
      | Some b => (b, lm_buckets l)
      | None =>
          (new_bucket burst rate now,
           if maxBuckets <=? Z.of_nat (size (lm_buckets l))
           then evictIdleLocked now (lm_buckets l) else lm_buckets l)
      end in
    let '(r, b) := take_token (k_Op key) (refill now b) in
    (r, l <| lm_buckets := <[id := b]> buckets |>).

(** ** Facts *)

(** A call touches the bucket of its key; in a table that is not full, no other. *)
Lemma Allow_other now key l id :
  id <> key_string key -> Z.of_nat (size (lm_buckets l)) < maxBuckets ->
  lm_buckets (Allow now key l).2 !! id = lm_buckets l !! id.
Proof.
  intros Hne Hsize. unfold Allow. destruct (f_le _ f_zero); [done|].
  rewrite (proj2 (Z.leb_gt _ _) Hsize).
  destruct (lm_buckets l !! key_string key) as [b|];
    destruct (take_token _ _); simpl; by rewrite lookup_insert_ne.
Qed.

Lemma Allow_limits now key l :
  lm_limits (Allow now key l).2 = lm_limits l /\ lm_orgLimits (Allow now key l).2 = lm_orgLimits l.
Proof.
  unfold Allow. destruct (f_le _ f_zero); [done|].
  destruct (lm_buckets l !! key_string key) as [b|]; by destruct (take_token _ _).
Qed.

(** The first part of a string joined with ['|'] *)
Lemma bar_inj p q s t :
  count_byte p "|" = O -> count_byte q "|" = O -> p +:+ "|" +:+ s = q +:+ "|" +:+ t -> p = q /\ s = t.
Proof.
  revert q. induction p as [|c p IH]; intros [|d q] Hp Hq Heq.
  - split; [done|]. by injection Heq.
  - injection Heq as Hd. by rewrite <- Hd in Hq.
  - injection Heq as Hc. by rewrite Hc in Hp.
  - injection Heq as -> Heq. simpl in Hp, Hq. destruct (Ascii.eqb d "|"); [done|].
    by destruct (IH q Hp Hq Heq) as [-> ->].
Qed.

Definition bar_free (k : Key) : Prop :=
  count_byte (k_OrgID k) "|" = O /\ count_byte (k_SourceID k) "|" = O /\
  count_byte (k_PrincipalID k) "|" = O.

Lemma key_string_org k1 k2 :
  bar_free k1 -> bar_free k2 -> key_string k1 = key_string k2 ->
  k_OrgID k1 = k_OrgID k2 /\ k_SourceID k1 = k_SourceID k2 /\ k_PrincipalID k1 = k_PrincipalID k2 /\
  op_string (k_Op k1) = op_string (k_Op k2).
Proof.
  intros (H1 & H2 & H3) (H4 & H5 & H6) Heq. unfold key_string in Heq.
  apply bar_inj in Heq as [-> Heq]; [|done..]. apply bar_inj in Heq as [-> Heq]; [|done..].
  by apply bar_inj in Heq as [-> ->].
Qed.

(** [n] calls at one instant: which were admitted *)
Fixpoint asks (n : nat) (now : Time) (key : Key) (l : Limiter) : list bool :=
  match n with
  | O => []
  | S n => let '(r, l) := Allow now key l in is_ok r :: asks n now key l
  end.

Definition tokens_at (k : nat) : float64 := f_of_Z (Z.of_nat k).

(** Twenty tokens are counted down exactly. *)
Lemma tokens_exact k :
  (k <= 20)%nat ->
  f_lt (tokens_at k) f_one = bool_decide (k = O) /\
  (k <> O -> f_sub (tokens_at k) f_one = tokens_at (Nat.pred k)).
Proof.
  intros Hk. do 21 (destruct k as [|k];
    [split; [vm_compute; reflexivity | intros Hne; first [by destruct Hne | vm_compute; reflexivity]]|]).
  lia.
Qed.

Lemma refill_same now b : bk_last b = now -> refill now b = b.
Proof.
  intros <-. unfold refill, sub_time. rewrite Z.sub_diag. reflexivity.
Qed.

Section Burst.
Variables (now : Time) (key : Key) (rate : float64).
Hypothesis Hrate : f_le rate f_zero = false.

Definition holding (k : nat) (l : Limiter) : Prop :=
  rateForLimits (limits_of l (k_OrgID key)) (k_Op key) = rate /\
  exists b, lm_buckets l !! key_string key = Some b /\ bk_tokens b = tokens_at k /\ bk_last b = now.

Lemma take_exact op b k :
  (k <= 20)%nat -> bk_tokens b = tokens_at k ->
  is_ok (take_token op b).1 = negb (bool_decide (k = O)) /\
  bk_tokens (take_token op b).2 = tokens_at (Nat.pred k) /\ bk_last (take_token op b).2 = bk_last b.
Proof.
  intros Hk Hb. unfold take_token. rewrite Hb. destruct (tokens_exact k Hk) as [-> Hsub].
  case_bool_decide as H0; simpl.
  - subst. done.
  - by rewrite Hsub.
Qed.

Lemma Allow_holding k l :
  (k <= 20)%nat -> holding k l ->
  is_ok (Allow now key l).1 = negb (bool_decide (k = O)) /\ holding (Nat.pred k) (Allow now key l).2.
Proof.
  intros Hk (Hr & b & Hb & Ht & Hl). destruct (Allow_limits now key l) as [Hlim Horg].
  assert (Hr' : rateForLimits (limits_of (Allow now key l).2 (k_OrgID key)) (k_Op key) = rate)
    by (unfold limits_of in *; by rewrite Hlim, Horg).
  revert Hr'. unfold holding at 1. unfold Allow. rewrite Hr, Hrate, Hb, refill_same by done.
  destruct (take_exact (k_Op key) b k Hk Ht) as (Hok & Ht' & Hl').
  destruct (take_token (k_Op key) b) as [r b']; simpl in *. intros Hr'.
  split; [done|]. split; [done|]. exists b'. by rewrite lookup_insert_eq, Ht', Hl'.
Qed.

Lemma asks_holding n k l :
  (k <= 20)%nat -> holding k l -> asks n now key l = replicate (n `min` k) true ++ replicate (n - k) false.
Proof.
  revert k l. induction n as [|n IH]; intros k l Hk Hh; [done|]. simpl.
  destruct (Allow_holding k l Hk Hh) as [Hok Hh']. destruct (Allow now key l) as [r l']; simpl in *.
  rewrite Hok, (IH (Nat.pred k) l' ltac:(lia) Hh'). destruct k as [|k]; simpl; [|done].
  by rewrite Nat.min_0_r, Nat.sub_0_r.
Qed.
End Burst.

(** C36 The burst of the service's limits is exact: at one instant a key without a bucket
    is granted twenty requests and not one more, however many are made; the others are
    refused. *)
Theorem burst_exact now key l n :
  let limits := limits_of l (k_OrgID key) in
  li_Burst limits = f_of_Z 20 -> f_le (rateForLimits limits (k_Op key)) f_zero = false ->
  lm_buckets l !! key_string key = None ->
  asks n now key l = replicate (n `min` 20) true ++ replicate (n - 20) false.
Proof.
  intros limits Hburst Hrate Hnone. destruct n as [|n]; [done|]. cbn [asks].
  destruct (Allow_limits now key l) as [Hlim Horg].
  assert (Hfirst : is_ok (Allow now key l).1 = true /\
                   holding now key (rateForLimits limits (k_Op key)) 19 (Allow now key l).2).
  { split; [|split; [unfold limits, limits_of; by rewrite Hlim, Horg|]];
      unfold Allow; fold limits; rewrite Hrate, Hnone, Hburst;
      change (f_le (f_of_Z 20) f_zero) with false; cbn iota;
      rewrite refill_same by done;
      set (b := new_bucket _ _ _);
      destruct (take_exact (k_Op key) b 20 (le_n _) eq_refl) as (Hok & Ht & Hl);
      destruct (take_token (k_Op key) b) as [r b']; simpl in *; [done|].
    exists b'. by rewrite lookup_insert_eq, Ht, Hl. }
  destruct (Allow now key l) as [r l']; simpl in Hfirst. destruct Hfirst as [-> Hh].
  rewrite (asks_holding now key _ Hrate n 19 l') by (done || lia). simpl. done.
Qed.

Definition search_key : Key := mkKey "acme" "" "" OpSearch.
Lemma burst_exact_witness : asks 22 5 search_key (NewLimiter DefaultLimits) = replicate 20 true ++ [false; false].
Proof. refine (burst_exact 5 search_key (NewLimiter DefaultLimits) 22 _ _ _); vm_compute; reflexivity. Defined.
