(* ===== verification/Changes.v ===== *)
(** * [internal/changes/changes.go]: the change feed and its webhooks

    Subscriptions and the log of delivery attempts are kept in memory (no durable
    store); the events are read from the ledger. [Courier] adds to that state the
    posts made so far. The HTTP client is outside: [Client] says what it answers to
    the [n]-th post. The service's lock is taken once per read and once per append. *)
From S2P Require Import Prelude GoStd Sha256 Ports Platform Json Mapping Ledger.

Definition SchemaVersion : string := "context-fabric.change/v1".
Definition ProfileVersion : string := "context-fabric.profile/v1".
Definition StatusPending : string := "pending".
Definition StatusDelivered : string := "delivered".
Definition StatusDuplicateIgnored : string := "duplicate_ignored".
Definition StatusDead : string := "dead".

Record Subscription := mkSubscription {
  sub_ID : string; sub_OrgID : string; sub_TargetURL : string; sub_Events : list string;
  sub_Secret : string; sub_Enabled : bool; sub_CreatedAt : Time;
}.
#[export] Instance Subscription_eta : Settable Subscription := fun r =>
  mkSubscription (sub_ID r) (sub_OrgID r) (sub_TargetURL r) (sub_Events r) (sub_Secret r)
    (sub_Enabled r) (sub_CreatedAt r).

Record DeliveryAttempt := mkDelivery {
  dl_DeliveryID : string; dl_SubscriptionID : string; dl_OrgID : string; dl_EventID : string;
  dl_Attempt : Z; dl_StatusCode : Z; dl_Success : bool; dl_Status : string; dl_Error : string;
  dl_PayloadSHA : string; dl_NextAttempt : option Time; dl_CreatedAt : Time;
}.
#[export] Instance DeliveryAttempt_eta : Settable DeliveryAttempt := fun r =>
  mkDelivery (dl_DeliveryID r) (dl_SubscriptionID r) (dl_OrgID r) (dl_EventID r) (dl_Attempt r)
    (dl_StatusCode r) (dl_Success r) (dl_Status r) (dl_Error r) (dl_PayloadSHA r)
    (dl_NextAttempt r) (dl_CreatedAt r).

Record PublicEvent := mkPublicEvent {
  pe_EventID : string; pe_OrganizationID : string; pe_Cursor : string; pe_OccurredAt : Time;
  pe_ChangeType : string; pe_ResourceID : string; pe_RevisionID : string;
  pe_LifecycleState : string; pe_SchemaVersion : string; pe_ProfileVersion : string;
}.

(** ** Public events *)
Definition lifecycleFor (changeType : string) : string :=
  if String.eqb changeType "resource.tombstoned" then "TOMBSTONED"
  else if String.eqb changeType "resource.purged" then "PURGED"
  else if String.eqb changeType "resource.indexed" then "INDEXED"
  else if String.eqb changeType "resource.reclassified" then "RECLASSIFIED"
  else if String.eqb changeType "resource.failed" then "FAILED"
  else "ACCEPTED".

Definition change_type (action : string) : string :=
  if is_empty action || String.eqb action "upsert" then "resource.accepted" else action.

Definition ToPublic (ev : ChangeEvent) : PublicEvent :=
  let changeType := change_type (chg_Action ev) in
  mkPublicEvent (chg_EventID ev) (chg_OrgID ev) (chg_Cursor ev) (chg_OccurredAt ev) changeType
    (chg_ResourceID ev) (chg_RevisionID ev) (lifecycleFor changeType) SchemaVersion ProfileVersion.

(** [json.Marshal(pub)] *)
Definition marshal_public (p : PublicEvent) : option string :=
  at_ ← json_time (pe_OccurredAt p);
  let str name v := json_member name (quote v) in
  Some (json_struct
    [str "event_id" (pe_EventID p); str "organization_id" (pe_OrganizationID p);
     str "cursor" (pe_Cursor p); json_member "occurred_at" at_;
     str "change_type" (pe_ChangeType p); str "resource_id" (pe_ResourceID p);
     str "revision_id" (pe_RevisionID p); str "lifecycle_state" (pe_LifecycleState p);
     str "schema_version" (pe_SchemaVersion p); str "profile_version" (pe_ProfileVersion p)]).

Definition eventMatches (filter : list string) (action : string) : bool :=
  match filter with
  | [] => true
  | _ => existsb (fun f => String.eqb f (change_type action) || String.eqb f action || String.eqb f "*") filter
  end.

Definition HasContentFields {V} (v : list (string * V)) : bool :=
  existsb (fun k => match assoc v k with Some _ => true | None => false end)
    ["content"; "vector"; "embedding"; "prompt"; "authorization_tuples"; "snippet"; "body"; "text"].

(** ** The feed *)

(** [List], over the ledger's feed *)
Definition List_ (orgID cursor : string) (limit : Z) : ledger (list PublicEvent * string) :=
  '(items, next) ← ListChanges orgID cursor limit;
  mret (ToPublic <$> items, next).

(** [newid] and [now] complete an event that lacks them. *)
Definition Append (now : Time) (newid : string) (ev : ChangeEvent) : ledger unit :=
  let id := or_default (chg_EventID ev) newid in
  AppendChange (mkChangeEvent id (chg_OrgID ev) (chg_ResourceID ev) (chg_RevisionID ev) (chg_Action ev)
                  (or_default (chg_Cursor ev) id) (or_now (chg_OccurredAt ev) now)).

(** ** The service's state *)

(** One HTTP POST: its target, its body and its two headers *)
Record Post := mkPost {
  post_URL : string; post_Body : string; post_Signature : string; post_EventID : string;
  post_Sub : string * string;
}.

Record Courier := mkCourier {
  subs : tenants Subscription;
  deliv : gmap string (list DeliveryAttempt);
  cr_posts : list Post;
  cr_clock : nat; cr_ids : nat;
}.
#[export] Instance Courier_eta : Settable Courier := fun r =>
  mkCourier (subs r) (deliv r) (cr_posts r) (cr_clock r) (cr_ids r).
Abbreviation courier := (M GoError Courier).

(** [secret] signs when a subscription has none; [MaxAttempts] is 8 by default. *)
Record FeedConfig := mkFeedConfig { fc_secret : string; fc_MaxAttempts : Z }.

(** The status code, or the error of the client *)
Class Client := { answer : nat -> result string Z }.

Definition max_attempts (cfg : FeedConfig) : Z := or_limit (fc_MaxAttempts cfg) 8.
Definition maxDeliveryLog : Z := 1000.

Definition SignHMAC (cfg : FeedConfig) (secret body : string) : string :=
  "sha256=" +:+ hex_encode (hmac_sha256 (or_default secret (fc_secret cfg)) body).

(** The log entries of one event for one subscription *)
Definition about (subscriptionID eventID : string) (d : DeliveryAttempt) : bool :=
  String.eqb (dl_SubscriptionID d) subscriptionID && String.eqb (dl_EventID d) eventID.

Definition hasSuccessfulDelivery (orgID subscriptionID eventID : string) (c : Courier) : bool :=
  existsb (fun d => about subscriptionID eventID d && dl_Success d) (entries_of (deliv c) orgID).

Definition failedAttemptCount (orgID subscriptionID eventID : string) (c : Courier) : Z :=
  foldl (fun n d =>
    if about subscriptionID eventID d && negb (dl_Success d)
       && negb (String.eqb (dl_Status d) StatusDuplicateIgnored)
    then if n <? dl_Attempt d then dl_Attempt d else n else n) 0 (entries_of (deliv c) orgID).

Definition nextAttemptAt (orgID subscriptionID eventID : string) (c : Courier) : option Time :=
  foldl (fun latest d =>
    if about subscriptionID eventID d then
      match dl_NextAttempt d, latest with
      | Some t, Some l => if after t l then Some t else Some l
      | Some t, None => Some t
      | None, _ => latest
      end
    else latest) None (entries_of (deliv c) orgID).

Definition trim_deliveries (l : list DeliveryAttempt) : list DeliveryAttempt :=
  if maxDeliveryLog <? zlen l then zdrop (zlen l - maxDeliveryLog) l else l.

Definition log_delivery (orgID : string) (d : DeliveryAttempt) (c : Courier) : Courier :=
  c <| deliv := <[orgID := trim_deliveries (entries_of (deliv c) orgID ++ [d])]> (deliv c) |>.

Definition payload_sha (payload : string) : string := "sha256:" +:+ hex_encode (sha256 payload).

Section Courier.
Context `{GoEnv, GoMapOrder, Client}.

Definition cr_now : courier Time := fun c => (Ok (clock (cr_clock c)), c <| cr_clock := S (cr_clock c) |>).
Definition cr_draw : courier string := fun c => (Ok (fresh_id (cr_ids c)), c <| cr_ids := S (cr_ids c) |>).

(** ** Subscriptions *)

(** [checked] is the answer of [ValidateWebhookTarget], which parses the URL and asks
    the resolver; [random] the secret that [generateSubscriptionSecret] draws. *)
Definition UpsertWebhook (checked : option string) (random : result string string)
    (orgID targetURL : string) (events : list string) (secret : string) : courier Subscription :=
  if is_empty orgID || is_empty targetURL
  then throw (ErrValidation "org and target_url required")
  else match checked with
  | Some msg => throw (ErrValidation msg)
  | None =>
      secret ← (if is_empty secret then
                  match random with
                  | Ok s => mret s
                  | Err _ => throw (ErrUnavailable "webhook secret generation failed")
                  end
                else mret secret);
      id ← cr_draw; t ← cr_now;
      let sub := mkSubscription id orgID targetURL events secret true t in
      _ ← modify (fun c => c <| subs := insert2 orgID id sub (subs c) |>);
      mret (sub <| sub_Secret := "" |>)
  end.

Definition public_view (sub : Subscription) : Subscription := sub <| sub_Secret := "" |>.
Definition ListWebhooks (orgID : string) : courier (list Subscription) :=
  gets (fun c => public_view <$> go_values (inner (subs c) orgID)).

Definition lookupSubscription (orgID subscriptionID : string) : courier Subscription := fun c =>
  match lookup2 (subs c) orgID subscriptionID with
  | Some sub => (Ok sub, c)
  | None => (Err (ErrNotFound "webhook subscription not found"), c)
  end.
Definition GetWebhook (orgID subscriptionID : string) : courier Subscription :=
  sub ← lookupSubscription orgID subscriptionID; mret (public_view sub).

Definition enabledSubs (orgID : string) : courier (list Subscription) :=
  gets (fun c => filter (fun s => sub_Enabled s = true) (go_values (inner (subs c) orgID))).

(** ** The delivery log *)
Definition RecordDelivery (cfg : FeedConfig) (orgID subscriptionID eventID : string)
    (attempt statusCode : Z) (success : bool) (errMsg payload : string) : courier DeliveryAttempt :=
  id ← cr_draw; created ← cr_now;
  let d := mkDelivery id subscriptionID orgID eventID attempt statusCode success
             (if success then StatusDelivered else StatusPending) errMsg (payload_sha payload) None created in
  d ← (if success then mret d
       else if max_attempts cfg <=? attempt then mret (d <| dl_Status := StatusDead |>)
       else
         n ← of_result (shl1 (Z.min attempt 6)); t ← cr_now;
         mret (d <| dl_NextAttempt := Some (add_time t (wrap64 (n * second))) |>));
  _ ← modify (log_delivery orgID d);
  mret d.

Definition RecordDuplicate (orgID subscriptionID eventID payload : string) : courier DeliveryAttempt :=
  id ← cr_draw; created ← cr_now;
  let d := mkDelivery id subscriptionID orgID eventID 0 0 true StatusDuplicateIgnored ""
             (payload_sha payload) None created in
  _ ← modify (log_delivery orgID d);
  mret d.

(** The newest entries first *)
Definition newest {A} (keep : A -> bool) (limit : Z) (l : list A) : list A :=
  take_matching keep (or_limit limit 50) (reverse l) [].
Definition ListDLQ (orgID : string) (limit : Z) : courier (list DeliveryAttempt) :=
  gets (fun c => newest (fun d => String.eqb (dl_Status d) StatusDead) limit (entries_of (deliv c) orgID)).
Definition ListDeliveries (orgID subscriptionID : string) (limit : Z) : courier (list DeliveryAttempt) :=
  gets (fun c => newest (fun d => is_empty subscriptionID || String.eqb (dl_SubscriptionID d) subscriptionID)
                   limit (entries_of (deliv c) orgID)).

(** ** Delivery *)
Definition post (p : Post) : courier (result string Z) := fun c =>
  (Ok (answer (length (cr_posts c))), c <| cr_posts := cr_posts c ++ [p] |>).

Definition marshal_error : GoError :=
  EPlain "json: error calling MarshalJSON for type time.Time: Time.MarshalJSON: year outside of range [0,9999]".
Definition public_body (ev : ChangeEvent) : result GoError string :=
  match marshal_public (ToPublic ev) with Some b => Ok b | None => Err marshal_error end.

(** The answer of the client, logged *)
Definition settle_post (cfg : FeedConfig) (sub : Subscription) (ev : ChangeEvent) (attempt : Z)
    (body : string) (r : result string Z) : courier unit :=
  match r with
  | Err msg =>
      _ ← RecordDelivery cfg (sub_OrgID sub) (sub_ID sub) (chg_EventID ev) attempt 0 false msg body;
      throw (EPlain msg)
  | Ok code =>
      let ok := (200 <=? code) && (code <? 300) in
      let errMsg := if ok then "" else "status " +:+ itoa code in
      _ ← RecordDelivery cfg (sub_OrgID sub) (sub_ID sub) (chg_EventID ev) attempt code ok errMsg body;
      if ok then mret tt else throw (EPlain ("webhook delivery failed: " +:+ errMsg))
  end.

(** The text of the backoff error, which nobody reads, leaves out the instant. *)
Definition pushOne (cfg : FeedConfig) (sub : Subscription) (ev : ChangeEvent) : courier unit :=
  done ← gets (hasSuccessfulDelivery (sub_OrgID sub) (sub_ID sub) (chg_EventID ev));
  if done : bool then
    _ ← RecordDuplicate (sub_OrgID sub) (sub_ID sub) (chg_EventID ev)
          (default "" (marshal_public (ToPublic ev)));
    mret tt
  else
    failed ← gets (failedAttemptCount (sub_OrgID sub) (sub_ID sub) (chg_EventID ev));
    let attempt := wrap64 (failed + 1) in
    next ← gets (nextAttemptAt (sub_OrgID sub) (sub_ID sub) (chg_EventID ev));
    _ ← (match next with
         | Some t => now ← cr_now; throw_if (after t now) (EPlain "webhook backoff")
         | None => mret tt
         end);
    _ ← throw_if (max_attempts cfg <? attempt)
          (EPlain ("webhook dead-lettered after " +:+ itoa (max_attempts cfg) +:+ " attempts"));
    body ← of_result (public_body ev);
    let sig := SignHMAC cfg (sub_Secret sub) body in
    r ← post (mkPost (sub_TargetURL sub) body sig (chg_EventID ev) (sub_OrgID sub, sub_ID sub));
    settle_post cfg sub ev attempt body r.

Definition EnqueueAndAttempt (cfg : FeedConfig) (subscriptionID : string) (ev : ChangeEvent) : courier unit :=
  sub ← lookupSubscription (chg_OrgID ev) subscriptionID;
  pushOne cfg sub ev.

(** One pair of the loops over events and subscriptions; [delivered] counts. *)
Definition deliver_one (cfg : FeedConfig) (limit : Z) (orgID : string) (ev : ChangeEvent)
    (delivered : Z) (sub : Subscription) : courier Z :=
  if limit <=? delivered then mret delivered
  else
    done ← gets (hasSuccessfulDelivery orgID (sub_ID sub) (chg_EventID ev));
    if done || negb (eventMatches (sub_Events sub) (chg_Action ev)) then mret delivered
    else
      r ← attempt (pushOne cfg sub ev);
      mret (match r with Ok _ => wrap64 (delivered + 1) | Err _ => delivered end).
Definition deliver_event (cfg : FeedConfig) (limit : Z) (orgID : string) (ss : list Subscription)
    (delivered : Z) (ev : ChangeEvent) : courier Z :=
  if limit <=? delivered then mret delivered
  else fold_m (deliver_one cfg limit orgID ev) delivered ss.

(** The pages of the feed, as long as the cursor moves *)
Fixpoint deliver_pages (fuel : nat) (cfg : FeedConfig) (s : Store) (limit : Z) (orgID : string)
    (ss : list Subscription) (cursor : string) (delivered : Z) : courier Z :=
  match fuel with
  | O => mret delivered
  | S fuel =>
      if limit <=? delivered then mret delivered
      else match (ListChanges orgID cursor 100 s).1 with
      | Err _ | Ok ([], _) => mret delivered
      | Ok (events, next) =>
          delivered ← fold_m (deliver_event cfg limit orgID ss) delivered events;
          if is_empty next || String.eqb next cursor then mret delivered
          else deliver_pages fuel cfg s limit orgID ss next delivered
      end
  end.

Definition deliver_org (fuel : nat) (cfg : FeedConfig) (s : Store) (limit : Z) (delivered : Z)
    (orgID : string) : courier Z :=
  if limit <=? delivered then mret delivered
  else
    ss ← enabledSubs orgID;
    match ss with
    | [] => mret delivered
    | _ => deliver_pages fuel cfg s limit orgID ss "" delivered
    end.

(** [fuel] bounds the pages read of one organization's feed. *)
Definition DeliverPending (fuel : nat) (cfg : FeedConfig) (s : Store) (limit : Z) : courier Z :=
  orgIDs ← gets (fun c => go_keys (subs c));
  fold_m (deliver_org fuel cfg s (or_limit limit 20)) 0 orgIDs.

Definition DeliverTestPing (cfg : FeedConfig) (orgID subscriptionID : string)
    : courier (DeliveryAttempt * result GoError unit) :=
  sub ← lookupSubscription orgID subscriptionID;
  id ← cr_draw; t ← cr_now;
  r ← attempt (pushOne cfg sub (mkChangeEvent id orgID "ping" "" "webhook.ping" "ping" t));
  attempts ← ListDeliveries orgID subscriptionID 1;
  match attempts with
  | d :: _ => mret (d, r)
  | [] => match r with
          | Ok _ => mret (mkDelivery "" "" "" "" 0 0 false "" "" "" None zero_time, r)
          | Err e => throw e
          end
  end.

(** [Replay] and [DeliverSigned] sign and log without a post. *)
Definition Replay (cfg : FeedConfig) (s : Store) (orgID subscriptionID eventID : string)
    : courier (DeliveryAttempt * string * PublicEvent) :=
  sub ← lookupSubscription orgID subscriptionID;
  '(items, _) ← of_result (ListChanges orgID "" 10000 s).1;
  match filter (fun ev => chg_EventID ev = eventID) items with
  | [] => throw (ErrNotFound "change event not found")
  | ev :: _ =>
      body ← of_result (public_body ev);
      let sig := SignHMAC cfg (sub_Secret sub) body in
      d ← RecordDelivery cfg orgID subscriptionID eventID 1 0 true "replayed" body;
      mret (d, sig, ToPublic ev)
  end.

Definition DeliverSigned (cfg : FeedConfig) (orgID subscriptionID : string) (ev : ChangeEvent)
    : courier (string * string * DeliveryAttempt) :=
  sub ← lookupSubscription orgID subscriptionID;
  body ← of_result (public_body ev);
  let sig := SignHMAC cfg (sub_Secret sub) body in
  done ← gets (hasSuccessfulDelivery orgID subscriptionID (chg_EventID ev));
  d ← (if done : bool then RecordDuplicate orgID subscriptionID (chg_EventID ev) body
       else RecordDelivery cfg orgID subscriptionID (chg_EventID ev) 1 200 true "" body);
  mret (body, sig, d).
End Courier.
