(* ===== verification/ChangesFacts.v ===== *)
(** * What the webhook deliveries guarantee

    The outcome of one push, the bound on the posts made for an event, and what
    the bounded log forgets. *)
From S2P Require Import Prelude GoStd Sha256 Ports Platform Json Mapping Ledger LedgerFacts LedgerQueries Changes.

Section Log.
Implicit Types (c : Courier) (d : DeliveryAttempt).

Lemma deliv_log orgID d c o :
  zlen (entries_of (deliv c) orgID) < maxDeliveryLog ->
  entries_of (deliv (log_delivery orgID d c)) o =
  if decide (o = orgID) then entries_of (deliv c) orgID ++ [d] else entries_of (deliv c) o.
Proof.
  intros Hlen. unfold log_delivery. simpl. unfold entries_of. rewrite lookup_insert.
  case_decide as Hd; [subst|by rewrite decide_False].
  rewrite decide_True by done. simpl. unfold trim_deliveries.
  rewrite (proj2 (Z.ltb_ge _ _)); [done|]. unfold zlen in *. rewrite length_app. unfold entries_of in Hlen. simpl. lia.
Qed.

Lemma deliv_log_length orgID d c o :
  zlen (entries_of (deliv (log_delivery orgID d c)) o) <= zlen (entries_of (deliv c) o) + 1.
Proof.
  unfold log_delivery. simpl. unfold entries_of. rewrite lookup_insert.
  case_decide as Hd; [subst; simpl | unfold zlen; lia].
  unfold trim_deliveries, zlen, zdrop. case_match; rewrite ?length_drop, ?length_app; simpl; lia.
Qed.

Definition logged_key (orgID subscriptionID eventID : string) (d : DeliveryAttempt) (o s e : string) : bool :=
  String.eqb o orgID && about s e d.

Lemma hasSuccessful_log orgID d c o s e :
  zlen (entries_of (deliv c) orgID) < maxDeliveryLog ->
  hasSuccessfulDelivery o s e (log_delivery orgID d c) =
  hasSuccessfulDelivery o s e c || String.eqb o orgID && (about s e d && dl_Success d).
Proof.
  intros Hlen. unfold hasSuccessfulDelivery. rewrite deliv_log by done.
  case_decide as Hd.
  - subst. rewrite existsb_app, String.eqb_refl. simpl. by rewrite orb_false_r.
  - apply String.eqb_neq in Hd. rewrite Hd. by rewrite orb_false_r.
Qed.

Lemma failedCount_log orgID d c o s e :
  zlen (entries_of (deliv c) orgID) < maxDeliveryLog ->
  failedAttemptCount o s e (log_delivery orgID d c) =
  if String.eqb o orgID && about s e d && negb (dl_Success d)
     && negb (String.eqb (dl_Status d) StatusDuplicateIgnored)
  then Z.max (failedAttemptCount o s e c) (dl_Attempt d) else failedAttemptCount o s e c.
Proof.
  intros Hlen. unfold failedAttemptCount. rewrite deliv_log by done.
  case_decide as Hd.
  - subst. rewrite foldl_app, String.eqb_refl. simpl. case_match; [|done].
    match goal with |- (if ?a <? ?b then _ else _) = _ => destruct (Z.ltb_spec a b) end; lia.
  - apply String.eqb_neq in Hd. by rewrite Hd.
Qed.
End Log.

Section Push.
Context `{GoEnv, Client} (cfg : FeedConfig).
Implicit Types (c : Courier) (sub : Subscription) (ev : ChangeEvent).

(** The parts of the state that only the delivery itself changes *)
Definition same_log c c' : Prop :=
  deliv c' = deliv c /\ cr_posts c' = cr_posts c /\ subs c' = subs c.

Lemma RecordDelivery_spec orgID s e attempt code ok msg payload c :
  0 <= attempt ->
  exists d c', RecordDelivery cfg orgID s e attempt code ok msg payload c = (Ok d, c') /\
    deliv c' = deliv (log_delivery orgID d c) /\ cr_posts c' = cr_posts c /\ subs c' = subs c /\
    dl_SubscriptionID d = s /\ dl_EventID d = e /\ dl_Attempt d = attempt /\ dl_Success d = ok /\
    dl_StatusCode d = code /\
    dl_Status d = (if ok then StatusDelivered else if max_attempts cfg <=? attempt then StatusDead
                   else StatusPending) /\
    dl_NextAttempt d = (if ok || (max_attempts cfg <=? attempt) then None else dl_NextAttempt d).
Proof.
  intros Ha. unfold RecordDelivery.
  rewrite (bind_run cr_draw _ _ _ _ eq_refl), (bind_run cr_now _ _ _ _ eq_refl).
  destruct ok; [|destruct (max_attempts cfg <=? attempt) eqn:Hm].
  - eexists _, _. split; [reflexivity|]. by split_and!.
  - eexists _, _. split; [reflexivity|]. by split_and!.
  - unfold shl1. rewrite (proj2 (Z.ltb_ge _ _)) by lia.
    eexists _, _. split; [reflexivity|]. by split_and!.
Qed.

Definition success (r : result string Z) : bool :=
  match r with Ok code => (200 <=? code) && (code <? 300) | Err _ => false end.

Lemma settle_post_spec sub ev attempt body r c :
  0 <= attempt ->
  exists res d c', settle_post cfg sub ev attempt body r c = (res, c') /\
    deliv c' = deliv (log_delivery (sub_OrgID sub) d c) /\ cr_posts c' = cr_posts c /\ subs c' = subs c /\
    about (sub_ID sub) (chg_EventID ev) d = true /\ dl_Attempt d = attempt /\ dl_Success d = success r /\
    dl_Status d = (if success r then StatusDelivered else if max_attempts cfg <=? attempt then StatusDead
                   else StatusPending) /\
    is_ok res = success r.
Proof.
  intros Ha. unfold settle_post, about. destruct r as [code|msg].
  - cbn [success]. set (ok := _ && _). set (errMsg := if ok then "" else _).
    destruct (RecordDelivery_spec (sub_OrgID sub) (sub_ID sub) (chg_EventID ev) attempt code ok errMsg body c Ha)
      as (d & c' & Hr & Hd & Hp & Hs & H1 & H2 & H3 & H4 & _ & H6 & _).
    rewrite (bind_run _ _ _ _ _ Hr). destruct ok.
    all: eexists _, d, c'; split; [reflexivity|]; rewrite H1, H2, !String.eqb_refl; by split_and!.
  - cbn [success].
    destruct (RecordDelivery_spec (sub_OrgID sub) (sub_ID sub) (chg_EventID ev) attempt 0 false msg body c Ha)
      as (d & c' & Hr & Hd & Hp & Hs & H1 & H2 & H3 & H4 & _ & H6 & _).
    rewrite (bind_run _ _ _ _ _ Hr).
    eexists _, d, c'; split; [reflexivity|]; rewrite H1, H2, !String.eqb_refl; by split_and!.
Qed.

(** Why a push makes no post *)
Definition held_back sub ev c : Prop :=
  (exists t, nextAttemptAt (sub_OrgID sub) (sub_ID sub) (chg_EventID ev) c = Some t /\
             after t (clock (cr_clock c)) = true) \/
  max_attempts cfg < failedAttemptCount (sub_OrgID sub) (sub_ID sub) (chg_EventID ev) c + 1 \/
  marshal_public (ToPublic ev) = None.

Definition the_post sub ev body : Post :=
  mkPost (sub_TargetURL sub) body (SignHMAC cfg (sub_Secret sub) body) (chg_EventID ev)
    (sub_OrgID sub, sub_ID sub).

Definition late_now (next : option Time) c : bool :=
  match next with Some t => after t (clock (cr_clock c)) | None => false end.

Lemma gate_run next c :
  exists c1, same_log c c1 /\
    (match next with
     | Some t => now ← cr_now; throw_if (after t now) (EPlain "webhook backoff")
     | None => mret tt
     end) c = (if late_now next c then Err (EPlain "webhook backoff") else Ok tt, c1).
Proof.
  destruct next as [t|]; [|by exists c]. exists (c <| cr_clock := S (cr_clock c) |>). split; [done|].
  rewrite (bind_run cr_now _ _ _ _ eq_refl). unfold throw_if, of_result, fail_if, late_now. by case_match.
Qed.

Definition push_outcome sub ev c (res : result GoError unit) c' : Prop :=
  let done := hasSuccessfulDelivery (sub_OrgID sub) (sub_ID sub) (chg_EventID ev) c in
  let failed := failedAttemptCount (sub_OrgID sub) (sub_ID sub) (chg_EventID ev) c in
  subs c' = subs c /\
  ((done = true /\ res = Ok tt /\ cr_posts c' = cr_posts c /\
    exists d, deliv c' = deliv (log_delivery (sub_OrgID sub) d c) /\ dl_Success d = true /\
              about (sub_ID sub) (chg_EventID ev) d = true) \/
   (done = false /\ held_back sub ev c /\ (exists e, res = Err e) /\ cr_posts c' = cr_posts c /\
    deliv c' = deliv c) \/
   (done = false /\ ~ held_back sub ev c /\
    exists body d, marshal_public (ToPublic ev) = Some body /\
      cr_posts c' = cr_posts c ++ [the_post sub ev body] /\
      deliv c' = deliv (log_delivery (sub_OrgID sub) d c) /\
      about (sub_ID sub) (chg_EventID ev) d = true /\ dl_Attempt d = failed + 1 /\
      let ok := success (answer (length (cr_posts c))) in
      dl_Success d = ok /\ is_ok res = ok /\
      dl_Status d = (if ok then StatusDelivered else if max_attempts cfg <=? failed + 1 then StatusDead
                     else StatusPending))).

Lemma pushOne_spec sub ev c :
  0 <= failedAttemptCount (sub_OrgID sub) (sub_ID sub) (chg_EventID ev) c < int_max ->
  push_outcome sub ev c (pushOne cfg sub ev c).1 (pushOne cfg sub ev c).2.
Proof.
  intros Hf. unfold push_outcome, pushOne. set (org := sub_OrgID sub) in *. set (id := sub_ID sub) in *.
  set (e := chg_EventID ev) in *.
  rewrite (bind_run (gets _) _ _ (hasSuccessfulDelivery org id e c) c) by done.
  destruct (hasSuccessfulDelivery org id e c).
  { split; [done|]. left. split_and!; [done..|]. eexists. split; [reflexivity|]. split; [done|].
    unfold about. simpl. by rewrite !String.eqb_refl. }
  set (failed := failedAttemptCount org id e c) in *.
  rewrite (bind_run (gets _) _ _ failed c) by done.
  rewrite (bind_run (gets _) _ _ (nextAttemptAt org id e c) c) by done.
  assert (Hw : wrap64 (failed + 1) = failed + 1) by (apply wrap64_id; unfold in_int, int_min; lia).
  rewrite Hw.
  destruct (gate_run (nextAttemptAt org id e c) c) as (c1 & (Hd1 & Hp1 & Hs1) & Hgate).
  unfold held_back. fold org id e failed.
  destruct (late_now _ c) eqn:Hlate.
  { rewrite (bind_fail _ _ _ _ _ Hgate). split; [done|]. right; left.
    split_and!; [done | | by eexists | done..]. left. unfold late_now in Hlate. case_match; [by eexists | done]. }
  rewrite (bind_run _ _ _ _ _ Hgate).
  unfold throw_if, fail_if. destruct (Z.ltb_spec (max_attempts cfg) (failed + 1)).
  { rewrite (bind_fail (of_result _) _ _ _ c1 eq_refl). split; [done|]. right; left.
    split_and!; [done | by right; left | by eexists | done..]. }
  rewrite (bind_run (of_result _) _ _ _ c1 eq_refl). unfold public_body.
  destruct (marshal_public (ToPublic ev)) as [body|] eqn:Hb.
  2: { rewrite (bind_fail (of_result _) _ _ _ c1 eq_refl). split; [done|]. right; left.
       split_and!; [done | by right; right | by eexists | done..]. }
  rewrite (bind_run (of_result _) _ _ _ c1 eq_refl).
  set (p := mkPost _ _ _ _ _). set (r := answer (length (cr_posts c1))).
  rewrite (bind_run (post p) _ _ r (c1 <| cr_posts := cr_posts c1 ++ [p] |>)) by done.
  destruct (settle_post_spec sub ev (failed + 1) body r (c1 <| cr_posts := cr_posts c1 ++ [p] |>))
    as (res & d & c' & -> & Hd & Hp & Hs & Hab & Hat & Hsu & Hst & Hok); [lia|].
  cbn [fst snd]. split; [by rewrite Hs|]. right; right. split; [done|]. split.
  { unfold late_now in Hlate. intros [(t & Ht & Hl)|[Hmax|?]]; [|lia | done]. rewrite Ht in Hlate. congruence. }
  exists body, d. rewrite Hp, Hd. simpl. rewrite Hp1. split_and!; try done.
  - unfold log_delivery. simpl. by rewrite Hd1.
  - by rewrite Hsu; unfold r; rewrite Hp1.
  - by rewrite Hok; unfold r; rewrite Hp1.
  - rewrite Hst. unfold r. by rewrite Hp1.
Qed.
End Push.

(** ** Sequences of pushes *)
Section Pushes.
Context `{GoEnv, Client} (cfg : FeedConfig).
Implicit Types (c : Courier).

Definition posts_for (o s e : string) (c : Courier) : Z :=
  zlen (filter (fun p => post_Sub p = (o, s) /\ post_EventID p = e) (cr_posts c)).

Definition pushes (l : list (Subscription * ChangeEvent)) (c : Courier) : Courier :=
  foldl (fun c p => (pushOne cfg p.1 p.2 c).2) c l.

(** The posts made for an event are those the log knows of: the failed attempts and
    the one that succeeded. *)
Definition counted (n : nat) (c : Courier) : Prop :=
  (forall o, zlen (entries_of (deliv c) o) <= Z.of_nat n) /\
  forall o s e,
    0 <= failedAttemptCount o s e c /\
    posts_for o s e c = failedAttemptCount o s e c + (if hasSuccessfulDelivery o s e c then 1 else 0) /\
    posts_for o s e c <= max_attempts cfg.

Lemma deliv_eq_success c c' : deliv c' = deliv c ->
  forall o s e, hasSuccessfulDelivery o s e c' = hasSuccessfulDelivery o s e c /\
                failedAttemptCount o s e c' = failedAttemptCount o s e c.
Proof. intros Hd o s e. unfold hasSuccessfulDelivery, failedAttemptCount. by rewrite Hd. Qed.

Lemma posts_for_app o s e c c' p : cr_posts c' = cr_posts c ++ [p] ->
  posts_for o s e c' = posts_for o s e c + (if decide (post_Sub p = (o, s) /\ post_EventID p = e) then 1 else 0).
Proof.
  intros Hp. unfold posts_for. rewrite Hp, filter_app. unfold zlen. rewrite length_app, filter_cons.
  case_decide; simpl; lia.
Qed.

Lemma about_key s e s' e' d : about s e d = true -> about s' e' d = true <-> s' = s /\ e' = e.
Proof.
  unfold about. intros Hd. bools. subst. rewrite andb_true_iff, !String.eqb_eq.
  split; intros [? ?]; split; congruence.
Qed.

Lemma max_attempts_range : fc_MaxAttempts cfg < int_max -> max_attempts cfg < int_max.
Proof. unfold max_attempts, or_limit. case_match; [unfold int_max; lia | done]. Qed.

Lemma counted_push n sub ev c :
  fc_MaxAttempts cfg < int_max -> (Z.of_nat n < maxDeliveryLog) -> counted n c ->
  counted (S n) (pushOne cfg sub ev c).2.
Proof.
  intros Hcfg Hn [Hlen Hc].
  assert (Hmax := max_attempts_range Hcfg).
  destruct (Hc (sub_OrgID sub) (sub_ID sub) (chg_EventID ev)) as (Hpos & Heq & Hle).
  assert (Hf : failedAttemptCount (sub_OrgID sub) (sub_ID sub) (chg_EventID ev) c < int_max) by (case_match; lia).
  destruct (pushOne_spec cfg sub ev c) as [_ Hout]; [lia|]. revert Hout.
  generalize (pushOne cfg sub ev c).1 (pushOne cfg sub ev c).2. intros res c' Hout.
  assert (Hroom : forall o, zlen (entries_of (deliv c) o) < maxDeliveryLog).
  { intros o. specialize (Hlen o). lia. }
  destruct Hout as [(Hdone & _ & Hp & d & Hd & Hs & Hab)|[(_ & _ & _ & Hp & Hd)|
    (Hdone & Hfree & body & d & Hb & Hp & Hd & Hab & Hat & Hs & _ & Hst)]].
  - split.
    { intros o. rewrite Hd. pose proof (deliv_log_length (sub_OrgID sub) d c o). specialize (Hlen o). lia. }
    intros o s e. destruct (Hc o s e) as (H1 & H2 & H3).
    destruct (deliv_eq_success _ _ Hd o s e) as [-> ->].
    rewrite hasSuccessful_log, failedCount_log by done. unfold posts_for in *. rewrite Hp.
    rewrite Hs. cbn [negb]. rewrite andb_false_r. cbn [andb].
    split; [done|]. split; [|done].
    destruct (String.eqb_spec o (sub_OrgID sub)) as [->|]; [|by rewrite orb_false_r].
    destruct (about s e d) eqn:Ha; [|by rewrite orb_false_r].
    apply (about_key _ _ _ _ _ Hab) in Ha as [-> ->]. rewrite Hdone in H2 |- *. done.
  - split; [intros o; rewrite Hd; specialize (Hlen o); lia|].
    intros o s e. destruct (deliv_eq_success _ _ Hd o s e) as [-> ->]. unfold posts_for. rewrite Hp. apply Hc.
  - split.
    { intros o. rewrite Hd. pose proof (deliv_log_length (sub_OrgID sub) d c o). specialize (Hlen o). lia. }
    intros o s e. destruct (Hc o s e) as (H1 & H2 & H3).
    destruct (deliv_eq_success _ _ Hd o s e) as [-> ->].
    rewrite hasSuccessful_log, failedCount_log by done.
    rewrite (posts_for_app _ _ _ _ _ _ Hp). simpl.
    assert (Hfew : failedAttemptCount (sub_OrgID sub) (sub_ID sub) (chg_EventID ev) c + 1 <= max_attempts cfg).
    { destruct (Z.le_gt_cases (failedAttemptCount (sub_OrgID sub) (sub_ID sub) (chg_EventID ev) c + 1) (max_attempts cfg));
        [done|]. destruct Hfree. right; left. lia. }
    case_decide as Hkey.
    + destruct Hkey as [[= <- <-] <-]. rewrite Hab, String.eqb_refl, Hdone in *. cbn [andb orb].
      rewrite Hs. destruct (success _) eqn:Hok; cbn [negb andb]; [lia|]. rewrite Hst.
      assert (Hdup : String.eqb (if max_attempts cfg <=? failedAttemptCount (sub_OrgID sub) (sub_ID sub) (chg_EventID ev) c + 1
        then StatusDead else StatusPending) StatusDuplicateIgnored = false) by (by case_match).
      rewrite Hdup. cbn [negb]. rewrite Hat. lia.
    + assert (Hno : String.eqb o (sub_OrgID sub) && about s e d = false).
      { apply not_true_is_false. intros [Ho Ha]%andb_prop. apply Hkey.
        apply String.eqb_eq in Ho. apply (about_key _ _ _ _ _ Hab) in Ha as [-> ->]. by subst. }
      rewrite andb_assoc, Hno. cbn [andb]. rewrite orb_false_r. lia.
Qed.

(** Bounded retries: starting with an empty log, however the client answers and
    whenever the pushes are tried, at most [MaxAttempts] posts (8 by default) are made
    for an event and a subscription, and none after one was answered with a 2xx, as
    long as the log, which keeps 1000 entries, has not been cut. *)
Theorem webhook_attempts_bounded l c o s e :
  fc_MaxAttempts cfg < int_max -> zlen l <= maxDeliveryLog -> deliv c = ∅ -> cr_posts c = [] ->
  posts_for o s e (pushes l c) <= max_attempts cfg /\
  (forall sub ev, hasSuccessfulDelivery (sub_OrgID sub) (sub_ID sub) (chg_EventID ev) (pushes l c) = true ->
     cr_posts (pushOne cfg sub ev (pushes l c)).2 = cr_posts (pushes l c)).
Proof.
  intros Hcfg Hl Hd Hp.
  assert (Hstart : counted 0 c).
  { split; [intros o'; by rewrite Hd|]. intros o' s' e'.
    unfold failedAttemptCount, hasSuccessfulDelivery, posts_for. rewrite Hd, Hp.
    unfold entries_of. rewrite lookup_empty. simpl. unfold max_attempts.
    pose proof (or_limit_pos (fc_MaxAttempts cfg) 8). unfold zlen. simpl. lia. }
  assert (Hall : forall n c, counted n c -> Z.of_nat n + zlen l <= maxDeliveryLog ->
    counted (n + length l) (pushes l c)).
  { clear - Hcfg. induction l as [|[sub ev] l IH]; intros n c Hc Hl; simpl.
    - by rewrite Nat.add_0_r.
    - unfold zlen in *. simpl in *. rewrite <- Nat.add_succ_comm. apply IH; [|lia].
      apply counted_push; [done | lia | done]. }
  apply (Hall 0%nat) in Hstart; [|lia]. destruct Hstart as [Hlen Hcount]. split; [apply Hcount|].
  intros sub ev Hdone. destruct (Hcount (sub_OrgID sub) (sub_ID sub) (chg_EventID ev)) as (H1 & H2 & H3).
  rewrite Hdone in H2. pose proof (max_attempts_range Hcfg).
  destruct (pushOne_spec cfg sub ev (pushes l c)) as [_ [(_ & _ & ? & _)|[(? & _)|(? & _)]]]; [lia | done | congruence..].
Qed.
End Pushes.

Section Contract.
Context `{GoEnv, Client} (cfg : FeedConfig).
Implicit Types (c : Courier) (sub : Subscription) (ev : ChangeEvent).

(** C38 A push makes at most one post, and only for an event that was not delivered
    to the subscription, whose backoff is over and whose attempts are not used up; the
    post carries the public form of the event alone, signed with the subscription's
    secret. While the log has room, the event then counts as delivered exactly when
    the answer was a 2xx, and as failed once more otherwise. *)
Theorem webhook_push_contract sub ev c :
  let org := sub_OrgID sub in let id := sub_ID sub in let e := chg_EventID ev in
  let failed := failedAttemptCount org id e c in
  let run := pushOne cfg sub ev c in
  0 <= failed < int_max -> zlen (entries_of (deliv c) org) < maxDeliveryLog ->
  (cr_posts run.2 = cr_posts c /\
   hasSuccessfulDelivery org id e run.2 = hasSuccessfulDelivery org id e c /\
   failedAttemptCount org id e run.2 = failed) \/
  exists body, marshal_public (ToPublic ev) = Some body /\
    cr_posts run.2 = cr_posts c ++ [the_post cfg sub ev body] /\
    hasSuccessfulDelivery org id e c = false /\ failed < max_attempts cfg /\
    (forall t, nextAttemptAt org id e c = Some t -> t <= clock (cr_clock c)) /\
    let ok := success (answer (length (cr_posts c))) in
    is_ok run.1 = ok /\ hasSuccessfulDelivery org id e run.2 = ok /\
    failedAttemptCount org id e run.2 = if ok then failed else failed + 1.
Proof.
  cbv zeta. intros Hf Hroom.
  destruct (pushOne_spec cfg sub ev c Hf) as [_ Hout]. revert Hout.
  generalize (pushOne cfg sub ev c). intros [res c']. cbn [fst snd].
  intros [(Hdone & _ & Hp & d & Hd & Hs & Hab)|[(_ & _ & _ & Hp & Hd)|
    (Hdone & Hfree & body & d & Hb & Hp & Hd & Hab & Hat & Hs & Hok & Hst)]].
  - left. destruct (deliv_eq_success _ _ Hd (sub_OrgID sub) (sub_ID sub) (chg_EventID ev)) as [-> ->].
    rewrite hasSuccessful_log, failedCount_log, Hs, Hab, String.eqb_refl, Hdone by done. by split_and!.
  - left. by destruct (deliv_eq_success _ _ Hd (sub_OrgID sub) (sub_ID sub) (chg_EventID ev)) as [-> ->].
  - right. exists body. destruct (deliv_eq_success _ _ Hd (sub_OrgID sub) (sub_ID sub) (chg_EventID ev)) as [-> ->].
    rewrite hasSuccessful_log, failedCount_log, Hab, Hs, String.eqb_refl, Hdone by done.
    split_and!; try done.
    + destruct (Z.lt_ge_cases (failedAttemptCount (sub_OrgID sub) (sub_ID sub) (chg_EventID ev) c) (max_attempts cfg));
        [done|]. destruct Hfree. right; left. lia.
    + intros t Ht. apply Z.nlt_ge. intros Hlt. apply Hfree. left. exists t. split; [done|]. by apply Z.ltb_lt.
    + destruct (success _) eqn:Hsucc; [done|]. rewrite Hst. cbn [negb andb].
      assert (Hdup : forall b : bool, String.eqb (if b then StatusDead else StatusPending) StatusDuplicateIgnored = false)
        by (by intros []).
      rewrite Hdup. cbn [negb]. lia.
Qed.

(** The log keeps the last 1000 entries of an organization: once the entry of a
    delivered event is pushed out by others, the event is posted again. *)
Theorem full_log_redelivers sub ev c d rest d' body :
  entries_of (deliv c) (sub_OrgID sub) = d :: rest -> zlen rest = 999 ->
  Forall (fun x => about (sub_ID sub) (chg_EventID ev) x = false) (rest ++ [d']) ->
  marshal_public (ToPublic ev) = Some body ->
  cr_posts (pushOne cfg sub ev (log_delivery (sub_OrgID sub) d' c)).2 =
  cr_posts c ++ [the_post cfg sub ev body].
Proof.
  intros Hlog Hlen Hother Hb. set (c1 := log_delivery _ _ _).
  assert (Hlog1 : entries_of (deliv c1) (sub_OrgID sub) = rest ++ [d']).
  { unfold c1, log_delivery. simpl. unfold entries_of. rewrite lookup_insert_eq. simpl.
    fold (entries_of (deliv c) (sub_OrgID sub)). rewrite Hlog. unfold trim_deliveries.
    rewrite (proj2 (Z.ltb_lt _ _)).
    - unfold zlen, zdrop in *. simpl. rewrite length_app. simpl.
      replace (Z.to_nat _) with 1%nat by (unfold maxDeliveryLog; lia). done.
    - unfold zlen, maxDeliveryLog in *. simpl. rewrite length_app. simpl. lia. }
  assert (Hnone : hasSuccessfulDelivery (sub_OrgID sub) (sub_ID sub) (chg_EventID ev) c1 = false /\
    failedAttemptCount (sub_OrgID sub) (sub_ID sub) (chg_EventID ev) c1 = 0 /\
    nextAttemptAt (sub_OrgID sub) (sub_ID sub) (chg_EventID ev) c1 = None).
  { unfold hasSuccessfulDelivery, failedAttemptCount, nextAttemptAt. rewrite Hlog1.
    clear Hlog1. induction Hother as [|x l Hx _ IH]; [done|]. simpl. rewrite !Hx. exact IH. }
  destruct Hnone as (Hs & Hf & Hn).
  destruct (pushOne_spec cfg sub ev c1) as [_ [(? & _)|[(_ & Hheld & _)|(_ & _ & b & x & Hb' & Hp & _)]]].
  - rewrite Hf. unfold int_max. lia.
  - congruence.
  - destruct Hheld as [(t & Ht & _)|[Hmax|?]]; [congruence | | congruence].
    rewrite Hf in Hmax. pose proof (or_limit_pos (fc_MaxAttempts cfg) 8). unfold max_attempts in Hmax. lia.
  - rewrite Hp. change (cr_posts c1) with (cr_posts c). congruence.
Qed.
End Contract.

(** ** Concrete deliveries *)
Definition sample_sub : Subscription := mkSubscription "s1" "acme" "https://hooks.example" [] "k" true 1.
Definition sample_change : ChangeEvent :=
  mkChangeEvent "e1" "acme" "doc" "rv1" "resource.purged" "c1" (1700000000 * second).
Definition sample_cfg : FeedConfig := mkFeedConfig "" 0.
Definition empty_courier : Courier := mkCourier ∅ ∅ [] 0 0.
Definition failing_client : Client := {| answer := fun _ => Ok 500 |}.
Definition hours_env : GoEnv :=
  {| clock := fun n => Z.of_nat n * 3600 * second; fresh_id := fun n => "d" +:+ itoa (Z.of_nat n);
     uuid_sha1_oid := fun s => s |}.

(** Twelve tries an hour apart against a server that answers 500 make eight posts. *)
Definition twelve_tries : Courier :=
  @pushes hours_env failing_client sample_cfg (replicate 12 (sample_sub, sample_change)) empty_courier.
Example eight_posts : posts_for "acme" "s1" "e1" twelve_tries = 8.
Proof. vm_compute. reflexivity. Qed.

Lemma webhook_attempts_bounded_witness : posts_for "acme" "s1" "e1" twelve_tries <= max_attempts sample_cfg.
Proof.
  apply (@webhook_attempts_bounded hours_env failing_client sample_cfg
    (replicate 12 (sample_sub, sample_change)) empty_courier "acme" "s1" "e1");
    [reflexivity | discriminate | reflexivity | reflexivity].
Defined.

Lemma webhook_push_contract_witness :
  let run := @pushOne hours_env failing_client sample_cfg sample_sub sample_change empty_courier in
  cr_posts run.2 = [] \/ failedAttemptCount "acme" "s1" "e1" run.2 = 1.
Proof.
  destruct (@webhook_push_contract hours_env failing_client sample_cfg sample_sub sample_change empty_courier)
    as [[Hp _]|(body & _ & _ & _ & _ & _ & _ & _ & Hf)].
  - by split.
  - reflexivity.
  - left. exact Hp.
  - right. exact Hf.
Defined.

Definition old_delivery (e : string) : DeliveryAttempt :=
  mkDelivery "d" "s1" "acme" e 1 200 true StatusDelivered "" "" None 1.
Definition full_log : Courier :=
  empty_courier <| deliv := {["acme" := old_delivery "e1" :: replicate 999 (old_delivery "e2")]} |>.
Definition sample_body : string := default "" (marshal_public (ToPublic sample_change)).

Lemma full_log_redelivers_witness :
  cr_posts (@pushOne hours_env failing_client sample_cfg sample_sub sample_change
              (log_delivery "acme" (old_delivery "e2") full_log)).2 =
  [] ++ [the_post sample_cfg sample_sub sample_change sample_body].
Proof.
  apply (@full_log_redelivers hours_env failing_client sample_cfg sample_sub sample_change full_log
    (old_delivery "e1") (replicate 999 (old_delivery "e2"))).
  - reflexivity.
  - reflexivity.
  - apply Forall_app. split; [by apply Forall_replicate | by repeat constructor].
  - vm_compute. reflexivity.
Defined.
