(* ===== verification/FeedFacts.v ===== *)
(** * The pass over the change feed

    [DeliverPending] pages through each organization's feed. The pages are not
    observable: the pass ends, and does what one walk over the whole feed does. *)
From S2P Require Import Prelude GoStd Ports Platform Ledger LedgerFacts LedgerQueries Changes ChangesFacts.

Section Walk.
Context {E S A B : Type}.
Implicit Types (f : B -> A -> M E S B) (s : S).



End Walk.



Section Feed.
Context `{GoEnv, GoMapOrder, Client}.
Implicit Types (cfg : FeedConfig) (s : Store) (c : Courier) (orgID : string).









End Feed.


