(* ===== verification/Webhook.v ===== *)
(** * [internal/changes/webhook_validate.go]: where a webhook may point

    The scheme and host of a target and the addresses it resolves to. Parsing the URL and
    resolving its host are arguments; an [net.IP] is a list of bytes, 4 or 16 of them, and
    [nil] is the empty one. *)
From S2P Require Import Prelude GoStd Ports Platform Config.

(** ** [net.IP] *)
Definition IP : Type := list Z.
Definition all_zero (l : list Z) : bool := forallb (Z.eqb 0) l.
Definition is16 (ip : IP) : bool := (length ip =? 16)%nat.
Definition mapped (ip : IP) : option (Z * Z * Z * Z) :=
  if is16 ip && all_zero (take 10 ip) then
    match drop 10 ip with
    | [x; y; a; b; c; d] => if (x =? 255) && (y =? 255) then Some (a, b, c, d) else None
    | _ => None
    end
  else None.
Definition To4 (ip : IP) : option (Z * Z * Z * Z) :=
  match ip with [a; b; c; d] => Some (a, b, c, d) | _ => mapped ip end.
Definition octet (ip : IP) (i : nat) : Z := nth i ip 0.
Definition IPv6loopback : IP := repeat 0 15 ++ [1].

Definition IsLoopback (ip : IP) : bool :=
  match To4 ip with Some (a, _, _, _) => a =? 127 | None => bool_decide (ip = IPv6loopback) end.
Definition IsPrivate (ip : IP) : bool :=
  match To4 ip with
  | Some (a, b, _, _) =>
      (a =? 10) || (a =? 172) && (Z.land b 240 =? 16) || (a =? 192) && (b =? 168)
  | None => is16 ip && (Z.land (octet ip 0) 254 =? 252)
  end.
Definition IsLinkLocalUnicast (ip : IP) : bool :=
  match To4 ip with
  | Some (a, b, _, _) => (a =? 169) && (b =? 254)
  | None => is16 ip && (octet ip 0 =? 254) && (Z.land (octet ip 1) 192 =? 128)
  end.
Definition IsLinkLocalMulticast (ip : IP) : bool :=
  match To4 ip with
  | Some (a, b, c, _) => (a =? 224) && (b =? 0) && (c =? 0)
  | None => is16 ip && (octet ip 0 =? 255) && (Z.land (octet ip 1) 15 =? 2)
  end.
Definition IsUnspecified (ip : IP) : bool :=
  match To4 ip with
  | Some (a, b, c, d) => all_zero [a; b; c; d]
  | None => is16 ip && all_zero ip
  end.

(** [IP.String]: dotted, or groups of hexadecimal digits with the first longest run of two
    or more zero groups left out *)
Definition low_digit (z : Z) : string := str1 (hex_digit (Z.to_nat z)).
Definition hex_group (z : Z) : string :=
  let ds := [z / 4096; z / 256 mod 16; z / 16 mod 16; z mod 16] in
  let fix skip (l : list Z) :=
    match l with 0 :: ((_ :: _) as l') => skip l' | _ => l end in
  String.concat "" (low_digit <$> skip ds).
Fixpoint groups (ip : list Z) : list Z :=
  match ip with a :: b :: ip => a * 256 + b :: groups ip | _ => [] end.
Fixpoint zero_run (l : list Z) : nat := match l with 0 :: l => S (zero_run l) | _ => O end.
Fixpoint longest_run (i : nat) (l : list Z) (best : nat * nat) : nat * nat :=
  match l with
  | [] => best
  | _ :: l' =>
      let n := zero_run l in
      longest_run (S i) l' (if (2 <=? n)%nat && (best.2 <? n)%nat then (i, n) else best)
  end.
Definition hex_groups (l : list Z) : string := join (hex_group <$> l) ":".
Definition ip_string (ip : IP) : string :=
  match To4 ip with
  | Some (a, b, c, d) => join (itoa <$> [a; b; c; d]) "."
  | None =>
      if is16 ip then
        let g := groups ip in
        match longest_run 0 g (0, 0)%nat with
        | (_, O) => hex_groups g
        | (i, n) => hex_groups (take i g) +:+ "::" +:+ hex_groups (drop (i + n) g)
        end
      else match ip with
           | [] => "<nil>"
           | _ => "?" +:+ String.concat "" ((fun z => low_digit (z / 16) +:+ low_digit (z mod 16)) <$> ip)
           end
  end.

Example ip_string_ex :
  ip_string [169; 254; 169; 254] = "169.254.169.254" /\
  ip_string (repeat 0 10 ++ [255; 255; 10; 0; 0; 1]) = "10.0.0.1" /\
  ip_string IPv6loopback = "::1" /\ ip_string (repeat 0 16) = "::" /\
  ip_string [32; 1; 13; 184; 0; 0; 0; 0; 0; 1; 0; 0; 0; 0; 0; 1] = "2001:db8::1:0:0:1" /\
  ip_string [254; 128; 0; 0; 0; 0; 0; 0; 0; 1; 0; 2; 0; 3; 10; 188] = "fe80::1:2:3:abc".
Proof. vm_compute. repeat split; reflexivity. Qed.

(** ** The target *)
Definition isBlockedHost (host : string) : bool :=
  let h := to_lower (trim_space host) in
  String.eqb h "localhost" || has_suffix h ".localhost"
  || String.eqb h "metadata.google.internal" || has_suffix h ".internal".
Definition isBlockedIP (ip : IP) : bool :=
  match ip with
  | [] => true
  | _ =>
      IsLoopback ip || IsLinkLocalUnicast ip || IsLinkLocalMulticast ip || IsPrivate ip
      || IsUnspecified ip
      || match To4 ip with Some (a, b, _, _) => (a =? 169) && (b =? 254) | None => false end
  end.

(** What [ValidateWebhookTarget] asks of a parsed URL; [url_Hostname] is [Hostname()]. *)
Record URL := mkURL { url_Scheme : string; url_Host : string; url_Hostname : string }.

Section Validate.
Variables (environ : strmap) (url_parse : string -> result GoError URL)
          (lookup_ip : string -> result GoError (list IP)).

Definition webhook_profile : string :=
  let profile := to_lower (trim_space (os_getenv environ "CONTEXT_FABRIC_PROFILE")) in
  if is_empty profile then to_lower (trim_space (os_getenv environ "PROFILE")) else profile.
Definition allowHTTP : bool := String.eqb webhook_profile "demo" || String.eqb webhook_profile "memory".

Definition check_scheme (scheme : string) : result GoError unit :=
  if String.eqb scheme "https" then Ok tt
  else if String.eqb scheme "http"
  then fail_if (negb allowHTTP) (EPlain "webhook target must use https outside demo")
  else Err (EPlain ("webhook scheme " +:+ sprint_q scheme +:+ " not allowed")).
Definition check_addresses (ips : list IP) : result GoError unit :=
  match List.find isBlockedIP ips with
  | Some ip => Err (EPlain ("webhook target resolves to blocked address " +:+ ip_string ip))
  | None => Ok tt
  end.
Definition ValidateWebhookTarget (targetURL : string) : result GoError unit :=
  let targetURL := trim_space targetURL in
  if is_empty targetURL then Err (EPlain "target_url required")
  else match url_parse targetURL with
  | Err err => Err (EWrap "invalid target_url" err)
  | Ok u =>
      _ ← fail_if (is_empty (url_Scheme u) || is_empty (url_Host u))
            (EPlain "target_url must include scheme and host");
      _ ← check_scheme (to_lower (url_Scheme u));
      let host := url_Hostname u in
      _ ← fail_if (is_empty host) (EPlain "webhook host required");
      _ ← fail_if (isBlockedHost host) (EPlain ("webhook target host " +:+ sprint_q host +:+ " is not allowed"));
      match lookup_ip host with
      | Err err => Err (EWrap "webhook target DNS lookup failed" err)
      | Ok ips => check_addresses ips
      end
  end.

(** The answer as [UpsertWebhook] takes it: the message of a refusal *)
Definition webhook_answer (targetURL : string) : option string :=
  match ValidateWebhookTarget targetURL with Ok _ => None | Err e => Some (error_string e) end.
End Validate.
