(* ===== verification/WebhookFacts.v ===== *)
(** * Where a webhook may point: the addresses as blocks *)
From Stdlib Require Import Btauto.
From S2P Require Import Prelude GoStd Ports Platform Ledger Changes Config Webhook.

(** ** Addresses as numbers *)
Definition byte_list (l : list Z) : Prop := Forall (fun b => 0 <= b < 256) l.
Definition well_formed_ip (ip : IP) : Prop := byte_list ip /\ (length ip = 4 \/ length ip = 16)%nat.
Definition number (l : list Z) : Z := foldl (fun n b => n * 256 + b) 0 l.

Lemma foldl_number n l : foldl (fun n b => n * 256 + b) n l = n * 256 ^ zlen l + number l.
Proof.
  unfold number. revert n. induction l as [|b l IH]; intros n; [unfold zlen; simpl; lia|]. cbn [foldl].
  rewrite IH, (IH (0 * 256 + b)). unfold zlen. cbn [length]. rewrite Nat2Z.inj_succ, Z.pow_succ_r by lia. lia.
Qed.
Lemma number_app l r : number (l ++ r) = number l * 256 ^ zlen r + number r.
Proof. unfold number at 1. rewrite foldl_app. apply foldl_number. Qed.
Lemma number_range l : byte_list l -> 0 <= number l < 256 ^ zlen l.
Proof.
  induction 1 as [|b l Hb Hl IH]; [by vm_compute|]. rewrite (number_app [b] l : number (b :: l) = _).
  unfold number at 1 3. unfold zlen in *. cbn [foldl length]. rewrite Nat2Z.inj_succ, Z.pow_succ_r by lia. nia.
Qed.
(** The leading bytes of a number *)
Lemma number_prefix l r : byte_list r -> number (l ++ r) / 256 ^ zlen r = number l.
Proof.
  intros Hr. pose proof (number_range r Hr) as Hn. rewrite number_app.
  rewrite Z.div_add_l by lia. rewrite Z.div_small by lia. lia.
Qed.
Lemma number_inj l k : byte_list l -> byte_list k -> length l = length k -> number l = number k -> l = k.
Proof.
  intros Hl. revert k. induction Hl as [|b l Hb Hl IH]; intros [|c k] Hk Hlen Hn; try done.
  apply Forall_cons in Hk as [Hc Hk]. injection Hlen as Hlen.
  rewrite (number_app [b] l : number (b :: l) = _), (number_app [c] k : number (c :: k) = _) in Hn.
  unfold zlen in Hn. rewrite <-Hlen in Hn. pose proof (number_range l Hl) as H1.
  pose proof (number_range k Hk) as H2. unfold zlen in H1, H2. rewrite <-Hlen in H2.
  unfold number at 1 3 in Hn. cbn [foldl] in Hn.
  assert (b = c) as -> by nia. f_equal. apply IH; [done|done|]. lia.
Qed.

(** An address is of 32 bits, also the mapped one, or of 128. *)
Definition address (ip : IP) : Z * Z :=
  match To4 ip with Some (a, b, c, d) => (32, number [a; b; c; d]) | None => (128, number ip) end.
(** [in_block width n (base, len)]: the first [len] bits of [n] are those of [base]. *)
Definition in_block (width n : Z) (block : Z * Z) : bool :=
  n / 2 ^ (width - block.2) =? block.1 / 2 ^ (width - block.2).
Definition v4 (a b c d : Z) : Z := number [a; b; c; d].
Definition v6 (x y : Z) : Z := number ([x; y] ++ repeat 0 14).
Definition blocks (width : Z) : list (Z * Z) :=
  if width =? 32 then
    [(v4 0 0 0 0, 32); (v4 10 0 0 0, 8); (v4 127 0 0 0, 8); (v4 169 254 0 0, 16); (v4 172 16 0 0, 12);
     (v4 192 168 0 0, 16); (v4 224 0 0 0, 24)]
  else
    [(0, 128); (1, 128); (v6 252 0, 7); (v6 254 128, 10)]
    ++ ((fun flags => (v6 255 (flags * 16 + 2), 16)) <$> seqZ 0 16).
Definition blocked_address (ip : IP) : Prop :=
  let '(width, n) := address ip in existsb (in_block width n) (blocks width) = true.

(** A fact about bytes is checked for each of them. *)
Lemma byte_check (P : Z -> bool) b :
  forallb P (seqZ 0 256) = true -> 0 <= b < 256 -> P b = true.
Proof. intros H Hb. rewrite forallb_forall in H. apply H, list_elem_of_In, elem_of_seqZ. lia. Qed.

Lemma land_240 b : 0 <= b < 256 -> (Z.land b 240 =? 16) = (b / 16 =? 1).
Proof.
  intros Hb. apply Bool.eqb_prop.
  exact (byte_check (fun b => Bool.eqb (Z.land b 240 =? 16) (b / 16 =? 1)) b eq_refl Hb).
Qed.
Lemma land_254 b : 0 <= b < 256 -> (Z.land b 254 =? 252) = (b / 2 =? 126).
Proof.
  intros Hb. apply Bool.eqb_prop.
  exact (byte_check (fun b => Bool.eqb (Z.land b 254 =? 252) (b / 2 =? 126)) b eq_refl Hb).
Qed.
Lemma land_192 b : 0 <= b < 256 -> (Z.land b 192 =? 128) = (b / 64 =? 2).
Proof.
  intros Hb. apply Bool.eqb_prop.
  exact (byte_check (fun b => Bool.eqb (Z.land b 192 =? 128) (b / 64 =? 2)) b eq_refl Hb).
Qed.
Lemma land_15 b : 0 <= b < 256 -> (Z.land b 15 =? 2) = existsb (fun f => b =? f * 16 + 2) (seqZ 0 16).
Proof.
  intros Hb. apply Bool.eqb_prop.
  exact (byte_check (fun b => Bool.eqb (Z.land b 15 =? 2) (existsb (fun f => b =? f * 16 + 2) (seqZ 0 16)))
           b eq_refl Hb).
Qed.

(** Two numbers in base [k] *)
Lemma eqb_pair k x y x' y' n :
  0 <= y < k -> 0 <= y' < k -> n = x' * k + y' -> (x * k + y =? n) = (x =? x') && (y =? y').
Proof.
  intros Hy Hy' ->. apply eq_true_iff_eq. rewrite andb_true_iff, !Z.eqb_eq. split; [|by intros [-> ->]].
  intros He. assert (x = x') as -> by nia. lia.
Qed.
Lemma iff_eq_true (b c : bool) : b = c -> b = true <-> c = true.
Proof. by intros ->. Qed.

Ltac bytes_ok := repeat (apply Forall_cons_2; [assumption|]); apply Forall_nil_2.
Lemma v4_prefixes a b c d :
  byte_list [a; b; c; d] ->
  v4 a b c d / 2 ^ 24 = a /\ v4 a b c d / 2 ^ 16 = a * 256 + b /\ v4 a b c d / 2 ^ 8 = (a * 256 + b) * 256 + c
  /\ v4 a b c d / 2 ^ 20 = a * 16 + b / 16.
Proof.
  intros H. repeat (apply Forall_cons in H as [? H]).
  assert (Hn : forall l r, byte_list r -> number (l ++ r) / 256 ^ zlen r = number l) by apply number_prefix.
  assert (H16 : v4 a b c d / 2 ^ 16 = a * 256 + b).
  { change (v4 a b c d / 256 ^ zlen [c; d] = number [a; b]). apply (Hn [a; b] [c; d]). bytes_ok. }
  split_and!; [| exact H16 | |].
  - change (v4 a b c d / 256 ^ zlen [b; c; d] = number [a]). apply (Hn [a]). bytes_ok.
  - change (v4 a b c d / 256 ^ zlen [d] = number [a; b; c]). apply (Hn [a; b; c]). bytes_ok.
  - change (2 ^ 20) with (2 ^ 16 * 2 ^ 4). rewrite <-Z.div_div by lia. rewrite H16.
    replace (a * 256 + b) with (b + (a * 16) * 16) by lia. change (2 ^ 4) with 16.
    rewrite Z.div_add by lia. lia.
Qed.

Lemma blocked4 a b c d :
  byte_list [a; b; c; d] -> isBlockedIP [a; b; c; d] = true <-> blocked_address [a; b; c; d].
Proof.
  intros Hb. pose proof (v4_prefixes a b c d Hb) as (H24 & H16 & H8 & H20).
  assert (H0 : v4 a b c d / 2 ^ 0 = ((a * 256 + b) * 256 + c) * 256 + d).
  { change (2 ^ 0) with 1. rewrite Z.div_1_r. reflexivity. }
  repeat (apply Forall_cons in Hb as [? Hb]).
  unfold blocked_address, address. cbn [To4]. change (number [a; b; c; d]) with (v4 a b c d).
  unfold blocks. cbn [Z.eqb Pos.eqb existsb]. unfold in_block. cbn [fst snd].
  repeat match goal with
         | |- context [32 - ?k] => let x := eval vm_compute in (32 - k) in change (32 - k) with x
         | |- context [v4 ?x ?y ?z ?w / 2 ^ ?k] =>
             lazymatch x with a => fail | _ => idtac end;
             let q := eval vm_compute in (v4 x y z w / 2 ^ k) in change (v4 x y z w / 2 ^ k) with q
         end.
  rewrite H0, H8, H16, H24, H20.
  unfold isBlockedIP, IsLoopback, IsLinkLocalUnicast, IsLinkLocalMulticast, IsPrivate, IsUnspecified.
  cbn [To4 all_zero forallb]. rewrite land_240 by done.
  assert (Hq : 0 <= b / 16 < 16) by (split; [apply Z.div_pos | apply Z.div_lt_upper_bound]; lia).
  revert Hq. generalize (b / 16). intros q Hq. apply iff_eq_true.
  rewrite (eqb_pair 256 a b 169 254 43518), (eqb_pair 256 a b 192 168 49320), (eqb_pair 16 a q 172 1 2753),
    (eqb_pair 256 (a * 256 + b) c (224 * 256 + 0) 0 14680064), (eqb_pair 256 a b 224 0 (224 * 256 + 0)),
    (eqb_pair 256 ((a * 256 + b) * 256 + c) d 0 0 0), (eqb_pair 256 (a * 256 + b) c 0 0 0),
    (eqb_pair 256 a b 0 0 0) by lia.
  rewrite !(Z.eqb_sym 0). btauto.
Qed.

(** An IPv4 address in 16 bytes is treated as one in 4. *)
Lemma mapped_bytes ip a b c d : byte_list ip -> mapped ip = Some (a, b, c, d) -> byte_list [a; b; c; d].
Proof.
  intros Hb. unfold mapped. destruct (is16 ip && _); [|discriminate].
  assert (Hr : byte_list (drop 10 ip)) by (by apply Forall_drop).
  destruct (drop 10 ip) as [|x [|y [|a' [|b' [|c' [|d' [|]]]]]]]; try discriminate.
  destruct (_ && _); [|discriminate]. intros [= -> -> -> ->].
  by apply Forall_cons in Hr as [_ [_ Hr]%Forall_cons].
Qed.
Lemma To4_bytes ip a b c d : byte_list ip -> To4 ip = Some (a, b, c, d) -> byte_list [a; b; c; d].
Proof.
  intros Hb. destruct ip as [|x [|y [|z [|w [|]]]]]; try (by apply mapped_bytes).
  by intros [= -> -> -> ->].
Qed.
Lemma blocked_mapped ip a b c d :
  byte_list ip -> To4 ip = Some (a, b, c, d) -> isBlockedIP ip = true <-> blocked_address ip.
Proof.
  intros Hb Ht. pose proof (blocked4 a b c d (To4_bytes _ _ _ _ _ Hb Ht)) as H4.
  assert (Hi : isBlockedIP ip = isBlockedIP [a; b; c; d]).
  { destruct ip as [|x ip]; [discriminate|].
    unfold isBlockedIP, IsLoopback, IsLinkLocalUnicast, IsLinkLocalMulticast, IsPrivate, IsUnspecified.
    by rewrite Ht. }
  unfold blocked_address, address in *. rewrite Ht, Hi. exact H4.
Qed.

Lemma all_zero_repeat l : all_zero l = true -> l = repeat 0 (length l).
Proof. induction l as [|b l IH]; [done|]. intros [H0%Z.eqb_eq H]%andb_true_iff. simpl. by rewrite <-IH, <-H0. Qed.

Lemma number16 x y r :
  byte_list (x :: y :: r) -> length r = 14%nat ->
  let n := number (x :: y :: r) in
  n / 2 ^ 112 = x * 256 + y /\ n / 2 ^ 121 = x / 2 /\ n / 2 ^ 118 = x * 4 + y / 64.
Proof.
  intros [Hx [Hy Hr]%Forall_cons]%Forall_cons Hl. cbv zeta.
  assert (H112 : number (x :: y :: r) / 2 ^ 112 = x * 256 + y).
  { pose proof (number_prefix [x; y] r Hr) as Hp. unfold zlen in Hp. rewrite Hl in Hp.
    change (256 ^ Z.of_nat 14) with (2 ^ 112) in Hp. exact Hp. }
  split; [exact H112|].
  change (2 ^ 121) with (2 ^ 112 * (256 * 2)). change (2 ^ 118) with (2 ^ 112 * 64).
  rewrite <-!Z.div_div by lia. rewrite H112. rewrite Z.div_add_l, (Z.div_small y) by lia. split; [f_equal; lia|].
  replace (x * 256 + y) with (y + x * 4 * 64) by lia. rewrite Z.div_add by lia. lia.
Qed.

Lemma number_const (ip k : IP) :
  byte_list ip -> byte_list k -> length ip = length k -> (number ip =? number k) = bool_decide (ip = k).
Proof.
  intros Hi Hk Hl. apply eq_true_iff_eq. rewrite Z.eqb_eq, bool_decide_eq_true.
  split; [by apply number_inj | by intros ->].
Qed.
Lemma zeros_ok n : byte_list (repeat 0 n).
Proof. induction n; constructor; [lia | done]. Qed.

Lemma zeros_one n : byte_list (repeat 0 n ++ [1]).
Proof. apply Forall_app. split; [apply zeros_ok | apply Forall_singleton; lia]. Qed.
Lemma all_zero_bool (ip : IP) : length ip = 16%nat -> all_zero ip = bool_decide (ip = repeat 0 16).
Proof.
  intros Hl. apply eq_true_iff_eq. rewrite bool_decide_eq_true. split; [|by intros ->].
  intros Hz%all_zero_repeat. by rewrite Hl in Hz.
Qed.
Lemma blocked16 ip :
  byte_list ip -> length ip = 16%nat -> To4 ip = None -> isBlockedIP ip = true <-> blocked_address ip.
Proof.
  intros Hb Hl Ht. unfold blocked_address, address. rewrite Ht.
  pose proof (number_const ip (repeat 0 16) Hb (zeros_ok 16) Hl) as H0.
  pose proof (number_const ip IPv6loopback Hb (zeros_one 15) Hl) as H1.
  change (number (repeat 0 16)) with 0 in H0. change (number IPv6loopback) with 1 in H1.
  pose proof (all_zero_bool ip Hl) as Hz. apply iff_eq_true.
  assert (H16 : is16 ip = true) by (unfold is16; by rewrite Hl).
  destruct ip as [|x [|y ip]]; try discriminate Hl. injection Hl as Hl.
  destruct (number16 x y ip Hb Hl) as (H112 & H121 & H118).
  apply Forall_cons in Hb as [Hx [Hy Hb]%Forall_cons].
  change (blocks 128) with
    ([(0, 128); (1, 128); (v6 252 0, 7); (v6 254 128, 10)]
     ++ ((fun flags => (v6 255 (flags * 16 + 2), 16)) <$> seqZ 0 16)).
  rewrite existsb_app. cbn [existsb]. unfold in_block. cbn [fst snd].
  change (128 - 128) with 0. change (128 - 7) with 121. change (128 - 10) with 118.
  change (2 ^ 0) with 1. rewrite !Z.div_1_r, H0, H1, H121, H118.
  change (v6 252 0 / 2 ^ 121) with 126. change (v6 254 128 / 2 ^ 118) with (254 * 4 + 2).
  assert (Hm : existsb (fun f => number (x :: y :: ip) / 2 ^ (128 - f.2) =? f.1 / 2 ^ (128 - f.2))
                 ((fun flags => (v6 255 (flags * 16 + 2), 16)) <$> seqZ 0 16)
               = (x =? 255) && (Z.land y 15 =? 2)).
  { rewrite land_15 by done.
    assert (Hf : forall l, Forall (fun f => 0 <= f < 16) l ->
              existsb (fun f => number (x :: y :: ip) / 2 ^ (128 - f.2) =? f.1 / 2 ^ (128 - f.2))
                ((fun flags => (v6 255 (flags * 16 + 2), 16)) <$> l)
              = (x =? 255) && existsb (fun f => y =? f * 16 + 2) l).
    { induction 1 as [|f l Hf _ IH]; [by rewrite andb_false_r|]. cbn [fmap list_fmap existsb fst snd] in *.
      rewrite IH. change (128 - 16) with 112. rewrite H112.
      replace (v6 255 (f * 16 + 2) / 2 ^ 112) with (255 * 256 + (f * 16 + 2))
        by (symmetry; apply (number_prefix [255; f * 16 + 2] (repeat 0 14) (zeros_ok 14))).
      rewrite (eqb_pair 256 x y 255 (f * 16 + 2)) by lia. btauto. }
    apply Hf. apply Forall_forall. intros f. rewrite elem_of_seqZ. lia. }
  rewrite Hm. unfold isBlockedIP, IsLoopback, IsLinkLocalUnicast, IsLinkLocalMulticast, IsPrivate, IsUnspecified.
  rewrite Ht, H16, Hz. unfold octet. cbn [nth]. rewrite land_254, land_192 by done.
  assert (Hq : 0 <= y / 64 < 4) by (split; [apply Z.div_pos | apply Z.div_lt_upper_bound]; lia).
  rewrite (eqb_pair 4 x (y / 64) 254 2) by lia.
  btauto.
Qed.

Lemma blocked_iff ip : well_formed_ip ip -> isBlockedIP ip = true <-> blocked_address ip.
Proof.
  intros [Hb Hl]. destruct (To4 ip) as [[[[a b] c] d]|] eqn:Ht; [by eapply blocked_mapped|].
  destruct Hl as [Hl|Hl]; [|by apply blocked16].
  destruct ip as [|a [|b [|c [|d [|]]]]]; discriminate.
Qed.

(** ** Accepted targets *)
Section Targets.
Context `{GoEnv, GoMapOrder, Client}.
Variables (environ : strmap) (url_parse : string -> result GoError URL)
          (lookup_ip : string -> result GoError (list IP)).

(** The environment says demo or memory, by the newer variable unless it is empty. *)
Definition declares_demo : Prop :=
  let newer := to_lower (trim_space (os_getenv environ "CONTEXT_FABRIC_PROFILE")) in
  let older := to_lower (trim_space (os_getenv environ "PROFILE")) in
  newer ∈ ["demo"; "memory"] \/ newer = "" /\ older ∈ ["demo"; "memory"].

Lemma allowHTTP_declares : allowHTTP environ = true <-> declares_demo.
Proof.
  unfold allowHTTP, webhook_profile, declares_demo. cbv zeta.
  rewrite orb_true_iff, !String.eqb_eq, !elem_of_cons, !elem_of_nil.
  set (newer := to_lower _). unfold is_empty. destruct (String.eqb_spec newer "") as [->|Hn]; [|tauto].
  split; [tauto|]. intros [[?|[?|[]]]|?]; [discriminate..|tauto].
Qed.

Definition public_target (target : string) : Prop :=
  exists u ips, url_parse (trim_space target) = Ok u /\ url_Host u <> "" /\
    (to_lower (url_Scheme u) = "https" \/
     to_lower (url_Scheme u) = "http" /\ declares_demo) /\
    url_Hostname u <> "" /\ isBlockedHost (url_Hostname u) = false /\
    lookup_ip (url_Hostname u) = Ok ips /\
    Forall (fun ip => well_formed_ip ip -> ~ blocked_address ip) ips.

Lemma check_addresses_Ok ips :
  check_addresses ips = Ok tt -> Forall (fun ip => well_formed_ip ip -> ~ blocked_address ip) ips.
Proof.
  unfold check_addresses. destruct (List.find _ _) eqn:Hf; [discriminate|]. intros _.
  apply Forall_forall. intros ip Hip Hw Hbl. eapply List.find_none in Hf; [|by apply list_elem_of_In].
  apply blocked_iff in Hbl; [congruence | done].
Qed.

Lemma ValidateWebhookTarget_Ok target :
  ValidateWebhookTarget environ url_parse lookup_ip target = Ok tt -> public_target target.
Proof.
  unfold ValidateWebhookTarget. cbv zeta. destruct (is_empty (trim_space target)); [discriminate|].
  destruct (url_parse _) as [u|] eqn:Hu; [|discriminate]. intros Hv.
  apply result_bind_Ok in Hv as (u1 & [_ Hh]%fail_if_Ok%orb_false_iff & Hv).
  apply result_bind_Ok in Hv as (u2 & Hs & Hv).
  apply result_bind_Ok in Hv as (u3 & Hn%fail_if_Ok & Hv).
  apply result_bind_Ok in Hv as (u4 & Hbl%fail_if_Ok & Hv).
  destruct (lookup_ip _) as [ips|] eqn:Hl; [|discriminate]. apply check_addresses_Ok in Hv.
  exists u, ips. split_and!; try done; try (by apply String.eqb_neq).
  unfold check_scheme in Hs. destruct (String.eqb _ "https") eqn:E1; [left; by apply String.eqb_eq|].
  destruct (String.eqb _ "http") eqn:E2; [|discriminate]. apply String.eqb_eq in E2.
  apply fail_if_Ok, negb_false_iff, allowHTTP_declares in Hs. by right.
Qed.

(** C37 A webhook points outwards: whatever the URL parser and the resolver answer, a
    subscription is created only for a target with a scheme and a host, over [https] (or
    [http] where the process environment's CONTEXT_FABRIC_PROFILE, or PROFILE if that is
    empty, says demo or memory; the configuration reads the two in the other order,
    [webhook_profile_differs]), whose host is no local or internal name, and none of whose
    addresses lies in a block of loopback, private, link-local, link-local multicast or
    unspecified addresses, IPv4-mapped ones included. The subscription stored, under the next
    identifier drawn, is for that very target and what is shown of it lacks only the secret;
    every other subscription and the deliveries stay, and a refusal changes nothing. *)
Theorem webhook_targets_public random orgID target events secret c :
  match UpsertWebhook (webhook_answer environ url_parse lookup_ip target) random orgID target events secret c with
  | (Ok sub, c') => public_target target /\
      exists row, subs c' = insert2 orgID (fresh_id (cr_ids c)) row (subs c) /\
        sub_TargetURL row = target /\ sub_OrgID row = orgID /\ sub_ID row = fresh_id (cr_ids c) /\
        sub_Enabled row = true /\ sub = row <| sub_Secret := "" |> /\
        deliv c' = deliv c /\ cr_posts c' = cr_posts c
  | (Err _, c') => c' = c
  end.
Proof.
  unfold UpsertWebhook. destruct (_ || _); [done|].
  unfold webhook_answer. destruct (ValidateWebhookTarget _ _ _ _) as [[]|e] eqn:Hv; [|done].
  apply ValidateWebhookTarget_Ok in Hv.
  destruct (is_empty secret); [destruct random as [s|e]|]; try done.
  all: (split; [exact Hv|]; eexists; split; [reflexivity|]; by split_and!).
Qed.
End Targets.

(** ** Examples, and what is not blocked *)
#[local] Existing Instance order_forward.
Definition demo_parse (s : string) : result GoError URL :=
  if has_prefix s "https://" then Ok (mkURL "https" (drop_str 8 s) (drop_str 8 s))
  else if has_prefix s "http://" then Ok (mkURL "http" (drop_str 7 s) (drop_str 7 s))
  else Err (EPlain "parse").
Definition demo_lookup (host : string) : result GoError (list IP) :=
  if String.eqb host "hooks.example" then Ok [[203; 0; 113; 7]]
  else if String.eqb host "rebound.example" then Ok [[203; 0; 113; 7]; [169; 254; 169; 254]]
  else if String.eqb host "nat64.example" then Ok [[0; 100; 255; 155] ++ repeat 0 8 ++ [169; 254; 169; 254]]
  else Err (EPlain "no such host").
Example webhook_ex :
  let check env := ValidateWebhookTarget env demo_parse demo_lookup in
  check ∅ " https://hooks.example" = Ok tt /\
  check ∅ "http://hooks.example" = Err (EPlain "webhook target must use https outside demo") /\
  check {["PROFILE" := "Demo"]} "http://hooks.example" = Ok tt /\
  check ∅ "https://rebound.example"
    = Err (EPlain "webhook target resolves to blocked address 169.254.169.254") /\
  check ∅ "https://db.internal" = Err (EPlain ("webhook target host " +:+ sprint_q "db.internal" +:+ " is not allowed")).
Proof. vm_compute. repeat split; reflexivity. Qed.

(** The metadata service behind a NAT64 prefix passes. *)
Lemma nat64_metadata_passes : ValidateWebhookTarget ∅ demo_parse demo_lookup "https://nat64.example" = Ok tt.
Proof. vm_compute. reflexivity. Qed.

(** The profile is looked for in the other order than by the configuration: a production
    process whose older variable still says demo takes plain [http] targets. *)
Lemma webhook_profile_differs :
  let environ : strmap := <["CONTEXT_FABRIC_PROFILE" := "demo"]> {["PROFILE" := "starter"]} in
  profile_env environ = "starter" /\ allowHTTP environ = true.
Proof. vm_compute. split; reflexivity. Qed.
