(* ===== verification/World.v ===== *)
(** * The in-memory deployment

    [cmd/context-fabric/main.go] wires the services to the memory ledger,
    evidence store and index, the in-process authorization store and the memory
    audit log. A [World] holds the state of all of them, and counts the readings
    of the clock and the identifiers drawn. A service is a program in the monad
    [service]; an optional collaborator that is [nil] is [None]. The synchronizer that
    the services share ([internal/authzsync]) comes first. *)
From S2P Require Import Prelude GoStd Ports Platform Ledger Index OpenFGA AuditLog.

(** ** [internal/authzsync/synchronizer.go]: inheritance tuples of parent edges

    A parent edge that asks for authorization inheritance is mirrored by a tuple
    operation in the ledger's queue, written in the caller's transaction. *)
Definition OperationWrite : string := "write".
Definition OperationDelete : string := "delete".

Definition NeedsSynchronization (edge : GraphEdge) : bool :=
  edge_SyncAuthz edge && String.eqb (edge_Predicate edge) EdgeParent.
Definition ResourceObject (resourceID : string) : string := "resource:" +:+ resourceID.

Definition parent_op (id : string) (edge : GraphEdge) (operation : string) (now : Time)
    : AuthzTupleOp :=
  let operation := if negb (String.eqb operation OperationDelete) then OperationWrite
                   else operation in
  mkTupleOp id (edge_OrgID edge) operation (ResourceObject (edge_FromID edge)) EdgeParent
    (ResourceObject (edge_ToID edge)) (edge_EdgeID edge) "pending" 0 "" None now now now None.

(** [id] is the identifier drawn for the operation, [t] the reading of the clock
    in [EnqueueAuthzTuple]. *)
Definition EnqueueForEdge `{GoMapOrder} (t : Time) (id : string) (edge : GraphEdge)
    (operation : string) (now : Time) : ledger unit :=
  if negb (NeedsSynchronization edge) then mret tt
  else EnqueueAuthzTuple t id (parent_op id edge operation now).

(** ** The state *)

(** [ports.EventMessage], as [NoopBus] keeps it *)
Record EventMessage := mkMessage {
  msg_Subject : string; msg_Data : string; msg_Headers : strmap; msg_MsgID : string;
  msg_Timestamp : Time;
}.

Record World := mkWorld {
  w_ledger : Store; w_evidence : option EvidenceStore; w_index : option Index;
  w_authz : Memory; w_audit : list AuditEvent; w_bus : list EventMessage;
  w_clock : nat; w_ids : nat;
}.
#[export] Instance World_eta : Settable World := fun r =>
  mkWorld (w_ledger r) (w_evidence r) (w_index r) (w_authz r) (w_audit r) (w_bus r)
    (w_clock r) (w_ids r).

Abbreviation service := (M GoError World).

Section Calls.
Context `{GoEnv}.

(** [time.Now()] and [platform.NewEventID()] *)
Definition tick : service Time := fun w => (Ok (clock (w_clock w)), w <| w_clock := S (w_clock w) |>).
Definition draw : service string := fun w => (Ok (fresh_id (w_ids w)), w <| w_ids := S (w_ids w) |>).

Definition on_ledger {A} (m : ledger A) : service A :=
  fun w => let '(r, s) := m (w_ledger w) in (r, w <| w_ledger := s |>).
(** A ledger method that reads the clock itself *)
Definition timed {A} (m : Time -> ledger A) : service A := t ← tick; on_ledger (m t).

Definition on_index {A} (m : Index -> A * Index) : service A :=
  fun w =>
    match w_index w with
    | Some i => let '(r, i) := m i in (Ok r, w <| w_index := Some i |>)
    | None => (Err (EPanic "nil pointer dereference"), w)
    end.
Definition on_authz (f : Memory -> Memory) : service unit := modify (fun w => w <| w_authz := f (w_authz w) |>).

Definition on_audit {A} (m : M GoError (list AuditEvent) A) : service A :=
  fun w => let '(r, l) := m (w_audit w) in (r, w <| w_audit := l |>).
(** A call of the evidence store or of the index; the caller has tested it for [nil]. *)
Definition on_evidence {A} (m : M GoError EvidenceStore A) : service A :=
  fun w =>
    match w_evidence w with
    | Some e => let '(r, e) := m e in (r, w <| w_evidence := Some e |>)
    | None => (Err (EPanic "nil pointer dereference"), w)
    end.

Definition append_event (event : AuditEvent) : service unit :=
  t ← tick; id ← draw; on_audit (MemoryAppend t id event).
End Calls.

(** ** What a service does to the ledger

    [effect m s Q]: started in any world whose ledger is [s], [m] ends with a
    result and a ledger that satisfy [Q]. The clock and the identifiers are
    arbitrary, so a rule for a call quantifies over what they answer. *)
Definition effect {A} (m : service A) (s : Store) (Q : result GoError A -> Store -> Prop) : Prop :=
  forall w, w_ledger w = s -> Q (m w).1 (w_ledger (m w).2).

Lemma effect_mono {A} (m : service A) s (Q Q' : result GoError A -> Store -> Prop) :
  effect m s Q -> (forall r s', Q r s' -> Q' r s') -> effect m s Q'.
Proof. intros Hm HQ w Hw. by apply HQ, Hm. Qed.

Lemma effect_ret {A} (a : A) s Q : Q (Ok a) s -> effect (mret a) s Q.
Proof. intros HQ w <-. exact HQ. Qed.
Lemma effect_throw {A} e s (Q : result GoError A -> Store -> Prop) :
  Q (Err e) s -> effect (throw e) s Q.
Proof. intros HQ w <-. exact HQ. Qed.
Lemma effect_of_result {A} (r : result GoError A) s Q : Q r s -> effect (of_result r) s Q.
Proof. intros HQ w <-. exact HQ. Qed.
Lemma effect_tick `{GoEnv} s Q : (forall t, Q (Ok t) s) -> effect tick s Q.
Proof. intros HQ w <-. apply HQ. Qed.
Lemma effect_draw `{GoEnv} s Q : (forall id, Q (Ok id) s) -> effect draw s Q.
Proof. intros HQ w <-. apply HQ. Qed.

Lemma effect_on_ledger {A} (m : ledger A) s Q : Q (m s).1 (m s).2 -> effect (on_ledger m) s Q.
Proof. intros HQ w <-. unfold on_ledger. by destruct (m (w_ledger w)). Qed.

Lemma effect_bind {A B} (m : service A) (f : A -> service B) s Q :
  effect m s (fun r s' => match r with
                          | Ok a => effect (f a) s' Q
                          | Err e => Q (Err e) s'
                          end) -> effect (m ≫= f) s Q.
Proof.
  intros Hm w Hw. specialize (Hm w Hw). unfold mbind, M_bind.
  destruct (m w) as [[a|e] w']; simpl in *; [by apply Hm | done].
Qed.

Lemma effect_attempt {A} (m : service A) s Q :
  effect m s (fun r s' => Q (Ok r) s') -> effect (attempt m) s Q.
Proof. intros Hm w Hw. specialize (Hm w Hw). unfold attempt. by destruct (m w). Qed.

Lemma effect_timed `{GoEnv} {A} (m : Time -> ledger A) s Q :
  (forall t, Q (m t s).1 (m t s).2) -> effect (timed m) s Q.
Proof. intros HQ. apply effect_bind, effect_tick. intros t. apply effect_on_ledger, HQ. Qed.

Lemma effect_elsewhere {A} (m : service A) s Q :
  (forall w, w_ledger (m w).2 = w_ledger w) -> (forall r, Q r s) -> effect m s Q.
Proof. intros Hm HQ w <-. rewrite Hm. apply HQ. Qed.
