(* ===== verification/Ingest.v ===== *)
(** * [internal/ingest/ingest.go]: the intake pipeline

    [Intake] admits an event of a registered source (signature, replay window),
    answers a repeated idempotency key from the ledger, quarantines the body as
    evidence, maps it, and commits record, revision, edges, outbox entry and key
    in one organization transaction. It runs on the in-memory [World]. *)
From S2P Require Import Prelude GoStd Sha256 Ports Platform Json Mapping.
From S2P Require Import Ledger Index World.

Definition DefaultReplay : Z := 300.
Definition OutboxSubject : string := "context.work.v1".

(** [iq_Payload] is [None] for a nil map; a non-nil one is a decoded JSON object. *)
Record Request := mkRequest {
  iq_OrgID : string; iq_SourceID : string; iq_Body : string; iq_Signature : string;
  iq_Timestamp : string; iq_IdempotencyKey : string; iq_Mapping : Spec;
  iq_Payload : option (list (string * any)); iq_Event : IntakeEvent;
  iq_DryRun : bool; iq_SkipHMAC : bool;
}.
#[export] Instance Request_eta : Settable Request := fun r =>
  mkRequest (iq_OrgID r) (iq_SourceID r) (iq_Body r) (iq_Signature r) (iq_Timestamp r)
    (iq_IdempotencyKey r) (iq_Mapping r) (iq_Payload r) (iq_Event r) (iq_DryRun r) (iq_SkipHMAC r).

Record Result := mkResult {
  res_EventID : string; res_OrganizationID : string; res_ResourceID : string;
  res_RevisionID : string; res_Status : string; res_Duplicate : bool;
  res_IdempotentReplay : bool; res_EvidenceRef : string; res_ContentHash : string;
  res_EdgeCount : Z;
}.

(** ** Signature and replay window *)
Definition SignHMAC (secret body : string) : string := hex_encode (hmac_sha256 secret body).

Definition VerifyHMAC (secret body signature : string) : result GoError unit :=
  let sig := trim_space signature in
  let sig := trim_prefix sig "sha256=" in
  let sig := trim_prefix sig "v1=" in
  _ ← fail_if (is_empty sig) (ErrUnauthorized "missing signature");
  fail_if (negb (String.eqb (to_lower sig) (to_lower (SignHMAC secret body))))
    (ErrUnauthorized "invalid HMAC signature").

(** Unix seconds, Unix milliseconds or RFC 3339 *)
Definition parse_timestamp (ts : string) : option Time :=
  match parse_int ts with
  | (n, None) => Some (if 1000000000000 <? n then time_unix_milli n else time_unix n)
  | (_, Some _) => parse_rfc3339 ts
  end.

(** [now.Sub(t)] saturates and the negation of the least [Duration] is itself. *)
Definition CheckReplayWindow (ts : string) (now : Time) (window : Z) : result GoError unit :=
  if is_empty (trim_space ts) then Err (ErrUnauthorized "missing timestamp")
  else
    match parse_timestamp ts with
    | None => Err (ErrUnauthorized "invalid timestamp")
    | Some t =>
        let delta := sub_time now t in
        let delta := if delta <? 0 then wrap64 (- delta) else delta in
        fail_if (window <? delta) (ErrUnauthorized "timestamp outside replay window")
    end.

(** [read] is what [io.ReadAll] returns. *)
Definition HashBody (read : result GoError string) : result GoError (string * string) :=
  b ← read; Ok ("sha256:" +:+ hex_encode (sha256 b), b).

(** ** The request's body *)

(** [json.Marshal] of the event; a year that has not four digits is an error,
    which leaves the body empty. *)
Definition marshal_event (ev : IntakeEvent) : string :=
  let '(year, _, _) := civil_of_days (ev_ReceivedAt ev / second / 86400) in
  if (year <? 0) || (9999 <? year) then ""
  else
    let field name v := quote name +:+ ":" +:+ v in
    let str name v := [field name (quote v)] in
    "{" +:+ join
      (str "event_id" (ev_EventID ev) ++ str "org_id" (ev_OrgID ev)
       ++ str "source_system" (ev_SourceSystem ev) ++ str "external_id" (ev_ExternalID ev)
       ++ str "source_revision" (ev_SourceRevision ev)
       ++ str "idempotency_key" (ev_IdempotencyKey ev) ++ str "content_type" (ev_ContentType ev)
       ++ str "content_hash" (ev_ContentHash ev)
       ++ (if is_empty (ev_EvidenceRef ev) then [] else str "evidence_ref" (ev_EvidenceRef ev))
       ++ (match map_to_list (ev_Attributes ev) with
           | [] => []
           | l => [field "attributes" (marshal (AStrMap l))]
           end)
       ++ str "received_at" (format_rfc3339nano (ev_ReceivedAt ev))) "," +:+ "}".

Definition intake_body (req : Request) : string :=
  let body := iq_Body req in
  let body := match iq_Payload req with
              | Some ((_ :: _) as p) => if is_empty body then marshal (AObj p) else body
              | _ => body
              end in
  if is_empty body then marshal_event (iq_Event req) else body.

Definition signing_secret (src : SourceRegistration) : string :=
  or_default (src_SigningSecret src) (attr (src_Attributes src) "signing_secret").

Definition replay_window (src : SourceRegistration) : Z :=
  let window := src_ReplayWindowSeconds src in
  let window :=
    if window <=? 0 then
      let v := attr (src_Attributes src) "replay_window_seconds" in
      if is_empty v then window else (parse_int v).1
    else window in
  if window <=? 0 then DefaultReplay else window.

(** ** Admission *)
Definition check_signature (now : Time) (req : Request) (src : SourceRegistration)
    : result GoError unit :=
  if iq_SkipHMAC req then Ok tt
  else
    let secret := signing_secret src in
    _ ← fail_if (is_empty secret) (ErrUnauthorized "source signing secret not configured");
    _ ← VerifyHMAC secret (intake_body req) (iq_Signature req);
    CheckReplayWindow (iq_Timestamp req) now (wrap64 (replay_window src * second)).

(** [req.SourceID], by default the event's source system *)
Definition source_id (req : Request) : string :=
  or_default (iq_SourceID req) (ev_SourceSystem (iq_Event req)).

Definition accept_source (now : Time) (req : Request) : ledger SourceRegistration :=
  _ ← throw_if (is_empty (iq_OrgID req)) (ErrValidation "organization_id required");
  _ ← throw_if (is_empty (source_id req)) (ErrValidation "source_id required");
  src ← GetSource (iq_OrgID req) (source_id req);
  _ ← throw_if (negb (src_Enabled src)) (ErrForbidden "source disabled");
  _ ← throw_if (negb (is_empty (src_OrgID src)) && negb (String.eqb (src_OrgID src) (iq_OrgID req)))
        (ErrForbidden "source organization mismatch");
  _ ← of_result (check_signature now req src);
  mret src.

Definition idem_key_of (req : Request) : string :=
  let key := or_default (iq_IdempotencyKey req) (ev_IdempotencyKey (iq_Event req)) in
  or_default key (ev_EventID (iq_Event req)).

Definition duplicate_of (orgID : string) (prev : IdempotencyRecord) : Result :=
  mkResult (idem_EventID prev) orgID (idem_ResourceID prev) (idem_RevisionID prev) "duplicate"
    true true "" "" 0.

(** The earlier outcome of a repeated key *)
Definition find_duplicate (orgID key : string) : ledger (option Result) :=
  if is_empty key then mret None
  else
    r ← attempt (GetIdempotency orgID key);
    match r with
    | Ok prev => mret (Some (duplicate_of orgID prev))
    | Err e => _ ← throw_if (negb (IsAPIError e)) e; mret None
    end.

(** ** Mapping *)
Definition quoted (s : string) : string := dquote +:+ s +:+ dquote.

Definition default_rules (req : Request) : strmap :=
  let ev := iq_Event req in
  let override rule name (m : strmap) :=
    let v := attr (ev_Attributes ev) name in
    if is_empty v then m else <[rule := quoted v]> m in
  override "resource_type" "resource_type"
    (override "resource_id" "resource_id"
      (override "classification" "classification"
        (override "source_authority" "authority"
          (override "trust" "trust"
            {["source_external_id" :=
                if is_empty (ev_ExternalID ev) then "$.id" else quoted (ev_ExternalID ev);
              "source_revision" :=
                if is_empty (ev_SourceRevision ev) then "$.id" else quoted (ev_SourceRevision ev);
              "resource_type" := quoted "event"; "context_space_id" := quoted "default";
              "content_locator" := quoted ""]})))).
Definition defaultSpec (req : Request) : Spec :=
  SpecFromPorts (mkPortMappingSpec "" (iq_OrgID req) "" "" "" (default_rules req) zero_time).

Definition effective_spec (req : Request) (src : SourceRegistration) : Spec :=
  let spec := iq_Mapping req in
  let spec := if is_empty (sp_ID spec) && negb (is_empty (src_MappingSpec src))
              then (spec <| sp_ID := src_MappingSpec src |>) <| sp_OrganizationID := iq_OrgID req |>
              else spec in
  match fm_SourceExternalID (sp_Mappings spec), fm_ResourceType (sp_Mappings spec) with
  | None, None => defaultSpec req
  | _, _ => spec
  end.

Definition ceilings_of (req : Request) (src : SourceRegistration) : SourceCeilings :=
  mkCeilings (iq_OrgID req) (EffectiveTrustCeiling src)
    (firstNonEmpty [src_AuthorityCeiling src; "source_of_truth"])
    (EffectiveClassificationCeiling src) (src_AllowedVisibilityRefs src)
    (src_AllowedRecordTypes src).

(** ** The source of truth *)
Definition authority_of (rec : LedgerRecord) : string :=
  or_default (attr (rec_Attributes rec) "authority") (attr (rec_Attributes rec) "source_authority").
Definition isSourceOfTruth (rec : LedgerRecord) : bool :=
  equal_fold (authority_of rec) "source_of_truth".

(** Both set and different *)
Definition conflicting (a b : string) : bool :=
  negb (is_empty a) && negb (is_empty b) && negb (String.eqb a b).

Definition wouldOverwriteSoT (existing incoming : LedgerRecord) : bool :=
  isSourceOfTruth incoming
  || conflicting (rec_Title incoming) (rec_Title existing)
  || conflicting (rec_Classification incoming) (rec_Classification existing).

Definition sot_attributes : list string := ["authority"; "source_authority"; "trust"; "visibility_ref"].
Definition preserveSoT (existing incoming : LedgerRecord) : LedgerRecord :=
  let incoming := incoming <| rec_Title := rec_Title existing |> in
  let incoming := incoming <| rec_Classification := rec_Classification existing |> in
  let incoming := incoming <| rec_Labels := rec_Labels existing |> in
  let incoming := incoming <| rec_Kind := rec_Kind existing |> in
  let incoming := incoming <| rec_ExternalID := rec_ExternalID existing |> in
  let incoming := incoming <| rec_SourceSystem := rec_SourceSystem existing |> in
  incoming <| rec_Attributes :=
    filter (fun kv : string * string => kv.1 ∈ sot_attributes) (rec_Attributes existing)
    ∪ rec_Attributes incoming |>.

(** An observation that a machine produced *)
Definition is_generated (c : Canonical) (rec : LedgerRecord) : bool :=
  equal_fold (c_Trust c) "generated" || equal_fold (c_Authority c) "user_claim"
  || equal_fold (c_Authority c) "inferred" || equal_fold (rec_Kind rec) "observation".

(** ** Edges *)
Definition deterministicEdgeID (orgID fromID toID predicate : string) : string :=
  "edge_" +:+ hex_encode
    (take_str 12 (sha256 (orgID +:+ "|" +:+ fromID +:+ "|" +:+ predicate +:+ "|" +:+ toID))).

Definition placeholder_record (orgID resourceID kind title externalID : string) (now : Time)
    : LedgerRecord :=
  mkRecord resourceID orgID (or_default kind "resource") (or_default title resourceID) "internal" []
    "" externalID "" LifecyclePlaceholder {["placeholder" := "true"]} now now.

Definition edge_of (orgID : string) (e : CanonicalEdge) (now : Time) : GraphEdge :=
  mkEdge (deterministicEdgeID orgID (ce_FromID e) (ce_ToID e) (ce_Predicate e)) orgID (ce_FromID e)
    (ce_ToID e) (ce_Predicate e) (ce_Confidence e) "ACTIVE"
    (ce_SyncAuthzParent e && String.eqb (ce_Predicate e) EdgeParent) {["source" := "mapping"]} now now.

Section Commit.
Context `{GoEnv, GoMapOrder}.

Definition ensureEndpoint (orgID resourceID kind title externalID : string) (now : Time)
    : service unit :=
  if is_empty resourceID then mret tt
  else
    r ← attempt (on_ledger (GetRecordTx orgID resourceID));
    match r with
    | Ok _ => mret tt
    | Err e =>
        if has_status e 404 then
          _ ← timed (fun t => InsertPlaceholder t
                 (placeholder_record orgID resourceID kind title externalID now));
          mret tt
        else throw e
    end.

(** An endpoint not known yet is ensured, and known from then on. *)
Definition ensure_known (orgID : string) (now : Time) (known : gset string)
    (id kind title externalID : string) : service (gset string) :=
  if decide (id ∈ known) then mret known
  else _ ← ensureEndpoint orgID id kind title externalID now; mret ({[id]} ∪ known).

Definition writeEdge (orgID : string) (now : Time) (known : gset string) (e : CanonicalEdge)
    : service (gset string) :=
  known ← (if ce_EnsureEndpoints e then
             known ← ensure_known orgID now known (ce_FromID e) "resource" (ce_FromID e) "";
             ensure_known orgID now known (ce_ToID e) (or_default (ce_ToKind e) "resource")
               (ce_ToTitle e) (ce_ToExternalID e)
           else mret known);
  let edge := edge_of orgID e now in
  _ ← timed (fun t => UpsertEdge t "" edge);
  id ← draw;
  _ ← timed (fun t => EnqueueForEdge t id edge OperationWrite now);
  mret known.

Definition writeEdges (orgID seedResourceID : string) (edges : list CanonicalEdge) (now : Time)
    : service unit :=
  let known : gset string := if is_empty seedResourceID then ∅ else {[seedResourceID]} in
  _ ← fold_m (writeEdge orgID now) known edges;
  mret tt.

(** ** The transaction *)

(** The record to write, given what the ledger holds under its identifier *)
Definition reconcile (now : Time) (generated : bool) (rec : LedgerRecord)
    (existing : result GoError LedgerRecord) : result GoError LedgerRecord :=
  match existing with
  | Ok existing =>
      rec ← (if generated && isSourceOfTruth existing then
               if wouldOverwriteSoT existing rec
               then Err (ErrForbidden "generated observation cannot overwrite source_of_truth")
               else Ok (preserveSoT existing rec)
             else Ok rec);
      Ok (rec <| rec_CreatedAt := rec_CreatedAt existing |>)
  | Err e => if has_status e 404 then Ok (rec <| rec_CreatedAt := now |>) else Err e
  end.

Definition outbox_payload (req : Request) (eventID : string) (rec : LedgerRecord) (rev : Revision)
    : string :=
  marshal (AObj [("event_id", AStr eventID); ("org_id", AStr (iq_OrgID req));
                 ("resource_id", AStr (rec_ResourceID rec));
                 ("revision_id", AStr (rev_RevisionID rev)); ("source_id", AStr (source_id req))]).

Definition outbox_entry (req : Request) (now : Time) (eventID : string) (rec : LedgerRecord)
    (rev : Revision) : OutboxEntry :=
  mkOutbox eventID (iq_OrgID req) OutboxSubject (outbox_payload req eventID rec rev)
    (Some {["Nats-Msg-Id" := eventID; "event_id" := eventID]}) now None.

Definition commit_tx (req : Request) (now : Time) (idemKey eventID : string) (generated : bool)
    (rec : LedgerRecord) (rev : Revision) (edges : list CanonicalEdge) : service unit :=
  existing ← attempt (on_ledger (GetRecordTx (iq_OrgID req) (rec_ResourceID rec)));
  rec ← of_result (reconcile now generated rec existing);
  _ ← timed (fun t => PromotePlaceholder t rec);
  _ ← timed (fun t => AppendRevision t rev);
  _ ← writeEdges (iq_OrgID req) (rec_ResourceID rec) edges now;
  _ ← timed (fun t => EnqueueOutbox t eventID (outbox_entry req now eventID rec rev));
  if is_empty idemKey then mret tt
  else timed (fun t => PutIdempotency t
         (mkIdempotency (iq_OrgID req) idemKey eventID (rec_ResourceID rec) (rev_RevisionID rev) now)).

Definition revision_of (req : Request) (now : Time) (revID contentHash evidenceRef : string)
    (c : Canonical) (generated : bool) (rec : LedgerRecord) : Revision :=
  let attrs : strmap := {["trust" := c_Trust c; "authority" := c_Authority c]} in
  mkRevision revID (rec_ResourceID rec) (iq_OrgID req)
    (firstNonEmpty [ev_ContentHash (iq_Event req); contentHash])
    (firstNonEmpty [evidenceRef; ev_EvidenceRef (iq_Event req); c_ContentLocator c])
    0 "ACCEPTED" (if generated then <["observation" := "generated"]> attrs else attrs)
    (c_ObservedAt c) now.

Definition record_of (req : Request) (src : SourceRegistration) (t : Time) (c : Canonical)
    : LedgerRecord :=
  let rec := ToRecord t c (iq_OrgID req) (firstNonEmpty [src_System src; source_id req]) in
  if negb (is_empty (ev_ExternalID (iq_Event req))) && is_empty (rec_ExternalID rec)
  then rec <| rec_ExternalID := ev_ExternalID (iq_Event req) |> else rec.

Definition stamped (revID : string) (now : Time) (rec : LedgerRecord) : LedgerRecord :=
  let rec := rec <| rec_CurrentRevID := revID |> in
  let rec := rec <| rec_UpdatedAt := now |> in
  if is_empty (rec_State rec) then rec <| rec_State := LifecycleAccepted |> else rec.

(** A conflict on the idempotency key answers the outcome stored meanwhile. *)
Definition commit (req : Request) (src : SourceRegistration) (now : Time) (idemKey : string)
    (contentHash evidenceRef : string) (c : Canonical) : service Result :=
  eventID ← (if is_empty (ev_EventID (iq_Event req)) then draw else mret (ev_EventID (iq_Event req)));
  t ← tick;
  let rec := record_of req src t c in
  let generated := is_generated c rec in
  revID ← draw;
  let rev := revision_of req now revID contentHash evidenceRef c generated rec in
  let rec := stamped revID now rec in
  r ← attempt (WithOrgTx (iq_OrgID req)
                 (commit_tx req now idemKey eventID generated rec rev (c_Edges c)));
  match r with
  | Ok _ =>
      mret (mkResult eventID (iq_OrgID req) (rec_ResourceID rec) revID "accepted" false false
              (rev_EvidenceRef rev) (rev_ContentHash rev) (zlen (c_Edges c)))
  | Err e =>
      if has_status e 409 then
        prev ← attempt (on_ledger (GetIdempotency (iq_OrgID req) idemKey));
        match prev with
        | Ok prev => mret (duplicate_of (iq_OrgID req) prev)
        | Err _ => throw e
        end
      else throw e
  end.

(** ** [Intake] *)

(** The body is quarantined under its hash; a missing store or a dry run skips it. *)
Definition store_evidence (req : Request) (body contentHash : string) : service string :=
  if iq_DryRun req then mret "" else
  fun w =>
    match w_evidence w with
    | None => (Ok "", w)
    | Some _ =>
        (ver ← draw;
         let key := iq_OrgID req +:+ "/quarantine/" +:+ contentHash in
         obj ← on_evidence (Put ver key body "application/json"
                 {["organization_id" := iq_OrgID req; "source_id" := source_id req;
                   "content_hash" := contentHash]});
         mret (if is_empty (eo_VersionID obj) then eo_Key obj
               else eo_Key obj +:+ "@" +:+ eo_VersionID obj)) w
    end.

Definition process (req : Request) (src : SourceRegistration) (now : Time) (idemKey : string)
    : service Result :=
  let body := intake_body req in
  let payload := match iq_Payload req with Some p => p | None => unmarshal_map body end in
  let contentHash := "sha256:" +:+ hex_encode (sha256 body) in
  evidenceRef ← store_evidence req body contentHash;
  now1 ← tick; now2 ← tick; newID ← draw;
  c ← of_result (Apply now1 now2 newID (effective_spec req src) payload (ceilings_of req src)
                   (mkOptions (iq_DryRun req)));
  if iq_DryRun req then
    id ← draw;
    mret (mkResult (firstNonEmpty [ev_EventID (iq_Event req); id]) (iq_OrgID req) (c_ResourceID c) ""
            "accepted" false false evidenceRef contentHash (zlen (c_Edges c)))
  else commit req src now idemKey contentHash evidenceRef c.

Definition Intake (req : Request) : service Result :=
  now ← tick;
  src ← on_ledger (accept_source now req);
  let idemKey := idem_key_of req in
  dup ← on_ledger (find_duplicate (iq_OrgID req) idemKey);
  match dup with
  | Some r => mret r
  | None => process req src now idemKey
  end.
End Commit.
