(* ===== verification/IngestFacts.v ===== *)
(** * Theorems on the intake pipeline

    What an admitted event has passed; the outcome of [Intake] as a relation
    between the ledgers before and after; and its consequences: failures leave
    the ledger alone, an accepted event is committed, a repeated key answers the
    first outcome, a generated observation cannot rewrite a source of truth. *)
From S2P Require Import Prelude GoStd Sha256 Ports Platform Json Mapping.
From S2P Require Import OpenFGA Ledger LedgerFacts Index World Ingest.

(** ** Admission *)

(** A timestamp that the replay window accepts: within the window, or so far in
    the future that the difference of the two instants saturates. *)
Definition fresh_timestamp (ts : string) (now : Time) (window : Z) : Prop :=
  trim_space ts <> "" /\
  exists t, parse_timestamp ts = Some t /\ (Z.abs (now - t) <= window \/ now - t <= int_min).

(** C22 The replay window: a timestamp is accepted exactly when it is within the
    window of now, or more than 292 years after it, where the negation of the
    saturated [Duration] overflows. *)
Theorem replay_window_iff ts now window :
  0 <= window < int_max ->
  CheckReplayWindow ts now window = Ok tt <-> fresh_timestamp ts now window.
Proof.
  intros Hw. unfold CheckReplayWindow, fresh_timestamp. rewrite <- is_empty_false.
  destruct (is_empty (trim_space ts)); [naive_solver|].
  destruct (parse_timestamp ts) as [t|]; [|naive_solver].
  rewrite fail_if_Ok, Z.ltb_ge.
  assert (Hd : forall P, (exists t', Some t = Some t' /\ P t') <-> P t) by naive_solver.
  rewrite Hd. clear Hd.
  assert (Hiff : (if sub_time now t <? 0 then wrap64 (- sub_time now t) else sub_time now t)
                 <= window <-> Z.abs (now - t) <= window \/ now - t <= int_min); [|tauto].
  unfold sub_time. unfold int_min, int_max in *.
  destruct (Z.ltb_spec (now - t) (- 2 ^ 63)); [|destruct (Z.ltb_spec (2 ^ 63 - 1) (now - t))].
  - rewrite (proj2 (Z.ltb_lt _ _)) by lia. change (wrap64 (- - 2 ^ 63)) with (- 2 ^ 63). lia.
  - rewrite (proj2 (Z.ltb_ge _ _)) by lia. lia.
  - destruct (Z.ltb_spec (now - t) 0); [|lia].
    destruct (Z.eq_dec (now - t) (- 2 ^ 63)) as [->|].
    + change (wrap64 (- - 2 ^ 63)) with (- 2 ^ 63). lia.
    + rewrite wrap64_id by (unfold in_int, int_min, int_max; lia). lia.
Qed.

Definition year_2026 : Time := 1767225600 * second.
Lemma replay_window_iff_witness :
  CheckReplayWindow "1767225500" year_2026 (300 * second) = Ok tt /\
  CheckReplayWindow "1767225000" year_2026 (300 * second) <> Ok tt /\
  fresh_timestamp "99999999999" year_2026 (300 * second).
Proof.
  assert (Hw : 0 <= 300 * second < int_max) by (split; vm_compute; congruence).
  split; [|split].
  - apply (replay_window_iff "1767225500" year_2026 _ Hw). split; [discriminate|].
    exists (1767225500 * second). split; [reflexivity|]. left. vm_compute. congruence.
  - vm_compute. congruence.
  - apply (replay_window_iff "99999999999" year_2026 _ Hw). reflexivity.
Defined.

(** The hexadecimal digest that the signature header carries *)
Definition signature_digest (signature : string) : string :=
  to_lower (trim_prefix (trim_prefix (trim_space signature) "sha256=") "v1=").

Lemma SignHMAC_nonempty secret body : SignHMAC secret body <> "".
Proof.
  unfold SignHMAC. pose proof (hmac_nonempty secret body). by destruct (hmac_sha256 secret body).
Qed.

Lemma to_lower_nonempty s : s <> "" -> to_lower s <> "".
Proof. destruct s as [|a [|b [|c s]]]; simpl; intros Hs; repeat case_match; done. Qed.

Lemma VerifyHMAC_iff secret body signature :
  VerifyHMAC secret body signature = Ok tt <->
  signature_digest signature = to_lower (SignHMAC secret body).
Proof.
  unfold VerifyHMAC, signature_digest. cbv zeta. set (sig := trim_prefix _ _).
  destruct (is_empty sig) eqn:He; simpl.
  - split; [done|]. unfold is_empty in He. apply String.eqb_eq in He. rewrite He.
    intros Hq. by destruct (to_lower_nonempty _ (SignHMAC_nonempty secret body)).
  - by rewrite fail_if_Ok, negb_false_iff, String.eqb_eq.
Qed.

(** The signature of a request is good for a source: verification is skipped, or the body
    carries its HMAC and the timestamp is inside the replay window. *)
Definition signed (now : Time) (req : Request) (src : SourceRegistration) : Prop :=
  iq_SkipHMAC req = false ->
  signing_secret src <> "" /\
  signature_digest (iq_Signature req) = to_lower (SignHMAC (signing_secret src) (intake_body req)) /\
  CheckReplayWindow (iq_Timestamp req) now (wrap64 (replay_window src * second)) = Ok tt.

(** What an intake that gets past the gate has shown *)
Record admitted (s : Store) (now : Time) (req : Request) (src : SourceRegistration) : Prop := {
  adm_org : iq_OrgID req <> "";
  adm_source_id : source_id req <> "";
  adm_source : lookup2 (sources s) (iq_OrgID req) (source_id req) = Some src;
  adm_enabled : src_Enabled src = true;
  adm_same_org : src_OrgID src = "" \/ src_OrgID src = iq_OrgID req;
  adm_signed : signed now req src;
}.

Lemma check_signature_iff now req src : check_signature now req src = Ok tt <-> signed now req src.
Proof.
  unfold check_signature, signed. destruct (iq_SkipHMAC req); [done|]. cbv zeta.
  rewrite <-VerifyHMAC_iff, <-is_empty_false.
  destruct (is_empty (signing_secret src)); simpl; [by split; [|intros []]|].
  destruct (VerifyHMAC _ _ _) as [[]|]; simpl; naive_solver.
Qed.

Lemma throw_if_case {E S} b (e : E) (s : S) :
  throw_if b e s = if b then (Err e, s) else (Ok tt, s).
Proof. by destruct b. Qed.

(** Admission reads the ledger only, and fails when no source of the ledger admits the
    request. *)
Lemma accept_source_cases now req s :
  ((exists e, accept_source now req s = (Err e, s)) /\ forall src, ~ admitted s now req src) \/
  exists src, accept_source now req s = (Ok src, s) /\ admitted s now req src.
Proof.
  unfold accept_source, mbind, M_bind. rewrite !throw_if_case.
  destruct (is_empty (iq_OrgID req)) eqn:Horg; cbv beta iota.
  { left. split; [eauto|]. intros src [Ho%is_empty_false]. congruence. }
  rewrite throw_if_case. destruct (is_empty (source_id req)) eqn:Hid; cbv beta iota.
  { left. split; [eauto|]. intros src [_ Hi%is_empty_false]. congruence. }
  unfold GetSource, find.
  destruct (lookup2 (sources s) _ _) as [src|] eqn:Hsrc; cbv beta iota; cycle 1.
  { left. split; [eauto|]. intros src [_ _ Hl]. by rewrite Hl in Hsrc. }
  assert (Hsame : forall src', admitted s now req src' -> src' = src).
  { intros src' [_ _ Hl]. rewrite Hl in Hsrc. by injection Hsrc. }
  rewrite throw_if_case. destruct (src_Enabled src) eqn:Hen; cbv beta iota; simpl; cycle 1.
  { left. split; [eauto|]. intros src' Ha. rewrite <-(Hsame _ Ha) in Hen. destruct Ha. congruence. }
  assert (Hso : negb (is_empty (src_OrgID src)) && negb (String.eqb (src_OrgID src) (iq_OrgID req)) = false
                <-> src_OrgID src = "" \/ src_OrgID src = iq_OrgID req).
  { unfold is_empty. destruct (String.eqb_spec (src_OrgID src) ""),
      (String.eqb_spec (src_OrgID src) (iq_OrgID req)); simpl; naive_solver. }
  destruct (negb (is_empty (src_OrgID src)) && _); simpl.
  { left. split; [eauto|]. intros src' Ha. rewrite (Hsame _ Ha) in Ha. destruct Ha as [_ _ _ _ Ho _].
    by apply Hso in Ho. }
  destruct (check_signature now req src) as [[]|e] eqn:Hsig; cycle 1.
  { left. split; [eauto|]. intros src' Ha. rewrite (Hsame _ Ha) in Ha. destruct Ha as [_ _ _ _ _ Hs].
    apply check_signature_iff in Hs. by rewrite Hs in Hsig. }
  right. exists src. split; [done|]. apply is_empty_false in Horg, Hid.
  split; auto; [by apply Hso | by apply check_signature_iff].
Qed.

(** Nothing happens without admission: either the intake fails and the world
    is as before (but for a reading of the clock), or the source is registered,
    enabled and of the organization, and, unless verification is skipped, the
    body carries its HMAC under the source's secret and the timestamp is
    inside the replay window. *)
Lemma intake_admission `{GoEnv, GoMapOrder} req w :
  (exists e, Intake req w = (Err e, w <| w_clock := S (w_clock w) |>)) \/
  exists src, admitted (w_ledger w) (clock (w_clock w)) req src.
Proof.
  unfold Intake. unfold mbind at 1, M_bind, tick. simpl. unfold mbind at 1, M_bind, on_ledger. simpl.
  destruct (accept_source_cases (clock (w_clock w)) req (w_ledger w)) as [[[e ->] _]|(src & -> & Hadm)].
  - left. exists e. by destruct w.
  - right. by exists src.
Qed.

(** ** What a transaction writes *)

(** Tables an intake only adds to *)
Definition keeps_records (s s' : Store) : Prop :=
  forall a b r, lookup2 (records s) a b = Some r -> lookup2 (records s') a b = Some r.

Definition active_edge (s : Store) (org : string) (t : string * string * string) : Prop :=
  exists id e, lookup2 (edges s) org id = Some e /\ edge_State e = "ACTIVE" /\
               LedgerFacts.triple e = t.
Definition triple_of (e : CanonicalEdge) : string * string * string :=
  (ce_FromID e, ce_ToID e, ce_Predicate e).
Definition id_of (org : string) (e : CanonicalEdge) : string :=
  deterministicEdgeID org (ce_FromID e) (ce_ToID e) (ce_Predicate e).

(** The identifiers of the edges collide neither with each other nor with a row
    of another triple. *)
Definition ids_apart (s : Store) (org : string) (es : list CanonicalEdge) : Prop :=
  NoDup (id_of org <$> es) /\
  forall e row, e ∈ es -> lookup2 (edges s) org (id_of org e) = Some row ->
    LedgerFacts.triple row = triple_of e.

(** The part of the ledger that writing edges leaves alone *)
Record edges_only (s s' : Store) : Prop := {
  eo_records : keeps_records s s';
  eo_revisions : revisions s' = revisions s;
  eo_outbox : outbox s' = outbox s;
  eo_idempotency : idempotency s' = idempotency s;
  eo_sources : sources s' = sources s;
}.

Lemma edges_only_refl s : edges_only s s.
Proof. split; [intros a b r; exact id | done..]. Qed.
Lemma edges_only_trans s1 s2 s3 : edges_only s1 s2 -> edges_only s2 s3 -> edges_only s1 s3.
Proof. intros [] []. split; [unfold keeps_records in *; auto | congruence..]. Qed.

Lemma allowedPredicate_nonempty p : allowedPredicate p = true -> p <> "".
Proof. by intros Hp ->. Qed.

Section Write.
Context `{GoEnv, GoMapOrder} (org : string) (Horg : org <> "") (now : Time).

Lemma InsertPlaceholder_spec t rec s :
  rec_OrgID rec <> "" -> rec_ResourceID rec <> "" ->
  exists b, (InsertPlaceholder t rec s).1 = Ok b /\ edges_only s (InsertPlaceholder t rec s).2 /\
    edges (InsertPlaceholder t rec s).2 = edges s.
Proof.
  unfold InsertPlaceholder. intros H1%is_empty_false H2%is_empty_false. rewrite H1, H2. simpl.
  destruct (lookup2 (records s) _ _) eqn:Hr; simpl; eexists; (split; [done|]).
  - split; [apply edges_only_refl | done].
  - split; [|done]. split; simpl; try done. intros a b r Hl. simpl. rewrite lookup2_insert2.
    case_decide as Hd; [|done]. destruct Hd as [-> ->]. simpl in *. congruence.
Qed.

Lemma ensureEndpoint_spec id kind title ext s :
  effect (ensureEndpoint org id kind title ext now) s
    (fun r s' => r = Ok tt /\ edges_only s s' /\ edges s' = edges s).
Proof.
  unfold ensureEndpoint. destruct (is_empty id) eqn:Hid.
  { apply effect_ret. split_and!; [done | apply edges_only_refl | done]. }
  apply is_empty_false in Hid. apply effect_bind, effect_attempt, effect_on_ledger.
  unfold GetRecordTx, GetRecord, find. destruct (lookup2 (records s) org id); simpl.
  { apply effect_ret. split_and!; [done | apply edges_only_refl | done]. }
  apply effect_bind, effect_timed. intros t.
  destruct (InsertPlaceholder_spec t (placeholder_record org id kind title ext now) s) as (b & -> & ? & ?);
    [done..|]. by apply effect_ret.
Qed.

Lemma ensure_known_spec known id kind title ext s :
  effect (ensure_known org now known id kind title ext) s
    (fun r s' => (exists known', r = Ok known') /\ edges_only s s' /\ edges s' = edges s).
Proof.
  unfold ensure_known. case_decide.
  { apply effect_ret. split_and!; [eauto | apply edges_only_refl | done]. }
  apply effect_bind. eapply effect_mono; [apply ensureEndpoint_spec|].
  intros r s' (-> & ? & ?). apply effect_ret. eauto.
Qed.

(** The effect of one edge on the edge table, when identifiers do not collide: its
    triple is active afterwards, what was active still is, and the later edges
    find their identifiers as they were. *)
Definition edge_written (e : CanonicalEdge) (later : list CanonicalEdge) (s s' : Store) : Prop :=
  edges_only s s' /\
  (ids_apart s org (e :: later) ->
   active_edge s' org (triple_of e) /\
   (forall t, active_edge s org t -> active_edge s' org t) /\
   ids_apart s' org later).

Lemma ids_apart_edges s s' es : edges s' = edges s -> ids_apart s org es -> ids_apart s' org es.
Proof. intros He [Hnd Hrows]. split; [done|]. by rewrite He. Qed.
Lemma active_edge_edges s s' t : edges s' = edges s -> active_edge s org t -> active_edge s' org t.
Proof. unfold active_edge. by intros ->. Qed.

Lemma UpsertEdge_written t e later s :
  edge_ok e ->
  (UpsertEdge t "" (edge_of org e now) s).1 = Ok tt /\
  edge_written e later s (UpsertEdge t "" (edge_of org e now) s).2.
Proof.
  intros (Hf & Ht & Hne & Hp%allowedPredicate_nonempty & _).
  apply is_empty_false in Hf as Hf', Ht as Ht', Hp as Hp', Horg as Ho'.
  unfold UpsertEdge, edge_of. simpl. rewrite Hf', Ht', Hp', Ho'. simpl.
  apply String.eqb_neq in Hne as ->. unfold or_default. simpl.
  destruct (find_entry _ _) as [[id existing]|] eqn:Hfind; simpl; (split; [done|]);
    (split; [split; simpl; try done; by intros a b r|]); intros [Hnd Hrows];
    apply NoDup_cons in Hnd as [Hni Hnd]; split_and!.
  - apply find_row_Some in Hfind as [Hrow Hact]. unfold active_triple in Hact. simpl in Hact.
    rewrite !andb_true_iff, !String.eqb_eq in Hact. destruct Hact as [[[Hst Hef] Het] Hep].
    exists id. eexists. simpl. rewrite lookup2_insert2_eq. split; [done|]. split; [done|].
    unfold LedgerFacts.triple, triple_of. simpl. congruence.
  - apply find_row_Some in Hfind as [Hrow _]. intros tr (id' & row & Hr & Hs & Htr).
    destruct (decide (id' = id)) as [->|Hd].
    + exists id. eexists. simpl. rewrite lookup2_insert2_eq. split; [done|].
      replace row with existing in * by congruence. done.
    + exists id', row. split; [|done]. simpl. rewrite lookup2_insert2, decide_False; naive_solver.
  - apply find_row_Some in Hfind as [Hrow _]. split; [done|]. intros e' row He'. simpl.
    rewrite lookup2_insert2. case_decide as Hd; [|intros Hl; apply Hrows; [by right | done]].
    destruct Hd as [_ Heq]. intros [= <-]. transitivity (LedgerFacts.triple existing); [done|].
    apply Hrows; [by right | by rewrite Heq].
  - exists (id_of org e). eexists. simpl. by rewrite lookup2_insert2_eq.
  - intros tr (id' & row & Hr & Hs & Htr). destruct (decide (id' = id_of org e)) as [->|Hd].
    + exfalso. assert (Hte : LedgerFacts.triple row = triple_of e) by (apply Hrows; [by left|done]).
      apply (find_row_None _ _ _ _ _ Hfind) in Hr. unfold active_triple in Hr. simpl in Hr.
      unfold LedgerFacts.triple, triple_of in Hte. injection Hte as H1 H2 H3.
      rewrite Hs, H1, H2, H3, !String.eqb_refl in Hr. done.
    + exists id', row. split; [|done]. simpl. rewrite lookup2_insert2, decide_False; naive_solver.
  - split; [done|]. intros e' row He'. simpl.
    rewrite lookup2_insert2. case_decide as Hd; [|intros Hl; apply Hrows; [by right | done]].
    destruct Hd as [_ Heq]. exfalso. apply Hni. apply list_elem_of_fmap. by exists e'.
Qed.

Lemma EnqueueForEdge_Ok t id edge op s :
  edge_OrgID edge <> "" ->
  (EnqueueForEdge t id edge op now s).1 = Ok tt /\
  edges_only s (EnqueueForEdge t id edge op now s).2 /\
  edges (EnqueueForEdge t id edge op now s).2 = edges s.
Proof.
  intros Ho%is_empty_false. unfold EnqueueForEdge. destruct (negb _); simpl.
  { split; [done|]. split; [apply edges_only_refl | done]. }
  unfold EnqueueAuthzTuple. simpl. rewrite Ho. simpl.
  destruct (find_entry _ _) as [[k existing]|]; simpl; (split; [done|]); (split; [|done]);
    (split; simpl; try done); by intros a b r.
Qed.

Lemma writeEdge_spec known e later s :
  edge_ok e ->
  effect (writeEdge org now known e) s (fun r s' => (exists k, r = Ok k) /\ edge_written e later s s').
Proof.
  intros Hok. unfold writeEdge. apply effect_bind.
  eapply effect_mono with (Q := fun r s' => (exists k, r = Ok k) /\ edges_only s s' /\ edges s' = edges s).
  { destruct (ce_EnsureEndpoints e).
    - apply effect_bind. eapply effect_mono; [apply ensure_known_spec|].
      intros r s1 ([k ->] & H1 & H2). eapply effect_mono; [apply ensure_known_spec|].
      intros r' s2 (Hk & H3 & H4). split; [done|]. split; [by eapply edges_only_trans | congruence].
    - apply effect_ret. split; [eauto|]. split; [apply edges_only_refl | done]. }
  intros r s1 ([k ->] & Hr1 & He1). apply effect_bind, effect_timed. intros t.
  destruct (UpsertEdge_written t e later s1 Hok) as [-> [Hr2 Hw]].
  set (s2 := (UpsertEdge t "" (edge_of org e now) s1).2) in *. clearbody s2.
  apply effect_bind, effect_draw. intros id. apply effect_bind, effect_timed. intros t'.
  destruct (EnqueueForEdge_Ok t' id (edge_of org e now) OperationWrite s2 Horg) as (-> & Hr3 & He3).
  set (s3 := (EnqueueForEdge _ _ _ _ _ s2).2) in *. clearbody s3.
  apply effect_ret. split; [eauto|]. split.
  { eapply edges_only_trans; [done|]. by eapply edges_only_trans. }
  intros Hap. destruct (Hw (ids_apart_edges _ _ _ He1 Hap)) as (Ha & Hk & Hl).
  split; [by eapply active_edge_edges|]. split; [|by eapply ids_apart_edges].
  intros tr Htr. eapply active_edge_edges; [done|]. apply Hk. by eapply active_edge_edges.
Qed.

Lemma writeEdges_spec seed es s :
  Forall edge_ok es ->
  effect (writeEdges org seed es now) s (fun r s' =>
    r = Ok tt /\ edges_only s s' /\
    (ids_apart s org es -> forall e, e ∈ es -> active_edge s' org (triple_of e))).
Proof.
  intros Hes. unfold writeEdges. cbv zeta. generalize (if is_empty seed then ∅ else {[seed]} : gset string).
  assert (Hall : forall s known, effect (fold_m (writeEdge org now) known es) s (fun r s' =>
    (exists k, r = Ok k) /\ edges_only s s' /\
    (ids_apart s org es -> (forall e, e ∈ es -> active_edge s' org (triple_of e)) /\
       forall t, active_edge s org t -> active_edge s' org t))).
  { clear s. induction Hes as [|e es He Hes IH]; intros s known; simpl.
    - apply effect_ret. split; [eauto|]. split; [apply edges_only_refl|]. intros _.
      split; [by intros e ?%elem_of_nil | done].
    - apply effect_bind. eapply effect_mono; [by apply (writeEdge_spec known e es)|].
      intros r s1 ([k ->] & Hr1 & Hw1). eapply effect_mono; [apply IH|].
      intros r' s2 (Hk & Hr2 & Hw2). split; [done|]. split; [by eapply edges_only_trans|].
      intros Hap. destruct (Hw1 Hap) as (Ha & Hkeep & Hap1). destruct (Hw2 Hap1) as [Hall Hkeep2].
      split; [|auto]. intros e' [->|He']%elem_of_cons; auto. }
  intros known. apply effect_bind. eapply effect_mono; [apply Hall|].
  intros r s' ([k ->] & Hr & Hw). apply effect_ret. split; [done|]. split; [done|]. intros Hap.
  by apply Hw.
Qed.
End Write.

(** ** The transaction *)
Definition row_of (s : Store) (org rid : string) : result GoError LedgerRecord :=
  (GetRecordTx org rid s).1.

(** The record that is stored: [rec1] without the marks of a placeholder *)
Definition promoted (rec1 : LedgerRecord) (created updated : Time) : LedgerRecord :=
  let state := if is_empty (rec_State rec1) || unresolved_state (rec_State rec1)
               then LifecycleAccepted else rec_State rec1 in
  mkRecord (rec_ResourceID rec1) (rec_OrgID rec1) (rec_Kind rec1) (rec_Title rec1)
    (rec_Classification rec1) (rec_Labels rec1) (rec_SourceSystem rec1) (rec_ExternalID rec1)
    (rec_CurrentRevID rec1) state (delete "ensured" (delete "placeholder" (rec_Attributes rec1)))
    created updated.

(** What one committed event changes. *)
Record committed (req : Request) (now : Time) (key eventID : string) (generated : bool)
    (rec : LedgerRecord) (rev : Revision) (es : list CanonicalEdge) (s s' : Store) : Prop := {
  cm_record : exists rec1 created updated,
    reconcile now generated rec (row_of s (iq_OrgID req) (rec_ResourceID rec)) = Ok rec1 /\
    lookup2 (records s') (iq_OrgID req) (rec_ResourceID rec) = Some (promoted rec1 created updated);
  cm_others : forall a b r, (a, b) <> (iq_OrgID req, rec_ResourceID rec) ->
    lookup2 (records s) a b = Some r -> lookup2 (records s') a b = Some r;
  cm_revision : exists created,
    lookup2 (revisions s') (iq_OrgID req) (rev_RevisionID rev) =
      Some (rev <| rev_CreatedAt := created |>);
  cm_outbox : exists created,
    outbox s' = outbox s ++ [(outbox_entry req now eventID rec rev) <| ob_CreatedAt := created |>];
  cm_key : if is_empty key then idempotency s' = idempotency s
           else exists created,
             idempotency s' = <[idem_key (iq_OrgID req) key :=
               mkIdempotency (iq_OrgID req) key eventID (rec_ResourceID rec) (rev_RevisionID rev)
                 created]> (idempotency s);
  cm_edges : ids_apart s (iq_OrgID req) es ->
    forall e, e ∈ es -> active_edge s' (iq_OrgID req) (triple_of e);
}.

Lemma reconcile_names now generated rec existing rec1 :
  reconcile now generated rec existing = Ok rec1 ->
  rec_OrgID rec1 = rec_OrgID rec /\ rec_ResourceID rec1 = rec_ResourceID rec /\
  rec_CurrentRevID rec1 = rec_CurrentRevID rec /\ rec_State rec1 = rec_State rec.
Proof.
  unfold reconcile. destruct existing as [old|e].
  - intros (rec' & Hr & [= <-])%result_bind_Ok. simpl.
    destruct (generated && isSourceOfTruth old); [destruct (wouldOverwriteSoT old rec)|];
      simplify_eq/=; done.
  - destruct (has_status e 404); [|done]. by intros [= <-].
Qed.

Lemma PromotePlaceholder_spec t rec s :
  exists created, PromotePlaceholder t rec s =
    (Ok tt, s <| records := insert2 (rec_OrgID rec) (rec_ResourceID rec)
                              (promoted rec created t) (records s) |>).
Proof.
  unfold PromotePlaceholder, modify, promoted. destruct (lookup2 _ _ _) as [old|]; simpl.
  - exists (rec_CreatedAt old). destruct (is_empty (rec_State rec) || _); done.
  - exists (or_now (rec_CreatedAt rec) t). destruct (is_empty (rec_State rec) || _); done.
Qed.

Lemma outbox_entry_ext req now eventID rec rec1 rev :
  rec_ResourceID rec1 = rec_ResourceID rec ->
  outbox_entry req now eventID rec1 rev = outbox_entry req now eventID rec rev.
Proof. intros Hr. unfold outbox_entry, outbox_payload. by rewrite Hr. Qed.

Lemma EnqueueOutbox_entry t req now eventID rec rev s :
  EnqueueOutbox t eventID (outbox_entry req now eventID rec rev) s =
  (Ok tt, s <| outbox := outbox s ++
             [(outbox_entry req now eventID rec rev) <| ob_CreatedAt := or_now now t |>] |>).
Proof.
  unfold EnqueueOutbox, modify, outbox_entry, or_default. simpl. by destruct (is_empty eventID).
Qed.

(** The transaction in three stages: [s0] has the record and the revision, [s1] the
    edges, [s2] the outbox entry and the key. *)
Lemma committed_intro req now key eventID generated rec rec1 rev es created t1 t2 t3 s s0 s1 s2 :
  reconcile now generated rec (row_of s (iq_OrgID req) (rec_ResourceID rec)) = Ok rec1 ->
  records s0 = insert2 (iq_OrgID req) (rec_ResourceID rec) (promoted rec1 created t1) (records s) ->
  revisions s0 = insert2 (iq_OrgID req) (rev_RevisionID rev) (rev <| rev_CreatedAt := t2 |>)
                   (revisions s) ->
  edges_only s0 s1 ->
  (ids_apart s (iq_OrgID req) es ->
   forall e, e ∈ es -> active_edge s1 (iq_OrgID req) (triple_of e)) ->
  records s2 = records s1 -> revisions s2 = revisions s1 -> edges s2 = edges s1 ->
  outbox s2 = outbox s ++ [(outbox_entry req now eventID rec rev) <| ob_CreatedAt := t3 |>] ->
  (if is_empty key then idempotency s2 = idempotency s
   else exists created,
     idempotency s2 = <[idem_key (iq_OrgID req) key :=
       mkIdempotency (iq_OrgID req) key eventID (rec_ResourceID rec) (rev_RevisionID rev)
         created]> (idempotency s)) ->
  committed req now key eventID generated rec rev es s s2.
Proof.
  intros Hrec Hr0 Hv0 [Hr1 Hv1 _ _ _] Hact Hr2 Hv2 He2 Hout Hkey. split.
  - exists rec1, created, t1. split; [done|]. rewrite Hr2. apply Hr1.
    by rewrite Hr0, lookup2_insert2_eq.
  - intros a b r Hne Hl. rewrite Hr2. apply Hr1.
    rewrite Hr0, lookup2_insert2, decide_False by naive_solver. done.
  - exists t2. by rewrite Hv2, Hv1, Hv0, lookup2_insert2_eq.
  - eauto.
  - done.
  - intros Hap e He. eapply active_edge_edges; [done|]. by apply Hact.
Qed.

Section Transaction.
Context `{GoEnv, GoMapOrder}.

Lemma commit_tx_spec req now key eventID generated rec rev es s :
  iq_OrgID req <> "" -> rec_OrgID rec = iq_OrgID req -> rev_OrgID rev = iq_OrgID req ->
  Forall edge_ok es ->
  (key <> "" -> idempotency s !! idem_key (iq_OrgID req) key = None) ->
  effect (commit_tx req now key eventID generated rec rev es) s (fun r s' =>
    (r = Ok tt /\ committed req now key eventID generated rec rev es s s') \/
    (s' = s /\ exists e, r = Err e /\
       reconcile now generated rec (row_of s (iq_OrgID req) (rec_ResourceID rec)) = Err e)).
Proof.
  intros Horg Hro Hrv Hes Hkey. unfold commit_tx.
  apply effect_bind, effect_attempt, effect_on_ledger.
  assert (Hget : GetRecordTx (iq_OrgID req) (rec_ResourceID rec) s =
                 (row_of s (iq_OrgID req) (rec_ResourceID rec), s)).
  { unfold row_of, GetRecordTx, GetRecord, find. by destruct (lookup2 _ _ _). }
  rewrite Hget. simpl. apply effect_bind, effect_of_result.
  destruct (reconcile _ _ _ _) as [rec1|e] eqn:Hrec; [|right; eauto].
  destruct (reconcile_names _ _ _ _ _ Hrec) as (Hn1 & Hn2 & _ & _). rewrite Hro in Hn1.
  apply effect_bind, effect_timed. intros t1.
  destruct (PromotePlaceholder_spec t1 rec1 s) as [created ->]. rewrite Hn1, Hn2.
  apply effect_bind, effect_timed. intros t2. unfold AppendRevision, modify. cbv zeta. simpl.
  rewrite Hrv.
  match goal with |- effect _ ?s0 _ => pose (base := s0); fold base end.
  apply effect_bind. eapply effect_mono; [by apply (writeEdges_spec _ Horg)|].
  intros r s1 (-> & Hkeep & Hact). apply effect_bind, effect_timed. intros t3.
  rewrite EnqueueOutbox_entry, (outbox_entry_ext req now eventID rec rec1) by done. simpl.
  destruct (is_empty key) eqn:Hk.
  - apply effect_ret. left. split; [done|].
    eapply (committed_intro _ _ _ _ _ _ rec1 _ _ created t1 (or_now (rev_CreatedAt rev) t2)
              (or_now now t3) s base s1); try done; simpl.
    + by rewrite Hrv.
    + by rewrite (eo_outbox _ _ Hkeep).
    + rewrite Hk. apply (eo_idempotency _ _ Hkeep).
  - apply effect_timed. intros t4. unfold PutIdempotency. simpl.
    rewrite (eo_idempotency _ _ Hkeep). simpl. rewrite Hkey by (by apply is_empty_false). simpl.
    left. split; [done|].
    eapply (committed_intro _ _ _ _ _ _ rec1 _ _ created t1 (or_now (rev_CreatedAt rev) t2)
              (or_now now t3) s base s1); try done; simpl.
    + by rewrite Hrv.
    + by rewrite (eo_outbox _ _ Hkeep).
    + rewrite Hk. eauto.
Qed.
End Transaction.

(** ** The outcome of an intake *)

Definition key_unused (s : Store) (req : Request) : Prop :=
  idem_key_of req <> "" -> idempotency s !! idem_key (iq_OrgID req) (idem_key_of req) = None.

(** The payload that is mapped: the request's own, by default the decoded body *)
Definition payload_of `{GoEnv} (req : Request) : list (string * any) :=
  match iq_Payload req with Some p => p | None => unmarshal_map (intake_body req) end.
Definition content_hash (req : Request) : string :=
  "sha256:" +:+ hex_encode (sha256 (intake_body req)).

(** What [Intake] makes of an admitted request in a world. The identifiers are the next
    that the process draws, the first of them for the version of the evidence if a store
    keeps the body; the instants are the next readings of the clock. *)
Section Plan.
Context `{GoEnv, GoMapOrder}.
Variables (w : World) (req : Request) (src : SourceRegistration).

Definition arrival : Time := clock (w_clock w).
Definition keeps_evidence : bool :=
  match w_evidence w with Some _ => negb (iq_DryRun req) | None => false end.
Definition first_id : nat := if keeps_evidence then S (w_ids w) else w_ids w.

Definition evidence_ref : string :=
  if keeps_evidence then
    let key := iq_OrgID req +:+ "/quarantine/" +:+ content_hash req in
    if is_empty (fresh_id (w_ids w)) then key else key +:+ "@" +:+ fresh_id (w_ids w)
  else "".

Definition mapping_result : result GoError Canonical :=
  Apply (clock (1 + w_clock w)) (clock (2 + w_clock w)) (fresh_id first_id)
    (effective_spec req src) (payload_of req) (ceilings_of req src) (mkOptions (iq_DryRun req)).

Definition event_id : string :=
  if is_empty (ev_EventID (iq_Event req)) then fresh_id (1 + first_id)
  else ev_EventID (iq_Event req).
Definition revision_id : string :=
  fresh_id (if is_empty (ev_EventID (iq_Event req)) then 2 + first_id else 1 + first_id).

(** The record and the revision that a mapping would store, before the record is
    reconciled with the one of the ledger *)
Definition mapped_record (c : Canonical) : LedgerRecord := record_of req src (clock (3 + w_clock w)) c.
Definition incoming (c : Canonical) : LedgerRecord := stamped revision_id arrival (mapped_record c).
Definition generated_by (c : Canonical) : bool := is_generated c (mapped_record c).
Definition new_revision (c : Canonical) : Revision :=
  revision_of req arrival revision_id (content_hash req) evidence_ref c (generated_by c)
    (mapped_record c).
End Plan.

(** A generated observation of a record that is a source of truth, with another title or
    classification or the claim to be the truth itself *)
Definition overwrites_truth `{GoEnv, GoMapOrder} (w : World) (req : Request)
    (src : SourceRegistration) (c : Canonical) : Prop :=
  generated_by w req src c = true /\
  exists old, lookup2 (records (w_ledger w)) (iq_OrgID req) (c_ResourceID c) = Some old /\
    isSourceOfTruth old = true /\ wouldOverwriteSoT old (incoming w req src c) = true.

(** The contract of [Intake], for the answer and the ledger afterwards: nothing admits the
    request; its key was answered before; the mapping refuses its payload; it is a dry run
    of a mapping; it would overwrite a source of truth; or its event is committed. *)
Inductive outcome `{GoEnv, GoMapOrder} (w : World) (req : Request)
  : result GoError Result -> Store -> Prop :=
| outcome_refused e :
    (forall src, ~ admitted (w_ledger w) (arrival w) req src) ->
    outcome w req (Err e) (w_ledger w)
| outcome_duplicate src prev :
    admitted (w_ledger w) (arrival w) req src -> idem_key_of req <> "" ->
    idempotency (w_ledger w) !! idem_key (iq_OrgID req) (idem_key_of req) = Some prev ->
    outcome w req (Ok (duplicate_of (iq_OrgID req) prev)) (w_ledger w)
| outcome_unmapped src e :
    admitted (w_ledger w) (arrival w) req src -> key_unused (w_ledger w) req ->
    mapping_result w req src = Err e ->
    outcome w req (Err e) (w_ledger w)
| outcome_dry src c :
    iq_DryRun req = true ->
    admitted (w_ledger w) (arrival w) req src -> key_unused (w_ledger w) req ->
    mapping_result w req src = Ok c ->
    outcome w req
      (Ok (mkResult (firstNonEmpty [ev_EventID (iq_Event req); fresh_id (1 + first_id w req)])
             (iq_OrgID req) (c_ResourceID c) "" "accepted" false false "" (content_hash req)
             (zlen (c_Edges c)))) (w_ledger w)
| outcome_protected src c :
    iq_DryRun req = false ->
    admitted (w_ledger w) (arrival w) req src -> key_unused (w_ledger w) req ->
    mapping_result w req src = Ok c -> overwrites_truth w req src c ->
    outcome w req (Err (ErrForbidden "generated observation cannot overwrite source_of_truth"))
      (w_ledger w)
| outcome_committed src c s' :
    iq_DryRun req = false ->
    admitted (w_ledger w) (arrival w) req src -> key_unused (w_ledger w) req ->
    mapping_result w req src = Ok c ->
    let rev := new_revision w req src c in
    committed req (arrival w) (idem_key_of req) (event_id w req) (generated_by w req src c)
      (incoming w req src c) rev (c_Edges c) (w_ledger w) s' ->
    outcome w req
      (Ok (mkResult (event_id w req) (iq_OrgID req) (c_ResourceID c) (revision_id w req) "accepted"
             false false (rev_EvidenceRef rev) (rev_ContentHash rev) (zlen (c_Edges c)))) s'.

Lemma stamped_names revID now rec :
  rec_ResourceID (stamped revID now rec) = rec_ResourceID rec /\
  rec_OrgID (stamped revID now rec) = rec_OrgID rec /\
  rec_CurrentRevID (stamped revID now rec) = revID.
Proof. unfold stamped. by destruct (is_empty _). Qed.

Lemma record_of_names req src t c :
  rec_ResourceID (record_of req src t c) = c_ResourceID c /\
  rec_OrgID (record_of req src t c) = iq_OrgID req /\ rec_State (record_of req src t c) = "ACCEPTED".
Proof. unfold record_of. by destruct (_ && _). Qed.

Lemma incoming_names `{GoEnv, GoMapOrder} w req src c :
  rec_ResourceID (incoming w req src c) = c_ResourceID c /\
  rec_OrgID (incoming w req src c) = iq_OrgID req /\
  rec_CurrentRevID (incoming w req src c) = revision_id w req /\
  rec_State (incoming w req src c) = "ACCEPTED".
Proof.
  unfold incoming, mapped_record. generalize (clock (3 + w_clock w)) as t. intros t.
  destruct (record_of_names req src t c) as (H1 & H2 & H3).
  destruct (stamped_names (revision_id w req) (arrival w) (record_of req src t c)) as (S1 & S2 & S3).
  split_and!; try congruence. unfold stamped. simpl. by rewrite H3.
Qed.

(** [reconcile] fails only to protect a source of truth, with a status other than 409, so
    the transaction never takes the branch for a lost race on the key. *)
Lemma reconcile_Err now generated rec s org rid e :
  reconcile now generated rec (row_of s org rid) = Err e ->
  e = ErrForbidden "generated observation cannot overwrite source_of_truth" /\ generated = true /\
  exists old, lookup2 (records s) org rid = Some old /\ isSourceOfTruth old = true /\
    wouldOverwriteSoT old rec = true.
Proof.
  unfold row_of, GetRecordTx, GetRecord, find. destruct (lookup2 _ _ _) as [old|]; simpl; [|done].
  unfold mbind, result_bind. destruct generated, (isSourceOfTruth old) eqn:Ht; simpl; try done.
  destruct (wouldOverwriteSoT old rec) eqn:Ho; [|done]. intros [= <-]. eauto 10.
Qed.

(** Two worlds with the same ledger, and two answers that name the same event *)
Definition ledger_untouched (w w' : World) : Prop := w_ledger w' = w_ledger w.
Definition same_event (r again : Result) : Prop :=
  res_EventID again = res_EventID r /\ res_ResourceID again = res_ResourceID r /\
  res_RevisionID again = res_RevisionID r.

Section Refinement.
Context `{GoEnv, GoMapOrder}.

Lemma find_duplicate_spec org key s :
  find_duplicate org key s =
    (Ok (if is_empty key then None
         else duplicate_of org <$> idempotency s !! idem_key org key), s).
Proof.
  unfold find_duplicate. destruct (is_empty key); [done|].
  unfold mbind, M_bind, attempt, GetIdempotency. by destruct (_ !! _).
Qed.

(** The first step of a program, run in a given world *)
Lemma tick_then {B} (f : Time -> service B) w :
  (tick ≫= f) w = f (clock (w_clock w)) (w <| w_clock := S (w_clock w) |>).
Proof. reflexivity. Qed.
Lemma draw_then {B} (f : string -> service B) w :
  (draw ≫= f) w = f (fresh_id (w_ids w)) (w <| w_ids := S (w_ids w) |>).
Proof. reflexivity. Qed.
Lemma on_ledger_then {A B} (m : ledger A) (f : A -> service B) w r :
  m (w_ledger w) = (r, w_ledger w) ->
  (on_ledger m ≫= f) w = match r with Ok a => f a w | Err e => (Err e, w) end.
Proof. intros Hm. unfold mbind, M_bind, on_ledger. rewrite Hm. by destruct w, r. Qed.
Lemma of_result_then {A B} (r : result GoError A) (f : A -> service B) w :
  (of_result r ≫= f) w = match r with Ok a => f a w | Err e => (Err e, w) end.
Proof. by destruct r. Qed.

Lemma store_evidence_then {B} w0 w req (f : string -> service B) :
  w_evidence w0 = w_evidence w -> w_ids w0 = w_ids w ->
  exists w1, (store_evidence req (intake_body req) (content_hash req) ≫= f) w0 = f (evidence_ref w req) w1 /\
    w_ledger w1 = w_ledger w0 /\ w_clock w1 = w_clock w0 /\ w_ids w1 = first_id w req.
Proof.
  intros Hev Hids. unfold mbind, M_bind, store_evidence, evidence_ref, first_id, keeps_evidence.
  rewrite <-Hev, <-Hids. destruct w0 as [led ev idx az au bus ck ids]. simpl.
  destruct (iq_DryRun req); [destruct ev; by eexists|]. destruct ev as [ev|]; [|by eexists].
  unfold mbind, M_bind. simpl. destruct (is_empty (fresh_id ids)); by eexists.
Qed.

(** The event's identifier, drawn unless the event has its own *)
Lemma event_id_then {B} w0 w req (f : string -> service B) :
  w_ids w0 = (1 + first_id w req)%nat ->
  exists w1, ((if is_empty (ev_EventID (iq_Event req)) then draw else mret (ev_EventID (iq_Event req))) ≫= f) w0
             = f (event_id w req) w1 /\
    w_ledger w1 = w_ledger w0 /\ w_clock w1 = w_clock w0 /\ fresh_id (w_ids w1) = revision_id w req.
Proof.
  intros Hids. unfold event_id, revision_id. destruct (is_empty _).
  - rewrite draw_then, Hids. eexists. split; [reflexivity|]. by simpl.
  - exists w0. split; [reflexivity|]. by rewrite Hids.
Qed.

Lemma commit_outcome w req src c w0 :
  w_ledger w0 = w_ledger w -> w_clock w0 = (3 + w_clock w)%nat -> w_ids w0 = (1 + first_id w req)%nat ->
  iq_DryRun req = false -> admitted (w_ledger w) (arrival w) req src -> key_unused (w_ledger w) req ->
  mapping_result w req src = Ok c ->
  let '(r, w') := commit req src (arrival w) (idem_key_of req) (content_hash req) (evidence_ref w req) c w0 in
  outcome w req r (w_ledger w').
Proof.
  intros Hl Hck Hids Hdry Hadm Hun Hm. unfold commit.
  match goal with |- context [(_ ≫= ?f) w0] => destruct (event_id_then w0 w req f Hids) as (w1 & -> & Hl1 & Hck1 & Hrev) end.
  rewrite tick_then, draw_then. simpl. rewrite Hrev, Hck1, Hck.
  change (record_of req src (clock (S (S (S (w_clock w))))) c) with (mapped_record w req src c).
  change (is_generated c (mapped_record w req src c)) with (generated_by w req src c).
  change (stamped (revision_id w req) (arrival w) (mapped_record w req src c)) with (incoming w req src c).
  change (revision_of req (arrival w) (revision_id w req) (content_hash req) (evidence_ref w req) c
            (generated_by w req src c) (mapped_record w req src c)) with (new_revision w req src c).
  destruct (incoming_names w req src c) as (Hn1 & Hn2 & _).
  pose proof (adm_org _ _ _ _ Hadm) as Horg. unfold WithOrgTx. rewrite (proj2 (is_empty_false _) Horg).
  assert (Hedges : Forall edge_ok (c_Edges c)).
  { apply Apply_Ok in Hm as (o & ? & es & _ & _ & He & -> & _). by apply (resolveEdges_ok _ _ _ _ He). }
  match goal with |- context [(_ ≫= _) ?w2] =>
    pose proof (commit_tx_spec req (arrival w) (idem_key_of req) (event_id w req) (generated_by w req src c)
      (incoming w req src c) (new_revision w req src c) (c_Edges c) (w_ledger w) Horg Hn2 eq_refl Hedges Hun w2) as Htx
  end.
  specialize (Htx (eq_trans Hl1 Hl)). unfold mbind, M_bind, attempt.
  destruct (commit_tx _ _ _ _ _ _ _ _ _) as [r w3]. simpl in Htx.
  destruct Htx as [[-> Hc]|(Hs & e & -> & He)].
  - pose proof (outcome_committed w req src c (w_ledger w3) Hdry Hadm Hun Hm Hc) as Ho.
    rewrite <-Hn1 in Ho. exact Ho.
  - apply reconcile_Err in He as (-> & Hg & old & Hold & Hsot & Hover).
    rewrite Hn1 in Hold. simpl. rewrite Hs. eapply outcome_protected; [done..|]. split; [done|]. by exists old.
Qed.

Lemma process_outcome w req src :
  admitted (w_ledger w) (arrival w) req src -> key_unused (w_ledger w) req ->
  let '(r, w') := process req src (arrival w) (idem_key_of req) (w <| w_clock := S (w_clock w) |>) in
  outcome w req r (w_ledger w').
Proof.
  intros Hadm Hun. unfold process. cbv zeta. fold (content_hash req) (payload_of req).
  match goal with |- context [(store_evidence _ _ _ ≫= ?f) ?w0] =>
    destruct (store_evidence_then w0 w req f eq_refl eq_refl) as (w1 & -> & Hl & Hck & Hids) end.
  rewrite !tick_then, draw_then, of_result_then. simpl in *. rewrite Hck, Hids.
  change (Apply _ _ _ _ _ _ _) with (mapping_result w req src).
  destruct (mapping_result w req src) as [c|e] eqn:Hm; cycle 1.
  { simpl. rewrite Hl. by eapply outcome_unmapped. }
  destruct (iq_DryRun req) eqn:Hdry.
  - rewrite draw_then. simpl. rewrite Hl.
    replace (evidence_ref w req) with "" by (unfold evidence_ref, keeps_evidence; rewrite Hdry; by destruct (w_evidence w)).
    by eapply outcome_dry.
  - apply commit_outcome; simpl; by rewrite ?Hck, ?Hids.
Qed.

Lemma Intake_outcome req w r w' : Intake req w = (r, w') -> outcome w req r (w_ledger w').
Proof.
  intros Hi. assert (Ho : let '(r, w') := Intake req w in outcome w req r (w_ledger w')); [|by rewrite Hi in Ho].
  clear Hi. unfold Intake. rewrite tick_then. fold (arrival w).
  destruct (accept_source_cases (arrival w) req (w_ledger w)) as [[[e He] Hno]|(src & Hsrc & Hadm)].
  { erewrite on_ledger_then by exact He. exact (outcome_refused w req e Hno). }
  erewrite on_ledger_then by exact Hsrc. cbv beta iota zeta.
  erewrite on_ledger_then by apply find_duplicate_spec.
  destruct (is_empty (idem_key_of req)) eqn:Hk.
  { apply process_outcome; [done|]. intros Hne%is_empty_false. congruence. }
  simpl. destruct (idempotency (w_ledger w) !! _) as [prev|] eqn:Hprev; simpl.
  - apply is_empty_false in Hk. by eapply outcome_duplicate.
  - apply process_outcome; [done | by intros _].
Qed.

(** C20 [Intake] implements its contract, in any world and for any request. A request that
    no source admits at the instant it arrives is an error; a key that was answered before
    gets the stored outcome; a payload that the mapping refuses, and an event that would
    overwrite a source of truth, are errors that leave the ledger as it was; a dry run
    describes its mapping and writes nothing; every other event is committed. The payload
    mapped is the request's own or its decoded body, under the source's ceilings; the evidence
    is named by the SHA-256 of the body that was signed, which is also the content hash
    stored, unless the event brings a hash of its own; the event keeps its identifier or
    gets, like the revision, the next one drawn. *)
Theorem intake_refines req w :
  outcome w req (Intake req w).1 (w_ledger (Intake req w).2).
Proof. by apply Intake_outcome, surjective_pairing. Qed.

(** An intake is all or nothing: when it fails, and when it is a dry run, the
    ledger is exactly what it was, although the store cannot roll back. *)
Theorem intake_all_or_nothing req w r w' :
  Intake req w = (r, w') -> is_ok r = false \/ iq_DryRun req = true -> ledger_untouched w w'.
Proof.
  unfold ledger_untouched. intros [] % Intake_outcome Hcase; try done. destruct Hcase; [done | congruence].
Qed.
End Refinement.

(** ** Consequences *)

(** What a source of truth keeps of itself *)
Record truth_kept (old new : LedgerRecord) : Prop := {
  tk_title : rec_Title new = rec_Title old;
  tk_classification : rec_Classification new = rec_Classification old;
  tk_labels : rec_Labels new = rec_Labels old;
  tk_kind : rec_Kind new = rec_Kind old;
  tk_external : rec_ExternalID new = rec_ExternalID old;
  tk_source : rec_SourceSystem new = rec_SourceSystem old;
  tk_attributes : forall k v, k ∈ sot_attributes ->
    rec_Attributes old !! k = Some v -> rec_Attributes new !! k = Some v;
  tk_authority : attr (rec_Attributes old) "authority" <> "" -> isSourceOfTruth new = true;
}.

Lemma preserveSoT_kept old rec t created updated :
  isSourceOfTruth old = true ->
  truth_kept old (promoted ((preserveSoT old rec) <| rec_CreatedAt := t |>) created updated).
Proof.
  intros Hsot. set (new := promoted _ _ _).
  assert (Hattr : forall k v, k ∈ sot_attributes ->
    rec_Attributes old !! k = Some v -> rec_Attributes new !! k = Some v).
  { intros k v Hk Hv. simpl.
    assert (k <> "ensured" /\ k <> "placeholder") as [H1 H2].
    { unfold sot_attributes in Hk. rewrite !elem_of_cons, elem_of_nil in Hk.
      destruct Hk as [->|[->|[->|[->|[]]]]]; done. }
    rewrite !lookup_delete_ne by done. apply lookup_union_Some_l.
    by apply map_lookup_filter_Some_2. }
  split; try done. intros Ha. unfold attr in Ha.
  destruct (rec_Attributes old !! "authority") as [v|] eqn:Hv; [|done]. simpl in Ha.
  apply (Hattr "authority") in Hv as Hn; [|by left]. clearbody new.
  unfold isSourceOfTruth, authority_of, attr in *. rewrite Hn. rewrite Hv in Hsot.
  apply is_empty_false in Ha. unfold or_default in *. simpl in *. by rewrite Ha in *.
Qed.

Section Consequences.
Context `{GoEnv, GoMapOrder}.

(** C18 A generated observation cannot rewrite a source of truth: whatever an intake
    answers, a record whose authority is the source of truth is still there, unchanged or
    with its title, classification, labels, kind and origin as they were and every trust
    attribute that it has (trust, authority, visibility) with the value it had, so that it
    still is a source of truth if it has the attribute [authority]; unless the event was
    mapped, from its own payload, onto that very record and is not a generated one. A trust
    attribute that the record does not have may be added: one whose authority is stored as
    [source_authority] alone can lose its rank ([truth_demoted]). *)
Theorem truth_survives_generated req w r w' rid old :
  Intake req w = (r, w') ->
  lookup2 (records (w_ledger w)) (iq_OrgID req) rid = Some old -> isSourceOfTruth old = true ->
  exists new, lookup2 (records (w_ledger w')) (iq_OrgID req) rid = Some new /\
    (new = old \/ truth_kept old new \/
     exists src c, admitted (w_ledger w) (arrival w) req src /\ mapping_result w req src = Ok c /\
       c_ResourceID c = rid /\ generated_by w req src c = false).
Proof.
  intros Hi Hold Hsot.
  apply Intake_outcome in Hi as [ | | | | |src c s' Hdry Hadm Hun Hm rev Hc]; [by eauto..|].
  destruct (incoming_names w req src c) as (Hrid & _).
  destruct (decide (rid = c_ResourceID c)) as [->|Hne].
  - destruct Hc as [(rec1 & created & updated & Hrec & Hl) _ _ _ _ _]. rewrite Hrid in *.
    eexists. split; [exact Hl|]. right.
    unfold row_of, GetRecordTx, GetRecord, find in Hrec. rewrite Hold in Hrec. simpl in Hrec.
    destruct (generated_by w req src c) eqn:Hgen; [left | right; eauto 10].
    rewrite Hsot in Hrec. simpl in Hrec. apply result_bind_Ok in Hrec as (rec2 & Hw & [= <-]).
    destruct (wouldOverwriteSoT _ _); [done|]. injection Hw as <-.
    by apply preserveSoT_kept.
  - exists old. split; [|by left]. apply (cm_others _ _ _ _ _ _ _ _ _ _ Hc); [|done].
    rewrite Hrid. congruence.
Qed.

(** An accepted event is committed: its record is live under the answered
    revision, whatever state it had before; the revision, the outbox entry and
    the idempotency key carry the answered identifiers; every other record of
    the ledger stays; and every mapped edge is active, provided the edges'
    identifiers do not collide. *)
Theorem intake_accepted req w res w' :
  Intake req w = (Ok res, w') -> iq_DryRun req = false -> res_Duplicate res = false ->
  let s := w_ledger w in
  let s' := w_ledger w' in
  let org := iq_OrgID req in
  exists src c rec rev ob,
    admitted s (arrival w) req src /\ mapping_result w req src = Ok c /\
    c_ResourceID c = res_ResourceID res /\
    lookup2 (records s') org (res_ResourceID res) = Some rec /\
    rec_State rec = LifecycleAccepted /\ rec_CurrentRevID rec = res_RevisionID res /\
    lookup2 (revisions s') org (res_RevisionID res) = Some rev /\
    rev_ContentHash rev = res_ContentHash res /\ rev_EvidenceRef rev = res_EvidenceRef res /\
    outbox s' = outbox s ++ [ob] /\ ob_ID ob = res_EventID res /\ ob_Published ob = None /\
    (forall a b r, (a, b) <> (org, res_ResourceID res) ->
       lookup2 (records s) a b = Some r -> lookup2 (records s') a b = Some r) /\
    (ids_apart s org (c_Edges c) -> forall e, e ∈ c_Edges c -> active_edge s' org (triple_of e)).
Proof.
  intros Hi Hdry Hdup. cbv zeta. apply Intake_outcome in Hi.
  inversion Hi as [ | | |src c Hd| |src c s' _ Hadm Hun Hm rev Hc];
    subst; try done; [congruence|]. simpl in *.
  destruct (incoming_names w req src c) as (Hrid & _ & Hrevid & Hstate).
  destruct Hc as [(rec1 & created & updated & Hrec & Hl) Hoth (created2 & Hrev) (created3 & Hout) _ Hedg].
  rewrite Hrid in *. destruct (reconcile_names _ _ _ _ _ Hrec) as (_ & _ & Hcur & Hst).
  exists src, c. eexists _, _, _.
  split_and!; try done; simpl; [by rewrite Hst, Hstate | congruence].
Qed.

(** C19 An intake is idempotent: after a key was answered, by an intake that is not a dry
    run, and whatever other calls the ledger served in the meantime, a later intake of the
    organization with the same key changes nothing in the ledger; it answers the same event,
    resource and revision, marked as a duplicate, or it is an error because no source admits
    it when it arrives. *)
Theorem intake_idempotent req w res w1 cs w2 req2 r2 w3 :
  Intake req w = (Ok res, w1) -> iq_DryRun req = false -> idem_key_of req <> "" ->
  w_ledger w2 = run cs (w_ledger w1) ->
  iq_OrgID req2 = iq_OrgID req -> idem_key_of req2 = idem_key_of req ->
  Intake req2 w2 = (r2, w3) ->
  ledger_untouched w2 w3 /\
  ((exists again, r2 = Ok again /\ res_Status again = "duplicate" /\ same_event res again) \/
   (exists e, r2 = Err e) /\ forall src, ~ admitted (w_ledger w2) (arrival w2) req2 src).
Proof.
  unfold ledger_untouched. intros Hi Hdry Hkey Hw2 Horg Hk2 Hi2.
  assert (Hstored : exists prev,
    idempotency (w_ledger w1) !! idem_key (iq_OrgID req) (idem_key_of req) = Some prev /\
    idem_EventID prev = res_EventID res /\ idem_ResourceID prev = res_ResourceID res /\
    idem_RevisionID prev = res_RevisionID res).
  { apply Intake_outcome in Hi.
    inversion Hi as [|src prev _ _ Hprev| |src c Hd| |src c s' _ Hadm Hun Hm rev Hc];
      subst; [by exists prev | congruence |].
    pose proof (cm_key _ _ _ _ _ _ _ _ _ _ Hc) as Hck.
    rewrite (proj2 (is_empty_false _) Hkey) in Hck. destruct Hck as [created ->].
    rewrite lookup_insert_eq. eexists. split; [done|]. simpl. split; [done|]. split; [|done].
    by destruct (incoming_names w req src c). }
  destruct Hstored as (prev & Hprev & He1 & He2 & He3).
  apply (run_keeps_key cs) in Hprev. rewrite <- Hw2, <- Horg, <- Hk2 in Hprev.
  assert (Hused : ~ key_unused (w_ledger w2) req2).
  { intros Hun. unfold key_unused in Hun. rewrite Hun in Hprev; congruence. }
  apply Intake_outcome in Hi2.
  inversion Hi2 as [e Hno|src prev' Hadm _ Hprev'| | | |]; subst; try done.
  - split; [done|]. right. eauto.
  - split; [done|]. left. eexists. split; [done|]. unfold same_event. simpl.
    rewrite Hprev in Hprev'. by injection Hprev' as <-.
Qed.
End Consequences.

(** ** A concrete intake *)
#[local] Existing Instances sample_env order_forward.

Definition sample_source : SourceRegistration :=
  mkSource "src1" "org1" "tickets" "" "" "trusted_internal" "source_of_truth" "confidential" "" "" ""
    true "s3cret" 0 ["ticket"] ["resource:proj#viewer"] ∅ 1 1.
Definition intake_world : World :=
  mkWorld (UpsertSource 1 sample_source NewStore).2 (Some NewEvidence) None NewMemory [] [] 0 0.
Definition intake_event (eventID : string) : IntakeEvent :=
  mkIntakeEvent eventID "org1" "src1" "T1" "r1" "" "" "" "" ∅ 1.
Definition intake_request (eventID trust : string) : Request :=
  mkRequest "org1" "src1" "" (SignHMAC "s3cret" (marshal (AObj sample_payload))) "1700000000" ""
    (sample_spec <| sp_Mappings := (sp_Mappings sample_spec) <| fm_Trust := konst trust |> |>)
    (Some sample_payload) (intake_event eventID) false false.

Definition first_request : Request := intake_request "ev1" "untrusted_external".
Definition first_intake := Intake first_request intake_world.
Definition no_result : Result := mkResult "" "" "" "" "" false false "" "" 0.
Definition first_result : Result := match first_intake.1 with Ok r => r | Err _ => no_result end.
Lemma first_intake_ok : Intake first_request intake_world = (Ok first_result, first_intake.2).
Proof. vm_compute. reflexivity. Qed.

Lemma intake_all_or_nothing_witness :
  ledger_untouched intake_world (Intake (first_request <| iq_Signature := "00" |>) intake_world).2.
Proof.
  refine (@intake_all_or_nothing sample_env order_forward (first_request <| iq_Signature := "00" |>) intake_world
    (Err (ErrUnauthorized "invalid HMAC signature")) _ _ (or_introl eq_refl)).
  vm_compute. reflexivity.
Defined.

Lemma intake_accepted_witness :
  exists rec, lookup2 (records (w_ledger first_intake.2)) (iq_OrgID first_request)
         (res_ResourceID first_result) = Some rec /\
    rec_State rec = LifecycleAccepted /\ rec_CurrentRevID rec = res_RevisionID first_result.
Proof.
  destruct (@intake_accepted sample_env order_forward first_request intake_world first_result first_intake.2 first_intake_ok)
    as (src & c & rec & rev & ob & _ & _ & _ & Hrec & Hst & Hcur & _).
  - reflexivity.
  - vm_compute. reflexivity.
  - exists rec. split; [exact Hrec|]. split; [exact Hst | exact Hcur].
Defined.

(** The same event again, after the worker claimed the outbox *)
Definition later_world : World :=
  first_intake.2 <| w_ledger := run [CClaimOutbox 9 10] (w_ledger first_intake.2) |>.
Definition second_intake := Intake first_request later_world.
Definition second_result : Result := match second_intake.1 with Ok r => r | Err _ => no_result end.

Lemma intake_idempotent_witness :
  ledger_untouched later_world second_intake.2 /\
  ((exists again, second_intake.1 = Ok again /\ res_Status again = "duplicate" /\
     same_event first_result again) \/
   (exists e, second_intake.1 = Err e) /\
   forall src, ~ admitted (w_ledger later_world) (arrival later_world) first_request src).
Proof.
  apply (@intake_idempotent sample_env order_forward first_request intake_world first_result first_intake.2 [CClaimOutbox 9 10]
           later_world first_request second_intake.1 second_intake.2 first_intake_ok).
  - reflexivity.
  - vm_compute. discriminate.
  - reflexivity.
  - reflexivity.
  - reflexivity.
  - apply surjective_pairing.
Defined.

(** A machine's observation of a ticket that the source of truth has filed *)
Definition true_record : LedgerRecord :=
  mkRecord "T1" "org1" "ticket" "Broken" "internal" [] "tickets" "T1" "" "ACCEPTED"
    {["authority" := "source_of_truth"]} 1 1.
Definition truth_world : World :=
  intake_world <| w_ledger := (UpsertRecord 1 true_record (w_ledger intake_world)).2 |>.
Definition stored_truth : LedgerRecord := true_record.
Definition observation := Intake (intake_request "ev2" "generated") truth_world.

Lemma truth_survives_generated_witness :
  exists new, lookup2 (records (w_ledger observation.2)) "org1" "T1" = Some new /\
    (new = stored_truth \/ truth_kept stored_truth new \/
     exists src c,
       admitted (w_ledger truth_world) (arrival truth_world) (intake_request "ev2" "generated") src /\
       mapping_result truth_world (intake_request "ev2" "generated") src = Ok c /\
       c_ResourceID c = "T1" /\
       generated_by truth_world (intake_request "ev2" "generated") src c = false).
Proof.
  apply (@truth_survives_generated sample_env order_forward (intake_request "ev2" "generated") truth_world observation.1
           observation.2 "T1" stored_truth).
  - apply surjective_pairing.
  - vm_compute. reflexivity.
  - reflexivity.
Defined.

(** A source of truth by its attribute [source_authority] alone: the observation adds the
    attribute [authority], which is read first, and the record is a source of truth no
    more. *)
Definition alias_record : LedgerRecord :=
  true_record <| rec_Attributes := {["source_authority" := "source_of_truth"]} |>.
Definition alias_world : World :=
  intake_world <| w_ledger := (UpsertRecord 1 alias_record (w_ledger intake_world)).2 |>.
Definition observed (w : World) : option LedgerRecord :=
  lookup2 (records (w_ledger (Intake (intake_request "ev2" "generated") w).2)) "org1" "T1".
Example truth_demoted :
  isSourceOfTruth alias_record = true /\
  (isSourceOfTruth <$> observed alias_world) = Some false /\
  (isSourceOfTruth <$> observed truth_world) = Some true.
Proof. vm_compute. split_and!; reflexivity. Qed.
