(* ===== verification/SignatureFacts.v ===== *)
(** * The signatures of sources and webhooks

    A hexadecimal HMAC has no white space and no prefix, so [VerifyHMAC] accepts
    what [SignHMAC] makes with the same secret, in each of the three forms that a
    signature header may have. *)
From S2P Require Import Prelude GoStd Sha256 Ports Platform Mapping Ledger AuthnFacts Changes Ingest IngestFacts.

(** ** Hexadecimal strings *)
Definition is_hex (c : ascii) : Prop := (48 <= code c <= 57 \/ 97 <= code c <= 102)%nat.

Lemma hex_digit_hex n : (n < 16)%nat -> is_hex (hex_digit n).
Proof. intros Hn. unfold is_hex. do 16 (destruct n as [|n]; [vm_compute; lia|]). lia. Qed.
Lemma hex_encode_hex s : Forall is_hex (bytes_of (hex_encode s)).
Proof.
  induction s as [|c s IH]; [constructor|].
  change (Forall is_hex (hex_digit (code c / 16) :: hex_digit (code c mod 16) :: bytes_of (hex_encode s))).
  assert (code c < 256)%nat by apply nat_ascii_bounded.
  rewrite !Forall_cons. split_and!; [| |exact IH]; apply hex_digit_hex.
  - apply Nat.Div0.div_lt_upper_bound. lia.
  - apply Nat.mod_upper_bound. lia.
Qed.

Lemma hex_not_space a b c :
  is_hex a -> is_space1 (code a) = false /\ is_space2 (code a) b = false /\
  is_space3 (code a) b c = false /\ is_space2 b (code a) = false /\ is_space3 b c (code a) = false.
Proof.
  unfold is_hex, is_space1, is_space2, is_space3. intros Ha. generalize dependent (code a). intros n Hn.
  repeat match goal with
  | |- context [(n =? ?k)%nat] => replace (n =? k)%nat with false by (symmetry; apply Nat.eqb_neq; lia)
  | |- context [(128 <=? n)%nat] => replace (128 <=? n)%nat with false by (symmetry; apply Nat.leb_gt; lia)
  | |- context [(n <=? 13)%nat] => replace (n <=? 13)%nat with false by (symmetry; apply Nat.leb_gt; lia)
  end.
  rewrite ?andb_false_r. simpl. by rewrite ?andb_false_r.
Qed.

Lemma trim_left_hex l : Forall is_hex l -> trim_left l = l.
Proof.
  destruct l as [|a l]; [done|]. intros [Ha _]%Forall_cons. simpl.
  destruct (hex_not_space a 0 0 Ha) as (-> & _). destruct l as [|b l]; [done|].
  destruct (hex_not_space a (code b) 0 Ha) as (_ & -> & _). destruct l as [|c l]; [done|].
  by destruct (hex_not_space a (code b) (code c) Ha) as (_ & _ & -> & _).
Qed.
Lemma trim_left_rev_hex l : Forall is_hex l -> trim_left_rev l = l.
Proof.
  destruct l as [|a l]; [done|]. intros [Ha _]%Forall_cons. simpl.
  destruct (hex_not_space a 0 0 Ha) as (-> & _). destruct l as [|b l]; [done|].
  destruct (hex_not_space a (code b) 0 Ha) as (_ & _ & _ & -> & _). destruct l as [|c l]; [done|].
  by destruct (hex_not_space a (code c) (code b) Ha) as (_ & _ & _ & _ & ->).
Qed.

(** A string without white space at its ends, such as a prefixed digest *)
Lemma trim_space_hex pre s :
  Forall is_hex (bytes_of s) -> s <> "" -> trim_left (bytes_of (pre +:+ s)) = bytes_of (pre +:+ s) ->
  trim_space (pre +:+ s) = pre +:+ s.
Proof.
  intros Hs Hne Hl. unfold trim_space. rewrite Hl. unfold bytes_of, of_bytes in *.
  assert (Happ : String.list_ascii_of_string (pre +:+ s)
                 = String.list_ascii_of_string pre ++ String.list_ascii_of_string s).
  { clear. induction pre as [|c pre IH]; [done|]. simpl. by rewrite IH. }
  rewrite Happ, reverse_app. set (l := String.list_ascii_of_string s) in *.
  assert (Hr : trim_left_rev (reverse l ++ reverse (String.list_ascii_of_string pre))
               = reverse l ++ reverse (String.list_ascii_of_string pre)).
  { destruct (reverse l) as [|a r] eqn:Hrev.
    { exfalso. apply Hne. apply (f_equal reverse) in Hrev. rewrite reverse_involutive in Hrev.
      destruct s; [done|]. by subst l. }
    assert (Ha : is_hex a).
    { rewrite Forall_forall in Hs. apply Hs. apply elem_of_reverse. rewrite Hrev. left. }
    rewrite <-app_comm_cons. generalize (r ++ reverse (String.list_ascii_of_string pre)). intros rest. simpl.
    destruct (hex_not_space a 0 0 Ha) as (-> & _). destruct rest as [|b rest]; [done|].
    destruct (hex_not_space a (code b) 0 Ha) as (_ & _ & _ & -> & _). destruct rest as [|c rest]; [done|].
    by destruct (hex_not_space a (code c) (code b) Ha) as (_ & _ & _ & _ & ->). }
  rewrite Hr, <-reverse_app, reverse_involutive, <-Happ. apply String.string_of_list_ascii_of_string.
Qed.

Lemma trim_prefix_hex pre s c :
  Forall is_hex (bytes_of s) -> (exists r, pre = String c r) -> ~ is_hex c -> trim_prefix s pre = s.
Proof.
  intros Hs (r & ->) Hc. unfold trim_prefix. destruct (has_prefix s (String c r)) eqn:Hp; [|done].
  apply has_prefix_app in Hp as (q & ->). apply Forall_cons in Hs as [Hh _]. done.
Qed.
Lemma trim_prefix_app pre s : trim_prefix (pre +:+ s) pre = s.
Proof.
  unfold trim_prefix. rewrite app_has_prefix. by induction pre as [|c pre IH].
Qed.

(** ** Signatures *)
Lemma SignHMAC_hex secret body :
  Forall is_hex (bytes_of (Ingest.SignHMAC secret body)) /\ Ingest.SignHMAC secret body <> "".
Proof.
  split; [apply hex_encode_hex|]. unfold Ingest.SignHMAC.
  pose proof (hmac_nonempty secret body). by destruct (hmac_sha256 secret body).
Qed.

(** The three forms of the header *)
Inductive header_form := Bare | Sha256Form | V1Form.
Definition header_prefix (f : header_form) : string :=
  match f with Bare => "" | Sha256Form => "sha256=" | V1Form => "v1=" end.

Lemma digest_of_header f secret body :
  let h := Ingest.SignHMAC secret body in
  trim_prefix (trim_prefix (trim_space (header_prefix f +:+ h)) "sha256=") "v1=" = h.
Proof.
  intros h. destruct (SignHMAC_hex secret body) as [Hh Hne]. fold h in Hh, Hne.
  assert (Hs : trim_prefix h "sha256=" = h).
  { eapply trim_prefix_hex; [exact Hh | by eexists | unfold is_hex; vm_compute; lia]. }
  assert (Hv : trim_prefix h "v1=" = h).
  { eapply trim_prefix_hex; [exact Hh | by eexists | unfold is_hex; vm_compute; lia]. }
  rewrite trim_space_hex; [|done..|].
  - destruct f; cbn [header_prefix];
      [change ("" +:+ h) with h; by rewrite Hs | by rewrite trim_prefix_app |].
    assert (has_prefix ("v1=" +:+ h) "sha256=" = false) as Hp by done.
    unfold trim_prefix at 2. rewrite Hp. apply trim_prefix_app.
  - destruct f; [by apply trim_left_hex | done | done].
Qed.

(** C21 A signature verifies: what [SignHMAC] makes from a secret and a body is accepted by
    [VerifyHMAC] with that secret and that body, bare or after [sha256=] or [v1=], so that
    the signature of a webhook delivery verifies with the secret of its subscription too;
    and a signature made with another secret or for another body is accepted only if the
    two codes are equal. *)
Theorem signature_roundtrip f secret secret' body body' :
  let header := header_prefix f +:+ Ingest.SignHMAC secret body in
  VerifyHMAC secret body header = Ok tt /\
  (VerifyHMAC secret' body' header = Ok tt <->
   to_lower (Ingest.SignHMAC secret body) = to_lower (Ingest.SignHMAC secret' body')) /\
  (forall cfg, secret <> "" -> VerifyHMAC secret body (Changes.SignHMAC cfg secret body) = Ok tt).
Proof.
  assert (Hv : forall f k b, VerifyHMAC k b (header_prefix f +:+ Ingest.SignHMAC secret body)
    = if String.eqb (to_lower (Ingest.SignHMAC secret body)) (to_lower (Ingest.SignHMAC k b))
      then Ok tt else Err (ErrUnauthorized "invalid HMAC signature")).
  { intros g k b. unfold VerifyHMAC. cbv zeta. rewrite digest_of_header.
    destruct (SignHMAC_hex secret body) as [_ Hne%is_empty_false]. rewrite Hne. simpl.
    by destruct (String.eqb _ _). }
  cbv zeta. rewrite !Hv, String.eqb_refl. split_and!; [done | |].
  - destruct (String.eqb_spec (to_lower (Ingest.SignHMAC secret body)) (to_lower (Ingest.SignHMAC secret' body'))); done.
  - intros cfg Hs%is_empty_false. specialize (Hv Sha256Form secret body). rewrite String.eqb_refl in Hv.
    rewrite <-Hv. unfold Changes.SignHMAC, or_default. by rewrite Hs.
Qed.
