(* ===== verification/Worker.v ===== *)
(** * [internal/application/worker.go]: the background passes

    One pass of each loop: the outbox relay, the index projection, the queue of
    authorization tuples and its reconciliation. The tickers and the gauges
    are left out; the shutdown and the acknowledgements are in [Shutdown]. The bus and the authorization service may be out of reach: [Links] says
    which call fails, by the number of readings of the clock before it. *)
From S2P Require Import Prelude GoStd Ports Platform Json OpenFGA.
From S2P Require Import Ledger Index AuditLog World.

Class Links := {
  bus_down : nat -> option GoError;
  authz_down : nat -> option GoError;
}.
Definition links_up : Links := {| bus_down := fun _ => None; authz_down := fun _ => None |}.

(** [wk_Inspector]: the authorization adapter also answers [HasTuple]. *)
Record Worker := mkWorker {
  wk_Batch : Z; wk_MaxAuthzAttempts : Z; wk_Authz : bool; wk_Inspector : bool;
}.
#[export] Instance Worker_eta : Settable Worker := fun r =>
  mkWorker (wk_Batch r) (wk_MaxAuthzAttempts r) (wk_Authz r) (wk_Inspector r).

(** The defaults that [Start] fills in *)
Definition started (w : Worker) : Worker :=
  (w <| wk_Batch := or_limit (wk_Batch w) 10 |>)
    <| wk_MaxAuthzAttempts := or_limit (wk_MaxAuthzAttempts w) 12 |>.

Definition indexConsumer : string := "context-index-projector".

(** ** The payload of an outbox entry *)
Record outboxPayload := mkPayload {
  pl_EventID : string; pl_OrgID : string; pl_ResourceID : string; pl_RevisionID : string;
}.
#[export] Instance outboxPayload_eta : Settable outboxPayload := fun r =>
  mkPayload (pl_EventID r) (pl_OrgID r) (pl_ResourceID r) (pl_RevisionID r).

(** One member decoded into the struct: names match without regard to case, [null]
    changes nothing, another type is an error. *)
Definition set_field (p : outboxPayload) (kv : string * any) : option outboxPayload :=
  let put f := match kv.2 with AStr s => Some (f s) | ANil => Some p | _ => None end in
  if equal_fold kv.1 "event_id" then put (fun s => p <| pl_EventID := s |>)
  else if equal_fold kv.1 "org_id" then put (fun s => p <| pl_OrgID := s |>)
  else if equal_fold kv.1 "resource_id" then put (fun s => p <| pl_ResourceID := s |>)
  else if equal_fold kv.1 "revision_id" then put (fun s => p <| pl_RevisionID := s |>)
  else Some p.
Fixpoint set_fields (p : outboxPayload) (l : list (string * any)) : option outboxPayload :=
  match l with
  | [] => Some p
  | kv :: l => p ← set_field p kv; set_fields p l
  end.
Definition decode_payload (data : string) : option outboxPayload :=
  v ← parse_json data;
  match v with
  | AObj m => set_fields (mkPayload "" "" "" "") m
  | ANil => Some (mkPayload "" "" "" "")
  | _ => None
  end.

Section Passes.
Context `{GoEnv, GoMapOrder, Links}.

(** ** The index projection *)
Definition document_of (p : outboxPayload) (rec : LedgerRecord) : IndexDocument :=
  mkIndexDocument (pl_ResourceID p) (pl_RevisionID p) (pl_OrgID p) (rec_Title rec) (rec_Labels rec)
    {["classification" := rec_Classification rec]}.

Definition mark_inbox (p : outboxPayload) : service unit :=
  id ← draw; t ← tick;
  on_ledger (PutInbox (mkInbox id (pl_OrgID p) indexConsumer (pl_EventID p) t)).

(** A placeholder is not indexed; a failing lookup leaves the event unmarked. *)
Definition project_record (p : outboxPayload) : service unit :=
  rec ← on_ledger (GetRecord (pl_OrgID p) (pl_ResourceID p));
  if unresolved_state (rec_State rec) then mret tt
  else on_index (fun i => (tt, Upsert [document_of p rec] i)).

Definition has_index : service bool := gets (fun w => bool_decide (is_Some (w_index w))).

Definition project (p : outboxPayload) : service unit :=
  if is_empty (pl_OrgID p) || is_empty (pl_EventID p) then mret tt
  else
    has ← on_ledger (HasInbox (pl_OrgID p) indexConsumer (pl_EventID p));
    if has : bool then mret tt
    else
      indexed ← has_index;
      _ ← (if indexed && negb (is_empty (pl_ResourceID p)) then project_record p else mret tt);
      mark_inbox p.

Definition projectPayload (data : string) : service unit :=
  match decode_payload data with
  | Some p => project p
  | None => mret tt
  end.

(** ** The outbox relay *)
Definition publish (subject data : string) (headers : strmap) : service unit := fun w =>
  match bus_down (w_clock w) with
  | Some e => (Err e, w <| w_clock := S (w_clock w) |>)
  | None =>
      let id := or_default (attr headers "Nats-Msg-Id") (attr headers "event_id") in
      let msg := mkMessage subject data headers id (clock (w_clock w)) in
      (Ok tt, (w <| w_bus := w_bus w ++ [msg] |>) <| w_clock := S (w_clock w) |>)
  end.

Definition relay_headers (e : OutboxEntry) : strmap :=
  let headers := default ∅ (ob_Headers e) in
  let eventID := or_default (attr headers "event_id") (ob_ID e) in
  <["event_id" := eventID]> (<["Nats-Msg-Id" := eventID]> headers).

(** A failing projection is logged; the entry still counts as published. *)
Definition relay_entry (e : OutboxEntry) : service unit :=
  _ ← publish (ob_Subject e) (ob_Payload e) (relay_headers e);
  _ ← attempt (projectPayload (ob_Payload e));
  mret tt.

Definition relayOnce (wk : Worker) : service unit :=
  entries ← timed (fun t => ClaimOutbox t (wk_Batch wk));
  match entries with
  | [] => mret tt
  | _ =>
      _ ← for_each relay_entry entries;
      t ← tick;
      on_ledger (MarkOutboxPublished (ob_ID <$> entries) t)
  end.

(** The messages of an in-process bus, each projected, errors logged *)
Definition consumeOnce : service unit :=
  msgs ← gets w_bus;
  for_each (fun m => _ ← attempt (projectPayload (msg_Data m)); mret tt) msgs.

(** ** The queue of authorization tuples *)
Definition tuple_of (op : AuthzTupleOp) : RelationshipTuple :=
  mkTuple (op_Object op) (op_Relation op) (op_Subject op).
Definition applied_to (op : AuthzTupleOp) (m : Memory) : Memory :=
  if String.eqb (op_Operation op) "delete" then DeleteTuples [tuple_of op] m
  else WriteTuples [tuple_of op] m.

Definition apply_tuple (op : AuthzTupleOp) : service unit := fun w =>
  match authz_down (w_clock w) with
  | Some e => (Err e, w <| w_clock := S (w_clock w) |>)
  | None => (Ok tt, (w <| w_authz := applied_to op (w_authz w) |>)
                      <| w_clock := S (w_clock w) |>)
  end.

Definition settle_failure (wk : Worker) (op : AuthzTupleOp) (e : GoError) : service unit :=
  let attempts := wrap64 (op_Attempts op + 1) in
  let dead := wk_MaxAuthzAttempts wk <=? attempts in
  n ← of_result (shl1 (Z.min attempts 6));
  t ← tick;
  let next := add_time t (wrap64 (n * second)) in
  _ ← attempt (timed (fun t' =>
        MarkAuthzTupleFailed t' (op_ID op) attempts next (error_string e) dead));
  mret tt.

Definition settle_op (wk : Worker) (op : AuthzTupleOp) : service unit :=
  r ← attempt (apply_tuple op);
  match r with
  | Err e => settle_failure wk op e
  | Ok _ =>
      t ← tick;
      _ ← attempt (on_ledger (MarkAuthzTupleApplied (op_ID op) t));
      mret tt
  end.

Definition authzOnce (wk : Worker) : service unit :=
  if negb (wk_Authz wk) then mret tt
  else
    ops ← timed (fun t => ClaimAuthzTuples t (wk_Batch wk) (30 * second));
    for_each (settle_op wk) ops.

(** [None] when the fuel is spent before the queue is empty. The pause between two
    passes and the cancellation of the context are left out. *)
Fixpoint DrainAuthz (fuel : nat) (wk : Worker) : service (option unit) :=
  match fuel with
  | O => mret None
  | S fuel =>
      counts ← on_ledger (CountAuthzTuplePending "");
      if counts.1 =? 0 then mret (Some tt)
      else _ ← authzOnce wk; DrainAuthz fuel wk
  end.

(** ** Reconciliation *)
Definition edge_tuple (e : GraphEdge) : RelationshipTuple :=
  mkTuple (ResourceObject (edge_FromID e)) EdgeParent (ResourceObject (edge_ToID e)).

Definition inspect_tuple (t : RelationshipTuple) : service bool := fun w =>
  match authz_down (w_clock w) with
  | Some e => (Err e, w <| w_clock := S (w_clock w) |>)
  | None => (Ok (HasTuple (w_authz w) t), w <| w_clock := S (w_clock w) |>)
  end.

(** Without an inspector the queue itself tells what was written. *)
Definition covered (wk : Worker) (e : GraphEdge) : service bool :=
  if wk_Inspector wk then inspect_tuple (edge_tuple e)
  else on_ledger (HasAuthzTupleCoverage (edge_OrgID e) "write" (ResourceObject (edge_FromID e))
                    EdgeParent (ResourceObject (edge_ToID e))).

Definition reconcile_edge (wk : Worker) (now : Time) (e : GraphEdge) : service unit :=
  pending ← on_ledger (HasAuthzTuplePending (edge_OrgID e) "write" (ResourceObject (edge_FromID e))
                         EdgeParent (ResourceObject (edge_ToID e)));
  if pending : bool then mret tt
  else
    done ← covered wk e;
    if done : bool then mret tt
    else
      _ ← attempt (WithOrgTx (edge_OrgID e)
            (id ← draw; timed (fun t => EnqueueForEdge t id e OperationWrite now)));
      mret tt.

Definition reconcileOnce (wk : Worker) : service unit :=
  edges ← on_ledger (ListActiveParentEdgesNeedingAuthz "" 200);
  now ← tick;
  for_each (reconcile_edge wk now) edges.
End Passes.
