(* ===== verification/WorkerFacts.v ===== *)
(** * What the background passes guarantee

    Projection happens once per event; the relay marks an entry only after its
    message is on the bus. *)
From S2P Require Import Prelude GoStd Ports Platform Json OpenFGA.
From S2P Require Import Mapping Ledger LedgerFacts LedgerQueries Index AuditLog World.
From S2P Require Import Worker.

(** ** Projection *)

(** What a projection may change besides the index: it files inbox entries. *)
Definition inbox_grows (w w' : World) : Prop :=
  exists i, w_ledger w' = (w_ledger w) <| inbox := i |> /\
            (forall k, is_Some (inbox (w_ledger w) !! k) -> is_Some (i !! k)) /\
            w_bus w' = w_bus w /\ w_authz w' = w_authz w.

Lemma inbox_grows_refl w : inbox_grows w w.
Proof. exists (inbox (w_ledger w)). by destruct (w_ledger w). Qed.

Lemma inbox_grows_trans w1 w2 w3 : inbox_grows w1 w2 -> inbox_grows w2 w3 -> inbox_grows w1 w3.
Proof.
  intros (i1 & H1 & Hs1 & Hb1 & Ha1) (i2 & H2 & Hs2 & Hb2 & Ha2). exists i2.
  rewrite H1 in H2, Hs2. simpl in *. split_and!; [done | by auto | congruence | congruence].
Qed.

Section Projection.
Context `{GoEnv}.

Lemma HasInbox_run orgID consumer msgID w :
  on_ledger (HasInbox orgID consumer msgID) w =
  (Ok (bool_decide (is_Some (inbox (w_ledger w) !! inbox_key orgID consumer msgID))), w).
Proof. by destruct w. Qed.

Definition projected (s : Store) (p : outboxPayload) : Prop :=
  is_Some (inbox s !! inbox_key (pl_OrgID p) indexConsumer (pl_EventID p)).

(** An event without an organization or an identifier, or one already marked *)
Definition settled_event (s : Store) (p : outboxPayload) : Prop :=
  pl_OrgID p = "" \/ pl_EventID p = "" \/ projected s p.

#[export] Instance settled_event_dec s p : Decision (settled_event s p).
Proof. unfold settled_event, projected. apply _. Defined.

Lemma project_settled p w : settled_event (w_ledger w) p -> project p w = (Ok tt, w).
Proof.
  intros [Ho|[He|Hp]]; unfold project.
  - by rewrite Ho.
  - rewrite He. by rewrite orb_true_r.
  - destruct (_ || _)%bool; [done|]. unfold projected in Hp.
    rewrite (bind_run _ _ _ true w); [done|]. by rewrite HasInbox_run, bool_decide_eq_true_2.
Qed.

(** What a projection that succeeds leaves in the index *)
Definition index_after (w : World) (p : outboxPayload) : option Index :=
  i ← w_index w;
  match lookup2 (records (w_ledger w)) (pl_OrgID p) (pl_ResourceID p) with
  | Some rec => if is_empty (pl_ResourceID p) || unresolved_state (rec_State rec) then Some i
                else Some (Upsert [document_of p rec] i)
  | None => Some i
  end.

(** The event is marked, and of everything but the index nothing else changed. *)
Definition marks (p : outboxPayload) (w w' : World) : Prop :=
  (exists e, in_OrgID e = pl_OrgID p /\ in_Consumer e = indexConsumer /\ in_MsgID e = pl_EventID p /\
     w_ledger w' = (w_ledger w) <| inbox :=
       <[inbox_key (pl_OrgID p) indexConsumer (pl_EventID p) := e]> (inbox (w_ledger w)) |>) /\
  w_bus w' = w_bus w /\ w_authz w' = w_authz w /\ w_evidence w' = w_evidence w /\ w_audit w' = w_audit w.

Lemma marks_projected p w w' : marks p w w' -> projected (w_ledger w') p.
Proof. intros [(e & _ & _ & _ & ->) _]. unfold projected. simpl. by rewrite lookup_insert_eq. Qed.
Lemma marks_grows p w w' : marks p w w' -> inbox_grows w w'.
Proof.
  intros [(e & _ & _ & _ & Hl) (? & ? & _)]. eexists. split_and!; [exact Hl | | done | done].
  intros k Hk. rewrite lookup_insert. by case_decide.
Qed.

Lemma mark_inbox_spec p w :
  exists w', mark_inbox p w = (Ok tt, w') /\ w_index w' = w_index w /\ marks p w w'.
Proof. eexists. split; [reflexivity|]. split; [done|]. split; [|by split_and!].
  by exists (mkInbox (fresh_id (w_ids w)) (pl_OrgID p) indexConsumer (pl_EventID p) (clock (w_clock w))).
Qed.

(** The projection of an event that is not settled fails without a trace, when
    the record is missing, or indexes the record and marks the event. *)
Lemma project_spec p w :
  ~ settled_event (w_ledger w) p ->
  (exists e, project p w = (Err e, w) /\ is_Some (w_index w) /\ pl_ResourceID p <> "" /\
             lookup2 (records (w_ledger w)) (pl_OrgID p) (pl_ResourceID p) = None) \/
  exists w', project p w = (Ok tt, w') /\ w_index w' = index_after w p /\ marks p w w'.
Proof.
  intros Hns. unfold settled_event in Hns. apply Decidable.not_or in Hns as [Ho Hns].
  apply Decidable.not_or in Hns as [He Hp]. apply is_empty_false in Ho, He.
  unfold project. rewrite Ho, He. cbn [orb].
  unfold projected in Hp.
  rewrite (bind_run _ _ _ false w); [|by rewrite HasInbox_run, bool_decide_eq_false_2].
  assert (Hmark : forall i, i = index_after w p ->
    exists w2, mark_inbox p (w <| w_index := i |>) = (Ok tt, w2) /\ w_index w2 = index_after w p /\ marks p w w2).
  { intros i ->. destruct (mark_inbox_spec p (w <| w_index := index_after w p |>)) as (w2 & ? & Hi2 & Hm).
    by exists w2. }
  assert (Hsame : forall i, i = w_index w -> w <| w_index := i |> = w) by (intros i ->; by destruct w).
  rewrite (bind_run _ _ _ (bool_decide (is_Some (w_index w))) w) by done.
  unfold index_after in Hmark |- *.
  destruct (w_index w) as [i|] eqn:Ei; cbn [mbind option_bind] in Hmark |- *.
  2: { right. rewrite (bind_run _ _ _ tt w) by done. pose proof (Hmark None eq_refl) as Hm. by rewrite Hsame in Hm. }
  destruct (is_empty (pl_ResourceID p)) eqn:Er.
  { right. rewrite (bind_run _ _ _ tt w) by done. 
    destruct (Hmark (Some i)) as (w2 & Hm); [by case_match|]. rewrite Hsame in Hm by done. by exists w2. }
  destruct (lookup2 (records (w_ledger w)) (pl_OrgID p) (pl_ResourceID p)) as [rec|] eqn:El.
  2: { left. eexists. split; [|by split; [|split; [apply is_empty_false|]]]. do 2 apply bind_fail. unfold on_ledger, GetRecord, find. rewrite El.
       by destruct w. }
  right. cbn [orb] in Hmark |- *.
  assert (Hrec : on_ledger (GetRecord (pl_OrgID p) (pl_ResourceID p)) w = (Ok rec, w)).
  { unfold on_ledger, GetRecord, find. rewrite El. by destruct w. }
  destruct (unresolved_state (rec_State rec)) eqn:Eu.
  - rewrite (bind_run _ _ _ tt w); [pose proof (Hmark _ eq_refl) as Hm; by rewrite Hsame in Hm|].
    change (project_record p w = (Ok tt, w)). unfold project_record.
    rewrite (bind_run _ _ _ rec w) by done. by rewrite Eu.
  - rewrite (bind_run _ _ _ tt (w <| w_index := Some (Upsert [document_of p rec] i) |>)).
    + by apply Hmark.
    + match goal with |- _ = ?r => change (project_record p w = r) end. unfold project_record.
      rewrite (bind_run _ _ _ rec w) by done. rewrite Eu. unfold on_index. by rewrite Ei.
Qed.

Lemma project_outcome p w :
  (project p w = (Ok tt, w) /\ settled_event (w_ledger w) p) \/
  (exists e, project p w = (Err e, w)) \/
  exists w', project p w = (Ok tt, w') /\ projected (w_ledger w') p /\
             w_index w' = index_after w p /\ inbox_grows w w'.
Proof.
  destruct (decide (settled_event (w_ledger w) p)) as [Hs|Hs].
  - left. split; [by apply project_settled | done].
  - right. destruct (project_spec p w Hs) as [(e & ? & _)|(w' & ? & ? & Hm)]; [left; by exists e | right].
    exists w'. split_and!; [done | by eapply marks_projected | done | by eapply marks_grows].
Qed.

Lemma projectPayload_grows data w : inbox_grows w (projectPayload data w).2.
Proof.
  unfold projectPayload. destruct (decode_payload data) as [p|]; [|apply inbox_grows_refl].
  destruct (project_outcome p w) as [[-> _]|[[e ->]|(w' & -> & _ & _ & ?)]];
    [apply inbox_grows_refl.. | done].
Qed.

(** No call removes an inbox entry. *)
Lemma run_keeps_inbox `{GoMapOrder} cs s k : is_Some (inbox s !! k) -> is_Some (inbox (run cs s) !! k).
Proof.
  unfold run. revert s. induction cs as [|c cs IH]; intros s Hk; simpl; [done|]. apply IH.
  destruct c; cbn [exec]; try (open_call; exact Hk).
  simpl. rewrite lookup_insert. by case_decide.
Qed.

(** C25 Exactly-once projection of an outbox payload. When the event is marked already, or
    names no organization or no identifier, the projection succeeds and changes nothing.
    Otherwise it upserts the document of the event's record (if there is an index, the
    event names a resource, and the record is no placeholder) and marks the event, and
    nothing else changes; only where the record it should index is missing does it fail,
    without a trace. Whatever the ledger does after a success, a redelivery of the same
    payload changes nothing. *)
Theorem projection_once `{GoMapOrder} data p w :
  decode_payload data = Some p ->
  match projectPayload data w with
  | (Err _, w') =>
      w' = w /\ ~ settled_event (w_ledger w) p /\ is_Some (w_index w) /\ pl_ResourceID p <> "" /\
      lookup2 (records (w_ledger w)) (pl_OrgID p) (pl_ResourceID p) = None
  | (Ok _, w') =>
      (settled_event (w_ledger w) p /\ w' = w \/
       ~ settled_event (w_ledger w) p /\ w_index w' = index_after w p /\ marks p w w') /\
      forall cs w2, w_ledger w2 = run cs (w_ledger w') -> projectPayload data w2 = (Ok tt, w2)
  end.
Proof.
  unfold projectPayload. intros ->.
  assert (Hkept : forall w', settled_event (w_ledger w') p ->
    forall cs w2, w_ledger w2 = run cs (w_ledger w') -> project p w2 = (Ok tt, w2)).
  { intros w' Hs cs w2 Hw2. apply project_settled. destruct Hs as [?|[?|Hm]]; [by left | by right; left|].
    right; right. unfold projected. rewrite Hw2. by apply run_keeps_inbox. }
  destruct (decide (settled_event (w_ledger w) p)) as [Hs|Hs].
  { rewrite (project_settled _ _ Hs). split; [by left | by apply Hkept]. }
  destruct (project_spec p w Hs) as [(e & -> & Hi & Hr & Hl)|(w' & -> & Hi & Hm)]; [done|].
  split; [by right|]. apply Hkept. right; right. by eapply marks_projected.
Qed.
End Projection.

(** ** The relay *)
Definition event_id (e : OutboxEntry) : string :=
  or_default (attr (default ∅ (ob_Headers e)) "event_id") (ob_ID e).

(** The message that stands for an entry on the bus *)
Definition carries (e : OutboxEntry) (m : EventMessage) : Prop :=
  msg_Subject m = ob_Subject e /\ msg_Data m = ob_Payload e /\
  (event_id e <> "" -> msg_MsgID m = event_id e).

(** A claim changes nothing of an entry but the note of its lease. *)
Definition same_entry (e e' : OutboxEntry) : Prop :=
  ob_ID e' = ob_ID e /\ ob_OrgID e' = ob_OrgID e /\ ob_Subject e' = ob_Subject e /\
  ob_Payload e' = ob_Payload e /\ ob_Published e' = ob_Published e /\ event_id e' = event_id e.

Lemma same_entry_leased now e : same_entry e (leased now e).
Proof. split_and!; try done. unfold event_id, leased, attr. simpl. by rewrite lookup_insert_ne. Qed.

Lemma carries_leased now e m : carries (leased now e) m -> carries e m.
Proof.
  destruct (same_entry_leased now e) as (_ & _ & Hs & Hp & _ & Hi). unfold carries.
  by rewrite Hs, Hp, Hi.
Qed.

Lemma claim_outbox_rows now until limit entries lease out0 entries' lease' out :
  claim_outbox now until limit entries lease out0 = (entries', lease', out) ->
  Forall2 same_entry entries entries' /\
  exists taken, out = out0 ++ taken /\
    forall x, x ∈ taken -> exists e, e ∈ entries /\ x = leased now e /\ ob_Published e = None.
Proof.
  assert (Hrefl : forall e, same_entry e e) by done.
  assert (Hstored : forall e, same_entry e (match ob_Headers e with Some _ => leased now e | None => e end)).
  { intros e. destruct (ob_Headers e); [apply same_entry_leased | done]. }
  revert lease out0 entries' lease' out.
  induction entries as [|e entries IH]; intros lease out0 entries' lease' out; simpl.
  { intros [= <- <- <-]. split; [done|]. exists []. rewrite app_nil_r. split; [done|]. by intros x ?%elem_of_nil. }
  match goal with |- (if ?b then _ else _) = _ -> _ => destruct b eqn:Hskip end.
  { destruct (claim_outbox _ _ _ entries lease out0) as [[r l] o] eqn:E. intros [= <- <- <-].
    apply IH in E as (Hrows & taken & -> & Ht). split; [by constructor|]. exists taken.
    split; [done|]. intros x (y & ? & ?)%Ht. exists y. split; [by right | done]. }
  destruct (ob_Published e) eqn:Hpub; [done|].
  destruct (limit <=? _).
  { intros [= <- <- <-]. split; [constructor; [apply Hstored | by apply Forall_Forall2_diag, Forall_forall]|].
    exists [leased now e]. split; [done|]. intros x ->%list_elem_of_singleton. exists e. split; [left | done]. }
  destruct (claim_outbox _ _ _ entries _ _) as [[r l] o] eqn:E. intros [= <- <- <-].
  apply IH in E as (Hrows & taken & -> & Ht). split; [constructor; [apply Hstored | done]|].
  exists (leased now e :: taken). split; [by rewrite <- app_assoc|].
  intros x [->|(y & ? & ?)%Ht]%elem_of_cons; [exists e; split; [left | done] | exists y; split; [by right | done]].
Qed.

Section Relay.
Context `{GoEnv, GoMapOrder, Links}.

Lemma publish_spec subject data headers w :
  (exists e, publish subject data headers w = (Err e, w <| w_clock := S (w_clock w) |>) /\
             bus_down (w_clock w) = Some e) \/
  exists m, publish subject data headers w =
              (Ok tt, (w <| w_bus := w_bus w ++ [m] |>) <| w_clock := S (w_clock w) |>) /\
            msg_Subject m = subject /\ msg_Data m = data /\
            msg_MsgID m = or_default (attr headers "Nats-Msg-Id") (attr headers "event_id").
Proof.
  unfold publish. destruct (bus_down _) as [e|]; [left; by exists e|].
  right. eexists. by split; [reflexivity|].
Qed.

Lemma relay_headers_id e headers :
  headers = relay_headers e -> event_id e <> "" ->
  or_default (attr headers "Nats-Msg-Id") (attr headers "event_id") = event_id e.
Proof.
  intros -> Hne. apply is_empty_false in Hne.
  change (relay_headers e) with (<["event_id" := event_id e]>
    (<["Nats-Msg-Id" := event_id e]> (default ∅ (ob_Headers e)))).
  unfold attr. rewrite lookup_insert_ne, lookup_insert_eq by done.
  unfold or_default at 1. cbn [default from_option]. unfold id. by rewrite Hne.
Qed.

(** The outbox and its leases are left alone while an entry is relayed. *)
Definition outbox_kept (w w' : World) : Prop :=
  outbox (w_ledger w') = outbox (w_ledger w) /\ outboxLease (w_ledger w') = outboxLease (w_ledger w).

Lemma relay_entry_spec e w :
  (exists err w', relay_entry e w = (Err err, w') /\ outbox_kept w w' /\ w_bus w' = w_bus w /\
                  bus_down (w_clock w) = Some err) \/
  exists m w', relay_entry e w = (Ok tt, w') /\ outbox_kept w w' /\ w_bus w' = w_bus w ++ [m] /\
               carries e m.
Proof.
  unfold relay_entry.
  destruct (publish_spec (ob_Subject e) (ob_Payload e) (relay_headers e) w)
    as [(err & Hp & Hd)|(m & Hp & Hs & Hdata & Hid)].
  - left. exists err, (w <| w_clock := S (w_clock w) |>). by rewrite (bind_fail _ _ _ _ _ Hp).
  - right. rewrite (bind_run _ _ _ _ _ Hp). set (w1 := _ <| w_clock := _ |>).
    destruct (projectPayload (ob_Payload e) w1) as [r w2] eqn:Er.
    rewrite (bind_run _ _ _ _ _ (attempt_run _ _ _ _ Er)).
    pose proof (projectPayload_grows (ob_Payload e) w1) as (i & Hl & _ & Hb & _).
    rewrite Er in Hl, Hb. cbn [snd] in Hl, Hb. exists m, w2. split; [done|].
    unfold outbox_kept, carries. rewrite Hl, Hb. split_and!; try done.
    intros Hne. rewrite Hid. by apply relay_headers_id.
Qed.

Lemma relay_loop es w :
  exists r w' sent, for_each relay_entry es w = (r, w') /\ outbox_kept w w' /\
    w_bus w' = w_bus w ++ sent /\ (r = Ok tt -> Forall2 carries es sent) /\
    ((forall n, bus_down n = None) -> r = Ok tt).
Proof.
  revert w. induction es as [|e es IH]; intros w; cbn [for_each].
  { exists (Ok tt), w, []. rewrite app_nil_r. by split_and!. }
  destruct (relay_entry_spec e w) as [(err & w1 & He & Hk & Hb & Hd)|(m & w1 & He & Hk & Hb & Hc)].
  - rewrite (bind_fail _ _ _ _ _ He). exists (Err err), w1, []. rewrite app_nil_r.
    split_and!; [done..|]. intros Hup. by rewrite Hup in Hd.
  - rewrite (bind_run _ _ _ _ _ He). destruct (IH w1) as (r & w' & sent & -> & Hk' & Hb' & Hs & Hup).
    exists r, w', (m :: sent). split; [done|]. split.
    { destruct Hk, Hk'. split; congruence. }
    rewrite Hb', Hb, <- app_assoc. split; [done|]. split; [|done].
    intros Hr. constructor; auto.
Qed.

(** The entries that a relay pass at [w] takes *)
Definition relay_claim (wk : Worker) (w : World) : list OutboxEntry :=
  match (ClaimOutbox (clock (w_clock w)) (wk_Batch wk) (w_ledger w)).1 with Ok out => out | Err _ => [] end.

Lemma relay_claim_spec wk w :
  exists w1, timed (fun t => ClaimOutbox t (wk_Batch wk)) w = (Ok (relay_claim wk w), w1) /\
    w_bus w1 = w_bus w /\ Forall2 same_entry (outbox (w_ledger w)) (outbox (w_ledger w1)) /\
    forall x, x ∈ relay_claim wk w ->
      exists e now, e ∈ outbox (w_ledger w) /\ x = leased now e /\ ob_Published e = None.
Proof.
  unfold relay_claim, timed. rewrite (bind_run tick _ _ _ _ eq_refl).
  unfold on_ledger, ClaimOutbox. cbn [w_ledger World_eta].
  change (w_ledger (w <| w_clock := S (w_clock w) |>)) with (w_ledger w).
  destruct (claim_outbox _ _ _ _ _ _) as [[entries lease] out] eqn:Hc.
  apply claim_outbox_rows in Hc as [Hrows (taken & Hout & Ht)]. simpl in Hout. subst out.
  eexists. split; [reflexivity|]. split; [done|]. split; [done|].
  intros x (e & ? & ? & ?)%Ht. by exists e, (clock (w_clock w)).
Qed.

(** C26 At-least-once relay: when the identifiers in the outbox are distinct, a pass
    never marks an entry as published unless a message with the entry's subject,
    payload and event identifier is on the bus; a failing pass marks nothing; and
    with the bus up every entry the pass claims is marked. *)
Theorem relay_at_least_once wk w r w' :
  NoDup (ob_ID <$> outbox (w_ledger w)) -> relayOnce wk w = (r, w') ->
  exists sent, w_bus w' = w_bus w ++ sent /\
    Forall2 (fun e e' => same_entry e e' \/
               r = Ok tt /\ ob_ID e' = ob_ID e /\ is_Some (ob_Published e') /\
               ob_Published e = None /\ exists m, m ∈ sent /\ carries e m)
      (outbox (w_ledger w)) (outbox (w_ledger w')) /\
    ((forall n, bus_down n = None) ->
       r = Ok tt /\ forall e e', e ∈ relay_claim wk w -> e' ∈ outbox (w_ledger w') ->
                                 ob_ID e' = ob_ID e -> is_Some (ob_Published e')).
Proof.
  intros Hnd. unfold relayOnce.
  destruct (relay_claim_spec wk w) as (w1 & Hclaim & Hbus & Hrows & Ht).
  rewrite (bind_run _ _ _ _ _ Hclaim). clear Hclaim.
  revert Ht. generalize (relay_claim wk w). intros taken Ht.
  destruct (relay_loop taken w1) as (r1 & w2 & sent & Hl & [Hk _] & Hb & Hs & Hup).
  destruct taken as [|e0 taken']; [|rewrite <- Hbus].
  { intros [= <- <-]. exists []. rewrite app_nil_r. split; [done|]. split.
    - eapply Forall2_impl; [exact Hrows|]. by left.
    - intros _. split; [done|]. by intros e e' ?%elem_of_nil. }
  set (taken := e0 :: taken') in *. clearbody taken. clear e0 taken'.
  destruct r1 as [[]|err].
  2: { rewrite (bind_fail _ _ _ _ _ Hl). intros [= <- <-]. exists sent. split; [done|].
       rewrite Hk. split; [|by intros ?%Hup].
       eapply Forall2_impl; [exact Hrows|]. by left. }
  rewrite (bind_run _ _ _ _ _ Hl), (bind_run tick _ _ _ _ eq_refl). clear Hl Hup.
  unfold on_ledger, MarkOutboxPublished, modify. intros [= <- <-]. simpl.
  exists sent. split; [done|]. rewrite Hk. specialize (Hs eq_refl). split.
  - apply Forall2_fmap_r. apply Forall2_same_length_lookup. split; [by eapply Forall2_length|].
    intros k e e' He He'. assert (Hse := Forall2_lookup_lr _ _ _ _ _ _ Hrows He He').
    destruct (mem_str (ob_ID e') (ob_ID <$> taken)) eqn:Hm; simpl; rewrite Hm; [right|by left].
    apply mem_str_In, list_elem_of_fmap in Hm as (x & Hid & Hx).
    destruct (Ht x Hx) as (ex & now & Hex & -> & Hp).
    assert (ex = e) as ->.
    { apply (NoDup_fmap_inj ob_ID _ _ _ Hnd); [done | by eapply list_elem_of_lookup_2|].
      destruct Hse as [<- _]. done. }
    split_and!; [done | by destruct Hse | by eexists | done |].
    apply list_elem_of_lookup in Hx as [n Hx].
    destruct (Forall2_lookup_l _ _ _ _ _ Hs Hx) as (m & Hm & Hc). exists m.
    split; [by eapply list_elem_of_lookup_2 | by eapply carries_leased].
  - intros _. split; [done|]. intros e e' He He' Hid.
    apply list_elem_of_fmap in He' as (e1 & -> & He1). revert Hid.
    case_match eqn:Hm; simpl; [by eexists|]. intros Hid.
    apply mem_str_not_In in Hm. destruct Hm. rewrite Hid. by apply list_elem_of_fmap_2.
Qed.

(** Outbox entries are leased and marked by identifier alone, and the identifier
    is the one the sender gave to its event: of two entries with the same
    identifier, of any two organizations, only the first is put on the bus, and
    both are marked as published. *)
Theorem relay_same_id_lost wk w e1 e2 :
  outbox (w_ledger w) = [e1; e2] -> ob_ID e2 = ob_ID e1 ->
  ob_Published e1 = None -> ob_Published e2 = None ->
  outboxLease (w_ledger w) !! ob_ID e1 = None -> (forall n, bus_down n = None) ->
  exists m w', relayOnce wk w = (Ok tt, w') /\ w_bus w' = w_bus w ++ [m] /\ carries e1 m /\
               Forall (fun e => is_Some (ob_Published e)) (outbox (w_ledger w')).
Proof.
  intros Hob Hid Hp1 Hp2 Hfree Hup. unfold relayOnce.
  destruct (relay_claim_spec wk w) as (w1 & Hclaim & Hbus & Hrows & _).
  rewrite (bind_run _ _ _ _ _ Hclaim).
  assert (Htaken : relay_claim wk w = [leased (clock (w_clock w)) e1]).
  { unfold relay_claim, ClaimOutbox. rewrite Hob. cbn [claim_outbox]. rewrite Hp1, Hfree.
    cbn [app zlen length Z.of_nat]. destruct (or_limit (wk_Batch wk) 10 <=? _); [done|].
    rewrite Hp2, Hid, lookup_insert_eq. unfold after. rewrite (proj2 (Z.ltb_lt _ _) (add_lease _)). done. }
  rewrite Htaken.
  destruct (relay_loop [leased (clock (w_clock w)) e1] w1) as (r & w2 & sent & Hl & [Hk _] & Hb & Hs & Hok).
  rewrite (Hok Hup) in Hl, Hs. clear Hok.
  rewrite (bind_run _ _ _ _ _ Hl), (bind_run tick _ _ _ _ eq_refl).
  specialize (Hs eq_refl). apply Forall2_cons_inv_l in Hs as (m & ? & Hc & ->%Forall2_nil_inv_l & ->).
  eexists m, _. split; [reflexivity|]. simpl. rewrite Hb, Hbus, Hk.
  split; [done|]. split; [by eapply carries_leased|].
  rewrite Hob in Hrows. apply Forall2_cons_inv_l in Hrows as (f1 & ? & [Hf1 _] & Hrows & ->).
  apply Forall2_cons_inv_l in Hrows as (f2 & ? & [Hf2 _] & ->%Forall2_nil_inv_l & ->).
  simpl. rewrite Hf1, Hf2, Hid, String.eqb_refl. repeat constructor; by eexists.
Qed.
End Relay.

(** ** An accepted event on its way to the index *)
#[local] Existing Instances sample_env order_forward links_up.

Definition sample_outbox_payload : string :=
  marshal (AObj [("event_id", AStr "ev1"); ("org_id", AStr "acme"); ("resource_id", AStr "T1");
                 ("revision_id", AStr "rv1"); ("source_id", AStr "src1")]).
Definition relay_world : World :=
  mkWorld (run [CUpsertRecord 1 (sample_record "T1");
                CEnqueueOutbox 1 "" (mkOutbox "ev1" "acme" "context.work.v1" sample_outbox_payload None 1 None)] NewStore)
    None (Some NewIndex) NewMemory [] [] 0 0.
Definition sample_worker : Worker := mkWorker 10 12 true true.
Definition relay_run := relayOnce sample_worker relay_world.
Definition decoded_payload : outboxPayload := default (mkPayload "" "" "" "") (decode_payload sample_outbox_payload).
Definition projection_run := projectPayload sample_outbox_payload relay_world.

Lemma relay_at_least_once_witness :
  exists sent, w_bus relay_run.2 = [] ++ sent /\ relay_run.1 = Ok tt.
Proof.
  destruct (@relay_at_least_once sample_env links_up sample_worker relay_world relay_run.1 relay_run.2)
    as (sent & Hb & _ & Hup).
  - apply (bool_decide_unpack _). vm_compute. exact I.
  - apply surjective_pairing.
  - exists sent. split; [exact Hb|]. apply Hup. reflexivity.
Defined.

Lemma projection_once_witness :
  projectPayload sample_outbox_payload relay_world = (Ok tt, projection_run.2) /\
  w_index projection_run.2 = index_after relay_world decoded_payload /\
  projectPayload sample_outbox_payload projection_run.2 = (Ok tt, projection_run.2).
Proof.
  pose proof (@projection_once sample_env order_forward sample_outbox_payload decoded_payload relay_world
    ltac:(vm_compute; reflexivity)) as Hp.
  assert (Hrun : projectPayload sample_outbox_payload relay_world = (Ok tt, projection_run.2))
    by (vm_compute; reflexivity).
  rewrite Hrun in Hp. destruct Hp as [Hp Hagain]. split; [exact Hrun|].
  split; [|exact (Hagain [] projection_run.2 eq_refl)].
  assert (Hn : ~ settled_event (w_ledger relay_world) decoded_payload)
    by (apply (bool_decide_unpack _); vm_compute; exact I).
  destruct Hp as [[Hs _]|(_ & Hi & _)]; [by destruct Hn | exact Hi].
Defined.

Definition clash_entry (org : string) : OutboxEntry := mkOutbox "ev1" org "context.work.v1" org None 1 None.
Definition clash_world : World :=
  relay_world <| w_ledger := NewStore <| outbox := [clash_entry "acme"; clash_entry "globex"] |> |>.

Lemma relay_same_id_lost_witness :
  exists m w', relayOnce sample_worker clash_world = (Ok tt, w') /\ w_bus w' = [] ++ [m] /\
    msg_Data m = "acme".
Proof.
  destruct (@relay_same_id_lost sample_env links_up sample_worker clash_world
    (clash_entry "acme") (clash_entry "globex")) as (m & w' & Hr & Hb & (_ & Hd & _) & _);
    [reflexivity..|].
  exists m, w'. split; [exact Hr|]. split; [exact Hb | exact Hd].
Defined.
