(* ===== verification/QueueFacts.v ===== *)
(** * What the passes over the authorization queue guarantee

    A pass settles every operation it claims; with the authorization service up
    the queue drains; a reconciliation leaves no inherited edge without its tuple
    or a pending write of it. *)
From S2P Require Import Prelude GoStd Ports Platform OpenFGA Mapping.
From S2P Require Import Ledger LedgerFacts LedgerQueries Index AuditLog World Worker.

Definition row_key (op : AuthzTupleOp) : string * string := (op_OrgID op, op_ID op).

(** What the passes rely on: rows filed under their own names, no identifier in two
    organizations (the marks search for it in all of them), counters in range. *)
Record queue_ok (tbl : tenants AuthzTupleOp) : Prop := {
  q_filed : all_rows (fun a b op => row_key op = (a, b)) tbl;
  q_unique : forall a1 a2 b op1 op2,
    lookup2 tbl a1 b = Some op1 -> lookup2 tbl a2 b = Some op2 -> a1 = a2;
  q_attempts : all_rows (fun _ _ op => 0 <= op_Attempts op < int_max) tbl;
}.

Lemma queue_ok_insert2 tbl op r :
  queue_ok tbl -> lookup2 tbl (op_OrgID op) (op_ID op) = Some op ->
  row_key r = row_key op -> 0 <= op_Attempts r < int_max ->
  queue_ok (insert2 (op_OrgID op) (op_ID op) r tbl).
Proof.
  intros [Hf Hu Ha] Hl Hk Hr. split.
  - by apply all_rows_insert2.
  - intros a1 a2 b op1 op2. rewrite !lookup2_insert2.
    repeat case_decide; intros; destruct_and?; simplify_eq; eauto.
  - by apply all_rows_insert2.
Qed.

Lemma queue_ok_updated f taken tbl tbl' :
  queue_ok tbl -> rows_updated f taken tbl tbl' ->
  (forall a b op, ((a, b), op) ∈ taken -> lookup2 tbl a b = Some op) ->
  (forall op, row_key (f op) = row_key op /\ op_Attempts (f op) = op_Attempts op) -> queue_ok tbl'.
Proof.
  intros [Hf Hu Ha] Hupd Hrows Hkeep.
  assert (Hback : forall a b v, lookup2 tbl' a b = Some v -> exists v0, lookup2 tbl a b = Some v0 /\
    row_key v = row_key v0 /\ op_Attempts v = op_Attempts v0).
  { intros a b v. rewrite Hupd. destruct (list_find _ taken) as [[i [k op]]|] eqn:E; [|by eauto].
    apply list_find_Some in E as (Hi & Hk & _). simpl in Hk. subst k. intros [= <-].
    exists op. split; [|apply Hkeep]. by eapply Hrows, list_elem_of_lookup_2. }
  split.
  - intros a b v (v0 & Hl & -> & _)%Hback. by apply Hf.
  - intros a1 a2 b v1 v2 (? & H1 & _)%Hback (? & H2 & _)%Hback. by eapply Hu.
  - intros a b v (v0 & Hl & _ & ->)%Hback. exact (Ha _ _ _ Hl).
Qed.

Section Marks.
Context `{GoMapOrder}.

Lemma org_of_tuple_unique tbl a b op :
  queue_ok tbl -> lookup2 tbl a b = Some op -> org_of_tuple b tbl = Some (a, op).
Proof.
  intros Hok Hl. unfold org_of_tuple.
  assert (Hin : (a, inner tbl a) ∈ filter (fun om : string * gmap string AuthzTupleOp => is_Some (om.2 !! b)) (go_range tbl)).
  { apply list_elem_of_filter. split; [by exists op|]. apply elem_of_go_range.
    unfold lookup2, inner in *. destruct (tbl !! a); [done|]. simpl in Hl. by rewrite lookup_empty in Hl. }
  destruct (filter _ _) as [|[o m] l] eqn:E; [by apply elem_of_nil in Hin|].
  assert (Ho : (o, m) ∈ filter (fun om : string * gmap string AuthzTupleOp => is_Some (om.2 !! b)) (go_range tbl)).
  { rewrite E. left. }
  apply list_elem_of_filter in Ho as [[op' Hop'] Ho%elem_of_go_range]. simpl in Hop'.
  assert (Hl' : lookup2 tbl o b = Some op') by (unfold lookup2, inner; by rewrite Ho).
  assert (o = a) as -> by (by eapply q_unique). rewrite Hop'. simpl. congruence.
Qed.

Lemma update_tuple_run f s op :
  queue_ok (authzTuples s) -> lookup2 (authzTuples s) (op_OrgID op) (op_ID op) = Some op ->
  update_tuple (op_ID op) f s =
  (Ok tt, s <| authzTuples := insert2 (op_OrgID op) (op_ID op) (f op) (authzTuples s) |>).
Proof.
  intros Hok Hl. unfold update_tuple. by rewrite (org_of_tuple_unique _ _ _ _ Hok Hl).
Qed.
End Marks.

(** ** One operation *)
Section Settle.
Context `{GoEnv, GoMapOrder, Links}.

(** The row after its operation was applied, or postponed by a failure: one more
    attempt, dead at the limit, and not before 2^attempts (64 at most) seconds. *)
Definition settled (op r : AuthzTupleOp) : Prop :=
  op_Status r = "applied" /\ op_LeaseUntil r = None /\ op_Attempts r = op_Attempts op /\
  row_key r = row_key op /\ tuple_of r = tuple_of op.
Definition postponed (wk : Worker) (op r : AuthzTupleOp) : Prop :=
  op_Status r = (if wk_MaxAuthzAttempts wk <=? op_Attempts op + 1 then "dead" else op_Status op) /\
  op_LeaseUntil r = None /\ op_Attempts r = op_Attempts op + 1 /\
  (exists n, op_NextAttempt r = clock n + 2 ^ Z.min (op_Attempts op + 1) 6 * second) /\
  row_key r = row_key op /\ tuple_of r = tuple_of op.

Definition row_of (w : World) (a b : string) : option AuthzTupleOp :=
  lookup2 (authzTuples (w_ledger w)) a b.

Lemma settle_op_spec wk op w :
  queue_ok (authzTuples (w_ledger w)) -> row_of w (op_OrgID op) (op_ID op) = Some op ->
  exists r w', settle_op wk op w = (Ok tt, w') /\
    authzTuples (w_ledger w') = insert2 (op_OrgID op) (op_ID op) r (authzTuples (w_ledger w)) /\
    (settled op r /\ w_authz w' = applied_to op (w_authz w) \/
     postponed wk op r /\ w_authz w' = w_authz w /\ exists n, is_Some (authz_down n)).
Proof.
  intros Hok Hrow. unfold settle_op, row_of in *. pose proof (q_attempts _ Hok _ _ _ Hrow) as Hk.
  destruct (authz_down (w_clock w)) as [e|] eqn:Hd.
  - rewrite (bind_run _ _ w (Err e) (w <| w_clock := S (w_clock w) |>)).
    2: { apply attempt_run. unfold apply_tuple. by rewrite Hd. }
    destruct (shl1_backoff _ Hk) as (Hs & Hw & Hn). unfold settle_failure. rewrite Hw in Hs |- *.
    rewrite (bind_run (of_result _) _ _ _ _ (f_equal2 pair Hs eq_refl)).
    rewrite (bind_run tick _ _ _ _ eq_refl).
    unfold timed. erewrite bind_run; cycle 1.
    { apply attempt_run. rewrite (bind_run tick _ _ _ _ eq_refl). unfold on_ledger, MarkAuthzTupleFailed.
      rewrite (update_tuple_run _ _ op); done. }
    eexists _, _. split; [reflexivity|]. split; [reflexivity|]. right.
    split; [|split; [done | by eexists _, _]]. rewrite Hn. unfold postponed.
    case_match; split_and!; try done; by eexists.
  - rewrite (bind_run _ _ w (Ok tt) ((w <| w_authz := applied_to op (w_authz w) |>) <| w_clock := S (w_clock w) |>)).
    2: { apply attempt_run. unfold apply_tuple. by rewrite Hd. }
    rewrite (bind_run tick _ _ _ _ eq_refl).
    erewrite bind_run; cycle 1.
    { apply attempt_run. unfold on_ledger, MarkAuthzTupleApplied.
      rewrite (update_tuple_run _ _ op); done. }
    eexists _, _. split; [reflexivity|]. split; [reflexivity|]. by left.
Qed.

(** ** One pass *)

(** The outcome of the operations of a pass that applied those of [did]. *)
Definition outcomes (wk : Worker) (ops did : list AuthzTupleOp) (w w' : World) : Prop :=
  w_authz w' = foldl (fun m op => applied_to op m) (w_authz w) did /\
  (forall op, op ∈ ops -> exists r, row_of w' (op_OrgID op) (op_ID op) = Some r /\
     ((op ∈ did /\ settled op r) \/ ((op ∉ did) /\ postponed wk op r))) /\
  (forall a b, (a, b) ∉ row_key <$> ops -> row_of w' a b = row_of w a b).

Lemma settle_keeps_queue wk op r tbl :
  queue_ok tbl -> lookup2 tbl (op_OrgID op) (op_ID op) = Some op ->
  settled op r \/ postponed wk op r -> op_Attempts op + 1 < int_max ->
  queue_ok (insert2 (op_OrgID op) (op_ID op) r tbl).
Proof.
  intros Hok Hl Hr Hmax.
  assert (0 <= op_Attempts op < int_max) by exact (q_attempts _ Hok _ _ _ Hl).
  apply queue_ok_insert2; [done..| |]; destruct Hr as [Hr|Hr]; unfold settled, postponed in Hr;
    destruct_and?; [done | done | lia | lia].
Qed.

Lemma settle_loop wk ops w :
  queue_ok (authzTuples (w_ledger w)) -> NoDup (row_key <$> ops) ->
  (forall op, op ∈ ops -> row_of w (op_OrgID op) (op_ID op) = Some op /\ op_Attempts op + 1 < int_max) ->
  exists w' did, for_each (settle_op wk) ops w = (Ok tt, w') /\ did `sublist_of` ops /\
    outcomes wk ops did w w' /\ queue_ok (authzTuples (w_ledger w')) /\
    ((forall n, authz_down n = None) -> did = ops).
Proof.
  revert w. induction ops as [|op ops IH]; intros w Hok Hnd Hops; cbn [for_each].
  { exists w, []. split; [done|]. split; [done|]. split; [|done]. split; [done|].
    split; [|done]. by intros op ?%elem_of_nil. }
  apply NoDup_cons in Hnd as [Hnin Hnd]. destruct (Hops op ltac:(left)) as [Hrow Hmax].
  destruct (settle_op_spec wk op w Hok Hrow) as (r & w1 & Hrun & Htbl & Hout).
  rewrite (bind_run _ _ _ _ _ Hrun).
  assert (Hok1 : queue_ok (authzTuples (w_ledger w1))).
  { rewrite Htbl. apply (settle_keeps_queue wk); [done..| destruct Hout as [[? _]|[? _]]; auto | done]. }
  assert (Hother : forall a b, (a, b) <> row_key op -> row_of w1 a b = row_of w a b).
  { intros a b Hne. unfold row_of. rewrite Htbl, lookup2_insert2. case_decide; [|done].
    destruct Hne. by destruct_and?; subst. }
  destruct (IH w1) as (w' & did & Hl & Hsub & (Ha & Hall & Hrest) & Hok' & Hup); [done..| |].
  { intros op' Hin. destruct (Hops op') as [Hrow' ?]; [by right|]. split; [|done].
    rewrite Hother; [done|]. intros Heq. apply Hnin. unfold row_key in Heq.
    change (op_OrgID op, op_ID op) with (row_key op) in Heq. rewrite <- Heq.
    by apply (list_elem_of_fmap_2 row_key). }
  assert (Hr : row_of w' (op_OrgID op) (op_ID op) = Some r).
  { rewrite Hrest by done. unfold row_of. by rewrite Htbl, lookup2_insert2_eq. }
  assert (Hnotin : op ∉ did).
  { intros Hin. apply Hnin, list_elem_of_fmap_2. by eapply elem_of_sublist. }
  assert (Hne : forall op', op' ∈ ops -> op' <> op).
  { intros op' Hin ->. by apply Hnin, list_elem_of_fmap_2. }
  assert (Hkeys : forall a b, (a, b) ∉ row_key <$> op :: ops -> row_of w' a b = row_of w a b).
  { intros a b [Hne' Hin]%not_elem_of_cons. rewrite Hrest by done. by apply Hother. }
  destruct Hout as [[Hset Hw1]|(Hpost & Hw1 & n & Hdown)].
  - exists w', (op :: did). split; [done|]. split; [by apply sublist_skip|].
    split; [|split; [done | intros Hu; f_equal; by apply Hup]].
    split; [by rewrite Ha, Hw1 | split; [|done]].
    intros op' [->|Hin]%elem_of_cons; [exists r; split; [done | left; split; [left | done]]|].
    destruct (Hall op' Hin) as (r' & ? & [[? ?]|[? ?]]); exists r'; (split; [done|]).
    + left. split; [by right | done].
    + right. split; [|done]. apply not_elem_of_cons. split; [by apply Hne | done].
  - exists w', did. split; [done|]. split; [by apply sublist_cons|].
    split; [|split; [done | intros Hu; by rewrite Hu in Hdown; destruct Hdown]].
    split; [by rewrite Ha, Hw1 | split; [|done]].
    intros op' [->|Hin]%elem_of_cons; [exists r; split; [done | by right] | by apply Hall].
Qed.

Definition due (t : Time) (w : World) (a b : string) : Prop :=
  exists op, row_of w a b = Some op /\ claimable t op = true.

(** The operations that a pass at [w] claims *)
Definition claimed (wk : Worker) (w : World) : list AuthzTupleOp :=
  match (ClaimAuthzTuples (clock (w_clock w)) (wk_Batch wk) (30 * second) (w_ledger w)).1 with
  | Ok ops => ops
  | Err _ => []
  end.

Lemma claim_spec wk w :
  queue_ok (authzTuples (w_ledger w)) ->
  exists w1, timed (fun t => ClaimAuthzTuples t (wk_Batch wk) (30 * second)) w = (Ok (claimed wk w), w1) /\
    w_authz w1 = w_authz w /\ w_clock w1 = S (w_clock w) /\ queue_ok (authzTuples (w_ledger w1)) /\
    NoDup (row_key <$> claimed wk w) /\
    (forall op, op ∈ claimed wk w ->
       row_of w1 (op_OrgID op) (op_ID op) = Some op /\
       exists op0 now until, row_of w (op_OrgID op) (op_ID op) = Some op0 /\ claimable (clock (w_clock w)) op0 = true /\
                   op = lease_op now until op0) /\
    (forall a b, (a, b) ∉ row_key <$> claimed wk w -> row_of w1 a b = row_of w a b) /\
    zlen (claimed wk w) <= or_limit (wk_Batch wk) 20.
Proof.
  intros Hok. unfold claimed, timed. rewrite (bind_run tick _ _ _ _ eq_refl).
  unfold on_ledger. change (w_ledger (w <| w_clock := S (w_clock w) |>)) with (w_ledger w).
  set (now := clock (w_clock w)).
  destruct (ClaimAuthzTuples now (wk_Batch wk) (30 * second) (w_ledger w)) as [res s'] eqn:E.
  assert (exists out, res = Ok out) as [out ->].
  { unfold ClaimAuthzTuples in E. destruct (claim_tuples _ _ _ _ _ _). simplify_eq. eauto. }
  apply ClaimAuthzTuples_spec in E as (taken & Hnd & Hrows & -> & Hupd & Hlen). cbn [fst].
  set (until := add_time now _) in *.
  assert (Hkeys : row_key <$> ((fun row => lease_op now until row.2) <$> taken) = taken.*1).
  { rewrite <- list_fmap_compose. apply list_fmap_ext. intros i [[a b] op] Hi%list_elem_of_lookup_2.
    destruct (Hrows _ _ _ Hi) as [Hl _]. exact (q_filed _ Hok _ _ _ Hl). }
  rewrite Hkeys.
  eexists. split; [reflexivity|]. split; [done|]. split; [done|].
  split; [|split; [exact Hnd|split; [|split; [|exact Hlen]]]].
  - eapply queue_ok_updated; [exact Hok | exact Hupd | by apply Hrows | done].
  - intros op ([[a b] op0] & -> & Hin)%list_elem_of_fmap. simpl.
    destruct (Hrows _ _ _ Hin) as [Hl Hc]. pose proof (q_filed _ Hok _ _ _ Hl) as [= Ha Hb].
    rewrite Ha, Hb. split; [exact (rows_updated_in _ _ _ _ _ _ _ Hupd Hnd Hin)|]. by exists op0, now, until.
  - intros a b Hout. exact (rows_updated_out _ _ _ _ _ _ Hupd Hout).
Qed.

(** Every operation that a pass over the authorization queue claims is settled:
    its tuple is written (or deleted) and its row marked applied, or, when the
    authorization service fails, the row is charged one attempt, kept pending for
    2^attempts seconds (at most 64) or declared dead at the limit, and its lease is
    dropped. No other row changes, and with the service up everything claimed is
    applied, in the order of the claim. *)
Theorem authz_pass_settles wk w :
  queue_ok (authzTuples (w_ledger w)) ->
  all_rows (fun _ _ op => op_Attempts op + 1 < int_max) (authzTuples (w_ledger w)) ->
  wk_Authz wk = true ->
  exists w' ops did, authzOnce wk w = (Ok tt, w') /\
    zlen ops <= or_limit (wk_Batch wk) 20 /\ did `sublist_of` ops /\
    (forall op, op ∈ ops -> due (clock (w_clock w)) w (op_OrgID op) (op_ID op)) /\
    outcomes wk ops did w w' /\ ((forall n, authz_down n = None) -> did = ops).
Proof.
  intros Hok Hmax Hwk. unfold authzOnce. rewrite Hwk. cbn [negb].
  destruct (claim_spec wk w Hok) as (w1 & Hc & Ha1 & _ & Hok1 & Hnd & Hops & Hrest & Hlen).
  rewrite (bind_run _ _ _ _ _ Hc).
  destruct (settle_loop wk (claimed wk w) w1) as (w' & did & Hl & Hsub & (Ha & Hall & Hother) & _ & Hup);
    [done..| |].
  { intros op Hin. destruct (Hops op Hin) as (Hl & op0 & n & u & Hl0 & _ & ->). split; [done|].
    exact (Hmax _ _ _ Hl0). }
  exists w', (claimed wk w), did. split_and!; try done.
  - intros op Hin. destruct (Hops op Hin) as (_ & op0 & _ & _ & Hl0 & Hcl & _). by exists op0.
  - split; [by rewrite Ha, Ha1 | split; [done|]]. intros a b Hout. by rewrite Hother, Hrest.
Qed.
End Settle.

(** ** Draining the queue *)
Lemma claim_tuples_grows now until limit rows tbl out0 :
  (length out0 <= length (claim_tuples now until limit rows tbl out0).1)%nat.
Proof.
  revert tbl out0. induction rows as [|[[a b] op] rows IH]; intros tbl out0; simpl; [done|].
  destruct (claimable now op); [|apply IH].
  destruct (limit <=? _); [|etrans; [|apply IH]]; simpl; rewrite ?length_app; simpl; lia.
Qed.

Lemma claim_tuples_takes now until limit rows tbl row :
  row ∈ rows -> claimable now row.2 = true -> (claim_tuples now until limit rows tbl []).1 <> [].
Proof.
  revert tbl. induction rows as [|[[a b] op] rows IH]; intros tbl; [by intros ?%elem_of_nil|].
  intros Hin Hc. cbn [claim_tuples]. destruct (claimable now op) eqn:Hop.
  - destruct (limit <=? _); [done|].
    intros Hnil. assert (Hg := claim_tuples_grows now until limit rows
      (insert2 a b (lease_op now until op) tbl) [lease_op now until op]).
    cbn [app] in Hnil. rewrite Hnil in Hg. simpl in Hg. lia.
  - apply elem_of_cons in Hin as [->|Hin]; [simpl in Hc; congruence | by apply IH].
Qed.

Section Draining.
Context `{GoEnv, GoMapOrder, Links}.

Definition pending_ops (w : World) : list AuthzTupleOp :=
  filter (fun op => op_Status op = "pending") (tenant_entries (authzTuples (w_ledger w)) "").*2.

(** What an operation asks for *)
Definition request (op : AuthzTupleOp) : string * string * string * RelationshipTuple :=
  (row_key op, op_Operation op, tuple_of op).

Lemma elem_of_pending_ops w op :
  op ∈ pending_ops w <-> exists a b, row_of w a b = Some op /\ op_Status op = "pending".
Proof.
  unfold pending_ops. rewrite list_elem_of_filter, list_elem_of_fmap. split.
  - intros (? & [[a b] v] & -> & [Hl _]%elem_of_tenant_entries). by exists a, b.
  - intros (a & b & Hl & Hp). split; [done|]. exists (a, b, op). split; [done|].
    apply elem_of_tenant_entries. by split; [|left].
Qed.

Lemma NoDup_pending_ops w : queue_ok (authzTuples (w_ledger w)) -> NoDup (row_key <$> pending_ops w).
Proof.
  intros Hok. unfold pending_ops. rewrite filter_fmap, <- list_fmap_compose.
  erewrite (list_fmap_ext _ fst).
  - eapply sublist_NoDup; [apply (NoDup_tenant_entries (authzTuples (w_ledger w)) "")|].
    apply fmap_sublist, sublist_filter.
  - intros i [[a b] op] Hi%list_elem_of_lookup_2. apply list_elem_of_filter in Hi as [_ Hi].
    apply elem_of_tenant_entries in Hi as [Hl _]. exact (q_filed _ Hok _ _ _ Hl).
Qed.

Lemma pending_count w : count_status "pending" (tenant_entries (authzTuples (w_ledger w)) "").*2 = zlen (pending_ops w).
Proof. done. Qed.

Lemma claimed_some wk w a b : due (clock (w_clock w)) w a b -> claimed wk w <> [].
Proof.
  intros (op & Hl & Hc). unfold claimed, ClaimAuthzTuples.
  pose proof (claim_tuples_takes (clock (w_clock w))
    (add_time (clock (w_clock w)) (or_limit (30 * second) (30 * second))) (or_limit (wk_Batch wk) 20)
    (tenant_entries (authzTuples (w_ledger w)) "") (authzTuples (w_ledger w)) (a, b, op)) as Ht.
  destruct (claim_tuples _ _ _ _ _ _). apply Ht; [|done].
  apply elem_of_tenant_entries. by split; [|left].
Qed.

Lemma NoDup_request l : NoDup (row_key <$> l) -> NoDup (request <$> l).
Proof. intros Hnd. apply (NoDup_fmap_1 (fun r => r.1.1)). by rewrite <- list_fmap_compose. Qed.

(** A pass with the service up moves its operations out of the pending ones. *)
Lemma pass_drains wk w :
  queue_ok (authzTuples (w_ledger w)) ->
  all_rows (fun _ _ op => op_Attempts op + 1 < int_max) (authzTuples (w_ledger w)) ->
  wk_Authz wk = true -> (forall n, authz_down n = None) ->
  exists w' ops, authzOnce wk w = (Ok tt, w') /\
    w_authz w' = foldl (fun m op => applied_to op m) (w_authz w) ops /\
    (request <$> pending_ops w) ≡ₚ (request <$> (ops ++ pending_ops w')) /\
    queue_ok (authzTuples (w_ledger w')) /\
    all_rows (fun _ _ op => op_Attempts op + 1 < int_max) (authzTuples (w_ledger w')) /\
    (forall a b op, row_of w' a b = Some op -> op_Status op = "pending" -> row_of w a b = Some op) /\
    (forall a b, due (clock (w_clock w)) w a b -> ops <> []).
Proof.
  intros Hok Hmax Hwk Hup. unfold authzOnce. rewrite Hwk. cbn [negb].
  destruct (claim_spec wk w Hok) as (w1 & Hc & Ha1 & _ & Hok1 & Hnd & Hops & Hrest & _).
  rewrite (bind_run _ _ _ _ _ Hc).
  destruct (settle_loop wk (claimed wk w) w1) as (w' & did & Hl & _ & (Ha & Hall & Hother) & Hok' & Hdid);
    [done..| |].
  { intros op Hin. destruct (Hops op Hin) as (Hl & op0 & n & u & Hl0 & _ & ->). split; [done|].
    exact (Hmax _ _ _ Hl0). }
  rewrite (Hdid Hup) in *. set (ops := claimed wk w) in *.
  assert (Hset : forall op, op ∈ ops -> exists r, row_of w' (op_OrgID op) (op_ID op) = Some r /\ settled op r).
  { intros op Hin. destruct (Hall op Hin) as (r & ? & [[_ ?]|[? _]]); [by exists r | done]. }
  assert (Hfrom : forall a b op, row_of w' a b = Some op -> op_Status op = "pending" ->
    (a, b) ∉ (row_key <$> ops) /\ row_of w a b = Some op).
  { intros a b op Hrow Hp. assert (Hout : (a, b) ∉ row_key <$> ops).
    { intros (op' & [= -> ->] & Hin)%list_elem_of_fmap. destruct (Hset _ Hin) as (r & Hr & Hs & _). congruence. }
    split; [done|]. rewrite <- Hrest, <- Hother; done. }
  exists w', ops. split_and!; [done | by rewrite Ha, Ha1 | | done | | by intros; eapply Hfrom | apply claimed_some].
  2: { intros a b op Hrow. destruct (decide ((a, b) ∈ row_key <$> ops)) as [Hin|Hout].
       - apply list_elem_of_fmap in Hin as (op' & [= -> ->] & Hin).
         destruct (Hset _ Hin) as (r & Hr & _ & _ & Hat & _), (Hops _ Hin) as (_ & op0 & n & u & Hl0 & _ & Heq).
         assert (op = r) as -> by (unfold row_of in Hr; congruence). rewrite Hat.
         rewrite Heq. exact (Hmax _ _ _ Hl0).
       - change (row_of w' a b = Some op) in Hrow. rewrite Hother, Hrest in Hrow by done.
         exact (Hmax _ _ _ Hrow). }
  apply NoDup_Permutation.
  - by apply NoDup_request, NoDup_pending_ops.
  - apply NoDup_request. rewrite fmap_app. apply NoDup_app. split; [done|]. split; [|by apply NoDup_pending_ops].
    intros k Hk (op & -> & (a & b & Hrow & Hp)%elem_of_pending_ops)%list_elem_of_fmap.
    rewrite (q_filed _ Hok' _ _ _ Hrow) in Hk. by apply Hfrom in Hrow as [? _].
  - assert (Hreq : forall op0 n u, request (lease_op n u op0) = request op0) by done.
    intros x. rewrite !list_elem_of_fmap. setoid_rewrite elem_of_app. split.
    + intros (op0 & -> & (a & b & Hrow & Hp)%elem_of_pending_ops).
      pose proof (q_filed _ Hok _ _ _ Hrow) as Hkey.
      destruct (decide ((a, b) ∈ row_key <$> ops)) as [Hin|Hout].
      * apply list_elem_of_fmap in Hin as (op & [= -> ->] & Hin).
        destruct (Hops _ Hin) as (_ & op1 & n & u & Hl1 & _ & Heq). assert (op1 = op0) as -> by congruence.
        exists op. split; [by rewrite Heq | by left].
      * exists op0. split; [done|]. right. apply elem_of_pending_ops. exists a, b. split; [|done].
        by rewrite Hother, Hrest.
    + intros (op & -> & [Hin|(a & b & Hrow & Hp)%elem_of_pending_ops]).
      * destruct (Hops _ Hin) as (_ & op0 & n & u & Hl0 & Hcl & Heq). exists op0.
        split; [by rewrite Heq|]. apply elem_of_pending_ops. eexists _, _. split; [exact Hl0|].
        unfold claimable in Hcl. by bools.
      * exists op. split; [done|]. apply elem_of_pending_ops. exists a, b. split; [by apply Hfrom | done].
Qed.

(** C29 Liveness of the queue: with the authorization service up and every pending
    operation due, draining terminates with the queue empty after at most as many
    passes as there were pending operations, and what it did to the relationship
    store is exactly the pending writes and deletions, each applied once. *)
Theorem drain_authz_completes wk w fuel :
  queue_ok (authzTuples (w_ledger w)) ->
  all_rows (fun _ _ op => op_Attempts op + 1 < int_max) (authzTuples (w_ledger w)) ->
  wk_Authz wk = true -> (forall n, authz_down n = None) ->
  (forall a b op n, row_of w a b = Some op -> op_Status op = "pending" -> claimable (clock n) op = true) ->
  (length (pending_ops w) < fuel)%nat ->
  exists w' ops, DrainAuthz fuel wk w = (Ok (Some tt), w') /\ pending_ops w' = [] /\
    (request <$> ops) ≡ₚ (request <$> pending_ops w) /\
    w_authz w' = foldl (fun m op => applied_to op m) (w_authz w) ops.
Proof.
  revert w. induction fuel as [|fuel IH]; intros w Hok Hmax Hwk Hup Hdue Hlen; [lia|].
  cbn [DrainAuthz].
  rewrite (bind_run (on_ledger _) _ _ (zlen (pending_ops w), count_status "dead" (tenant_entries (authzTuples (w_ledger w)) "").*2) w)
    by (by destruct w).
  cbn [fst]. destruct (Z.eqb_spec (zlen (pending_ops w)) 0) as [Hz|Hne].
  { exists w, []. assert (Hnil : pending_ops w = []) by (apply length_zero_iff_nil; unfold zlen in Hz; lia).
    by rewrite Hnil. }
  destruct (pass_drains wk w Hok Hmax Hwk Hup) as (w1 & ops & Hp & Ha & Hperm & Hok1 & Hmax1 & Hfrom & Hsome).
  rewrite (bind_run _ _ _ _ _ Hp).
  assert (Hops : ops <> []).
  { destruct (pending_ops w) as [|op l] eqn:El; [by unfold zlen in Hne|].
    assert (Hin : op ∈ pending_ops w) by (rewrite El; left).
    apply elem_of_pending_ops in Hin as (a & b & Hrow & Hpend). eapply (Hsome a b).
    exists op. by split; [|eapply Hdue]. }
  assert (Hdec : (length (pending_ops w1) < length (pending_ops w))%nat).
  { apply Permutation_length in Hperm. rewrite !length_fmap, length_app in Hperm.
    destruct ops; [done | simpl in Hperm; lia]. }
  destruct (IH w1) as (w' & ops' & Hd & Hnil & Hreq & Ha'); [done..| | lia |].
  { intros a b op n Hrow Hpend. eapply Hdue; [by eapply Hfrom | done]. }
  exists w', (ops ++ ops'). split; [done|]. split; [done|]. split; [|by rewrite foldl_app, Ha', Ha].
  by rewrite Hperm, !fmap_app, Hreq.
Qed.
End Draining.

(** ** Reconciliation *)
Section Reconcile.
Context `{GoEnv, GoMapOrder, Links}.

(** The identifiers still to be drawn are new, and no two draws agree. *)
Definition fresh_ids (w : World) : Prop :=
  (forall m n, fresh_id m = fresh_id n -> m = n) /\
  (forall n, fresh_id n <> "") /\
  forall n a, (w_ids w <= n)%nat -> row_of w a (fresh_id n) = None.

(** A pending operation on the tuple that the edge inherits by *)
Definition queued (operation : string) (w : World) (e : GraphEdge) : Prop :=
  exists id op, row_of w (edge_OrgID e) id = Some op /\ op_Status op = "pending" /\
    op_Operation op = operation /\ tuple_of op = edge_tuple e.
Definition awaited : World -> GraphEdge -> Prop := queued OperationWrite.

Definition named (e : GraphEdge) : Prop :=
  edge_OrgID e <> "" /\ NeedsSynchronization e = true.

Definition reconcile_write (now : Time) (e : GraphEdge) : service unit :=
  WithOrgTx (edge_OrgID e) (id ← draw; timed (fun t => EnqueueForEdge t id e OperationWrite now)).

Lemma pending_run e w :
  exists b, on_ledger (HasAuthzTuplePending (edge_OrgID e) "write" (ResourceObject (edge_FromID e))
                         EdgeParent (ResourceObject (edge_ToID e))) w = (Ok b, w) /\
            (b = true -> edge_OrgID e <> "" -> awaited w e).
Proof.
  eexists. split; [by destruct w|]. intros Hb Horg. apply existsb_exists in Hb as (op & Hin & Hop).
  apply list_elem_of_In, list_elem_of_fmap in Hin as ([[a b] v] & -> & [Hl Ha]%elem_of_tenant_entries).
  unfold tuple_is in Hop. simpl in Hop. bools. destruct Ha as [|Ha]; [done|]. subst a.
  exists b, v. split; [done|]. split; [done|]. split; [done|]. unfold tuple_of, edge_tuple. congruence.
Qed.

(** The row that the enqueue leaves under the key it updates *)
Lemma queued_insert2 w w' a b op :
  authzTuples (w_ledger w') = insert2 a b op (authzTuples (w_ledger w)) ->
  (row_of w a b = None \/ exists op0, row_of w a b = Some op0 /\ op_Status op = op_Status op0 /\
     op_Operation op = op_Operation op0 /\ tuple_of op = tuple_of op0) ->
  forall operation e, queued operation w e -> queued operation w' e.
Proof.
  intros Htbl Hrow operation e (id & v & Hl & Hs & Ho & Ht). unfold queued, row_of in *. rewrite Htbl.
  setoid_rewrite lookup2_insert2. destruct (decide (edge_OrgID e = a /\ id = b)) as [[<- ->]|Hne].
  - destruct Hrow as [Hr|(op0 & Hr & ? & ? & ?)]; [congruence|]. exists b, op.
    rewrite decide_True by done. split; [done|]. assert (v = op0) as -> by congruence.
    split_and!; congruence.
  - exists id, v. by rewrite decide_False.
Qed.

(** An enqueued operation is merged into a pending one for the same tuple, or filed
    under its own identifier. *)
Lemma enqueue_run now t id e operation s :
  named e -> id <> "" -> operation = OperationWrite \/ operation = OperationDelete ->
  exists k r, EnqueueForEdge t id e operation now s =
      (Ok tt, s <| authzTuples := insert2 (edge_OrgID e) k r (authzTuples s) |>) /\
    op_Status r = "pending" /\ op_Operation r = operation /\ tuple_of r = edge_tuple e /\
    (k = id \/ exists r0, lookup2 (authzTuples s) (edge_OrgID e) k = Some r0 /\
       op_Status r = op_Status r0 /\ op_Operation r = op_Operation r0 /\ tuple_of r = tuple_of r0).
Proof.
  intros [Horg Hneeds] Hid Hop. apply is_empty_false in Horg, Hid. unfold EnqueueForEdge. rewrite Hneeds. cbn [negb].
  unfold EnqueueAuthzTuple, parent_op. cbn [op_OrgID op_Object op_Relation op_Subject op_ID].
  assert (Hres : forall x, is_empty (ResourceObject x) = false) by done. rewrite Horg, !Hres.
  replace (if negb (String.eqb operation OperationDelete) then OperationWrite else operation) with operation
    by (by destruct Hop; subst).
  assert (Hdef : or_default operation "write" = operation) by (by destruct Hop; subst).
  cbn [orb]. unfold modify. simpl. rewrite Hdef. unfold or_default. rewrite Hid. simpl.
  destruct (find_entry _ _) as [[k r0]|] eqn:Hf.
  - apply find_row_Some in Hf as [Hl Hp]. unfold same_pending in Hp. simpl in Hp. bools.
    eexists k, _. split; [reflexivity|]. split_and!; try done; try (simpl; congruence).
    + unfold tuple_of, edge_tuple. simpl. congruence.
    + right. by exists r0.
  - eexists id, _. split; [reflexivity|]. split_and!; try done. by left.
Qed.

(** The same in a world, with an identifier drawn *)
Lemma enqueue_spec now operation e w :
  fresh_ids w -> named e -> operation = OperationWrite \/ operation = OperationDelete ->
  exists w', (id ← draw; timed (fun t => EnqueueForEdge t id e operation now)) w = (Ok tt, w') /\
    (exists T, w' = (((w <| w_ids := S (w_ids w) |>) <| w_clock := S (w_clock w) |>)
                       <| w_ledger := (w_ledger w) <| authzTuples := T |> |>)) /\
    fresh_ids w' /\ queued operation w' e /\
    forall operation' e', queued operation' w e' -> queued operation' w' e'.
Proof.
  intros (Hinj & Hne & Hfresh) Hnamed Hop. rewrite (bind_run draw _ _ _ _ eq_refl).
  unfold timed. rewrite (bind_run tick _ _ _ _ eq_refl). unfold on_ledger. simpl.
  set (id := fresh_id (w_ids w)).
  destruct (enqueue_run now (clock (w_clock w)) id e operation (w_ledger w) Hnamed (Hne _) Hop)
    as (k & r & -> & Hs & Ho & Ht & Hk).
  eexists. split; [reflexivity|]. split; [by eexists|]. simpl. split; [|split].
  - split; [done|]. split; [done|]. intros n a Hn. unfold row_of. simpl in *. rewrite lookup2_insert2.
    case_decide as Hd; [|apply Hfresh; lia]. destruct Hd as [-> Hd].
    destruct Hk as [->|(r0 & Hr0 & _)].
    + apply Hinj in Hd. lia.
    + rewrite <- Hd in Hr0. unfold row_of in Hfresh. rewrite Hfresh in Hr0; [done | lia].
  - exists k, r. split; [|done]. unfold row_of. simpl. by rewrite lookup2_insert2_eq.
  - destruct Hk as [->|(r0 & Hr0 & Hst)]; intros operation' e'; (eapply queued_insert2; [reflexivity|]).
    + left. apply Hfresh. done.
    + right. by exists r0.
Qed.

Lemma reconcile_write_spec now e w :
  fresh_ids w -> named e ->
  exists w', reconcile_write now e w = (Ok tt, w') /\ w_authz w' = w_authz w /\ fresh_ids w' /\
    awaited w' e /\ forall e', awaited w e' -> awaited w' e'.
Proof.
  intros Hf Hnamed. unfold reconcile_write, WithOrgTx. rewrite (proj2 (is_empty_false _) (proj1 Hnamed)).
  destruct (enqueue_spec now OperationWrite e w Hf Hnamed) as (w' & -> & [T ->] & Hf' & Hq & Hkeep); [by left|].
  eexists. split_and!; [reflexivity | done | done | done | by apply Hkeep].
Qed.

Lemma reconcile_edge_spec wk now e w :
  fresh_ids w -> named e -> wk_Inspector wk = true -> (forall n, authz_down n = None) ->
  exists w', reconcile_edge wk now e w = (Ok tt, w') /\ w_authz w' = w_authz w /\ fresh_ids w' /\
    (HasTuple (w_authz w) (edge_tuple e) = true \/ awaited w' e) /\
    forall e', awaited w e' -> awaited w' e'.
Proof.
  intros Hfresh Hnamed Hwk Hup. unfold reconcile_edge.
  destruct (pending_run e w) as (b & Hp & Hb). rewrite (bind_run _ _ _ _ _ Hp).
  destruct b; [exists w; split_and!; try done; right; by apply Hb, Hnamed|].
  set (w1 := w <| w_clock := S (w_clock w) |>).
  rewrite (bind_run _ _ _ (HasTuple (w_authz w) (edge_tuple e)) w1).
  2: { unfold covered. rewrite Hwk. unfold inspect_tuple. by rewrite Hup. }
  destruct (HasTuple (w_authz w) (edge_tuple e)); [exists w1; split_and!; try done; by left|].
  destruct (reconcile_write_spec now e w1) as (w' & Hr & Ha & Hf & Haw & Hkeep); [done..|].
  rewrite (bind_run _ _ _ _ _ (attempt_run _ _ _ _ Hr)). exists w'. split_and!; try done. by right.
Qed.

Lemma reconcile_loop wk now es w :
  fresh_ids w -> Forall named es -> wk_Inspector wk = true -> (forall n, authz_down n = None) ->
  exists w', for_each (reconcile_edge wk now) es w = (Ok tt, w') /\ w_authz w' = w_authz w /\
    (forall e, e ∈ es -> HasTuple (w_authz w) (edge_tuple e) = true \/ awaited w' e) /\
    forall e', awaited w e' -> awaited w' e'.
Proof.
  intros Hfresh Hes Hwk Hup. revert w Hfresh. induction Hes as [|e es He _ IH]; intros w Hfresh.
  { exists w. split_and!; try done. by intros e ?%elem_of_nil. }
  cbn [for_each].
  destruct (reconcile_edge_spec wk now e w) as (w1 & Hr & Ha & Hf & Hout & Hkeep); [done..|].
  rewrite (bind_run _ _ _ _ _ Hr). destruct (IH w1 Hf) as (w' & Hl & Ha' & Hall & Hkeep').
  exists w'. split; [done|]. split; [congruence|]. rewrite Ha in Hall.
  split; [|by eauto]. intros e' [->|Hin]%elem_of_cons; [destruct Hout; auto | by apply Hall].
Qed.

(** The edges whose inheritance a pass restores: at most 200 of those that are
    active and ask for it *)
Definition needing_authz (w : World) : list GraphEdge :=
  match (ListActiveParentEdgesNeedingAuthz "" 200 (w_ledger w)).1 with Ok l => l | Err _ => [] end.

(** Reconciliation is complete: with the authorization service up a pass
    succeeds, and every active edge that inherits access, up to the 200 it lists,
    then has its tuple in the relationship store or a pending write of it in the
    queue; no pending write is lost and the store itself is not touched. *)
Theorem reconcile_complete wk w :
  ledger_ok (w_ledger w) -> fresh_ids w -> wk_Inspector wk = true -> (forall n, authz_down n = None) ->
  exists w', reconcileOnce wk w = (Ok tt, w') /\ w_authz w' = w_authz w /\
    (forall a b e, lookup2 (edges (w_ledger w)) a b = Some e -> edge_State e = "ACTIVE" ->
       NeedsSynchronization e = true -> zlen (needing_authz w) < 200 ->
       HasTuple (w_authz w) (edge_tuple e) = true \/ awaited w' e) /\
    forall e', awaited w e' -> awaited w' e'.
Proof.
  intros Hok Hfresh Hwk Hup. unfold reconcileOnce.
  rewrite (bind_run (on_ledger _) _ _ (needing_authz w) w) by (by destruct w).
  rewrite (bind_run tick _ _ _ _ eq_refl).
  assert (Hlist : needing_authz w = ztake 200 (filter (fun e => String.eqb (edge_State e) "ACTIVE"
            && String.eqb (edge_Predicate e) EdgeParent && edge_SyncAuthz e = true)
            (tenant_entries (edges (w_ledger w)) "").*2)).
  { unfold needing_authz, ListActiveParentEdgesNeedingAuthz, gets. cbn [fst].
    by rewrite take_matching_spec. }
  assert (Hin : forall e, e ∈ needing_authz w -> exists a b, lookup2 (edges (w_ledger w)) a b = Some e /\
    NeedsSynchronization e = true).
  { intros e He. rewrite Hlist in He. apply elem_of_take in He as (i & He%list_elem_of_lookup_2 & _).
    apply list_elem_of_filter in He as [Hc He].
    apply list_elem_of_fmap in He as ([[a b] e'] & -> & [Hl _]%elem_of_tenant_entries).
    exists a, b. split; [done|]. unfold NeedsSynchronization. bools. apply andb_true_iff.
    split; [done|]. by apply String.eqb_eq. }
  set (w1 := w <| w_clock := S (w_clock w) |>).
  destruct (reconcile_loop wk (clock (w_clock w)) (needing_authz w) w1) as (w' & Hl & Ha & Hall & Hkeep);
    [done | | done.. |].
  { apply Forall_forall. intros e (a & b & Hl & Hn)%Hin. split; [|done].
    destruct (edges_named _ (ok_edges _ Hok) _ _ _ Hl) as [? _]. done. }
  exists w'. split; [done|]. split; [done|]. split; [|done].
  intros a b e Hl' Hact Hneeds Hlen. apply Hall. rewrite Hlist in Hlen |- *.
  unfold zlen, ztake in Hlen |- *. rewrite length_take in Hlen. rewrite take_ge by lia.
  apply list_elem_of_filter. split.
  - unfold NeedsSynchronization in Hneeds. rewrite Hact. apply andb_prop in Hneeds as [-> ->]. done.
  - apply list_elem_of_fmap. exists (a, b, e). split; [done|]. apply elem_of_tenant_entries. by split; [|left].
Qed.
End Reconcile.

(** ** Concrete queues *)
Lemma queue_ok_entries `{GoMapOrder} tbl :
  Forall (fun row : string * string * AuthzTupleOp => row_key row.2 = row.1 /\ 0 <= op_Attempts row.2 < int_max)
    (tenant_entries tbl "") ->
  NoDup ((fun row => row.1.2) <$> tenant_entries tbl "") -> queue_ok tbl.
Proof.
  rewrite Forall_forall. intros Hall Hnd.
  assert (Hin : forall a b op, lookup2 tbl a b = Some op -> (a, b, op) ∈ tenant_entries tbl "").
  { intros a b op Hl. apply elem_of_tenant_entries. by split; [|left]. }
  split.
  - intros a b op Hl%Hin. by apply Hall in Hl as [? _].
  - intros a1 a2 b op1 op2 H1%Hin H2%Hin.
    pose proof (NoDup_fmap_inj _ _ _ _ Hnd H1 H2 eq_refl). congruence.
  - intros a b op Hl%Hin. by apply Hall in Hl as [_ ?].
Qed.

#[local] Existing Instances sample_env order_forward links_up.

Definition queue_world : World := mkWorld queue_store None None NewMemory [] [] 0 0.
Definition queue_worker : Worker := mkWorker 1 12 true true.

Lemma queue_world_ok : queue_ok (authzTuples (w_ledger queue_world)).
Proof. apply (@queue_ok_entries order_forward); apply (bool_decide_unpack _); vm_compute; exact I. Qed.

Definition early (op : AuthzTupleOp) : Prop :=
  (op_LeaseUntil op = None /\ op_NextAttempt op <= 1700000000 * second) /\ op_Attempts op + 1 < int_max.
Lemma queue_world_early : all_rows (fun _ _ op => early op) (authzTuples (w_ledger queue_world)).
Proof.
  intros a b op Hl. assert (Hin : (a, b, op) ∈ tenant_entries (authzTuples (w_ledger queue_world)) "").
  { apply elem_of_tenant_entries. by split; [|left]. }
  assert (Hall : Forall (fun row : string * string * AuthzTupleOp => early row.2)
                   (tenant_entries (authzTuples (w_ledger queue_world)) "")).
  { unfold early. apply (bool_decide_unpack _). vm_compute. exact I. }
  exact (proj1 (Forall_forall _ _) Hall _ Hin).
Qed.
Lemma queue_world_room :
  all_rows (fun _ _ op => op_Attempts op + 1 < int_max) (authzTuples (w_ledger queue_world)).
Proof. intros a b op Hl. by apply queue_world_early in Hl as [_ ?]. Qed.
Lemma queue_world_due a b op n :
  row_of queue_world a b = Some op -> op_Status op = "pending" -> claimable (clock n) op = true.
Proof.
  intros Hl Hp. apply queue_world_early in Hl as [[Hlease Hnext] _]. unfold claimable. rewrite Hp, Hlease.
  apply negb_true_iff, Z.ltb_ge. change (clock n) with (1700000000 * second + Z.of_nat n). lia.
Qed.

Lemma authz_pass_settles_witness :
  exists w' (ops did : list AuthzTupleOp), authzOnce queue_worker queue_world = (Ok tt, w') /\ zlen ops <= 1 /\ did = ops.
Proof.
  destruct (@authz_pass_settles sample_env order_forward links_up queue_worker queue_world queue_world_ok
    queue_world_room eq_refl) as (w' & ops & did & Hr & Hlen & _ & _ & _ & Hup).
  exists w', ops, did. split; [exact Hr|]. split; [exact Hlen|]. apply Hup. reflexivity.
Defined.

Lemma drain_authz_completes_witness :
  exists w', DrainAuthz 3 queue_worker queue_world = (Ok (Some tt), w') /\ pending_ops w' = [].
Proof.
  destruct (@drain_authz_completes sample_env order_forward links_up queue_worker queue_world 3 queue_world_ok
    queue_world_room eq_refl) as (w' & ops & Hd & Hp & _); [reflexivity | exact queue_world_due | vm_compute; lia |].
  exists w'. split; [exact Hd | exact Hp].
Defined.

(** An inherited edge whose tuple was lost, under identifiers that count in strokes *)
Definition tally_env : GoEnv :=
  {| clock := fun n => Z.of_nat n; fresh_id := fun n => "#" +:+ repeat_str n "|"; uuid_sha1_oid := fun s => s |}.
Lemma length_repeat_str n c : String.length (repeat_str n c) = n.
Proof. induction n as [|n IH]; simpl; congruence. Qed.

Definition lost_world : World :=
  mkWorld (exec (H := order_forward) (CUpsertEdge 5 "e1" sample_edge) NewStore) None None NewMemory [] [] 0 0.

Lemma lost_world_fresh : @fresh_ids tally_env lost_world.
Proof.
  split; [|split; [done|]].
  - intros m n Heq. apply (f_equal String.length) in Heq.
    change (S (String.length (repeat_str m "|")) = S (String.length (repeat_str n "|"))) in Heq.
    rewrite !length_repeat_str in Heq. lia.
  - intros n a _. apply lookup2_empty.
Qed.

Lemma reconcile_complete_witness :
  exists w' e, @reconcileOnce tally_env order_forward links_up queue_worker lost_world = (Ok tt, w') /\
    lookup2 (edges (w_ledger lost_world)) "acme" "e1" = Some e /\ awaited w' e.
Proof.
  destruct (@reconcile_complete tally_env order_forward links_up queue_worker lost_world)
    as (w' & Hr & _ & Hall & _); [apply exec_ok, ledger_ok_new | exact lost_world_fresh | reflexivity..|].
  eexists w', _. split; [exact Hr|]. split; [vm_compute; reflexivity|].
  edestruct (Hall "acme" "e1") as [Ht|Ha]; [vm_compute; reflexivity | reflexivity.. | | exact Ha].
  vm_compute in Ht. discriminate.
Defined.

(** ** The order in which a pass applies the queue

    An edge is created and removed before the worker runs: both operations of its
    tuple are pending. *)
Definition churn (O : GoMapOrder) : World :=
  mkWorld ((EnqueueForEdge 6 "t2" sample_edge OperationDelete 6 ≫= fun _ => mret tt)
             (EnqueueForEdge 5 "t1" sample_edge OperationWrite 5 NewStore).2).2
    None None NewMemory [] [] 0 0.
Definition survives (O : GoMapOrder) : bool :=
  HasTuple (w_authz (authzOnce (H := sample_env) (mkWorker 10 12 true true) (churn O)).2) (edge_tuple sample_edge).

(** The runtime may visit the queue in an order in which the deletion is applied
    before the write that precedes it, so the tuple of the removed edge survives. *)
Example authz_order_matters : survives order_forward <> survives order_backward.
Proof. vm_compute. discriminate. Qed.
