(* ===== verification/Deletion.v ===== *)
(** * [internal/deletion/deletion.go]: the deletion saga

    Authorize, revoke visibility (tombstone the record and its edges, queue the
    deletion of inherited access), enumerate what was derived, remove it from the
    index, erase or block the evidence, sign the manifest. The services are those
    of [World]; the authorization provider is the in-process one. *)
From S2P Require Import Prelude GoStd Sha256 Ports Platform Json OpenFGA.
From S2P Require Import Ledger Index AuditLog Changes World.

Definition ManifestVersion : string := "context-fabric.deletion/v1".

(** The optional collaborators that are present, and the signing key *)
Record DeletionService := mkDeletionService {
  ds_Changes : bool; ds_Holds : bool; ds_SignKey : string;
}.

Record DeletionRequest := mkDeletionRequest {
  dr_OrgID : string; dr_ResourceID : string; dr_Principal : Principal; dr_Reason : string;
}.

Record DerivativeRef := mkDerivative { der_Kind : string; der_Ref : string }.

Record CompletionManifest := mkManifest {
  cm_FormatVersion : string; cm_DeletionID : string; cm_OrganizationID : string;
  cm_ResourceID : string; cm_RevisionID : string; cm_Status : string; cm_BlockedReason : string;
  cm_Derivatives : list DerivativeRef; cm_IndexRemoved : bool; cm_EvidenceErased : bool;
  cm_CompletedAt : Time; cm_Signature : string;
}.
#[export] Instance CompletionManifest_eta : Settable CompletionManifest := fun r =>
  mkManifest (cm_FormatVersion r) (cm_DeletionID r) (cm_OrganizationID r) (cm_ResourceID r)
    (cm_RevisionID r) (cm_Status r) (cm_BlockedReason r) (cm_Derivatives r) (cm_IndexRemoved r)
    (cm_EvidenceErased r) (cm_CompletedAt r) (cm_Signature r).

(** ** The signature *)
Definition marshal_derivative (d : DerivativeRef) : string :=
  json_struct [json_member "kind" (quote (der_Kind d)); json_member "ref" (quote (der_Ref d))].

(** [None]: the time of completion has no JSON form; the error is dropped and nothing
    is signed. *)
Definition marshal_manifest (m : CompletionManifest) : option string :=
  at_ ← json_time (cm_CompletedAt m);
  let str name v := json_member name (quote v) in
  Some (json_struct
    ([str "format_version" (cm_FormatVersion m); str "deletion_id" (cm_DeletionID m);
      str "organization_id" (cm_OrganizationID m); str "resource_id" (cm_ResourceID m);
      str "revision_id" (cm_RevisionID m); str "status" (cm_Status m)]
     ++ (if is_empty (cm_BlockedReason m) then [] else [str "blocked_reason" (cm_BlockedReason m)])
     ++ [json_member "derivatives" ("[" +:+ join (marshal_derivative <$> cm_Derivatives m) "," +:+ "]");
         json_member "index_removed" (json_bool (cm_IndexRemoved m));
         json_member "evidence_erased" (json_bool (cm_EvidenceErased m));
         json_member "completed_at" at_; str "signature" (cm_Signature m)])).

Definition manifest_mac (key : string) (m : CompletionManifest) : string :=
  let raw := default "" (marshal_manifest (m <| cm_Signature := "" |>)) in
  "sha256:" +:+ hex_encode (hmac_sha256 key raw).

Definition sign (key : string) (m : CompletionManifest) : string :=
  if is_empty key then "" else manifest_mac key m.

Definition VerifySignature (key : string) (m : CompletionManifest) : bool :=
  if is_empty key then false else String.eqb (manifest_mac key m) (cm_Signature m).

(** ["key@version"] or ["key#version"] *)
Definition splitEvidenceRef (ref : string) : string * string :=
  match index_byte ref "@" with
  | Some i => (take_str i ref, drop_str (S i) ref)
  | None => match index_byte ref "#" with
            | Some i => (take_str i ref, drop_str (S i) ref)
            | None => (ref, "")
            end
  end.

Definition IsTombstoned (state : string) : bool :=
  mem_str state ["TOMBSTONED"; "PURGE_PENDING"; "PURGED"].

Definition FormatDeletionID (id : string) : string := "deletion:" +:+ id.

Section Deletion.
Context `{GoEnv, GoMapOrder}.

(** ** Authorization *)
Definition authz_check (req : AuthzCheck) : service AuthzDecision :=
  t ← tick; m ← gets w_authz; of_result (Check_ m t req).

Definition may_delete (req : DeletionRequest) (action : string) : service bool :=
  d ← authz_check (mkAuthzCheck (dr_Principal req) action (dr_ResourceID req) ConsistencyFullyConsistent None);
  mret (ad_Allowed d).

Definition authorize_deletion (req : DeletionRequest) : service unit :=
  allowed ← may_delete req "can_delete";
  if allowed : bool then mret tt
  else
    admin ← may_delete req "can_admin";
    throw_if (negb admin) (ErrForbidden "deletion not authorized").

(** ** Visibility *)
Definition tombstone_revision (req : DeletionRequest) (now : Time) (deletionID revID : string) : Revision :=
  mkRevision revID (dr_ResourceID req) (dr_OrgID req) "" "" now "TOMBSTONED"
    {["deletion_id" := deletionID; "reason" := dr_Reason req]} now now.

Definition tombstone_edge (orgID : string) (nowEdge : Time) (e : GraphEdge) : service unit :=
  _ ← timed (fun t => TombstoneEdge t orgID (edge_EdgeID e));
  id ← draw;
  timed (fun t => EnqueueForEdge t id e OperationDelete nowEdge).

(** The edges that a deletion tombstones: 1000 of the live ones at most *)
Definition incident (resourceID : string) : EdgeListOptions := mkEdgeOpts [resourceID] [] false 1000.

Definition revoke_visibility (req : DeletionRequest) (tomb : Revision) (rec : LedgerRecord) : service unit :=
  WithOrgTx (dr_OrgID req) (
    _ ← timed (fun t => AppendRevision t tomb);
    _ ← timed (fun t => UpsertRecord t rec);
    edges ← on_ledger (ListEdges (dr_OrgID req) (incident (dr_ResourceID req)));
    nowEdge ← tick;
    for_each (tombstone_edge (dr_OrgID req) nowEdge) edges).

(** ** Derivatives *)
Definition revision_refs (r : Revision) : list DerivativeRef :=
  (if is_empty (rev_EvidenceRef r) then [] else [mkDerivative "evidence" (rev_EvidenceRef r)])
  ++ [mkDerivative "revision" (rev_RevisionID r)].

(** The two listings of the memory ledger do not fail. *)
Definition enumerate (orgID resourceID : string) (rec : LedgerRecord) : service (list DerivativeRef) :=
  revs ← on_ledger (ListRevisions orgID resourceID 100);
  edges ← on_ledger (ListEdges orgID (mkEdgeOpts [resourceID] [] true 200));
  mret ([mkDerivative "record" resourceID]
        ++ (if is_empty (rec_CurrentRevID rec) then [] else [mkDerivative "revision" (rec_CurrentRevID rec)])
        ++ (revs ≫= revision_refs)
        ++ [mkDerivative "index" resourceID; mkDerivative "cache" resourceID]
        ++ ((fun e => mkDerivative "graph_edge" (edge_EdgeID e)) <$> edges)).

Definition remove_from_index (req : DeletionRequest) : service bool := fun w =>
  match w_index w with
  | Some i => (Ok true, w <| w_index := Some (Delete (dr_OrgID req) [dr_ResourceID req] i) |>)
  | None => (Ok false, w)
  end.

(** ** Evidence *)

(** Stops at the first version that cannot be erased; [true] when one was tried. *)
Fixpoint erase_evidence (ds : list DerivativeRef) (had : bool) : service (result GoError bool) :=
  match ds with
  | [] => mret (Ok had)
  | d :: ds =>
      if String.eqb (der_Kind d) "evidence" then
        let '(key, ver) := splitEvidenceRef (der_Ref d) in
        r ← attempt (on_evidence (DeleteVersion key ver));
        match r with
        | Ok _ => erase_evidence ds true
        | Err e => mret (Err e)
        end
      else erase_evidence ds had
  end.

Definition has_evidence : service bool := gets (fun w => bool_decide (is_Some (w_evidence w))).

(** The status, the reason it is blocked and whether evidence was erased *)
Definition erase_or_block (svc : DeletionService) (req : DeletionRequest) (ds : list DerivativeRef)
    : service (string * string * bool) :=
  hold ← (if ds_Holds svc then on_ledger (HasLegalHold (dr_OrgID req) (dr_ResourceID req)) else mret false);
  if hold : bool then mret ("blocked", "LEGAL_HOLD", false)
  else
    present ← has_evidence;
    r ← (if present : bool then erase_evidence ds false else mret (Ok false));
    mret (match r with
          | Ok had => ("completed", "", had)
          | Err _ => ("blocked", "EVIDENCE_PURGE_FAILED", false)
          end).

Definition purge (svc : DeletionService) (req : DeletionRequest) (rec : LedgerRecord)
    (ds : list DerivativeRef) : service (string * string * bool) :=
  outcome ← erase_or_block svc req ds;
  let state := if String.eqb outcome.1.1 "completed" then "PURGED" else "PURGE_PENDING" in
  _ ← attempt (WithOrgTx (dr_OrgID req) (timed (fun t => UpsertRecord t (rec <| rec_State := state |>))));
  mret outcome.

(** ** The saga *)
Definition deletion_event (req : DeletionRequest) (id reason : string) (attrs : strmap) (at_ : Time)
    : AuditEvent :=
  mkAuditEvent id (dr_OrgID req) (p_ID (dr_Principal req)) (p_Kind (dr_Principal req)) ""
    "context.delete" reason "" "" 0 [dr_ResourceID req] "" (Some attrs) at_.

Definition announce (svc : DeletionService) (req : DeletionRequest) (m : CompletionManifest) : service unit :=
  if ds_Changes svc then
    let action := if String.eqb (cm_Status m) "completed" then "resource.purged" else "resource.tombstoned" in
    id ← draw;
    t ← tick; newid ← draw;
    _ ← attempt (on_ledger (Append t newid
          (mkChangeEvent id (dr_OrgID req) (dr_ResourceID req) (cm_RevisionID m) action (cm_RevisionID m)
             (cm_CompletedAt m))));
    mret tt
  else mret tt.

Definition Run (svc : DeletionService) (req : DeletionRequest) : service CompletionManifest :=
  _ ← throw_if (is_empty (dr_OrgID req) || is_empty (dr_ResourceID req))
        (ErrValidation "org and resource required");
  now ← tick;
  _ ← authorize_deletion req;
  rec ← on_ledger (GetRecord (dr_OrgID req) (dr_ResourceID req));
  deletionID ← draw;
  revID ← draw;
  let rec := ((rec <| rec_State := "TOMBSTONED" |>) <| rec_CurrentRevID := revID |>) <| rec_UpdatedAt := now |> in
  _ ← revoke_visibility req (tombstone_revision req now deletionID revID) rec;
  id ← draw;
  _ ← attempt (append_event (deletion_event req id "VISIBILITY_REVOKED"
        {["deletion_id" := deletionID; "revision_id" := revID]} now));
  ds ← enumerate (dr_OrgID req) (dr_ResourceID req) rec;
  removed ← remove_from_index req;
  '(status, blocked, erased) ← purge svc req rec ds;
  completed ← tick;
  let m := mkManifest ManifestVersion deletionID (dr_OrgID req) (dr_ResourceID req) revID status blocked
             ds removed erased completed "" in
  let m := m <| cm_Signature := sign (ds_SignKey svc) m |> in
  _ ← announce svc req m;
  id ← draw; t ← tick;
  _ ← attempt (append_event (deletion_event req id ("DELETION_" +:+ status)
        {["deletion_id" := deletionID; "status" := status]} t));
  mret m.
End Deletion.
