(* ===== verification/DeletionFacts.v ===== *)
(** * What a deletion guarantees

    Nothing happens without authorization; afterwards the record is tombstoned, its
    listed edges are dead and their inherited access is queued for deletion, the index
    has forgotten it, and the manifest is signed and says what became of the evidence. *)
From S2P Require Import Prelude GoStd Sha256 Ports Platform Json Mapping Policy OpenFGA.
From S2P Require Import Ledger LedgerFacts LedgerQueries Index AuditLog Changes World.
From S2P Require Import Worker WorkerFacts QueueFacts Deletion.

Section Edges.
Context `{GoEnv, GoMapOrder}.

(** Only the edges and the queue of tuples change. *)
Definition graph_only (w w' : World) : Prop :=
  exists E T, w_ledger w' = ((w_ledger w) <| edges := E |>) <| authzTuples := T |> /\
    w_evidence w' = w_evidence w /\ w_index w' = w_index w /\ w_authz w' = w_authz w.

Lemma graph_only_refl w : graph_only w w.
Proof. exists (edges (w_ledger w)), (authzTuples (w_ledger w)). by destruct w as [[]]. Qed.

Lemma graph_only_trans w1 w2 w3 : graph_only w1 w2 -> graph_only w2 w3 -> graph_only w1 w3.
Proof.
  intros (E1 & T1 & Hl1 & ? & ? & ?) (E2 & T2 & Hl2 & ? & ? & ?). exists E2, T2.
  rewrite Hl1 in Hl2. split; [done|]. split_and!; congruence.
Qed.

Definition dead (s : Store) (a b : string) : Prop :=
  exists e, lookup2 (edges s) a b = Some e /\ edge_State e = "TOMBSTONED".

Lemma tombstone_edge_spec org now e e0 w :
  lookup2 (edges (w_ledger w)) org (edge_EdgeID e) = Some e0 -> edge_OrgID e = org -> org <> "" ->
  fresh_ids w ->
  exists w', tombstone_edge org now e w = (Ok tt, w') /\ graph_only w w' /\ fresh_ids w' /\
    (exists d, edge_State d = "TOMBSTONED" /\
       edges (w_ledger w') = insert2 org (edge_EdgeID e) d (edges (w_ledger w))) /\
    (NeedsSynchronization e = true -> queued OperationDelete w' e) /\
    (forall operation e', queued operation w e' -> queued operation w' e').
Proof.
  intros Hl Horg Hne Hfresh. unfold tombstone_edge.
  set (d := (e0 <| edge_State := "TOMBSTONED" |>) <| edge_UpdatedAt := clock (w_clock w) |>).
  set (w1 := (w <| w_clock := S (w_clock w) |>)
               <| w_ledger := (w_ledger w) <| edges := insert2 org (edge_EdgeID e) d (edges (w_ledger w)) |> |>).
  rewrite (bind_run _ _ _ tt w1).
  2: { unfold timed. rewrite (bind_run tick _ _ _ _ eq_refl). unfold on_ledger, TombstoneEdge, find. simpl.
       rewrite (bind_run _ _ _ e0 (w_ledger w)) by (by rewrite Hl). done. }
  assert (Hf1 : fresh_ids w1) by exact Hfresh.
  destruct (NeedsSynchronization e) eqn:Hn.
  - destruct (enqueue_spec now OperationDelete e w1 Hf1) as (w' & -> & [T ->] & Hf' & Hq & Hkeep);
      [split; congruence | by right|].
    eexists. split; [reflexivity|]. split_and!; try done.
    + by exists (insert2 org (edge_EdgeID e) d (edges (w_ledger w))), T.
    + by exists d.
  - rewrite (bind_run draw _ _ _ _ eq_refl). unfold timed. rewrite (bind_run tick _ _ _ _ eq_refl).
    unfold on_ledger, EnqueueForEdge. rewrite Hn. eexists. split; [reflexivity|]. split_and!; try done.
    + by exists (insert2 org (edge_EdgeID e) d (edges (w_ledger w))), (authzTuples (w_ledger w)).
    + destruct Hfresh as (? & ? & Hf). split_and!; try done. intros n a Hle. apply Hf. simpl in Hle. lia.
    + by exists d.
Qed.

Lemma tombstone_loop org now es w :
  org <> "" -> fresh_ids w ->
  (forall e, e ∈ es -> edge_OrgID e = org /\ is_Some (lookup2 (edges (w_ledger w)) org (edge_EdgeID e))) ->
  exists w', for_each (tombstone_edge org now) es w = (Ok tt, w') /\ graph_only w w' /\ fresh_ids w' /\
    (forall e, e ∈ es -> dead (w_ledger w') org (edge_EdgeID e) /\
                         (NeedsSynchronization e = true -> queued OperationDelete w' e)) /\
    (forall a b, dead (w_ledger w) a b -> dead (w_ledger w') a b) /\
    (forall a b, a <> org \/ b ∉ edge_EdgeID <$> es ->
       lookup2 (edges (w_ledger w')) a b = lookup2 (edges (w_ledger w)) a b) /\
    (forall operation e', queued operation w e' -> queued operation w' e').
Proof.
  intros Horg. revert w. induction es as [|e es IH]; intros w Hfresh Hes; cbn [for_each].
  { exists w. split_and!; try done; [apply graph_only_refl | by intros e ?%elem_of_nil]. }
  destruct (Hes e ltac:(left)) as [Ho [e0 Hl]].
  destruct (tombstone_edge_spec org now e e0 w Hl Ho Horg Hfresh)
    as (w1 & Hr & Hg1 & Hf1 & (d & Hd & HE) & Hq & Hkeep).
  rewrite (bind_run _ _ _ _ _ Hr).
  destruct (IH w1 Hf1) as (w' & Hl' & Hg & Hf & Hall & Hdead & Hother & Hkeep').
  { intros e' Hin. destruct (Hes e' ltac:(by right)) as [? [x Hx]]. split; [done|].
    rewrite HE, lookup2_insert2. case_decide; by eexists. }
  assert (Hmono : forall a b, dead (w_ledger w) a b -> dead (w_ledger w1) a b).
  { intros a b (x & Hx & Hs). unfold dead. rewrite HE. setoid_rewrite lookup2_insert2.
    case_decide; [by exists d | by exists x]. }
  exists w'. split; [done|]. split; [by eapply graph_only_trans|]. split; [done|]. split; [|split; [|split]].
  - intros e' [->|Hin]%elem_of_cons; [|by apply Hall]. split.
    + apply Hdead. exists d. split; [|done]. by rewrite HE, lookup2_insert2_eq.
    + intros Hn. by apply Hkeep', Hq.
  - auto.
  - intros a b Hab. rewrite fmap_cons in Hab. rewrite Hother.
    + rewrite HE, lookup2_insert2. case_decide as Hk; [|done]. destruct Hk as [-> ->].
      destruct Hab as [?|Hab]; [done|]. destruct Hab. by left.
    + destruct Hab as [?|Hab]; [by left|]. right. intros Hin. apply Hab. by right.
  - auto.
Qed.
End Edges.

Section Saga.
Context `{GoEnv, GoMapOrder}.

(** ** Visibility *)
Definition touches (resourceID : string) (e : GraphEdge) : Prop :=
  edge_FromID e = resourceID \/ edge_ToID e = resourceID.

(** The live edges of a resource, and those that a deletion lists *)
Definition live_edges (s : Store) (orgID resourceID : string) : list GraphEdge :=
  matching_edges s orgID (incident resourceID).
Definition listed_edges (s : Store) (orgID resourceID : string) : list GraphEdge :=
  ztake 1000 (sort_slice edge_less (live_edges s orgID resourceID)).

Lemma elem_of_live_edges s org res e :
  e ∈ live_edges s org res <->
  (exists id, lookup2 (edges s) org id = Some e) /\ edge_State e <> "TOMBSTONED" /\ touches res e.
Proof.
  unfold live_edges, matching_edges. rewrite list_elem_of_filter, edge_wanted_spec, elem_of_go_values.
  unfold wanted_edge, incident, touches. simpl. rewrite !list_elem_of_singleton.
  split.
  - intros ([[?|?] [[?|?] _]] & Hid); done.
  - intros (Hid & Hs & Ht). split; [|done]. split; [by right|]. split; [by right | by left].
Qed.

Definition visible_part (w w' : World) : Prop :=
  w_evidence w' = w_evidence w /\ w_index w' = w_index w /\ w_authz w' = w_authz w.

Lemma revoke_visibility_spec req tomb rec w :
  ledger_ok (w_ledger w) -> fresh_ids w -> dr_OrgID req <> "" -> rec_OrgID rec = dr_OrgID req ->
  rec_ResourceID rec = dr_ResourceID req -> dr_ResourceID req <> "" ->
  exists w' rec', revoke_visibility req tomb rec w = (Ok tt, w') /\ visible_part w w' /\
    lookup2 (records (w_ledger w')) (dr_OrgID req) (dr_ResourceID req) = Some rec' /\
    rec_State rec' = rec_State rec /\ holds (w_ledger w') = holds (w_ledger w) /\
    (forall e, e ∈ listed_edges (w_ledger w) (dr_OrgID req) (dr_ResourceID req) ->
       dead (w_ledger w') (dr_OrgID req) (edge_EdgeID e) /\
       (NeedsSynchronization e = true -> queued OperationDelete w' e)) /\
    (forall a b, a <> dr_OrgID req \/
                 b ∉ edge_EdgeID <$> listed_edges (w_ledger w) (dr_OrgID req) (dr_ResourceID req) ->
       lookup2 (edges (w_ledger w')) a b = lookup2 (edges (w_ledger w)) a b).
Proof.
  intros Hok Hfresh Horg Hro Hrr Hres. unfold revoke_visibility, WithOrgTx.
  rewrite (proj2 (is_empty_false _) Horg).
  set (s1 := (AppendRevision (clock (w_clock w)) tomb (w_ledger w)).2).
  set (w1 := (w <| w_clock := S (w_clock w) |>) <| w_ledger := s1 |>).
  rewrite (bind_run _ _ _ tt w1) by done.
  set (s2 := (UpsertRecord (clock (w_clock w1)) rec s1).2).
  set (w2 := (w1 <| w_clock := S (w_clock w1) |>) <| w_ledger := s2 |>).
  assert (Hup : UpsertRecord (clock (w_clock w1)) rec s1 = (Ok tt, s2)).
  { unfold s2, UpsertRecord. by rewrite Hro, Hrr, (proj2 (is_empty_false _) Horg), (proj2 (is_empty_false _) Hres). }
  rewrite (bind_run _ _ _ tt w2).
  2: { unfold timed. rewrite (bind_run tick _ _ _ _ eq_refl). unfold on_ledger.
       change (w_ledger (w1 <| w_clock := S (w_clock w1) |>)) with s1. by rewrite Hup. }
  set (es := listed_edges (w_ledger w) (dr_OrgID req) (dr_ResourceID req)).
  assert (Hs2 : exists r, s2 = ((w_ledger w) <| revisions := revisions s1 |>) <| records := insert2 (dr_OrgID req) (dr_ResourceID req) r (records (w_ledger w)) |> /\
                          rec_State r = rec_State rec).
  { unfold s2, UpsertRecord. rewrite Hro, Hrr, (proj2 (is_empty_false _) Horg), (proj2 (is_empty_false _) Hres).
    cbn [orb]. unfold modify. cbn [snd]. eexists. split; [|shelve]. simpl. rewrite Hro, Hrr. reflexivity.
    Unshelve. done. }
  destruct Hs2 as (r & Hs2 & Hst).
  rewrite (bind_run _ _ _ es w2).
  2: { assert (Hes : es = ztake 1000 (sort_slice edge_less (live_edges s2 (dr_OrgID req) (dr_ResourceID req)))).
       { unfold live_edges, matching_edges. by rewrite Hs2. }
       rewrite Hes. reflexivity. }
  rewrite (bind_run tick _ _ _ _ eq_refl).
  set (w3 := w2 <| w_clock := S (w_clock w2) |>).
  assert (Hedges : edges (w_ledger w3) = edges (w_ledger w)) by (change (w_ledger w3) with s2; by rewrite Hs2).
  destruct (tombstone_loop (dr_OrgID req) (clock (w_clock w2)) es w3)
    as (w' & Hl & (E & T & Hled & Hev & Hix & Haz) & _ & Hall & _ & Hother & _); [done | | |].
  { destruct Hfresh as (? & ? & Hf). split_and!; [done..|]. intros n a Hn. unfold row_of.
    change (w_ledger w3) with s2. rewrite Hs2. by apply Hf. }
  { intros e He. assert (Hlive : e ∈ live_edges (w_ledger w) (dr_OrgID req) (dr_ResourceID req)).
    { unfold es, listed_edges, ztake in He. eapply elem_of_sort_slice, elem_of_sublist; [exact He | apply sublist_take]. }
    apply elem_of_live_edges in Hlive as ((id & Hid) & _).
    destruct (edges_filed _ (ok_edges _ Hok) _ _ _ Hid) as [? <-].
    split; [done|]. rewrite Hedges. by eexists. }
  exists w', r. split; [done|]. split; [by split_and!|].
  rewrite Hled. change (w_ledger w3) with s2. rewrite Hs2. simpl. split; [apply lookup2_insert2_eq|].
  split; [done|]. split; [done|]. split.
  - intros e He. destruct (Hall e He) as [Hd Hq]. by rewrite Hled in Hd.
  - intros a b Hab. rewrite Hled in Hother. etrans; [by apply Hother|].
    exact (f_equal (fun m => lookup2 m a b) Hedges).
Qed.

(** ** Evidence *)
Definition erased (w : World) (ref : string) : Prop :=
  forall ev m, w_evidence w = Some ev -> objs ev !! (splitEvidenceRef ref).1 = Some m ->
               m !! (splitEvidenceRef ref).2 = None.

(** Erasing touches the evidence store alone, and never brings a version back. *)
Definition erasing (w w' : World) : Prop :=
  w_ledger w' = w_ledger w /\ w_index w' = w_index w /\ forall ref, erased w ref -> erased w' ref.

Lemma DeleteVersion_erases ref w :
  let run := on_evidence (DeleteVersion (splitEvidenceRef ref).1 (splitEvidenceRef ref).2) w in
  erasing w run.2 /\ (run.1 = Ok tt -> erased run.2 ref).
Proof.
  unfold on_evidence, DeleteVersion. destruct (w_evidence w) as [ev|] eqn:Hev; [|by split].
  destruct (objs ev !! _) as [m|] eqn:Hm; simpl.
  2: { split; [|done]. split_and!; [done..|]. intros r Hr ev' m' Hev'. apply Hr. by rewrite Hev. }
  split.
  - split_and!; [done..|]. intros r Hr ev' m' [= <-]. simpl. rewrite lookup_insert.
    case_decide as Hk; [|by apply Hr]. intros [= <-]. rewrite lookup_delete. case_decide; [done|].
    eapply Hr; [done|]. by rewrite <- Hk.
  - intros _ ev' m' [= <-]. simpl. rewrite lookup_insert_eq. intros [= <-]. apply lookup_delete_eq.
Qed.

Lemma erase_evidence_spec ds had w :
  exists r w', erase_evidence ds had w = (Ok r, w') /\ erasing w w' /\
    (is_ok r = true -> forall d, d ∈ ds -> der_Kind d = "evidence" -> erased w' (der_Ref d)).
Proof.
  revert had w. induction ds as [|d ds IH]; intros had w; cbn [erase_evidence].
  { exists (Ok had), w. split_and!; try done. by intros _ d ?%elem_of_nil. }
  destruct (String.eqb_spec (der_Kind d) "evidence") as [Hk|Hk].
  - destruct (splitEvidenceRef (der_Ref d)) as [key ver] eqn:Hsp.
    pose proof (DeleteVersion_erases (der_Ref d) w) as Hdel. rewrite Hsp in Hdel. cbn [fst snd] in Hdel.
    destruct (on_evidence (DeleteVersion key ver) w) as [r1 w1] eqn:Hrun.
    rewrite (bind_run _ _ _ _ _ (attempt_run _ _ _ _ Hrun)). cbn [fst snd] in Hdel.
    destruct Hdel as [(Hl & Hi & Hmono) Hgone]. destruct r1 as [[]|e].
    + destruct (IH true w1) as (r & w' & -> & (Hl' & Hi' & Hmono') & Hall).
      exists r, w'. split; [done|]. split; [split_and!; [congruence | congruence | auto]|].
      intros Hr d' [->|Hin]%elem_of_cons Hkd; [by apply Hmono', Hgone | by apply Hall].
    + exists (Err e), w1. by split_and!.
  - destruct (IH had w) as (r & w' & -> & He & Hall). exists r, w'. split; [done|]. split; [done|].
    intros Hr d' [->|Hin]%elem_of_cons Hkd; [done | by apply Hall].
Qed.

(** What the last phase leaves behind *)
Definition purged (svc : DeletionService) (req : DeletionRequest) (ds : list DerivativeRef)
    (status reason : string) (w w' : World) : Prop :=
  (exists r, lookup2 (records (w_ledger w')) (dr_OrgID req) (dr_ResourceID req) = Some r /\
     rec_State r = (if String.eqb status "completed" then "PURGED" else "PURGE_PENDING")) /\
  edges (w_ledger w') = edges (w_ledger w) /\ authzTuples (w_ledger w') = authzTuples (w_ledger w) /\
  w_index w' = w_index w /\
  (status = "completed" /\ reason = "" \/ status = "blocked" /\ reason <> "") /\
  (status = "completed" -> forall d, d ∈ ds -> der_Kind d = "evidence" -> erased w' (der_Ref d)) /\
  (ds_Holds svc = true ->
   default false (lookup2 (holds (w_ledger w)) (dr_OrgID req) (dr_ResourceID req)) = true ->
   status = "blocked" /\ reason = "LEGAL_HOLD" /\ w_evidence w' = w_evidence w).

Lemma erase_or_block_spec svc req ds w :
  exists status reason had w', erase_or_block svc req ds w = (Ok (status, reason, had), w') /\ erasing w w' /\
    (status = "completed" /\ reason = "" \/ status = "blocked" /\ reason <> "") /\
    (status = "completed" -> forall d, d ∈ ds -> der_Kind d = "evidence" -> erased w' (der_Ref d)) /\
    (ds_Holds svc = true ->
     default false (lookup2 (holds (w_ledger w)) (dr_OrgID req) (dr_ResourceID req)) = true ->
     status = "blocked" /\ reason = "LEGAL_HOLD" /\ w' = w).
Proof.
  unfold erase_or_block. set (hold := if ds_Holds svc then default false (lookup2 (holds (w_ledger w)) (dr_OrgID req) (dr_ResourceID req)) else false).
  rewrite (bind_run _ _ _ hold w) by (unfold hold; destruct (ds_Holds svc); [by destruct w | done]).
  destruct hold eqn:Hh; unfold hold in Hh.
  { eexists _, _, _, w. split; [reflexivity|]. split_and!; try done. by right. }
  rewrite (bind_run has_evidence _ _ (bool_decide (is_Some (w_evidence w))) w) by done.
  assert (Hhold : ds_Holds svc = true ->
     default false (lookup2 (holds (w_ledger w)) (dr_OrgID req) (dr_ResourceID req)) = true -> False).
  { intros Hs Ht. rewrite Hs, Ht in Hh. done. }
  destruct (w_evidence w) as [ev|] eqn:Hev.
  - destruct (erase_evidence_spec ds false w) as (r & w' & Hr & He & Hall).
    rewrite (bind_run _ _ _ r w') by exact Hr.
    destruct r as [had|e]; eexists _, _, _, w'; (split; [reflexivity|]).
    + split_and!; try done; [by left | by intros _; apply Hall | by intros ? ?%Hhold].
    + split_and!; try done; [by right | by intros ? ?%Hhold].
  - rewrite (bind_run _ _ _ (Ok false) w) by done.
    eexists _, _, _, w. split; [reflexivity|]. split_and!; try done; [by left | | by intros ? ?%Hhold].
    intros _ d _ _ ev' m Hev'. congruence.
Qed.

Lemma purge_spec svc req rec ds w :
  dr_OrgID req <> "" -> rec_OrgID rec = dr_OrgID req -> rec_ResourceID rec = dr_ResourceID req ->
  dr_ResourceID req <> "" ->
  exists status reason had w', purge svc req rec ds w = (Ok (status, reason, had), w') /\
    purged svc req ds status reason w w'.
Proof.
  intros Horg Hro Hrr Hres.
  destruct (erase_or_block_spec svc req ds w) as (status & reason & had & w1 & Hrun & (Hl & Hi & _) & Hst & Hall & Hhold).
  exists status, reason, had. unfold purge.
  set (w2 := (w1 <| w_clock := S (w_clock w1) |>)).
  set (state := if String.eqb status "completed" then "PURGED" else "PURGE_PENDING").
  assert (Hup : exists s r, UpsertRecord (clock (w_clock w1)) (rec <| rec_State := state |>) (w_ledger w1) = (Ok tt, s) /\
    s = (w_ledger w1) <| records := insert2 (dr_OrgID req) (dr_ResourceID req) r (records (w_ledger w1)) |> /\
    rec_State r = state).
  { unfold UpsertRecord. simpl. rewrite Hro, Hrr, (proj2 (is_empty_false _) Horg), (proj2 (is_empty_false _) Hres).
    cbn [orb]. unfold modify. simpl. eexists _, _. split; [reflexivity|]. by split. }
  destruct Hup as (s & r & Hup & Hs & Hr).
  exists (w2 <| w_ledger := s |>). split.
  - rewrite (bind_run _ _ _ _ _ Hrun). cbn [fst].
    rewrite (bind_run (attempt _) _ _ (Ok tt) (w2 <| w_ledger := s |>)); [done|]. apply attempt_run.
    unfold WithOrgTx. rewrite (proj2 (is_empty_false _) Horg). unfold timed.
    rewrite (bind_run tick _ _ _ _ eq_refl). unfold on_ledger.
    change (w_ledger (w1 <| w_clock := S (w_clock w1) |>)) with (w_ledger w1).
    unfold state in Hup. cbn [fst]. by rewrite Hup.
  - unfold purged. simpl. rewrite Hs. simpl. rewrite Hl. split_and!; try done.
    + exists r. split; [apply lookup2_insert2_eq | done].
    + intros Hh1 Hh2. destruct (Hhold Hh1 Hh2) as (? & ? & ->). done.
Qed.

(** ** Authorization *)
Definition may (w : World) (req : DeletionRequest) (action : string) : Prop :=
  evaluate (w_authz w) (formatObject (dr_ResourceID req)) (mapRelation action)
    (formatUser (dr_Principal req)) = true.

Lemma may_delete_run req action w :
  exists b, may_delete req action w = (Ok b, w <| w_clock := S (w_clock w) |>) /\ (b = true <-> may w req action).
Proof. eexists. split; [reflexivity|]. done. Qed.

Lemma authorize_spec req w :
  exists n r, authorize_deletion req w = (r, w <| w_clock := n |>) /\
    (r = Ok tt /\ (may w req "can_delete" \/ may w req "can_admin") \/
     r = Err (ErrForbidden "deletion not authorized") /\
     ~ may w req "can_delete" /\ ~ may w req "can_admin").
Proof.
  unfold authorize_deletion. destruct (may_delete_run req "can_delete" w) as (b & Hb & Hiff).
  rewrite (bind_run _ _ _ _ _ Hb). destruct b.
  { eexists _, _. split; [reflexivity|]. left. split; [done|]. left. by apply Hiff. }
  destruct (may_delete_run req "can_admin" (w <| w_clock := S (w_clock w) |>)) as (b & Hb2 & Hiff2).
  rewrite (bind_run _ _ _ _ _ Hb2). destruct b.
  - eexists _, _. split; [reflexivity|]. left. split; [done|]. right. by apply Hiff2.
  - eexists _, _. split; [reflexivity|]. right. split; [done|].
    split; [intros ?%Hiff; done | intros ?%Hiff2; done].
Qed.

(** ** The saga as a whole *)

(** The parts that the announcements leave alone *)
Definition aside (w w' : World) : Prop :=
  records (w_ledger w') = records (w_ledger w) /\ edges (w_ledger w') = edges (w_ledger w) /\
  authzTuples (w_ledger w') = authzTuples (w_ledger w) /\ w_index w' = w_index w /\
  w_evidence w' = w_evidence w.

Lemma audit_aside ev w :
  exists w', attempt (append_event ev) w = (Ok (Ok tt), w') /\ aside w w' /\ w_ledger w' = w_ledger w /\
             w_authz w' = w_authz w.
Proof. eexists. split; [reflexivity|]. by split_and!. Qed.

Lemma announce_aside svc req m w : exists w', announce svc req m w = (Ok tt, w') /\ aside w w'.
Proof.
  unfold announce. destruct (ds_Changes svc); [|by exists w]. eexists. split; [reflexivity|]. by split_and!.
Qed.

Lemma enumerate_run orgID resourceID rec w :
  exists ds, enumerate orgID resourceID rec w = (Ok ds, w) /\
    forall r, r ∈ take_matching (fun r => String.eqb (rev_ResourceID r) resourceID) 100
                    (go_values (inner (revisions (w_ledger w)) orgID)) [] ->
      rev_EvidenceRef r <> "" -> mkDerivative "evidence" (rev_EvidenceRef r) ∈ ds.
Proof.
  eexists. split; [by destruct w|]. intros r Hr Hne. rewrite !elem_of_app. right; right; left.
  apply list_elem_of_bind. exists r. split; [|exact Hr]. unfold revision_refs.
  rewrite (proj2 (is_empty_false _) Hne). left.
Qed.

Definition forgotten (i : Index) (orgID resourceID : string) : Prop :=
  forall d, d ∈ entries_of (docs i) orgID -> doc_ResourceID d <> resourceID.

Lemma remove_from_index_run req w :
  exists b w', remove_from_index req w = (Ok b, w') /\ w_ledger w' = w_ledger w /\
    w_evidence w' = w_evidence w /\
    (forall i, w_index w' = Some i -> forgotten i (dr_OrgID req) (dr_ResourceID req)).
Proof.
  unfold remove_from_index. destruct (w_index w) as [i|] eqn:Hi; eexists _, _;
    (split; [reflexivity|]); (split; [done|]); (split; [done|]).
  - intros i' [= <-]. intros d. unfold Delete, entries_of. simpl. rewrite lookup_insert_eq. simpl.
    intros [Hd _]%list_elem_of_filter Heq. rewrite Heq, String.eqb_refl in Hd. done.
  - intros i'. by rewrite Hi.
Qed.

(** Once the request is authorized and the record is found, the saga completes. *)
Lemma Run_spec svc req w :
  ledger_ok (w_ledger w) -> fresh_ids w -> dr_OrgID req <> "" -> dr_ResourceID req <> "" ->
  (may w req "can_delete" \/ may w req "can_admin") ->
  is_Some (lookup2 (records (w_ledger w)) (dr_OrgID req) (dr_ResourceID req)) ->
  exists m w1 w2 w', Run svc req w = (Ok m, w') /\
    purged svc req (cm_Derivatives m) (cm_Status m) (cm_BlockedReason m) w1 w2 /\ aside w2 w' /\
    cm_Signature m = sign (ds_SignKey svc) (m <| cm_Signature := "" |>) /\
    (forall i, w_index w' = Some i -> forgotten i (dr_OrgID req) (dr_ResourceID req)) /\
    holds (w_ledger w1) = holds (w_ledger w) /\ w_evidence w1 = w_evidence w /\
    (forall e, e ∈ listed_edges (w_ledger w) (dr_OrgID req) (dr_ResourceID req) ->
       dead (w_ledger w1) (dr_OrgID req) (edge_EdgeID e) /\
       (NeedsSynchronization e = true -> queued OperationDelete w1 e)) /\
    (forall a b, a <> dr_OrgID req \/
                 b ∉ edge_EdgeID <$> listed_edges (w_ledger w) (dr_OrgID req) (dr_ResourceID req) ->
       lookup2 (edges (w_ledger w1)) a b = lookup2 (edges (w_ledger w)) a b).
Proof.
  intros Hok Hfresh Horg Hres Hmay [rec0 Hrec]. unfold Run.
  assert (Horg' := proj2 (is_empty_false _) Horg). assert (Hres' := proj2 (is_empty_false _) Hres).
  rewrite Horg', Hres'. rewrite (bind_run (throw_if false _) _ w tt w) by done.
  rewrite (bind_run tick _ _ _ _ eq_refl). set (now := clock (w_clock w)).
  set (wa := w <| w_clock := S (w_clock w) |>).
  destruct (authorize_spec req wa) as (n & r & Hauth & Hr).
  assert (r = Ok tt) as ->.
  { destruct Hr as [[-> _]|(_ & H1' & H2')]; [done|]. by destruct Hmay. }
  rewrite (bind_run _ _ _ _ _ Hauth). set (wb := wa <| w_clock := n |>).
  rewrite (bind_run (on_ledger _) _ _ rec0 wb).
  2: { unfold on_ledger, GetRecord, find. change (w_ledger wb) with (w_ledger w). by rewrite Hrec. }
  rewrite (bind_run draw _ _ _ _ eq_refl). set (deletionID := fresh_id _).
  set (wc := wb <| w_ids := S (w_ids wb) |>).
  rewrite (bind_run draw _ _ _ _ eq_refl). set (revID := fresh_id _).
  set (wd := wc <| w_ids := S (w_ids wc) |>).
  set (rec := ((rec0 <| rec_State := "TOMBSTONED" |>) <| rec_CurrentRevID := revID |>) <| rec_UpdatedAt := now |>).
  pose proof (ok_records _ Hok _ _ _ Hrec) as [Hro Hrr].
  assert (Hfd : fresh_ids wd).
  { destruct Hfresh as (? & ? & Hf). split_and!; [done..|]. intros k a Hk. apply Hf. simpl in Hk. lia. }
  destruct (revoke_visibility_spec req (tombstone_revision req now deletionID revID) rec wd Hok Hfd Horg Hro Hrr Hres)
    as (we & rec' & Hrev & (Hev & Hix & _) & Hrec' & _ & Hholds & Hall & Hother).
  rewrite (bind_run _ _ _ _ _ Hrev). rewrite (bind_run draw _ _ _ _ eq_refl).
  set (wf := we <| w_ids := S (w_ids we) |>).
  match goal with |- context [append_event ?ev] =>
    destruct (audit_aside ev wf) as (wg & Hg & (_ & _ & _ & Hgi & Hge) & Hgl & _) end.
  rewrite (bind_run _ _ _ _ _ Hg).
  destruct (enumerate_run (dr_OrgID req) (dr_ResourceID req) rec wg) as (ds & Hds & _).
  rewrite (bind_run _ _ _ _ _ Hds).
  destruct (remove_from_index_run req wg) as (removed & wh & Hrm & Hhl & Hhe & Hforget).
  rewrite (bind_run _ _ _ _ _ Hrm).
  destruct (purge_spec svc req rec ds wh Horg Hro Hrr Hres) as (status & reason & had & wi & Hpu & Hpurged).
  rewrite (bind_run _ _ _ _ _ Hpu). rewrite (bind_run tick _ _ _ _ eq_refl).
  set (wj := wi <| w_clock := S (w_clock wi) |>).
  match goal with |- context [announce svc req ?m] => set (man := m) end.
  destruct (announce_aside svc req man wj) as (wk & Hk & Hka). rewrite (bind_run _ _ _ _ _ Hk).
  rewrite (bind_run draw _ _ _ _ eq_refl), (bind_run tick _ _ _ _ eq_refl).
  match goal with |- context [append_event ?ev] => set (ev2 := ev) end.
  set (wl := (wk <| w_ids := S (w_ids wk) |>) <| w_clock := S (w_clock (wk <| w_ids := S (w_ids wk) |>)) |>).
  destruct (audit_aside ev2 wl) as (wm & Hm & Hma & _ & _).
  exists man, wh, wi, wm. rewrite (bind_run _ _ _ _ _ Hm).
  split; [done|].
  assert (Hwl : aside wi wm).
  { destruct Hka as (H1' & H2' & H3' & H4' & H5'), Hma as (H1'' & H2'' & H3'' & H4'' & H5'').
    split_and!; (etrans; [eassumption|]); assumption. }
  split; [exact Hpurged|]. split; [exact Hwl|]. split; [done|]. split.
  { intros i Hi. apply Hforget. destruct Hwl as (_ & _ & _ & Hwi & _), Hpurged as (_ & _ & _ & Hpi & _). congruence. }
  assert (Hled : w_ledger wh = w_ledger we) by (by rewrite Hhl, Hgl). rewrite Hled.
  split; [exact Hholds|]. split; [by rewrite Hhe, Hge|]. split; [|exact Hother].
  intros e He. destruct (Hall e He) as [Hd Hq]. split; [done|]. unfold queued, row_of in *. by rewrite Hled.
Qed.

(** C23 Deletion dominates: once it is authorized, the saga completes; afterwards the
    record is in a tombstoned state, the index has no document of it, every edge that
    touches it is tombstoned (as long as at most 1000 were live), and for each of
    those that carried inherited access the deletion of the tuple is queued. *)
Theorem deletion_dominates svc req w :
  ledger_ok (w_ledger w) -> fresh_ids w -> dr_OrgID req <> "" -> dr_ResourceID req <> "" ->
  (may w req "can_delete" \/ may w req "can_admin") ->
  is_Some (lookup2 (records (w_ledger w)) (dr_OrgID req) (dr_ResourceID req)) ->
  exists m w', Run svc req w = (Ok m, w') /\
    (exists rec, lookup2 (records (w_ledger w')) (dr_OrgID req) (dr_ResourceID req) = Some rec /\
                 IsTombstoned (rec_State rec) = true) /\
    (forall i, w_index w' = Some i -> forgotten i (dr_OrgID req) (dr_ResourceID req)) /\
    (zlen (live_edges (w_ledger w) (dr_OrgID req) (dr_ResourceID req)) <= 1000 ->
     forall b e, lookup2 (edges (w_ledger w')) (dr_OrgID req) b = Some e -> touches (dr_ResourceID req) e ->
                 edge_State e = "TOMBSTONED") /\
    (forall e, e ∈ listed_edges (w_ledger w) (dr_OrgID req) (dr_ResourceID req) ->
               NeedsSynchronization e = true -> queued OperationDelete w' e).
Proof.
  intros Hok Hfresh Horg Hres Hmay Hrec.
  destruct (Run_spec svc req w) as (m & w1 & w2 & w' & Hrun & Hp & Ha & _ & Hforget & _ & _ & Hall & Hother);
    [done..|].
  destruct Hp as ((rec & Hr & Hst) & He2 & Ht2 & _), Ha as (Har & Hae & Hat & _).
  exists m, w'. split; [done|]. split; [|split; [done|split]].
  - exists rec. rewrite Har. split; [done|]. rewrite Hst. by case_match.
  - intros Hfew b e Hl Htouch. rewrite Hae, He2 in Hl.
    destruct (decide (b ∈ edge_EdgeID <$> listed_edges (w_ledger w) (dr_OrgID req) (dr_ResourceID req))) as [Hin|Hout].
    + apply list_elem_of_fmap in Hin as (e0 & -> & Hin). destruct (Hall e0 Hin) as [(e' & Hl' & Hs) _]. congruence.
    + rewrite Hother in Hl by (by right). destruct (decide (edge_State e = "TOMBSTONED")) as [|Hlive]; [done|].
      destruct Hout. assert (Hin : e ∈ live_edges (w_ledger w) (dr_OrgID req) (dr_ResourceID req)).
      { apply elem_of_live_edges. split; [by exists b | done]. }
      destruct (edges_filed _ (ok_edges _ Hok) _ _ _ Hl) as [_ <-]. apply list_elem_of_fmap_2.
      unfold listed_edges, ztake. rewrite take_ge; [by apply elem_of_sort_slice|].
      rewrite sort_slice_perm. unfold zlen in Hfew. lia.
  - intros e Hin Hn. destruct (Hall e Hin) as [_ Hq]. specialize (Hq Hn).
    unfold queued, row_of in *. by rewrite Hat, Ht2.
Qed.

(** Without the relation [can_delete] or [can_admin] on the resource nothing is
    deleted: the request is refused and no store, index or log changes. *)
Theorem deletion_requires_authorization svc req w :
  dr_OrgID req <> "" -> dr_ResourceID req <> "" ->
  ~ may w req "can_delete" -> ~ may w req "can_admin" ->
  exists w', Run svc req w = (Err (ErrForbidden "deletion not authorized"), w') /\
    w_ledger w' = w_ledger w /\ w_evidence w' = w_evidence w /\ w_index w' = w_index w /\
    w_authz w' = w_authz w /\ w_audit w' = w_audit w.
Proof.
  intros Horg%is_empty_false Hres%is_empty_false Hd Ha. unfold Run. rewrite Horg, Hres.
  rewrite (bind_run (throw_if false _) _ w tt w) by done. rewrite (bind_run tick _ _ _ _ eq_refl).
  set (wa := w <| w_clock := S (w_clock w) |>).
  destruct (authorize_spec req wa) as (n & r & Hauth & Hr).
  assert (r = Err (ErrForbidden "deletion not authorized")) as -> by (by destruct Hr as [[_ [?|?]]|[-> _]]).
  rewrite (bind_fail _ _ _ _ _ Hauth). eexists. by split_and!.
Qed.

(** C24 The manifest is truthful and verifiable: it verifies under the signing key;
    [completed] means that every evidence version it lists is gone and the record is
    PURGED; otherwise it gives a reason and the record is PURGE_PENDING; and under a
    legal hold it is blocked and the evidence untouched. *)
Theorem manifest_truthful svc req w :
  ledger_ok (w_ledger w) -> fresh_ids w -> dr_OrgID req <> "" -> dr_ResourceID req <> "" ->
  (may w req "can_delete" \/ may w req "can_admin") ->
  is_Some (lookup2 (records (w_ledger w)) (dr_OrgID req) (dr_ResourceID req)) ->
  exists m w' rec, Run svc req w = (Ok m, w') /\
    lookup2 (records (w_ledger w')) (dr_OrgID req) (dr_ResourceID req) = Some rec /\
    (ds_SignKey svc <> "" -> VerifySignature (ds_SignKey svc) m = true) /\
    (cm_Status m = "completed" /\ rec_State rec = "PURGED" /\
       (forall d, d ∈ cm_Derivatives m -> der_Kind d = "evidence" -> erased w' (der_Ref d)) \/
     cm_Status m = "blocked" /\ cm_BlockedReason m <> "" /\ rec_State rec = "PURGE_PENDING") /\
    (ds_Holds svc = true ->
     default false (lookup2 (holds (w_ledger w)) (dr_OrgID req) (dr_ResourceID req)) = true ->
     cm_Status m = "blocked" /\ cm_BlockedReason m = "LEGAL_HOLD" /\ w_evidence w' = w_evidence w).
Proof.
  intros Hok Hfresh Horg Hres Hmay Hrec.
  destruct (Run_spec svc req w) as (m & w1 & w2 & w' & Hrun & Hp & Ha & Hsig & _ & Hholds & Hev & _);
    [done..|].
  destruct Hp as ((rec & Hr & Hst) & _ & _ & _ & Hstatus & Hgone & Hhold), Ha as (Har & _ & _ & _ & Hae).
  exists m, w', rec. split; [done|]. split; [by rewrite Har|]. split; [|split].
  - intros Hkey%is_empty_false. unfold VerifySignature. rewrite Hkey, Hsig. unfold sign. rewrite Hkey.
    apply String.eqb_eq. unfold manifest_mac. by destruct m.
  - destruct Hstatus as [[Hs _]|[Hs Hne]]; rewrite Hs in Hst; [left | right]; split_and!; try done.
    intros d Hd Hk ev b. unfold erased. rewrite Hae. by apply (Hgone Hs d Hd Hk).
  - intros Hsvc Hheld. rewrite Hae. rewrite Hholds in Hhold. destruct (Hhold Hsvc Hheld) as (? & ? & ->). by rewrite Hev.
Qed.
End Saga.

(** ** After a deletion *)

(** The projector indexes whatever record it finds: an event that was still waiting
    when its resource was deleted puts the document back into the index. *)
Theorem stale_event_reindexes `{GoEnv} p w i rec :
  lookup2 (records (w_ledger w)) (pl_OrgID p) (pl_ResourceID p) = Some rec ->
  IsTombstoned (rec_State rec) = true -> w_index w = Some i -> pl_ResourceID p <> "" ->
  ~ settled_event (w_ledger w) p ->
  exists w', project p w = (Ok tt, w') /\ w_index w' = Some (Upsert [document_of p rec] i).
Proof.
  intros Hrec Hst Hi Hres%is_empty_false Hns.
  assert (Hix : index_after w p = Some (Upsert [document_of p rec] i)).
  { unfold index_after. rewrite Hi. simpl. rewrite Hrec, Hres. simpl.
    unfold unresolved_state. unfold IsTombstoned in Hst. apply mem_str_In in Hst.
    repeat (apply elem_of_cons in Hst as [->|Hst]; [done|]). by apply elem_of_nil in Hst. }
  destruct (project_spec p w Hns) as [(e & _ & _ & _ & Hnone)|(w' & Hp & Hw & _)]; [congruence|].
  exists w'. split; [done | congruence].
Qed.

(** ** A concrete deletion *)
#[local] Existing Instances tally_env order_forward links_up.

Definition alice : Principal := sample_principal.
Definition delete_request (res : string) : DeletionRequest := mkDeletionRequest "acme" res alice "gdpr".
Definition deletion_world : World :=
  mkWorld (run [CUpsertRecord 5 (sample_record "a"); CUpsertEdge 5 "e1" sample_edge] NewStore)
    (Some NewEvidence) (Some NewIndex)
    (WriteTuples [mkTuple "resource:a" "owner" (formatUser alice)] NewMemory) [] [] 0 0.
Definition deleter : DeletionService := mkDeletionService true true "key".

Lemma deletion_world_ok : ledger_ok (w_ledger deletion_world).
Proof. apply run_ok, ledger_ok_new. Qed.
Lemma deletion_world_fresh : fresh_ids deletion_world.
Proof. destruct lost_world_fresh as (? & ? & _). split_and!; [done..|]. intros n a _. apply lookup2_empty. Qed.
Lemma alice_may : may deletion_world (delete_request "a") "can_delete".
Proof. vm_compute. reflexivity. Qed.
Lemma record_there : is_Some (lookup2 (records (w_ledger deletion_world)) "acme" "a").
Proof. vm_compute. by eexists. Qed.

Lemma deletion_dominates_witness :
  exists m w' rec, Run deleter (delete_request "a") deletion_world = (Ok m, w') /\
    lookup2 (records (w_ledger w')) "acme" "a" = Some rec /\ IsTombstoned (rec_State rec) = true.
Proof.
  destruct (@deletion_dominates tally_env order_forward deleter (delete_request "a") deletion_world
    deletion_world_ok deletion_world_fresh) as (m & w' & Hr & (rec & Hrec & Hst) & _);
    [discriminate.. | left; exact alice_may | exact record_there |].
  exists m, w', rec. split; [exact Hr|]. split; [exact Hrec | exact Hst].
Defined.

Lemma manifest_truthful_witness :
  exists m w', Run deleter (delete_request "a") deletion_world = (Ok m, w') /\ VerifySignature "key" m = true.
Proof.
  destruct (@manifest_truthful tally_env order_forward deleter (delete_request "a") deletion_world
    deletion_world_ok deletion_world_fresh) as (m & w' & rec & Hr & _ & Hsig & _);
    [discriminate.. | left; exact alice_may | exact record_there |].
  exists m, w'. split; [exact Hr|]. apply Hsig. discriminate.
Defined.

Lemma deletion_requires_authorization_witness :
  exists w', Run deleter (delete_request "b") deletion_world = (Err (ErrForbidden "deletion not authorized"), w') /\
    w_ledger w' = w_ledger deletion_world.
Proof.
  destruct (@deletion_requires_authorization tally_env order_forward deleter (delete_request "b") deletion_world)
    as (w' & Hr & Hl & _); [discriminate | discriminate | vm_compute; discriminate.. |].
  exists w'. split; [exact Hr | exact Hl].
Defined.

(** A resource with 101 revisions, and the tombstone: the manifest lists 100 of them, says
    [completed], and two versions of the evidence stay in the store. *)
Definition numbered (n : nat) : string := itoa (Z.of_nat n).
Definition old_revision (n : nat) : Revision :=
  mkRevision ("r" +:+ numbered n) "a" "acme" "" ("k@v" +:+ numbered n) 0 "ACCEPTED" ∅ 1 1.
Definition old_world : World :=
  let s := foldl (fun s n => (AppendRevision 1 (old_revision n) s).2) (w_ledger deletion_world) (seq 0 101) in
  let ev := foldl (fun ev n => (Put ("v" +:+ numbered n) "k" "x" "" ∅ ev).2) NewEvidence (seq 0 101) in
  (deletion_world <| w_ledger := s |>) <| w_evidence := Some ev |>.
Definition versions_left (w : World) : nat :=
  match w_evidence w with Some ev => size (inner (objs ev) "k") | None => 0 end.
Definition old_run := Run (mkDeletionService false false "") (delete_request "a") old_world.

Example completed_leaves_evidence :
  match old_run.1 with
  | Ok m => (cm_Status m, cm_EvidenceErased m, versions_left old_run.2)
  | Err _ => ("", false, 0%nat)
  end = ("completed", true, 2%nat).
Proof. vm_compute. reflexivity. Qed.
