(* ===== verification/Retrieval.v ===== *)
(** * [internal/retrieval]: the policy-first retrieval pipeline

    [Search] and [Graph] against the interfaces of [internal/ports]. A provider
    answers a call made at a given step of the world's history, so that its
    answers may change between two calls of one request while other requests
    run; the state of a run is the current step and the audit events appended. *)
From S2P Require Import Deletion.
From S2P Require Import Prelude GoStd Sha256 Ports Platform Policy Ledger.

(** ** The interfaces the pipeline calls *)
Class Providers := {
  Authenticate : nat -> Credentials -> result GoError Principal;
  ResolveCandidateScope : nat -> ScopeResolve -> result GoError CandidateScope;
  BatchCheck : nat -> list AuthzCheck -> result GoError (list AuthzDecision);
  EvaluatePolicy : nat -> PolicyEval -> result GoError PolicyResult;
  LedgerGetRecord : nat -> string -> string -> result GoError LedgerRecord;
  LedgerListEdges : nat -> string -> EdgeListOptions -> result GoError (list GraphEdge);
  IndexSearch : nat -> string -> string -> Z -> strmap -> result GoError (list SearchHit);
  (** [Snippets], which may be nil *)
  SnippetDocument : option (nat -> string -> string -> option IndexDocument);
  NewEventID : nat -> string;
  TimeNow : nat -> Time;
  AllowEmptyScopes : bool;
}.

Record Trace := mkTrace { step : nat; audited : list AuditEvent }.
#[export] Instance Trace_eta : Settable Trace := fun r => mkTrace (step r) (audited r).

Abbreviation pipeline := (M GoError Trace).

Definition call_at {A} (f : nat -> result GoError A) : pipeline A :=
  fun t => (f (step t), t <| step := S (step t) |>).
Definition ask {A} (f : nat -> A) : pipeline A := call_at (fun n => Ok (f n)).
(** [_ = p.Audit.Append(ctx, event)] *)
Definition append_audit (e : AuditEvent) : pipeline unit :=
  modify (fun t => t <| audited := audited t ++ [e] |>).

Definition PacketVersion : string := "context-fabric.packet/v1".

Record Request := mkRequest {
  rq_Credentials : Credentials; rq_OrgID : string; rq_Query : string; rq_Purpose : string;
  rq_Limit : Z; rq_Filters : strmap; rq_Consistency : ConsistencyMode; rq_Scopes : list string;
  rq_Action : string; rq_ResourceID : string; rq_Depth : Z; rq_MaxNodes : Z;
  rq_Predicates : list string; rq_Delegation : option DelegationGrant;
}.
#[export] Instance Request_eta : Settable Request := fun r =>
  mkRequest (rq_Credentials r) (rq_OrgID r) (rq_Query r) (rq_Purpose r) (rq_Limit r)
    (rq_Filters r) (rq_Consistency r) (rq_Scopes r) (rq_Action r) (rq_ResourceID r)
    (rq_Depth r) (rq_MaxNodes r) (rq_Predicates r) (rq_Delegation r).

(** ** Pure helpers *)

(** [if v <= 0 { v = d }; if v > hi { v = hi }] *)
Definition clamp (v d hi : Z) : Z := Z.min (or_limit v d) hi.
Definition or_min_latency (c : ConsistencyMode) : ConsistencyMode :=
  match c with ConsistencyUnset => ConsistencyMinLatency | _ => c end.

Definition gateScopes (scopes : list string) (action : string) (allowEmpty : bool)
    : result GoError unit :=
  match scopes with
  | [] => if allowEmpty then Ok tt else Err (ErrForbidden "missing scopes")
  | _ =>
      let need :=
        if mem_str action ["context.get"; "context.brief"; "context.graph"]
        then "context:read" else "context:search" in
      if existsb (fun s => String.eqb s need
                           || String.eqb need "context:search" && String.eqb s "context:read") scopes
      then Ok tt else Err (ErrForbidden ("missing oauth scope " +:+ need))
  end.

Definition ellipsis : string := of_bytes [byte_of 226; byte_of 128; byte_of 166].
Definition truncate (s : string) (n : nat) : string :=
  if (String.length s <=? n)%nat then s else take_str n s +:+ ellipsis.

Definition redactSnippet (s profile : string) : string :=
  if String.eqb profile "pii_mask" || String.eqb profile "mask_pii"
  then replace_byte s "@" "[at]" else s.

Definition delegationID (d : option DelegationGrant) : string :=
  match d with Some d => dg_ID d | None => "" end.

(** The loop appends before it tests the length, so that it keeps at least one. *)
Definition sampleIDs (cites : list Citation) (n : Z) : list string :=
  take_matching (fun _ => true) n (cit_ResourceID <$> cites) [].
Definition sampleNodeIDs (nodes : list GraphNode) (n : Z) : list string :=
  take_matching (fun _ => true) n (node_ResourceID <$> nodes) [].

Definition hashQuery (q : string) : string := hex_encode (take_str 8 (sha256 q)).

(** The first occurrence of each non-empty identifier *)
Fixpoint dedupe (seen : gset string) (ids : list string) : list string :=
  match ids with
  | [] => []
  | id :: ids =>
      if is_empty id || bool_decide (id ∈ seen) then dedupe seen ids
      else id :: dedupe ({[id]} ∪ seen) ids
  end.
Definition allowedResourceIDs (cites : list Citation) : list string :=
  dedupe ∅ (cit_ResourceID <$> cites).

Definition sanitizeNodeAttrs (m : strmap) : strmap :=
  filter (fun kv : string * string =>
    mem_str kv.1 ["visibility_ref"; "placeholder"; "ensured"; "signing_secret"; "mapping_spec"]
    = false) m.

(** The node a record is shown as *)
Definition node_of (rec : LedgerRecord) : GraphNode :=
  mkNode (rec_ResourceID rec) (rec_Kind rec) (rec_Title rec) (rec_Classification rec)
    (rec_Labels rec) (rec_CurrentRevID rec) (rec_State rec) (sanitizeNodeAttrs (rec_Attributes rec)).

Definition truncationCursor (truncated : bool) (edges : list GraphEdge) : string :=
  match truncated, last edges with
  | true, Some e => "edge:" +:+ edge_EdgeID e
  | _, _ => ""
  end.

(** ** [truncateGraphPreserveSeeds] *)

(** One pass over the nodes: those that satisfy [want] and are not kept yet are
    appended until the output holds [maxNodes]. *)
Fixpoint keep_nodes (want : GraphNode -> bool) (maxNodes : Z) (nodes : list GraphNode)
    (keep : gset string) (out : list GraphNode) : gset string * list GraphNode :=
  match nodes with
  | [] => (keep, out)
  | n :: nodes =>
      if want n && bool_decide (node_ResourceID n ∉ keep) then
        let keep := {[node_ResourceID n]} ∪ keep in
        let out := out ++ [n] in
        if maxNodes <=? zlen out then (keep, out) else keep_nodes want maxNodes nodes keep out
      else keep_nodes want maxNodes nodes keep out
  end.

Definition truncateGraphPreserveSeeds (nodes : list GraphNode) (edges : list GraphEdge)
    (seeds : list string) (maxNodes : Z) : list GraphNode * list GraphEdge * bool :=
  if (maxNodes <=? 0) || (zlen nodes <=? maxNodes) then (nodes, edges, false)
  else
    let is_seed n := negb (is_empty (node_ResourceID n)) && mem_str (node_ResourceID n) seeds in
    let '(keep, out) := keep_nodes is_seed maxNodes nodes ∅ [] in
    let '(keep, out) :=
      if zlen out <? maxNodes then keep_nodes (fun _ => true) maxNodes nodes keep out
      else (keep, out) in
    (out, filter (fun e => edge_FromID e ∈ keep /\ edge_ToID e ∈ keep) edges, true).

(** ** Calls *)
Section Pipeline.
Context `{P : Providers}.

Definition read_check (principal : Principal) (req : Request) (id : string) : AuthzCheck :=
  mkAuthzCheck principal "can_read" id (rq_Consistency req) (rq_Delegation req).

(** [ids] and the decisions are paired by position; a short answer leaves the
    remaining identifiers denied. *)
Fixpoint allow_pairs (ids : list string) (ds : list AuthzDecision) (allowed : gset string)
    (rev : string) : gset string * string :=
  match ids, ds with
  | id :: ids, d :: ds =>
      if ad_Allowed d then allow_pairs ids ds ({[id]} ∪ allowed) (ad_ModelRevision d)
      else allow_pairs ids ds allowed rev
  | _, _ => (allowed, rev)
  end.

Definition batchAllow (principal : Principal) (req : Request) (ids : list string)
    : pipeline (gset string * string) :=
  match ids with
  | [] => mret (∅, "")
  | _ =>
      decisions ← call_at (fun n => BatchCheck n (map (read_check principal req) ids));
      mret (allow_pairs ids decisions ∅ "")
  end.

Definition emptyPacket (principal : Principal) (req : Request) (reason : string)
    : pipeline ContextPacket :=
  auditID ← ask NewEventID;
  at1 ← ask TimeNow;
  _ ← append_audit
    (mkAuditEvent auditID (rq_OrgID req) (p_ID principal) (p_Kind principal) ""
       (rq_Action req) reason "" "" 0 [] "" None at1);
  at2 ← ask TimeNow;
  mret (mkPacket PacketVersion "" (rq_OrgID req) (rq_Purpose req) "" [] [] [] [] ""
          PolicyRevision "" auditID ["context.search"; "context.get"] false "" at2).

(** The delegation's own limits, checked before anything is disclosed. *)
Definition checkDelegation (req : Request) : pipeline unit :=
  match rq_Delegation req with
  | None => mret tt
  | Some d =>
      _ ← throw_if (dg_Revoked d) (ErrForbidden "delegation revoked");
      _ ← match dg_ExpiresAt d with
          | Some t =>
              now ← ask TimeNow;
              throw_if (after now t) (ErrForbidden "delegation expired")
          | None => mret tt
          end;
      throw_if (match dg_Purposes d with [] => false | l => negb (mem_str (rq_Purpose req) l) end)
        (ErrForbidden "purpose outside delegation")
  end.

(** [req.OrgID], taken from the principal when it is empty *)
Definition bindOrg (principal : Principal) (req : Request) : pipeline Request :=
  _ ← throw_if (is_empty (p_OrgID principal)) (ErrForbidden "principal missing organization");
  if is_empty (rq_OrgID req) then mret (req <| rq_OrgID := p_OrgID principal |>)
  else
    _ ← throw_if (negb (String.eqb (p_OrgID principal) (rq_OrgID req)))
          (ErrForbidden "organization mismatch");
    mret req.

Definition requestScopes (principal : Principal) (req : Request) : list string :=
  match p_Scopes principal with [] => rq_Scopes req | l => l end.

Definition loadSnippet (orgID resourceID : string) (rec : LedgerRecord) : pipeline string :=
  d ← match SnippetDocument with
      | Some get => ask (fun n => get n orgID resourceID)
      | None => mret None
      end;
  let fallback := if is_empty (rec_Title rec) then resourceID else rec_Title rec in
  mret (match d with
        | Some d => if is_empty (doc_Text d) then fallback else truncate (doc_Text d) 240
        | None => fallback
        end).

(** *** [visibleSubgraph] *)
Definition edgeCap : Z := 500.

(** Endpoints not authorized yet, in edge order, each once *)
Fixpoint collect_ends (authzOK seen : gset string) (ends : list string) : list string :=
  match ends with
  | [] => []
  | x :: ends =>
      if bool_decide (x ∈ authzOK) || bool_decide (x ∈ seen)
      then collect_ends authzOK seen ends
      else x :: collect_ends authzOK ({[x]} ∪ seen) ends
  end.
Definition edge_ends (edges : list GraphEdge) : list string :=
  e ← edges; if String.eqb (edge_State e) "TOMBSTONED" then [] else [edge_FromID e; edge_ToID e].

Definition cap {A} (l : list A) (truncated : bool) : list A * bool :=
  if edgeCap <? zlen l then (ztake edgeCap l, true) else (l, truncated).

(** [hops] rounds of expansion; a failing ledger or authorization call ends
    the expansion with what was found. *)
Fixpoint expand (principal : Principal) (req : Request) (predicates : list string)
    (hops : nat) (frontier : list string) (authzOK : gset string) (discovery : list string)
    (truncated : bool) : pipeline (list string * bool) :=
  match hops with
  | O => mret (discovery, truncated)
  | S hops =>
      match frontier with
      | [] => mret (discovery, truncated)
      | _ =>
          r ← attempt (call_at (fun n => LedgerListEdges n (rq_OrgID req)
                        (mkEdgeOpts frontier predicates false (edgeCap + 1))));
          match r with
          | Err _ => mret (discovery, truncated)
          | Ok ledgerEdges =>
              let '(ledgerEdges, truncated) := cap ledgerEdges truncated in
              let neighbors := sort_slice str_lt (collect_ends authzOK ∅ (edge_ends ledgerEdges)) in
              match neighbors with
              | [] => mret (discovery, truncated)
              | _ =>
                  let '(neighbors, truncated) := cap neighbors truncated in
                  r ← attempt (batchAllow principal req neighbors);
                  match r with
                  | Err _ => mret (discovery, truncated)
                  | Ok (ok, _) =>
                      let next := filter (fun id => id ∈ ok) neighbors in
                      expand principal req predicates hops next (list_to_set next ∪ authzOK)
                        (discovery ++ next) truncated
                  end
              end
          end
      end
  end.

(** A discovered resource becomes a node when its record is live, is not a
    placeholder and the policy allows its classification. *)
Definition hydrate (principal : Principal) (req : Request) (id : string)
    : pipeline (option GraphNode) :=
  r ← attempt (call_at (fun n => LedgerGetRecord n (rq_OrgID req) id));
  match r with
  | Err _ => mret None
  | Ok rec =>
      if IsTombstoned (rec_State rec) || unresolved_state (rec_State rec) then mret None
      else
        r ← attempt (call_at (fun n => EvaluatePolicy n
               (mkPolicyEval principal (rq_Action req) (rq_Purpose req) (rec_Classification rec)
                  (Some rec) 0)));
        match r with
        | Ok rpol =>
            if pr_Allow rpol then mret (Some (node_of rec)) else mret None
        | Err _ => mret None
        end
  end.

Fixpoint hydrate_all (principal : Principal) (req : Request) (ids : list string)
    (visible : list (string * GraphNode)) : pipeline (list (string * GraphNode)) :=
  match ids with
  | [] => mret visible
  | id :: ids =>
      n ← hydrate principal req id;
      hydrate_all principal req ids
        (match n with Some n => visible ++ [(id, n)] | None => visible end)
  end.

(** Edges between two visible nodes, each identifier once *)
Fixpoint visible_edges (visible seen : gset string) (edges : list GraphEdge) : list GraphEdge :=
  match edges with
  | [] => []
  | e :: edges =>
      if String.eqb (edge_State e) "TOMBSTONED" || bool_decide (edge_EdgeID e ∈ seen)
         || negb (bool_decide (edge_FromID e ∈ visible)) || negb (bool_decide (edge_ToID e ∈ visible))
      then visible_edges visible seen edges
      else e :: visible_edges visible ({[edge_EdgeID e]} ∪ seen) edges
  end.

Definition final_edge_less : GraphEdge -> GraphEdge -> bool :=
  then_by edge_FromID str_lt (then_by edge_Predicate str_lt
    (fun a b => str_lt (edge_ToID a) (edge_ToID b))).

Definition visibleSubgraph (principal : Principal) (req : Request) (seeds : list string)
    (depth : Z) (predicates : list string) : pipeline (list GraphNode * list GraphEdge * bool) :=
  let seedIDs := sort_slice str_lt (dedupe ∅ seeds) in
  r ← attempt (batchAllow principal req seedIDs);
  match r with
  | Err _ => mret ([], [], false)
  | Ok (ok, _) =>
      let discovery := filter (fun id => id ∈ ok) seedIDs in
      '(discovery, truncated) ←
        expand principal req predicates (Z.to_nat depth) discovery (list_to_set discovery)
          discovery false;
      visible ← hydrate_all principal req discovery [];
      let orderedIDs := visible.*1 in
      r ← attempt (call_at (fun n => LedgerListEdges n (rq_OrgID req)
                    (mkEdgeOpts orderedIDs predicates false (edgeCap + 1))));
      let '(ledgerEdges, truncated) :=
        match r with Ok l => cap l truncated | Err _ => ([], truncated) end in
      let finalEdges := visible_edges (list_to_set orderedIDs) ∅ ledgerEdges in
      mret (visible.*2, sort_slice final_edge_less finalEdges, truncated)
  end.
End Pipeline.

(** ** [Search] *)
Section Search.
Context `{P : Providers}.

(** The consistency and the limit with their defaults *)
Definition searchDefaults (req : Request) : Request :=
  let req := req <| rq_Consistency := or_min_latency (rq_Consistency req) |> in
  req <| rq_Limit := clamp (rq_Limit req) 12 50 |>.

(** The mandatory predicates; a caller can only add narrowing ones. *)
Definition searchFilters (req : Request) : strmap :=
  let filters :=
    filter (fun kv : string * string =>
      mem_str kv.1 ["include_tags"; "context_space_id"; "resource_id"; "brand_id"] = true)
      (rq_Filters req)
    ∪ {["purpose" := rq_Purpose req; "classification_ceiling" := "restricted"]} in
  if is_empty (rq_ResourceID req) then filters
  else <["resource_id" := rq_ResourceID req]> filters.

Fixpoint allowed_hits (hits : list SearchHit) (ds : list AuthzDecision) (rev : string)
    : list SearchHit * string :=
  match hits, ds with
  | h :: hits, d :: ds =>
      if ad_Allowed d then
        let '(l, rev) := allowed_hits hits ds (ad_ModelRevision d) in (h :: l, rev)
      else allowed_hits hits ds rev
  | _, _ => ([], rev)
  end.

(** A hit becomes a citation when its record exists, is not tombstoned and the
    policy allows the record's classification. *)
Definition citeHit (principal : Principal) (req : Request) (hit : SearchHit)
    : pipeline (option (Citation * option Redaction)) :=
  r ← attempt (call_at (fun n => LedgerGetRecord n (rq_OrgID req) (hit_ResourceID hit)));
  match r with
  | Err _ => mret None
  | Ok rec =>
      if IsTombstoned (rec_State rec) then mret None
      else
        r ← attempt (call_at (fun n => EvaluatePolicy n
               (mkPolicyEval principal (rq_Action req) (rq_Purpose req) (rec_Classification rec)
                  (Some rec) (rq_Limit req))));
        match r with
        | Ok rpol =>
            if pr_Allow rpol then
              text ← loadSnippet (rq_OrgID req) (hit_ResourceID hit) rec;
              let revID := if is_empty (hit_RevisionID hit) then rec_CurrentRevID rec
                           else hit_RevisionID hit in
              id ← ask NewEventID;
              let profile := pr_RedactionProfile rpol in
              mret (Some
                (mkCitation id (hit_ResourceID hit) revID (redactSnippet text profile) (hit_Score hit),
                 if negb (is_empty profile) && negb (String.eqb profile "none")
                 then Some (mkRedaction profile (pr_ReasonCode rpol) []) else None))
            else mret None
        | Err _ => mret None
        end
  end.

Fixpoint citeHits (principal : Principal) (req : Request) (hits : list SearchHit)
    (acc : list (Citation * option Redaction)) : pipeline (list (Citation * option Redaction)) :=
  match hits with
  | [] => mret acc
  | h :: hits =>
      c ← citeHit principal req h;
      citeHits principal req hits (match c with Some c => acc ++ [c] | None => acc end)
  end.

(** The packet and its audit event, once the candidates are authorized *)
Definition searchPacket (principal : Principal) (req : Request) (pol : PolicyResult)
    (allowedHits : list SearchHit) (authzRev : string) : pipeline ContextPacket :=
  cited ← citeHits principal req allowedHits [];
  let citations := cited.*1 in
  '(nodes, edges, truncated) ←
    visibleSubgraph principal req (allowedResourceIDs citations) 0 [];
  auditID ← ask NewEventID;
  packetID ← ask NewEventID;
  at1 ← ask TimeNow;
  let packet :=
    mkPacket PacketVersion packetID (rq_OrgID req) (rq_Purpose req) (pr_RedactionProfile pol)
      nodes edges citations (omap snd cited)
      (itoa (zlen nodes) +:+ " nodes, " +:+ itoa (zlen edges) +:+ " edges")
      PolicyRevision authzRev auditID ["outbound.send"] truncated
      (truncationCursor truncated edges) at1 in
  at2 ← ask TimeNow;
  _ ← append_audit
    (mkAuditEvent auditID (rq_OrgID req) (p_ID principal) (p_Kind principal)
       (delegationID (rq_Delegation req)) (rq_Action req) "RETRIEVAL_OK" authzRev PolicyRevision
       (zlen citations) (sampleIDs citations 8) ""
       (Some {["query_hash" := hashQuery (rq_Query req); "purpose" := rq_Purpose req]}) at2);
  mret packet.

(** From the mandatory predicates to the packet: the candidates are authorized
    before anything is hydrated. *)
Definition searchCandidates (principal : Principal) (req : Request) (pol : PolicyResult)
    : pipeline ContextPacket :=
  let query := if is_empty (rq_Query req) && negb (is_empty (rq_ResourceID req))
               then rq_ResourceID req else rq_Query req in
  candidates ← call_at (fun n => IndexSearch n (rq_OrgID req) query (rq_Limit req)
                                   (searchFilters req));
  decisions ← call_at (fun n => BatchCheck n
                 (map (fun h => read_check principal req (hit_ResourceID h)) candidates));
  _ ← throw_if (negb (zlen decisions =? zlen candidates))
        (ErrInternal "authz batch decision count mismatch");
  let '(allowedHits, authzRev) := allowed_hits candidates decisions "" in
  searchPacket principal req pol allowedHits authzRev.

(** The coarse scope and the purpose, once the caller is admitted *)
Definition searchAdmitted (principal : Principal) (req : Request) : pipeline ContextPacket :=
  scope ← call_at (fun n => ResolveCandidateScope n
            (mkScopeResolve principal (rq_Action req) (rq_Consistency req)));
  if String.eqb (cs_ReasonCode scope) "AUTHZ_SCOPE_DENY"
  then emptyPacket principal req "AUTHZ_SCOPE_DENY"
  else
    pol ← call_at (fun n => EvaluatePolicy n
            (mkPolicyEval principal (rq_Action req) (rq_Purpose req) "internal" None (rq_Limit req)));
    if negb (pr_Allow pol) then emptyPacket principal req (pr_ReasonCode pol)
    else
      let req := if (0 <? pr_MaxResults pol) && (pr_MaxResults pol <? rq_Limit req)
                 then req <| rq_Limit := pr_MaxResults pol |> else req in
      searchCandidates principal req pol.

Definition Search (req : Request) : pipeline ContextPacket :=
  let req := if is_empty (rq_Action req) then req <| rq_Action := "context.search" |> else req in
  principal ← call_at (fun n => Authenticate n (rq_Credentials req));
  req ← bindOrg principal req;
  let req := searchDefaults req in
  _ ← of_result (gateScopes (requestScopes principal req) (rq_Action req) AllowEmptyScopes);
  _ ← checkDelegation req;
  searchAdmitted principal req.
End Search.

(** ** [Graph] *)
Section Graph.
Context `{P : Providers}.

Definition graphDefaults (req : Request) : Request :=
  let req := req <| rq_Depth := clamp (rq_Depth req) 1 4 |> in
  let req := req <| rq_MaxNodes := clamp (rq_MaxNodes req) 50 200 |> in
  let req := req <| rq_Limit := or_limit (rq_Limit req) (rq_MaxNodes req) |> in
  req <| rq_Consistency := or_min_latency (rq_Consistency req) |>.

Fixpoint citeNodes (nodes : list GraphNode) : pipeline (list Citation) :=
  match nodes with
  | [] => mret []
  | n :: nodes =>
      id ← ask NewEventID;
      let snippet := if is_empty (node_Title n) then node_ResourceID n else node_Title n in
      rest ← citeNodes nodes;
      mret (mkCitation id (node_ResourceID n) (node_RevisionID n) snippet f_zero :: rest)
  end.

(** The packet and its audit event, once the seed is authorized *)
Definition graphPacket (principal : Principal) (req : Request) (pol : PolicyResult)
    (authzRev : string) : pipeline ContextPacket :=
  '(nodes, edges, truncated) ←
    visibleSubgraph principal req [rq_ResourceID req] (rq_Depth req) (rq_Predicates req);
  let '(nodes, edges, trunc2) :=
    truncateGraphPreserveSeeds nodes edges [rq_ResourceID req] (rq_MaxNodes req) in
  let truncated := trunc2 || truncated in
  citations ← citeNodes nodes;
  auditID ← ask NewEventID;
  packetID ← ask NewEventID;
  at1 ← ask TimeNow;
  let packet :=
    mkPacket PacketVersion packetID (rq_OrgID req) (rq_Purpose req) (pr_RedactionProfile pol)
      nodes edges citations []
      ("subgraph depth=" +:+ itoa (rq_Depth req) +:+ " nodes=" +:+ itoa (zlen nodes)
       +:+ " edges=" +:+ itoa (zlen edges))
      PolicyRevision authzRev auditID ["outbound.send"] truncated
      (truncationCursor truncated edges) at1 in
  at2 ← ask TimeNow;
  _ ← append_audit
    (mkAuditEvent auditID (rq_OrgID req) (p_ID principal) (p_Kind principal) ""
       (rq_Action req) "GRAPH_OK" authzRev PolicyRevision (zlen nodes) (sampleNodeIDs nodes 8) ""
       (Some {["seed" := rq_ResourceID req; "depth" := itoa (rq_Depth req)]}) at2);
  mret packet.

(** The coarse scope, the purpose and the seed, once the caller is admitted *)
Definition graphAdmitted (principal : Principal) (req : Request) : pipeline ContextPacket :=
  scope ← call_at (fun n => ResolveCandidateScope n
            (mkScopeResolve principal (rq_Action req) (rq_Consistency req)));
  if String.eqb (cs_ReasonCode scope) "AUTHZ_SCOPE_DENY"
  then emptyPacket principal req "AUTHZ_SCOPE_DENY"
  else
    pol ← call_at (fun n => EvaluatePolicy n
            (mkPolicyEval principal (rq_Action req) (rq_Purpose req) "internal" None
               (rq_MaxNodes req)));
    if negb (pr_Allow pol) then emptyPacket principal req (pr_ReasonCode pol)
    else
      '(seedAllow, authzRev) ← batchAllow principal req [rq_ResourceID req];
      if negb (bool_decide (rq_ResourceID req ∈ seedAllow))
      then emptyPacket principal req "AUTHZ_DENY"
      else graphPacket principal req pol authzRev.

Definition Graph (req : Request) : pipeline ContextPacket :=
  let req := if is_empty (rq_Action req) then req <| rq_Action := "context.graph" |> else req in
  if is_empty (rq_ResourceID req) then throw (ErrValidation "resource_id required")
  else
    let req := graphDefaults req in
    principal ← call_at (fun n => Authenticate n (rq_Credentials req));
    req ← bindOrg principal req;
    _ ← checkDelegation req;
    _ ← of_result (gateScopes (requestScopes principal req) (rq_Action req) AllowEmptyScopes);
    graphAdmitted principal req.
End Graph.
