(* ===== verification/RetrievalFacts.v ===== *)
(** * What the retrieval pipeline discloses

    Every citation, node and edge of a packet is backed by provider answers
    given during the request: a positive authorization decision, a live record
    and an allowing policy result. *)
From S2P Require Import Deletion.
From S2P Require Import Prelude GoStd Ports Platform Policy Ledger Retrieval.

(** ** A program logic for the pipeline

    [ensures m Q]: a successful run of [m] between the steps [lo] and [hi]
    returns a value that satisfies [Q lo hi]. *)
Section Logic.
Definition ensures {A} (m : pipeline A) (Q : nat -> nat -> A -> Prop) : Prop :=
  forall t a t', m t = (Ok a, t') -> (step t <= step t')%nat /\ Q (step t) (step t') a.

Lemma ensures_ret {A} (a : A) (Q : nat -> nat -> A -> Prop) :
  (forall n, Q n n a) -> ensures (mret a) Q.
Proof. intros HQ t a' t' [= <- <-]. split; [lia | apply HQ]. Qed.

Lemma ensures_throw {A} e (Q : nat -> nat -> A -> Prop) : ensures (throw e) Q.
Proof. by intros t a t' [=]. Qed.

Lemma ensures_of_result {A} (r : result GoError A) :
  ensures (of_result r) (fun lo hi a => r = Ok a).
Proof. intros t a t' [= -> <-]. split; [lia | done]. Qed.

Lemma ensures_call {A} (f : nat -> result GoError A) :
  ensures (call_at f) (fun lo hi a => (lo < hi)%nat /\ f lo = Ok a).
Proof. intros t a t' [= Hf <-]. simpl. split; [lia|]. split; [lia | done]. Qed.

Lemma ensures_attempt {A} (f : nat -> result GoError A) :
  ensures (attempt (call_at f)) (fun lo hi r => (lo < hi)%nat /\ f lo = r).
Proof. intros t a t' [= <- <-]. simpl. split; [lia|]. split; [lia | done]. Qed.

Lemma ensures_modify f :
  (forall t, step (f t) = step t) -> ensures (modify f) (fun lo hi _ => lo = hi).
Proof. intros Hf t a t' [= <- <-]. rewrite Hf. done. Qed.

Lemma ensures_bind {A B} (m : pipeline A) (f : A -> pipeline B) Q (R : nat -> nat -> B -> Prop) :
  ensures m Q ->
  (forall a lo mid, (lo <= mid)%nat -> Q lo mid a -> ensures (f a) (fun lo' hi b =>
     lo' = mid -> R lo hi b)) ->
  ensures (m ≫= f) R.
Proof.
  intros Hm Hf t b t' (a & t1 & H1 & H2)%bind_Ok.
  destruct (Hm _ _ _ H1) as [Hle HQ]. destruct (Hf a _ _ Hle HQ _ _ _ H2) as [Hle' HR].
  split; [lia | by apply HR].
Qed.

Lemma ensures_weaken {A} (m : pipeline A) (Q R : nat -> nat -> A -> Prop) :
  ensures m Q -> (forall lo hi a, (lo <= hi)%nat -> Q lo hi a -> R lo hi a) -> ensures m R.
Proof. intros Hm HQR t a t' H. destruct (Hm _ _ _ H). split; [done | by apply HQR]. Qed.

Lemma ensures_true {A} (m : pipeline A) (Q : nat -> nat -> A -> Prop) :
  ensures m Q -> ensures m (fun _ _ _ => True).
Proof. intros Hm. eapply ensures_weaken; [exact Hm | done]. Qed.

(** [from k m R]: a successful run of [m] that starts at step [k] or later and
    ends at step [hi] returns a value that satisfies [R hi]. *)
Definition from {A} (k : nat) (m : pipeline A) (R : nat -> A -> Prop) : Prop :=
  forall t a t', (k <= step t)%nat -> m t = (Ok a, t') ->
    (step t <= step t')%nat /\ R (step t') a.

Lemma from_bind {A B} k (m : pipeline A) (f : A -> pipeline B) Q (R : nat -> B -> Prop) :
  ensures m Q ->
  (forall a lo k', (k <= lo <= k')%nat -> Q lo k' a -> from k' (f a) R) ->
  from k (m ≫= f) R.
Proof.
  intros Hm Hf t b t' Hk (a & t1 & H1 & H2)%bind_Ok. destruct (Hm _ _ _ H1) as [Hle HQ].
  destruct (Hf a (step t) (step t1) ltac:(lia) HQ _ _ _ (le_n _) H2). split; [lia | done].
Qed.

Lemma from_weaken {A} k (m : pipeline A) Q (R : nat -> A -> Prop) :
  ensures m Q -> (forall lo hi a, (k <= lo <= hi)%nat -> Q lo hi a -> R hi a) -> from k m R.
Proof.
  intros Hm HR t a t' Hk H. destruct (Hm _ _ _ H) as [Hle HQ].
  split; [done|]. eapply HR; [|exact HQ]. lia.
Qed.

Lemma from_mono {A} k (m : pipeline A) Q (R : nat -> A -> Prop) :
  from k m Q -> (forall hi a, (k <= hi)%nat -> Q hi a -> R hi a) -> from k m R.
Proof.
  intros Hm HR t a t' Hk H. destruct (Hm _ _ _ Hk H) as [Hle HQ].
  split; [done|]. apply HR; [lia | done].
Qed.
End Logic.

(** ** What must have happened for a resource to be disclosed *)
Section Events.
Context `{P : Providers}.

(** Between [lo] and [hi] the authorization provider allowed [principal] to
    read [id] under the delegation [deleg]. *)
Definition read_allowed (lo hi : nat) (principal : Principal) (deleg : option DelegationGrant)
    (id : string) : Prop :=
  exists n checks ds i c d,
    (lo <= n < hi)%nat /\ BatchCheck n checks = Ok ds /\
    checks !! i = Some c /\ ds !! i = Some d /\ ad_Allowed d = true /\
    ac_Principal c = principal /\ ac_Action c = "can_read" /\ ac_ResourceID c = id /\
    ac_Delegation c = deleg.

(** Between [lo] and [hi] the ledger returned the live record [rec] for [id]
    and the policy allowed it for the purpose, with the result [r]. *)
Definition record_allowed (lo hi : nat) (principal : Principal) (purpose org id : string)
    (rec : LedgerRecord) (r : PolicyResult) : Prop :=
  exists n m q,
    (lo <= n < hi)%nat /\ (lo <= m < hi)%nat /\ LedgerGetRecord n org id = Ok rec /\
    IsTombstoned (rec_State rec) = false /\
    EvaluatePolicy m q = Ok r /\ pr_Allow r = true /\ pe_Principal q = principal /\
    pe_Purpose q = purpose /\ pe_Classification q = rec_Classification rec /\
    pe_Record q = Some rec.

Lemma read_allowed_mono lo hi lo' hi' p d id :
  (lo' <= lo)%nat -> (hi <= hi')%nat -> read_allowed lo hi p d id -> read_allowed lo' hi' p d id.
Proof.
  intros ?? (n & checks & ds & i & c & dd & ? & ?).
  exists n, checks, ds, i, c, dd. split; [lia | done].
Qed.

Lemma record_allowed_mono lo hi lo' hi' p u o id rec r :
  (lo' <= lo)%nat -> (hi <= hi')%nat ->
  record_allowed lo hi p u o id rec r -> record_allowed lo' hi' p u o id rec r.
Proof.
  intros ?? (n & m & q & ? & ? & ?). exists n, m, q. split; [lia|]. split; [lia | done].
Qed.
End Events.

(** ** The authorization of batches *)
Section Batch.
Context `{P : Providers}.
Variables (principal : Principal) (req : Request).

Lemma allow_pairs_spec ids ds allowed rev id :
  id ∈ (allow_pairs ids ds allowed rev).1 ->
  id ∈ allowed \/ exists i d, ids !! i = Some id /\ ds !! i = Some d /\ ad_Allowed d = true.
Proof.
  revert ds allowed rev. induction ids as [|x ids IH]; intros ds allowed rev; simpl; [by left|].
  destruct ds as [|d ds]; simpl; [by left|].
  destruct (ad_Allowed d) eqn:Hd; intros [Hin|(i & d' & ? & ? & ?)]%IH.
  - apply elem_of_union in Hin as [->%elem_of_singleton|?]; [|by left]. right. by exists O, d.
  - right. by exists (S i), d'.
  - by left.
  - right. by exists (S i), d'.
Qed.

Lemma batchAllow_spec ids :
  ensures (batchAllow principal req ids) (fun lo hi r =>
    forall id, id ∈ r.1 -> read_allowed lo hi principal (rq_Delegation req) id).
Proof.
  unfold batchAllow. destruct ids as [|x ids].
  { apply ensures_ret. by intros n id ?%elem_of_empty. }
  eapply ensures_bind; [apply ensures_call|]. intros ds lo mid _ [Hlt Hds].
  apply ensures_ret. intros n -> id Hid.
  apply allow_pairs_spec in Hid as [?%elem_of_empty|(i & d & Hi & Hd & Ha)]; [done|].
  exists lo, (map (read_check principal req) (x :: ids)), ds, i, (read_check principal req id), d.
  split; [lia|]. split; [done|]. split; [|done].
  by rewrite list_lookup_fmap, Hi.
Qed.

Lemma attempt_batchAllow_spec ids :
  ensures (attempt (batchAllow principal req ids)) (fun lo hi r =>
    forall ok rev, r = Ok (ok, rev) ->
    forall id, id ∈ ok -> read_allowed lo hi principal (rq_Delegation req) id).
Proof.
  intros t a t' Ha. unfold attempt in Ha.
  destruct (batchAllow principal req ids t) as [r t1] eqn:E. injection Ha as <- <-.
  destruct r as [[ok rev]|e].
  - destruct (batchAllow_spec ids t (ok, rev) t1 E) as [Hle HQ]. split; [done|].
    by intros ok' rev' [= -> ->].
  - split; [|done]. unfold batchAllow in E. destruct ids; simplify_eq/=.
    unfold mbind, M_bind, call_at in E. destruct (BatchCheck _ _); simplify_eq/=. lia.
Qed.
End Batch.

(** ** The visible subgraph *)
Lemma collect_ends_spec authzOK seen ends :
  NoDup (collect_ends authzOK seen ends) /\
  forall x, x ∈ collect_ends authzOK seen ends -> x ∉ authzOK /\ x ∉ seen.
Proof.
  revert seen. induction ends as [|y ends IH]; intros seen; simpl.
  { split; [constructor | by intros x ?%elem_of_nil]. }
  destruct (bool_decide (y ∈ authzOK)) eqn:E1; simpl; [apply IH|].
  destruct (bool_decide (y ∈ seen)) eqn:E2; simpl; [apply IH|]. bools.
  destruct (IH ({[y]} ∪ seen)) as [Hnd Hout]. split.
  - constructor; [|done]. intros Hy. apply Hout in Hy as [_ Hy]. set_solver.
  - intros x [->|Hx]%elem_of_cons; [done|]. apply Hout in Hx as [? Hx]. set_solver.
Qed.

Lemma dedupe_spec seen ids :
  NoDup (dedupe seen ids) /\ forall x, x ∈ dedupe seen ids -> x ∈ ids /\ x <> "" /\ x ∉ seen.
Proof.
  revert seen. induction ids as [|y ids IH]; intros seen; simpl.
  { split; [constructor | by intros x ?%elem_of_nil]. }
  destruct (is_empty y) eqn:E1; simpl.
  { destruct (IH seen) as [? Hx]. split; [done|]. intros x Hin. apply Hx in Hin. set_solver. }
  destruct (bool_decide (y ∈ seen)) eqn:E2; simpl; bools.
  { destruct (IH seen) as [? Hx]. split; [done|]. intros x Hin. apply Hx in Hin. set_solver. }
  apply is_empty_false in E1. destruct (IH ({[y]} ∪ seen)) as [Hnd Hout]. split.
  - constructor; [|done]. intros Hy. apply Hout in Hy as (_ & _ & Hy). set_solver.
  - intros x [->|Hx]%elem_of_cons; [set_solver|]. apply Hout in Hx. set_solver.
Qed.

Lemma cap_sublist {A} (l : list A) tr l' tr' : cap l tr = (l', tr') -> l' `sublist_of` l.
Proof.
  unfold cap. destruct (edgeCap <? zlen l); intros [= <- _]; [apply sublist_take | done].
Qed.

(** A ledger returns a record under the identifier it was asked for. *)
Class LedgerFiled `{P : Providers} : Prop :=
  get_record_id n org id rec : LedgerGetRecord n org id = Ok rec -> rec_ResourceID rec = id.

Section Subgraph.
Context `{P : Providers}.
Variables (principal : Principal) (req : Request).

Let allowed lo hi id := read_allowed lo hi principal (rq_Delegation req) id.

Definition grown (discovery : list string) (lo hi : nat) (r : list string * bool) : Prop :=
  NoDup r.1 /\ (exists more, r.1 = discovery ++ more) /\
  forall id, id ∈ r.1 -> id ∈ discovery \/ allowed lo hi id.

Lemma grown_refl discovery tr lo hi : NoDup discovery -> grown discovery lo hi (discovery, tr).
Proof. intros Hnd. split; [done|]. split; [exists []; by rewrite app_nil_r | by left]. Qed.

Lemma grown_step discovery next lo mid mid' hi r :
  (lo <= mid)%nat -> (mid <= mid' <= hi)%nat ->
  (forall id, id ∈ next -> allowed mid mid' id) ->
  grown (discovery ++ next) mid' hi r -> grown discovery lo hi r.
Proof.
  intros Hlo Hhi Hnext (Hnd & [more Hmore] & Hall). split; [done|]. split.
  { exists (next ++ more). by rewrite Hmore, app_assoc. }
  intros id [[Hd|Hn]%elem_of_app|Ha]%Hall; [by left | right..].
  - eapply read_allowed_mono; [| |by apply Hnext]; lia.
  - eapply read_allowed_mono; [| |exact Ha]; lia.
Qed.

(** The expansion only adds resources the provider allowed, each once. *)
Lemma expand_spec predicates hops frontier authzOK discovery truncated :
  NoDup discovery -> (forall id, id ∈ discovery -> id ∈ authzOK) ->
  ensures (expand principal req predicates hops frontier authzOK discovery truncated)
    (grown discovery).
Proof.
  revert frontier authzOK discovery truncated.
  induction hops as [|hops IH]; intros frontier authzOK discovery truncated Hnd Hin; simpl.
  { apply ensures_ret. intros n. by apply grown_refl. }
  destruct frontier as [|f frontier]; [apply ensures_ret; intros n; by apply grown_refl|].
  eapply ensures_bind; [apply ensures_attempt|]. intros r lo mid Hle _.
  destruct r as [ledgerEdges|]; [|by apply ensures_ret; intros n ->; apply grown_refl].
  destruct (cap ledgerEdges truncated) as [es tr].
  destruct (sort_slice str_lt (collect_ends authzOK ∅ (edge_ends es))) as [|x xs] eqn:Hsort;
    [by apply ensures_ret; intros n ->; apply grown_refl|].
  destruct (cap (x :: xs) tr) as [neighbors tr'] eqn:Hcap. apply cap_sublist in Hcap.
  assert (Hfresh : NoDup neighbors /\ forall y, y ∈ neighbors -> y ∉ authzOK).
  { destruct (collect_ends_spec authzOK ∅ (edge_ends es)) as [Hn Hx].
    rewrite <- Hsort in Hcap. split.
    - eapply sublist_NoDup; [|exact Hcap]. by rewrite sort_slice_perm.
    - intros y Hy. pose proof (elem_of_sublist _ _ _ Hy Hcap) as Hy'.
      apply elem_of_sort_slice, Hx in Hy'. tauto. }
  destruct Hfresh as [Hnnd Hnout]. clear Hcap Hsort.
  eapply ensures_bind; [apply attempt_batchAllow_spec|]. intros r lo' mid' Hle' Hok.
  destruct r as [[ok rev]|]; [|by apply ensures_ret; intros n -> ->; apply grown_refl].
  set (next := filter (fun id => id ∈ ok) neighbors).
  eapply ensures_weaken; [apply IH|].
  - apply NoDup_app. split; [done|]. split; [|by apply NoDup_filter].
    intros y Hy [_ Hy']%list_elem_of_filter. apply Hin in Hy. by apply Hnout in Hy'.
  - intros id [Hd|Hn]%elem_of_app; set_solver.
  - intros lo2 hi r Hle2 Hg -> ->. apply (grown_step discovery next lo mid mid' hi r); [done | lia | | done].
    intros id [Hid _]%list_elem_of_filter. by eapply Hok.
Qed.

(** The node shown for [id] *)
Definition shown (lo hi : nat) (id : string) (n : GraphNode) : Prop :=
  exists rec r, record_allowed lo hi principal (rq_Purpose req) (rq_OrgID req) id rec r /\
    unresolved_state (rec_State rec) = false /\ n = node_of rec.

Lemma shown_mono lo hi lo' hi' id n :
  (lo' <= lo)%nat -> (hi <= hi')%nat -> shown lo hi id n -> shown lo' hi' id n.
Proof.
  intros ?? (rec & r & Hr & ?). exists rec, r. split; [by eapply record_allowed_mono | done].
Qed.

Lemma hydrate_spec id :
  ensures (hydrate principal req id) (fun lo hi r => forall n, r = Some n -> shown lo hi id n).
Proof.
  unfold hydrate. eapply ensures_bind; [apply ensures_attempt|]. intros r lo mid _ [Hlt Hr].
  destruct r as [rec|]; [|by apply ensures_ret].
  destruct (_ || _)%bool eqn:Hstate; [by apply ensures_ret|].
  apply orb_false_iff in Hstate as [Htomb Hun].
  eapply ensures_bind; [apply ensures_attempt|]. intros r lo' mid' _ [Hlt' Hr'].
  destruct r as [rpol|]; [|by apply ensures_ret].
  destruct (pr_Allow rpol) eqn:Ha; [|by apply ensures_ret].
  apply ensures_ret. intros n -> -> nd [= <-]. exists rec, rpol. split; [|done].
  eexists lo, mid, _. split; [lia|]. split; [lia|]. by split_and!.
Qed.

Lemma hydrate_all_spec ids visible :
  ensures (hydrate_all principal req ids visible) (fun lo hi r =>
    exists more, r = visible ++ more /\ more.*1 `sublist_of` ids /\
      forall id n, (id, n) ∈ more -> shown lo hi id n).
Proof.
  revert visible. induction ids as [|id ids IH]; intros visible; simpl.
  { apply ensures_ret. intros n. exists []. rewrite app_nil_r.
    split; [done|]. split; [done | by intros ?? ?%elem_of_nil]. }
  eapply ensures_bind; [apply hydrate_spec|]. intros [n|] lo mid Hle Hn.
  - eapply ensures_weaken; [apply IH|]. intros lo' hi r Hle' (more & -> & Hsub & Hall) ->.
    exists ((id, n) :: more). rewrite <- app_assoc. split; [done|].
    split; [by apply sublist_skip|]. intros id' n' [[= -> ->]|Hin]%elem_of_cons.
    + eapply shown_mono; [| |by apply Hn]; lia.
    + eapply shown_mono; [| |by apply Hall]; lia.
  - eapply ensures_weaken; [apply IH|]. intros lo' hi r Hle' (more & -> & Hsub & Hall) ->.
    exists more. split; [done|]. split; [by apply sublist_cons|].
    intros id' n' Hin. eapply shown_mono; [| |by apply Hall]; lia.
Qed.

Lemma visible_edges_spec visible seen es :
  NoDup (edge_EdgeID <$> visible_edges visible seen es) /\
  forall e, e ∈ visible_edges visible seen es ->
    e ∈ es /\ edge_State e <> "TOMBSTONED" /\ edge_EdgeID e ∉ seen /\
    edge_FromID e ∈ visible /\ edge_ToID e ∈ visible.
Proof.
  revert seen. induction es as [|e es IH]; intros seen; simpl.
  { split; [constructor | by intros ? ?%elem_of_nil]. }
  destruct (_ || _ || _ || _)%bool eqn:E.
  - destruct (IH seen) as [Hnd Hall]. split; [done|]. intros x Hx. destruct (Hall x Hx). set_solver.
  - repeat (apply orb_false_iff in E as [E ?]). bools. destruct (IH ({[edge_EdgeID e]} ∪ seen)) as [Hnd Hall].
    split.
    + rewrite fmap_cons. constructor; [|done].
      intros (x & Heq & Hx)%list_elem_of_fmap. apply Hall in Hx as (_ & _ & Hx & _). set_solver.
    + intros x [->|Hx]%elem_of_cons; [split_and!; [by left | done..]|].
      destruct (Hall x Hx) as (? & ? & ? & ?). split_and!; set_solver.
Qed.

(** The nodes and edges of a subgraph: every node was allowed and shown, every
    edge is live and joins two of the nodes. *)
Definition subgraph_ok (lo hi : nat) (nodes : list GraphNode) (es : list GraphEdge) : Prop :=
  exists visible : list (string * GraphNode),
    nodes = visible.*2 /\ NoDup visible.*1 /\
    (forall id n, (id, n) ∈ visible -> allowed lo hi id /\ shown lo hi id n) /\
    NoDup (edge_EdgeID <$> es) /\
    (forall e, e ∈ es -> edge_State e <> "TOMBSTONED" /\
       edge_FromID e ∈ visible.*1 /\ edge_ToID e ∈ visible.*1).

Lemma visibleSubgraph_spec seeds depth predicates :
  ensures (visibleSubgraph principal req seeds depth predicates)
    (fun lo hi r => subgraph_ok lo hi r.1.1 r.1.2).
Proof.
  unfold visibleSubgraph. eapply ensures_bind; [apply attempt_batchAllow_spec|].
  intros r lo mid Hle Hok. destruct r as [[ok rev]|].
  2: { apply ensures_ret. intros n ->. exists []. simpl.
       split_and!; [done | apply NoDup_nil_2 | | apply NoDup_nil_2 |];
         intros *; by rewrite elem_of_nil. }
  set (discovery := filter (fun id => id ∈ ok) _).
  assert (Hnd : NoDup discovery).
  { apply NoDup_filter. rewrite sort_slice_perm. apply dedupe_spec. }
  eapply ensures_bind; [apply expand_spec; [done | set_solver]|].
  intros [disc truncated] lo1 mid1 Hle1 (Hnd1 & _ & Hdisc). simpl in Hdisc.
  eapply ensures_bind; [apply hydrate_all_spec|].
  intros visible lo2 mid2 Hle2 (more & -> & Hsub & Hshown). simpl in *.
  eapply ensures_bind; [apply ensures_attempt|]. intros r lo3 mid3 Hle3 _.
  destruct (match r with Ok l => cap l truncated | Err _ => ([], truncated) end) as [es tr].
  apply ensures_ret. intros n -> -> -> ->. simpl. exists more.
  destruct (visible_edges_spec (list_to_set more.*1) ∅ es) as [Hend Hedges].
  split; [done|]. split; [exact (sublist_NoDup _ _ Hnd1 Hsub)|]. split; [|split].
  - intros id nd Hin. split.
    + assert (Hd : id ∈ disc).
      { eapply elem_of_sublist; [|exact Hsub]. apply list_elem_of_fmap. by exists (id, nd). }
      apply Hdisc in Hd as [[Hd _]%list_elem_of_filter|Hd].
      * eapply read_allowed_mono; [| |exact (Hok ok rev eq_refl id Hd)]; lia.
      * eapply read_allowed_mono; [| |exact Hd]; lia.
    + eapply shown_mono; [| |exact (Hshown id nd Hin)]; lia.
  - by rewrite sort_slice_perm.
  - intros e He%elem_of_sort_slice. apply Hedges in He as (_ & ? & _ & ? & ?). set_solver.
Qed.

(** The graph of a packet: every node was allowed and shown, each resource
    once; every edge is live and joins two of the nodes. *)
Definition graph_ok (lo hi : nat) (nodes : list GraphNode) (es : list GraphEdge) : Prop :=
  NoDup (node_ResourceID <$> nodes) /\
  (forall n, n ∈ nodes -> allowed lo hi (node_ResourceID n) /\ shown lo hi (node_ResourceID n) n) /\
  NoDup (edge_EdgeID <$> es) /\
  (forall e, e ∈ es -> edge_State e <> "TOMBSTONED" /\
     edge_FromID e ∈ node_ResourceID <$> nodes /\ edge_ToID e ∈ node_ResourceID <$> nodes).

Lemma subgraph_graph `{!LedgerFiled} lo hi nodes es :
  subgraph_ok lo hi nodes es -> graph_ok lo hi nodes es.
Proof.
  intros (visible & -> & Hnd & Hall & Hend & Hes).
  assert (Hids : node_ResourceID <$> visible.*2 = visible.*1).
  { rewrite <- list_fmap_compose. apply list_fmap_ext. intros i [id n] Hi%list_elem_of_lookup_2.
    destruct (Hall id n Hi) as [_ (rec & r & (k & _ & _ & _ & _ & Hget & _) & _ & ->)].
    by apply get_record_id in Hget. }
  unfold graph_ok. rewrite Hids. split_and!; [done | | done | done].
  intros n ([id n'] & -> & Hin)%list_elem_of_fmap. simpl.
  destruct (Hall id n' Hin) as [Ha Hs].
  destruct Hs as (rec & r & Hr & Hu & ->). pose proof Hr as (k & _ & _ & _ & _ & Hget & _).
  apply get_record_id in Hget. simpl. rewrite Hget. split; [done|]. by exists rec, r.
Qed.
End Subgraph.

(** ** Snippets *)
Lemma index_byte_app s t c :
  index_byte s c = None -> index_byte t c = None -> index_byte (s +:+ t) c = None.
Proof.
  induction s as [|d s IH]; simpl; [done|]. destruct (Ascii.eqb d c); [done|].
  destruct (index_byte s c) eqn:E; [done|]. intros _ Ht. by rewrite IH.
Qed.

Lemma replace_byte_gone s c by_ :
  index_byte by_ c = None -> index_byte (replace_byte s c by_) c = None.
Proof.
  intros Hby. induction s as [|d s IH]; simpl; [done|].
  destruct (Ascii.eqb d c) eqn:E; [by apply index_byte_app|]. simpl. by rewrite E, IH.
Qed.

Definition masks (profile : string) : Prop := profile = "pii_mask" \/ profile = "mask_pii".

Lemma redactSnippet_masked s profile :
  masks profile -> index_byte (redactSnippet s profile) "@" = None.
Proof.
  intros Hm. unfold redactSnippet. assert ((String.eqb profile "pii_mask" || String.eqb profile "mask_pii")%bool = true) as ->.
  { destruct Hm as [->| ->]; done. }
  by apply replace_byte_gone.
Qed.

(** ** Citations *)
Section Cite.
Context `{P : Providers}.
Variables (principal : Principal) (req : Request).

Definition cited (lo hi : nat) (c : Citation) : Prop :=
  exists rec r,
    record_allowed lo hi principal (rq_Purpose req) (rq_OrgID req) (cit_ResourceID c) rec r /\
    (masks (pr_RedactionProfile r) -> index_byte (cit_Snippet c) "@" = None).

Lemma cited_mono lo hi lo' hi' c :
  (lo' <= lo)%nat -> (hi <= hi')%nat -> cited lo hi c -> cited lo' hi' c.
Proof.
  intros ?? (rec & r & Hr & ?). exists rec, r. split; [by eapply record_allowed_mono | done].
Qed.

Lemma loadSnippet_spec org id rec : ensures (loadSnippet org id rec) (fun _ _ _ => True).
Proof.
  unfold loadSnippet. destruct SnippetDocument.
  - eapply ensures_bind; [apply ensures_call|]. intros. by apply ensures_ret.
  - eapply ensures_bind; [by apply (ensures_ret _ (fun _ _ _ => True))|]. intros. by apply ensures_ret.
Qed.

Lemma citeHit_spec hit :
  ensures (citeHit principal req hit) (fun lo hi r => forall c red, r = Some (c, red) ->
    cit_ResourceID c = hit_ResourceID hit /\ cited lo hi c).
Proof.
  unfold citeHit. eapply ensures_bind; [apply ensures_attempt|]. intros r lo mid _ [Hlt Hr].
  destruct r as [rec|]; [|by apply ensures_ret].
  destruct (IsTombstoned (rec_State rec)) eqn:Htomb; [by apply ensures_ret|].
  eapply ensures_bind; [apply ensures_attempt|]. intros r lo' mid' _ [Hlt' Hr'].
  destruct r as [rpol|]; [|by apply ensures_ret].
  destruct (pr_Allow rpol) eqn:Ha; [|by apply ensures_ret].
  eapply ensures_bind; [apply loadSnippet_spec|]. intros text lo2 mid2 Hle2 _.
  eapply ensures_bind; [apply ensures_call|]. intros id lo3 mid3 _ [Hlt3 _].
  apply ensures_ret. intros n -> -> -> -> c red [= <- _]. split; [done|].
  exists rec, rpol. split; [|apply redactSnippet_masked].
  eexists lo, mid, _. split; [lia|]. split; [lia|]. by split_and!.
Qed.

Lemma citeHits_spec hits acc :
  ensures (citeHits principal req hits acc) (fun lo hi r => exists more, r = acc ++ more /\
    forall c red, (c, red) ∈ more ->
      cit_ResourceID c ∈ hit_ResourceID <$> hits /\ cited lo hi c).
Proof.
  revert acc. induction hits as [|h hits IH]; intros acc; simpl.
  { apply ensures_ret. intros n. exists []. rewrite app_nil_r.
    split; [done | by intros ?? ?%elem_of_nil]. }
  eapply ensures_bind; [apply citeHit_spec|]. intros r lo mid Hle Hr.
  eapply ensures_weaken; [apply IH|]. intros lo' hi out Hle' (more & -> & Hall) ->.
  assert (Hmore : forall c red, (c, red) ∈ more ->
            cit_ResourceID c ∈ hit_ResourceID <$> (h :: hits) /\ cited lo hi c).
  { intros c red Hin. destruct (Hall c red Hin) as [Hid Hc].
    split; [by apply elem_of_cons; right | eapply cited_mono; [| |exact Hc]; lia]. }
  destruct r as [[c0 red0]|]; [|by exists more].
  exists ((c0, red0) :: more). rewrite <- app_assoc. split; [done|].
  intros c red [[= -> ->]|Hin]%elem_of_cons; [|by eapply Hmore].
  destruct (Hr c0 red0 eq_refl) as [Hid Hc].
  split; [rewrite Hid; by apply elem_of_cons; left | eapply cited_mono; [| |exact Hc]; lia].
Qed.

Lemma allowed_hits_spec hits ds rev h :
  h ∈ (allowed_hits hits ds rev).1 ->
  exists i d, hits !! i = Some h /\ ds !! i = Some d /\ ad_Allowed d = true.
Proof.
  revert ds rev. induction hits as [|x hits IH]; intros ds rev; simpl; [by intros ?%elem_of_nil|].
  destruct ds as [|d ds]; simpl; [by intros ?%elem_of_nil|].
  destruct (ad_Allowed d) eqn:Hd.
  - destruct (allowed_hits hits ds (ad_ModelRevision d)) as [l rev'] eqn:E. simpl.
    intros [->|Hin]%elem_of_cons; [by exists O, d|].
    destruct (IH ds (ad_ModelRevision d)) as (i & d' & ? & ? & ?); [by rewrite E|].
    by exists (S i), d'.
  - intros (i & d' & ? & ? & ?)%IH. by exists (S i), d'.
Qed.
End Cite.

(** ** Requests *)
Section Gates.
Context `{P : Providers}.

Lemma throw_if_spec b e : ensures (throw_if b e) (fun lo hi _ => b = false).
Proof.
  intros t [] t' H. unfold throw_if, of_result, fail_if in H. destruct b; simplify_eq/=. done.
Qed.

Lemma bindOrg_spec principal req :
  ensures (bindOrg principal req) (fun lo hi req' =>
    p_OrgID principal <> "" /\ req' = req <| rq_OrgID := p_OrgID principal |> /\
    (rq_OrgID req = "" \/ rq_OrgID req = p_OrgID principal)).
Proof.
  unfold bindOrg. eapply ensures_bind; [apply throw_if_spec|]. intros [] lo mid _ Hne.
  apply is_empty_false in Hne. destruct (is_empty (rq_OrgID req)) eqn:E.
  - apply is_empty_true in E. apply ensures_ret. intros n _. by split_and!; [| |left].
  - eapply ensures_bind; [apply throw_if_spec|]. intros [] lo' mid' _ Heq. bools.
    apply ensures_ret. intros n _ _. split_and!; [done | destruct req; simpl in *; congruence | by right].
Qed.

(** The delegation is live and covers the purpose. *)
Definition delegation_ok (lo hi : nat) (req : Request) : Prop :=
  forall d, rq_Delegation req = Some d ->
    dg_Revoked d = false /\
    (forall t, dg_ExpiresAt d = Some t -> exists n, (lo <= n < hi)%nat /\ TimeNow n <= t) /\
    (dg_Purposes d = [] \/ rq_Purpose req ∈ dg_Purposes d).

Lemma checkDelegation_spec req :
  ensures (checkDelegation req) (fun lo hi _ => delegation_ok lo hi req).
Proof.
  unfold checkDelegation, delegation_ok. destruct (rq_Delegation req) as [d|];
    [|by apply ensures_ret].
  eapply ensures_bind; [apply throw_if_spec|]. intros [] lo mid Hle Hrev.
  eapply (ensures_bind _ _ (fun lo hi _ => forall t, dg_ExpiresAt d = Some t ->
    exists n, (lo <= n < hi)%nat /\ TimeNow n <= t)).
  { destruct (dg_ExpiresAt d) as [t|]; [|by apply ensures_ret].
    eapply ensures_bind; [apply ensures_call|]. intros now lo1 mid1 Hle1 [Hlt [= <-]].
    eapply ensures_weaken; [apply throw_if_spec|].
    intros lo2 hi2 [] Hle2 Hb -> t' [= <-]. unfold after in Hb. bools. exists lo1. split; [lia | done]. }
  intros [] lo' mid' Hle' Hexp. eapply ensures_weaken; [apply throw_if_spec|].
  intros lo2 hi2 [] Hle2 Hpur -> -> d' [= <-]. split; [done|]. split.
  - intros t Ht. destruct (Hexp t Ht) as (n & ? & ?). exists n. split; [lia | done].
  - destruct (dg_Purposes d) as [|x l]; [by left|right]. bools. by apply mem_str_In in Hpur.
Qed.

Lemma delegation_ok_mono lo hi lo' hi' req :
  (lo' <= lo)%nat -> (hi <= hi')%nat -> delegation_ok lo hi req -> delegation_ok lo' hi' req.
Proof.
  intros Hlo Hhi Hd d Hs. destruct (Hd d Hs) as (? & Hexp & ?). split_and!; [done | | done].
  intros t Ht. destruct (Hexp t Ht) as (n & ? & ?). exists n. split; [lia | done].
Qed.

(** The scope that an action needs *)
Definition scope_granted (scopes : list string) (action : string) : Prop :=
  if mem_str action ["context.get"; "context.brief"; "context.graph"]
  then "context:read" ∈ scopes
  else "context:search" ∈ scopes \/ "context:read" ∈ scopes.

Lemma gateScopes_spec scopes action allowEmpty :
  gateScopes scopes action allowEmpty = Ok tt <->
  (scopes = [] /\ allowEmpty = true) \/ (scopes <> [] /\ scope_granted scopes action).
Proof.
  unfold gateScopes, scope_granted. destruct scopes as [|s scopes].
  { destruct allowEmpty; naive_solver. }
  set (l := s :: scopes). assert (Hne : l <> []) by done.
  destruct (mem_str action _).
  - assert (existsb (fun x => String.eqb x "context:read" || String.eqb "context:read" "context:search" && String.eqb x "context:read") l = true <-> "context:read" ∈ l) as Hiff.
    { rewrite existsb_exists. setoid_rewrite <- list_elem_of_In. simpl. setoid_rewrite orb_false_r.
      setoid_rewrite String.eqb_eq. naive_solver. }
    destruct (existsb _ l); naive_solver.
  - assert (existsb (fun x => String.eqb x "context:search" || String.eqb "context:search" "context:search" && String.eqb x "context:read") l = true <-> "context:search" ∈ l \/ "context:read" ∈ l) as Hiff.
    { rewrite existsb_exists. setoid_rewrite <- list_elem_of_In. simpl.
      setoid_rewrite orb_true_iff. setoid_rewrite String.eqb_eq. naive_solver. }
    destruct (existsb _ l); naive_solver.
Qed.
End Gates.

(** ** The two entry points *)
Section Entry.
Context `{P : Providers} `{!LedgerFiled}.

(** Two requests that agree on what the authorization of a resource uses *)
Definition same_scope (r1 r2 : Request) : Prop :=
  rq_Delegation r1 = rq_Delegation r2 /\ rq_Purpose r1 = rq_Purpose r2 /\ rq_OrgID r1 = rq_OrgID r2.

(** What a successful request rests on: the caller's organization, a granted
    scope and a valid delegation. *)
Definition admitted (lo hi : nat) (req : Request) (action : string) (principal : Principal) : Prop :=
  (exists n, (lo <= n < hi)%nat /\ Authenticate n (rq_Credentials req) = Ok principal) /\
  p_OrgID principal <> "" /\ (rq_OrgID req = "" \/ rq_OrgID req = p_OrgID principal) /\
  (requestScopes principal req = [] /\ AllowEmptyScopes = true \/
   scope_granted (requestScopes principal req) (or_default (rq_Action req) action)) /\
  delegation_ok lo hi req.

(** What a packet may contain *)
Definition packet_ok (lo hi : nat) (req : Request) (principal : Principal) (pkt : ContextPacket)
    : Prop :=
  pkt_OrgID pkt = p_OrgID principal /\
  let req := req <| rq_OrgID := p_OrgID principal |> in
  graph_ok principal req lo hi (pkt_Nodes pkt) (pkt_Edges pkt) /\
  forall c, c ∈ pkt_Citations pkt ->
    read_allowed lo hi principal (rq_Delegation req) (cit_ResourceID c) /\
    cited principal req lo hi c.

Lemma graph_ok_mono principal r1 r2 lo hi lo' hi' nodes es :
  same_scope r1 r2 -> (lo' <= lo)%nat -> (hi <= hi')%nat ->
  graph_ok principal r1 lo hi nodes es -> graph_ok principal r2 lo' hi' nodes es.
Proof.
  intros (Hd & Hp & Ho) ?? (Hnd & Hall & He & Hes). split_and!; try done.
  intros n Hin. destruct (Hall n Hin) as [Ha (rec & r & Hr & Hs)]. split.
  - rewrite <- Hd. by eapply read_allowed_mono.
  - exists rec, r. split; [|done]. rewrite <- Hp, <- Ho. by eapply record_allowed_mono.
Qed.

Lemma cited_scope principal r1 r2 lo hi lo' hi' c :
  same_scope r1 r2 -> (lo' <= lo)%nat -> (hi <= hi')%nat ->
  cited principal r1 lo hi c -> cited principal r2 lo' hi' c.
Proof.
  intros (Hd & Hp & Ho) ?? (rec & r & Hr & Hm). exists rec, r. split; [|done].
  rewrite <- Hp, <- Ho. by eapply record_allowed_mono.
Qed.

Lemma graph_ok_nil principal req lo hi : graph_ok principal req lo hi [] [].
Proof.
  split_and!; [apply NoDup_nil_2 | | apply NoDup_nil_2 |]; intros *; by rewrite elem_of_nil.
Qed.

Lemma visibleSubgraph_graph principal req seeds depth predicates :
  ensures (visibleSubgraph principal req seeds depth predicates)
    (fun lo hi r => graph_ok principal req lo hi r.1.1 r.1.2).
Proof.
  eapply ensures_weaken; [apply visibleSubgraph_spec|]. intros. by apply subgraph_graph.
Qed.

Lemma ask_spec {A} (f : nat -> A) : ensures (ask f) (fun _ _ _ => True).
Proof. eapply ensures_weaken; [apply ensures_call | done]. Qed.

Lemma append_audit_spec e : ensures (append_audit e) (fun _ _ _ => True).
Proof. eapply ensures_weaken; [by apply ensures_modify | done]. Qed.

Lemma emptyPacket_spec principal req reason :
  ensures (emptyPacket principal req reason) (fun _ _ pkt =>
    pkt_OrgID pkt = rq_OrgID req /\ pkt_Nodes pkt = [] /\ pkt_Edges pkt = [] /\
    pkt_Citations pkt = []).
Proof.
  unfold emptyPacket.
  eapply ensures_bind; [apply ask_spec|]. intros auditID lo1 mid1 _ _.
  eapply ensures_bind; [apply ask_spec|]. intros at1 lo2 mid2 _ _.
  eapply ensures_bind; [apply append_audit_spec|]. intros [] lo3 mid3 _ _.
  eapply ensures_bind; [apply ask_spec|]. intros at2 lo4 mid4 _ _.
  by apply ensures_ret.
Qed.

Lemma searchPacket_spec principal req pol hits rev :
  ensures (searchPacket principal req pol hits rev) (fun lo hi pkt =>
    pkt_OrgID pkt = rq_OrgID req /\
    graph_ok principal req lo hi (pkt_Nodes pkt) (pkt_Edges pkt) /\
    forall c, c ∈ pkt_Citations pkt ->
      cit_ResourceID c ∈ hit_ResourceID <$> hits /\ cited principal req lo hi c).
Proof.
  unfold searchPacket. eapply ensures_bind; [apply citeHits_spec|].
  intros cs lo mid Hle (more & -> & Hall).
  eapply ensures_bind; [apply visibleSubgraph_graph|]. intros [[nodes es] tr] lo1 mid1 Hle1 Hsub.
  eapply ensures_bind; [apply ask_spec|]. intros auditID lo2 mid2 Hle2 _.
  eapply ensures_bind; [apply ask_spec|]. intros packetID lo3 mid3 Hle3 _.
  eapply ensures_bind; [apply ask_spec|]. intros at1 lo4 mid4 Hle4 _.
  eapply ensures_bind; [apply ask_spec|]. intros at2 lo5 mid5 Hle5 _.
  eapply ensures_bind; [apply append_audit_spec|]. intros [] lo6 mid6 Hle6 _.
  apply ensures_ret. intros n -> -> -> -> -> -> ->. split; [done|]. split.
  - eapply graph_ok_mono; [| | |exact Hsub]; [done | lia | lia].
  - intros c ([c' red] & -> & Hin)%list_elem_of_fmap. simpl.
    destruct (Hall c' red Hin) as [Hid Hc]. split; [done|].
    eapply cited_mono; [| |exact Hc]; lia.
Qed.

Lemma searchDefaults_scope req : same_scope (searchDefaults req) req.
Proof. done. Qed.
Lemma searchDefaults_action req : rq_Action (searchDefaults req) = rq_Action req.
Proof. done. Qed.
Lemma searchDefaults_scopes p req : requestScopes p (searchDefaults req) = requestScopes p req.
Proof. done. Qed.

(** [admitted] and [packet_ok] of the request a handler works on (defaults
    filled in, organization bound) are those of the caller's request. *)
Definition derived (req req' : Request) (principal : Principal) (action : string) : Prop :=
  rq_Delegation req' = rq_Delegation req /\ rq_Purpose req' = rq_Purpose req /\
  rq_OrgID req' = p_OrgID principal /\ rq_Credentials req' = rq_Credentials req /\
  rq_Action req' = or_default (rq_Action req) action /\
  requestScopes principal req' = requestScopes principal req.

Lemma with_action_derived req action :
  let req' := if is_empty (rq_Action req) then req <| rq_Action := action |> else req in
  rq_Action req' = or_default (rq_Action req) action /\ same_scope req' req /\
  rq_Credentials req' = rq_Credentials req /\
  (forall p, requestScopes p req' = requestScopes p req).
Proof. unfold or_default. by destruct (is_empty (rq_Action req)). Qed.

(** What a packet of a bound request satisfies *)
Definition packet_bound (lo hi : nat) (req : Request) (principal : Principal)
    (pkt : ContextPacket) : Prop :=
  pkt_OrgID pkt = rq_OrgID req /\
  graph_ok principal req lo hi (pkt_Nodes pkt) (pkt_Edges pkt) /\
  forall c, c ∈ pkt_Citations pkt ->
    read_allowed lo hi principal (rq_Delegation req) (cit_ResourceID c) /\
    cited principal req lo hi c.

Lemma packet_bound_ok lo hi lo' hi' req req' principal pkt :
  same_scope req' (req <| rq_OrgID := p_OrgID principal |>) -> (lo' <= lo)%nat -> (hi <= hi')%nat ->
  packet_bound lo hi req' principal pkt -> packet_ok lo' hi' req principal pkt.
Proof.
  intros Hs Hlo Hhi (Ho & Hsub & Hc). pose proof Hs as (Hd & Hp & Horg). simpl in *.
  split; [congruence|]. split; [by eapply graph_ok_mono|].
  intros c Hin. destruct (Hc c Hin) as [Ha Hcited]. split.
  - simpl. rewrite <- Hd. by eapply read_allowed_mono.
  - by eapply cited_scope.
Qed.

Lemma packet_bound_empty lo hi req principal pkt :
  pkt_OrgID pkt = rq_OrgID req /\ pkt_Nodes pkt = [] /\ pkt_Edges pkt = [] /\
  pkt_Citations pkt = [] -> packet_bound lo hi req principal pkt.
Proof.
  intros (Ho & Hn & He & Hc). unfold packet_bound. rewrite Hn, He, Hc.
  split_and!; [done | apply graph_ok_nil | by intros c ?%elem_of_nil].
Qed.
End Entry.

Section SearchSpec.
Context `{P : Providers} `{!LedgerFiled}.

Lemma searchCandidates_spec principal req pol :
  ensures (searchCandidates principal req pol)
    (fun lo hi pkt => packet_bound lo hi req principal pkt).
Proof.
  unfold searchCandidates. eapply ensures_bind; [apply ensures_call|]. intros candidates lo mid Hle [Hlt Hc].
  eapply ensures_bind; [apply ensures_call|]. intros decisions lo1 mid1 Hle1 [Hlt1 Hd].
  eapply ensures_bind; [apply throw_if_spec|]. intros [] lo2 mid2 Hle2 _.
  destruct (allowed_hits candidates decisions "") as [hits rev] eqn:Ha.
  eapply ensures_weaken; [apply searchPacket_spec|].
  intros lo3 hi pkt Hle3 (Ho & Hsub & Hcit) -> -> ->. split; [done|]. split.
  { eapply graph_ok_mono; [| | |exact Hsub]; [done | lia | lia]. }
  intros c Hin. destruct (Hcit c Hin) as [Hid Hcited]. split.
  - apply list_elem_of_fmap in Hid as (h & Hid & Hh).
    assert (Hh' : h ∈ (allowed_hits candidates decisions "").1) by (by rewrite Ha).
    apply allowed_hits_spec in Hh' as (i & d & Hi & Hdi & Hal).
    eexists mid, _, decisions, i, _, d. split; [lia|]. split; [exact Hd|].
    split; [by rewrite list_lookup_fmap, Hi|]. by split_and!.
  - eapply cited_mono; [| |exact Hcited]; lia.
Qed.

Lemma packet_bound_scope lo hi lo' hi' r r' principal pkt :
  same_scope r r' -> (lo' <= lo)%nat -> (hi <= hi')%nat ->
  packet_bound lo hi r principal pkt -> packet_bound lo' hi' r' principal pkt.
Proof.
  intros Hs ?? (Ho & Hg & Hc). pose proof Hs as (Hd & Hp & Horg).
  split_and!; [congruence | by eapply graph_ok_mono|]. intros c Hin.
  destruct (Hc c Hin) as [Ha Hcited]. split; [|by eapply cited_scope].
  rewrite <- Hd. by eapply read_allowed_mono.
Qed.

Lemma searchAdmitted_spec principal req k :
  from k (searchAdmitted principal req) (fun hi pkt => packet_bound k hi req principal pkt).
Proof.
  assert (Hempty : forall reason k', (k <= k')%nat -> from k' (emptyPacket principal req reason)
    (fun hi pkt => packet_bound k hi req principal pkt)).
  { intros reason k' Hk. eapply from_weaken; [apply emptyPacket_spec|].
    intros lo hi pkt _ He. by apply packet_bound_empty. }
  unfold searchAdmitted.
  eapply from_bind; [apply ensures_call|]. intros scope n1 k1 Hk1 _.
  destruct (String.eqb _ _); [apply Hempty; lia|].
  eapply from_bind; [apply ensures_call|]. intros pol n2 k2 Hk2 _.
  destruct (negb (pr_Allow pol)); [apply Hempty; lia|].
  eapply from_weaken; [apply searchCandidates_spec|]. intros lo hi pkt Hlo Hb.
  eapply packet_bound_scope; [| | |exact Hb]; [by case_match | lia | done].
Qed.

(** The gates common to [Search] and [Graph] *)
Lemma admitted_intro lo k hi req req' principal action n :
  derived req req' principal action -> (lo <= n < hi)%nat ->
  Authenticate n (rq_Credentials req) = Ok principal -> p_OrgID principal <> "" ->
  (rq_OrgID req = "" \/ rq_OrgID req = p_OrgID principal) ->
  gateScopes (requestScopes principal req') (rq_Action req') AllowEmptyScopes = Ok tt ->
  delegation_ok lo k req' -> (k <= hi)%nat ->
  admitted lo hi req action principal.
Proof.
  intros (Hd & Hp & _ & _ & Hact & Hrs) Hn Hauth Hne Horg Hgate Hdel Hk.
  apply gateScopes_spec in Hgate. rewrite Hrs, Hact in Hgate.
  split_and!; [by exists n | done | done | tauto |].
  eapply (delegation_ok_mono lo k); [done | done |]. intros d Hs. rewrite <- Hd in Hs.
  destruct (Hdel d Hs) as (? & ? & ?). by rewrite <- Hp.
Qed.

Lemma derived_bound req req' principal action :
  derived req req' principal action -> same_scope req' (req <| rq_OrgID := p_OrgID principal |>).
Proof. by intros (? & ? & ? & ? & ? & ?). Qed.

Lemma derived_search req principal :
  let req0 := if is_empty (rq_Action req) then req <| rq_Action := "context.search" |> else req in
  derived req (searchDefaults (req0 <| rq_OrgID := p_OrgID principal |>)) principal "context.search".
Proof.
  destruct (with_action_derived req "context.search") as (Hact & (Hd & Hp & Ho) & Hcr & Hrs).
  set (req0 := if is_empty (rq_Action req) then _ else req) in *. cbv zeta.
  split_and!; [exact Hd | exact Hp | done | exact Hcr | exact Hact | apply Hrs].
Qed.

Lemma Search_spec req lo :
  from lo (Search req) (fun hi pkt => exists principal,
    admitted lo hi req "context.search" principal /\ packet_ok lo hi req principal pkt).
Proof.
  unfold Search. pose proof (derived_search req) as Hder.
  destruct (with_action_derived req "context.search") as (_ & (_ & _ & Ho) & Hcr & _).
  set (req0 := if is_empty (rq_Action req) then _ else req) in *. clearbody req0. cbv zeta in Hder.
  eapply from_bind; [apply ensures_call|]. intros principal n k1 Hk1 [Hn Hauth].
  rewrite Hcr in Hauth. specialize (Hder principal).
  eapply from_bind; [apply bindOrg_spec|]. intros req1 n1 k2 Hk2 (Hne & -> & Horg). rewrite Ho in Horg.
  set (req2 := searchDefaults _) in *. clearbody req2.
  eapply from_bind; [apply ensures_of_result|]. intros [] n2 k3 Hk3 Hgate.
  eapply from_bind; [apply checkDelegation_spec|]. intros [] n3 k4 Hk4 Hdel.
  eapply from_mono; [apply searchAdmitted_spec|]. intros hi pkt Hhi Hb. exists principal. split.
  - eapply (admitted_intro lo k4 hi req req2 principal _ n);
      [exact Hder | lia | done | done | done | done | | lia].
    eapply delegation_ok_mono; [| |exact Hdel]; lia.
  - eapply (packet_bound_ok k4 hi); [| | |exact Hb]; [|lia | done].
    by eapply derived_bound.
Qed.
End SearchSpec.

(** ** Truncation *)
Lemma keep_nodes_spec want maxNodes nodes keep out keep' out' :
  keep_nodes want maxNodes nodes keep out = (keep', out') ->
  exists more,
    out' = out ++ more /\ more `sublist_of` nodes /\ Forall (fun n => want n = true) more /\
    keep' = list_to_set (node_ResourceID <$> more) ∪ keep /\
    (forall n, n ∈ more -> node_ResourceID n ∉ keep) /\ NoDup (node_ResourceID <$> more) /\
    (zlen out < maxNodes -> zlen out' <= maxNodes) /\
    (zlen out' < maxNodes -> forall n, n ∈ nodes -> want n = true -> node_ResourceID n ∈ keep').
Proof.
  revert keep out. induction nodes as [|n nodes IH]; intros keep out; cbn [keep_nodes].
  { intros [= <- <-]. exists []. rewrite app_nil_r. split_and!; try done.
    - set_solver.
    - by intros ? ?%elem_of_nil.
    - apply NoDup_nil_2.
    - lia.
    - by intros _ ? ?%elem_of_nil. }
  destruct (want n) eqn:Hw; simpl.
  2: { intros (more & -> & Hsub & Hall & -> & Hnew & Hnd & Hlen & Hfull)%IH. exists more.
       split_and!; try done; [by apply sublist_cons|].
       intros Hlt x [->|Hx]%elem_of_cons Hwx; [congruence | by apply Hfull]. }
  case_bool_decide as Hk; simpl.
  2: { intros (more & -> & Hsub & Hall & -> & Hnew & Hnd & Hlen & Hfull)%IH. exists more.
       split_and!; try done; [by apply sublist_cons|].
       intros Hlt x [->|Hx]%elem_of_cons Hwx; [|by apply Hfull].
       set_solver. }
  destruct (Z.leb_spec maxNodes (zlen (out ++ [n]))) as [Hle|Hlt].
  - intros [= <- <-]. exists [n]. split_and!; try done.
    + apply sublist_skip, sublist_nil_l.
    + by repeat constructor.
    + set_solver.
    + intros x ->%list_elem_of_singleton. done.
    + apply NoDup_singleton.
    + unfold zlen in *. rewrite length_app. simpl. lia.
    + intros Hlt. lia.
  - intros (more & -> & Hsub & Hall & -> & Hnew & Hnd & Hlen & Hfull)%IH.
    exists (n :: more). split_and!.
    + by rewrite <- app_assoc.
    + by apply sublist_skip.
    + by constructor.
    + set_solver.
    + intros x [->|Hx]%elem_of_cons; [done|]. apply Hnew in Hx. set_solver.
    + rewrite fmap_cons. constructor; [|done].
      intros (x & Heq & Hx)%list_elem_of_fmap. apply Hnew in Hx. set_solver.
    + auto.
    + intros Hl x [->|Hx]%elem_of_cons Hwx; [set_solver | by apply Hfull].
Qed.

(** The kept nodes, the identifiers behind the filter of the edges *)
Lemma truncate_spec nodes es seeds maxNodes nodes' es' tr :
  truncateGraphPreserveSeeds nodes es seeds maxNodes = (nodes', es', tr) ->
  NoDup (node_ResourceID <$> nodes) -> 0 < maxNodes ->
  zlen nodes' <= maxNodes /\ NoDup (node_ResourceID <$> nodes') /\
  (forall n, n ∈ nodes' -> n ∈ nodes) /\
  (tr = false -> nodes' = nodes /\ es' = es) /\ tr = (maxNodes <? zlen nodes) /\
  (tr = true -> es' = filter (fun e => edge_FromID e ∈ node_ResourceID <$> nodes' /\
                                       edge_ToID e ∈ node_ResourceID <$> nodes') es /\
     zlen nodes' = maxNodes) /\
  (tr = true -> exists m, (forall n, n ∈ m -> n ∈ nodes') /\ NoDup (node_ResourceID <$> m) /\
     (forall x, x ∈ node_ResourceID <$> m -> x ∈ seeds) /\
     (zlen m < maxNodes -> forall n, n ∈ nodes -> node_ResourceID n <> "" ->
        node_ResourceID n ∈ seeds -> node_ResourceID n ∈ node_ResourceID <$> m) /\
     zlen m <= maxNodes).
Proof.
  unfold truncateGraphPreserveSeeds. intros Heq Hnd Hpos.
  destruct (Z.leb_spec maxNodes 0); [lia|]. simpl in Heq.
  destruct (Z.leb_spec (zlen nodes) maxNodes) as [Hle|Hgt].
  { injection Heq as <- <- <-. split_and!; try done; destruct (Z.ltb_spec maxNodes (zlen nodes)); lia. }
  set (is_seed := fun n : GraphNode => _) in Heq.
  destruct (keep_nodes is_seed maxNodes nodes ∅ []) as [k1 o1] eqn:E1.
  apply keep_nodes_spec in E1 as (m1 & -> & Hs1 & Hseed & -> & _ & Hnd1 & Hlen1 & Hall1).
  specialize (Hlen1 ltac:(unfold zlen; simpl; lia)). simpl in Hlen1.
  assert (Hset : forall (l : list string) x, x ∈ (list_to_set l ∪ ∅ : gset string) <-> x ∈ l) by set_solver.
  assert (Hfil : forall (l1 l2 : list string) (k : gset string),
    (forall x, x ∈ k <-> x ∈ l1) ->
    filter (fun e => edge_FromID e ∈ k /\ edge_ToID e ∈ k) es =
    filter (fun e => edge_FromID e ∈ l1 /\ edge_ToID e ∈ l1) es).
  { intros l1 _ k Hk. apply list_filter_iff. intros e. by rewrite !Hk. }
  destruct (Z.ltb_spec maxNodes (zlen nodes)) as [_|]; [|lia].
  assert (Hm1 : (forall x, x ∈ node_ResourceID <$> m1 -> x ∈ seeds) /\
    (zlen m1 < maxNodes -> forall n, n ∈ nodes -> node_ResourceID n <> "" ->
        node_ResourceID n ∈ seeds -> node_ResourceID n ∈ node_ResourceID <$> m1)).
  { unfold is_seed in *. split.
    - intros x (n & -> & Hn)%list_elem_of_fmap. apply (proj1 (Forall_forall _ _) Hseed) in Hn.
      bools. by apply mem_str_In.
    - intros Hl n Hn Hne Hs. specialize (Hall1 Hl n Hn). apply is_empty_false in Hne.
      rewrite Hne in Hall1. apply mem_str_In in Hs. specialize (Hall1 Hs). set_solver. }
  destruct Hm1 as [Hm1a Hm1b]. clear Hseed Hall1.
  simpl in Heq. destruct (Z.ltb_spec (zlen m1) maxNodes) as [Hlt|Hge].
  - destruct (keep_nodes (fun _ => true) maxNodes nodes _ m1) as [k2 o2] eqn:E2.
    apply keep_nodes_spec in E2 as (m2 & -> & Hs2 & _ & -> & Hnew & Hnd2 & Hlen2 & Hfull).
    injection Heq as <- <- <-. specialize (Hlen2 Hlt).
    assert (Hnd12 : NoDup (node_ResourceID <$> m1 ++ m2)).
    { rewrite fmap_app. apply NoDup_app. split_and!; [done | | done].
      intros x Hx (n & -> & Hn)%list_elem_of_fmap. apply Hnew in Hn. set_solver. }
    split_and!; [done | done | | done | done | |].
    3: { intros _. exists m1. split_and!; [set_solver | done..]. }
    + intros n [Hn|Hn]%elem_of_app; by eapply elem_of_sublist.
    + intros _. split.
      * apply (Hfil _ []). intros x. rewrite fmap_app, elem_of_app. set_solver.
      * destruct (Z.lt_ge_cases (zlen (m1 ++ m2)) maxNodes) as [Hl|]; [|lia]. exfalso.
        specialize (Hfull Hl).
        assert (Hsub : node_ResourceID <$> nodes ⊆+ node_ResourceID <$> m1 ++ m2).
        { apply NoDup_submseteq; [done|]. intros x (n & -> & Hn)%list_elem_of_fmap.
          specialize (Hfull n Hn eq_refl). rewrite fmap_app, elem_of_app. set_solver. }
        apply submseteq_length in Hsub. rewrite !length_fmap in Hsub. unfold zlen in *. lia.
  - injection Heq as <- <- <-. split_and!; [lia | done | | done | done | |].
    3: { intros _. exists m1. split_and!; done. }
    + intros n Hn. by eapply elem_of_sublist.
    + intros _. split; [|lia]. apply (Hfil _ []). intros x. set_solver.
Qed.

(** The edge joins two of the nodes. *)
Definition joins (nodes : list GraphNode) (e : GraphEdge) : Prop :=
  edge_FromID e ∈ node_ResourceID <$> nodes /\ edge_ToID e ∈ node_ResourceID <$> nodes.

(** Truncation of a graph keeps at most [maxNodes] of the nodes, every seed
    among them when the seeds fit, and exactly the edges between kept nodes; it
    reports a truncation when, and only when, nodes were dropped, and then fills
    the page. *)
Theorem truncate_preserves_seeds nodes es seeds maxNodes nodes' es' tr :
  truncateGraphPreserveSeeds nodes es seeds maxNodes = (nodes', es', tr) ->
  NoDup (node_ResourceID <$> nodes) -> 0 < maxNodes ->
  zlen nodes' <= maxNodes /\ (forall n, n ∈ nodes' -> n ∈ nodes) /\
  tr = (maxNodes <? zlen nodes) /\
  (tr = true -> zlen nodes' = maxNodes /\
     forall e, e ∈ es' <-> e ∈ es /\ joins nodes' e) /\
  (zlen seeds <= maxNodes -> NoDup seeds ->
     forall n, n ∈ nodes -> node_ResourceID n ∈ seeds -> node_ResourceID n <> "" -> n ∈ nodes').
Proof.
  intros Heq Hnd Hpos.
  destruct (truncate_spec _ _ _ _ _ _ _ Heq Hnd Hpos) as (Hlen & Hnd' & Hin & Hno & Htr & Hyes & Hsd).
  split_and!; [done | done | done | |].
  - intros Ht. destruct (Hyes Ht) as [-> Hz]. split; [done|]. intros e.
    rewrite list_elem_of_filter. unfold joins. tauto.
  - intros Hseeds Hnds n Hn Hs Hne. destruct tr; [|by destruct (Hno eq_refl) as [-> _]].
    destruct (Hsd eq_refl) as (m & Hm & Hndm & Hms & Hfull & Hlm).
    assert (Hid : node_ResourceID n ∈ node_ResourceID <$> m).
    { destruct (Z.lt_ge_cases (zlen m) maxNodes) as [Hl|Hge]; [by apply Hfull|].
      apply (NoDup_covers (node_ResourceID <$> m) seeds); [done | done | | done].
      rewrite length_fmap. unfold zlen in *. lia. }
    apply list_elem_of_fmap in Hid as (n' & Heqn & Hn'%Hm).
    assert (n = n') as ->; [|done]. apply Hin in Hn'.
    by apply (NoDup_fmap_inj node_ResourceID nodes).
Qed.

Section GraphSpec.
Context `{P : Providers} `{!LedgerFiled}.

Lemma truncate_graph_ok principal req lo hi nodes es seeds maxNodes nodes' es' tr :
  truncateGraphPreserveSeeds nodes es seeds maxNodes = (nodes', es', tr) -> 0 < maxNodes ->
  graph_ok principal req lo hi nodes es ->
  graph_ok principal req lo hi nodes' es' /\ zlen nodes' <= maxNodes.
Proof.
  intros Heq Hpos (Hnd & Hall & Hend & Hes).
  destruct (truncate_spec _ _ _ _ _ _ _ Heq Hnd Hpos) as (Hlen & Hnd' & Hin & Hno & Htr & Hyes & _).
  split; [|done]. destruct tr; [|by destruct (Hno eq_refl) as [-> ->]].
  destruct (Hyes eq_refl) as [-> _]. split_and!; [done | auto | |].
  - eapply sublist_NoDup; [exact Hend|]. apply fmap_sublist, sublist_filter.
  - intros e [[? ?] He]%list_elem_of_filter. by split; [apply Hes|].
Qed.

Definition cites (c : Citation) (n : GraphNode) : Prop :=
  cit_ResourceID c = node_ResourceID n /\ cit_RevisionID c = node_RevisionID n /\
  cit_Snippet c = or_default (node_Title n) (node_ResourceID n).
Lemma cites_ids cs nodes : Forall2 cites cs nodes -> cit_ResourceID <$> cs = node_ResourceID <$> nodes.
Proof. induction 1 as [|c n cs nodes [Hc _] _ IH]; [done|]. rewrite !fmap_cons. by f_equal. Qed.
Lemma citeNodes_spec nodes : ensures (citeNodes nodes) (fun _ _ cs => Forall2 cites cs nodes).
Proof.
  induction nodes as [|n nodes IH]; simpl; [apply ensures_ret; constructor|].
  eapply ensures_bind; [apply ask_spec|]. intros id lo1 mid1 _ _.
  eapply ensures_bind; [apply IH|]. intros cs lo2 mid2 _ Hall.
  apply ensures_ret. intros k _ _. by constructor.
Qed.

(** The nodes of a graph are what is cited; their titles are shown as they
    are, without the redaction that [Search] applies. *)
Definition graph_packet_ok (lo hi : nat) (req : Request) (principal : Principal)
    (maxNodes : Z) (pkt : ContextPacket) : Prop :=
  pkt_OrgID pkt = rq_OrgID req /\
  graph_ok principal req lo hi (pkt_Nodes pkt) (pkt_Edges pkt) /\
  zlen (pkt_Nodes pkt) <= maxNodes /\
  Forall2 cites (pkt_Citations pkt) (pkt_Nodes pkt).

Lemma graphPacket_spec principal req pol rev :
  0 < rq_MaxNodes req ->
  ensures (graphPacket principal req pol rev) (fun lo hi pkt =>
    graph_packet_ok lo hi req principal (rq_MaxNodes req) pkt).
Proof.
  intros Hpos. unfold graphPacket.
  eapply ensures_bind; [apply visibleSubgraph_graph|]. intros [[nodes es] tr] lo1 mid1 Hle1 Hsub.
  destruct (truncateGraphPreserveSeeds nodes es [rq_ResourceID req] (rq_MaxNodes req))
    as [[nodes' es'] tr2] eqn:Etr.
  eapply ensures_bind; [apply citeNodes_spec|]. intros cs lo2 mid2 Hle2 Hcs.
  eapply ensures_bind; [apply ask_spec|]. intros auditID lo3 mid3 Hle3 _.
  eapply ensures_bind; [apply ask_spec|]. intros packetID lo4 mid4 Hle4 _.
  eapply ensures_bind; [apply ask_spec|]. intros at1 lo5 mid5 Hle5 _.
  eapply ensures_bind; [apply ask_spec|]. intros at2 lo6 mid6 Hle6 _.
  eapply ensures_bind; [apply append_audit_spec|]. intros [] lo7 mid7 Hle7 _.
  apply ensures_ret. intros n -> -> -> -> -> -> ->.
  eapply truncate_graph_ok in Etr as [Hg Hlen]; [|done | exact Hsub].
  split_and!; [done | | done | done]. eapply graph_ok_mono; [| | |exact Hg]; [done | lia | lia].
Qed.

Lemma graphDefaults_spec req :
  let req' := graphDefaults req in
  same_scope req' req /\ rq_Action req' = rq_Action req /\
  rq_Credentials req' = rq_Credentials req /\ rq_ResourceID req' = rq_ResourceID req /\
  (forall p, requestScopes p req' = requestScopes p req) /\
  0 < rq_MaxNodes req' <= 200 /\ 1 <= rq_Depth req' <= 4 /\
  (0 < rq_MaxNodes req -> rq_MaxNodes req' <= rq_MaxNodes req).
Proof.
  assert (Hclamp : forall v d hi, 0 < d <= hi -> 0 < clamp v d hi <= hi /\ (0 < v -> clamp v d hi <= v)).
  { intros v d hi Hd. unfold clamp, or_limit. destruct (Z.leb_spec v 0); lia. }
  cbv zeta. split_and!; try done; simpl.
  - by apply Hclamp.
  - by apply Hclamp.
  - pose proof (Hclamp (rq_Depth req) 1 4 ltac:(lia)). lia.
  - by apply Hclamp.
  - by apply Hclamp.
Qed.

(** What [Graph] answers: an empty packet, or one about a seed the caller was
    allowed to read. *)
Definition graph_answer (lo hi : nat) (req : Request) (principal : Principal) (maxNodes : Z)
    (pkt : ContextPacket) : Prop :=
  (pkt_OrgID pkt = rq_OrgID req /\ pkt_Nodes pkt = [] /\ pkt_Edges pkt = [] /\
   pkt_Citations pkt = []) \/
  (read_allowed lo hi principal (rq_Delegation req) (rq_ResourceID req) /\
   graph_packet_ok lo hi req principal maxNodes pkt).

Lemma graph_answer_mono lo hi lo' hi' r1 r2 principal maxNodes maxNodes' pkt :
  same_scope r1 r2 -> rq_ResourceID r1 = rq_ResourceID r2 -> (lo' <= lo)%nat -> (hi <= hi')%nat ->
  maxNodes <= maxNodes' ->
  graph_answer lo hi r1 principal maxNodes pkt -> graph_answer lo' hi' r2 principal maxNodes' pkt.
Proof.
  intros Hs Hres ??? [(Ho & ?)|[Ha (Ho & Hg & Hlen & Hc)]]; pose proof Hs as (Hd & Hp & Horg).
  - left. split; [congruence | done].
  - right. rewrite <- Hd, <- Hres. split; [by eapply read_allowed_mono|].
    split_and!; [congruence | by eapply graph_ok_mono | lia | done].
Qed.

Lemma graphAdmitted_spec principal req k :
  0 < rq_MaxNodes req ->
  from k (graphAdmitted principal req)
    (fun hi pkt => graph_answer k hi req principal (rq_MaxNodes req) pkt).
Proof.
  intros Hpos. assert (Hempty : forall reason k', from k' (emptyPacket principal req reason)
    (fun hi pkt => graph_answer k hi req principal (rq_MaxNodes req) pkt)).
  { intros reason k'. eapply from_weaken; [apply emptyPacket_spec|]. by left. }
  unfold graphAdmitted.
  eapply from_bind; [apply ensures_call|]. intros scope n1 k1 Hk1 _.
  destruct (String.eqb _ _); [apply Hempty|].
  eapply from_bind; [apply ensures_call|]. intros pol n2 k2 Hk2 _.
  destruct (negb (pr_Allow pol)); [apply Hempty|].
  eapply from_bind; [apply batchAllow_spec|]. intros [ok rev] n3 k3 Hk3 Hok. simpl in Hok.
  case_bool_decide as Hin; simpl; [|apply Hempty].
  eapply from_weaken; [by apply graphPacket_spec|].
  intros lo hi pkt Hlo (Ho & Hg & Hlen & Hc). right. split.
  - eapply read_allowed_mono; [| |by apply Hok]; lia.
  - split_and!; [done | | done | done]. eapply graph_ok_mono; [| | |exact Hg]; [done | lia | lia].
Qed.

(** The cap the caller's [MaxNodes] comes down to *)
Definition node_cap (req : Request) : Z := clamp (rq_MaxNodes req) 50 200.

Lemma derived_graph req principal :
  let req0 := if is_empty (rq_Action req) then req <| rq_Action := "context.graph" |> else req in
  let req2 := graphDefaults req0 <| rq_OrgID := p_OrgID principal |> in
  derived req req2 principal "context.graph" /\ rq_ResourceID req2 = rq_ResourceID req /\
  rq_MaxNodes req2 = node_cap req.
Proof. cbv zeta. unfold derived, or_default, node_cap. destruct (is_empty (rq_Action req)); done. Qed.

Lemma Graph_spec req lo :
  from lo (Graph req) (fun hi pkt => exists principal,
    admitted lo hi req "context.graph" principal /\
    graph_answer lo hi (req <| rq_OrgID := p_OrgID principal |>) principal (node_cap req) pkt).
Proof.
  unfold Graph. pose proof (derived_graph req) as Hder. cbv zeta in Hder |- *.
  destruct (with_action_derived req "context.graph") as (_ & (_ & _ & Ho) & Hcr & _).
  set (req0 := if is_empty (rq_Action req) then _ else req) in *. clearbody req0.
  destruct (is_empty (rq_ResourceID req0)); [by intros t a t' _ [=]|].
  destruct (graphDefaults_spec req0) as ((_ & _ & Ho1) & _ & Hc1 & _ & _ & Hm1 & _).
  eapply from_bind; [apply ensures_call|]. intros principal n k1 Hk1 [Hn Hauth].
  rewrite Hc1, Hcr in Hauth. destruct (Hder principal) as (Hd2 & Hr2 & Hm2). clear Hder.
  eapply from_bind; [apply bindOrg_spec|]. intros req2 n1 k2 Hk2 (Hne & -> & Horg).
  rewrite Ho1, Ho in Horg.
  eapply from_bind; [apply checkDelegation_spec|]. intros [] n2 k3 Hk3 Hdel.
  eapply from_bind; [apply ensures_of_result|]. intros [] n3 k4 Hk4 Hgate.
  eapply from_mono; [apply graphAdmitted_spec; exact (proj1 Hm1)|]. intros hi pkt Hhi Hg.
  exists principal. split.
  - eapply (admitted_intro lo k3 hi req _ principal _ n);
      [exact Hd2 | lia | exact Hauth | exact Hne | exact Horg | exact Hgate | | lia].
    eapply delegation_ok_mono; [| |exact Hdel]; lia.
  - eapply (graph_answer_mono k4 hi); [| | | | |exact Hg];
      [by eapply derived_bound | exact Hr2 | lia | done | exact (Z.eq_le_incl _ _ Hm2)].
Qed.
End GraphSpec.

Definition sample_node (id : string) : GraphNode := mkNode id "doc" "" "internal" [] "" "ACCEPTED" ∅.

Lemma truncate_preserves_seeds_witness :
  let '(nodes, _, tr) := truncateGraphPreserveSeeds (map sample_node ["a"; "b"; "seed"]) [] ["seed"] 2 in
  sample_node "seed" ∈ nodes /\ zlen nodes <= 2.
Proof.
  destruct (truncate_preserves_seeds (map sample_node ["a"; "b"; "seed"]) [] ["seed"] 2
    (map sample_node ["seed"; "a"]) [] true) as (Hlen & _ & _ & _ & Hseed).
  - vm_compute. reflexivity.
  - apply (bool_decide_unpack _). vm_compute. exact I.
  - lia.
  - split; [|exact Hlen]. apply Hseed.
    + vm_compute. discriminate.
    + apply NoDup_singleton.
    + right. right. left.
    + left.
    + discriminate.
Defined.

(** ** What may be disclosed *)

(** C8 [Search]: a packet is answered only for an authenticated caller of the
    organization with the needed scope and a live delegation; every citation
    names a resource that the authorization provider allowed the caller to read
    during this request, whose record was live and allowed by the policy for
    the purpose, and is masked when the policy says so; every node was allowed
    and is neither tombstoned nor a placeholder, and every edge joins two of
    the nodes. *)
Theorem search_discloses_allowed `{P : Providers} `{!LedgerFiled} req t pkt t' :
  Search req t = (Ok pkt, t') ->
  exists principal,
    admitted (step t) (step t') req "context.search" principal /\
    packet_ok (step t) (step t') req principal pkt.
Proof. intros Hs. by apply (Search_spec req (step t) t pkt t' (le_n _)) in Hs as [_ Hs]. Qed.

(** C9 [Graph]: a packet is answered only for an authenticated caller of the organization
    with the needed scope and a live delegation. It is empty, or the authorization provider
    allowed the caller to read the seed during this request and the same holds of every node:
    each was allowed, its record allowed by the policy for the purpose and neither a
    tombstone nor a placeholder; every edge joins two of the nodes and is no tombstone; no
    resource occurs twice, and there are at most [MaxNodes] nodes, never more than 200. The
    citations are the nodes, one by one, with the revision and the title as the node has
    them: unlike [Search], [Graph] applies no redaction of the policy to them. *)
Theorem graph_discloses_allowed `{P : Providers} `{!LedgerFiled} req t pkt t' :
  Graph req t = (Ok pkt, t') ->
  exists principal,
    admitted (step t) (step t') req "context.graph" principal /\
    graph_answer (step t) (step t') (req <| rq_OrgID := p_OrgID principal |>) principal
      (node_cap req) pkt /\
    node_cap req <= 200.
Proof.
  intros Hs. apply (Graph_spec req (step t) t pkt t' (le_n _)) in Hs as [_ (p & Ha & Hg)].
  exists p. split_and!; [done | done |]. unfold node_cap, clamp. lia.
Qed.
