(* ===== verification/Disclosure.v ===== *)
(** * Disclosure theorems of the retrieval pipeline

    The contracts of [Search] and [Graph] against the interfaces, their audit
    trail, and the pipeline composed with the in-memory adapters, for which the
    authorization provider's answers mean the relations of [OpenFGA]. *)
From S2P Require Import Prelude GoStd Ports Platform Policy OpenFGA.
From S2P Require Import Deletion.
From S2P Require Import Ledger LedgerFacts LedgerQueries Index Retrieval RetrievalFacts.

(** ** The audit trail *)
Section Audit.
Context `{P : Providers}.

Definition quiet {A} (m : pipeline A) : Prop := forall t, audited (m t).2 = audited t.

Lemma quiet_bind {A B} (m : pipeline A) (f : A -> pipeline B) :
  quiet m -> (forall a, quiet (f a)) -> quiet (m ≫= f).
Proof.
  intros Hm Hf t. unfold mbind, M_bind. specialize (Hm t).
  destruct (m t) as [[a|e] t1]; simpl in *; [by rewrite Hf | done].
Qed.
Lemma quiet_ret {A} (a : A) : quiet (mret a). Proof. done. Qed.
Lemma quiet_call {A} (f : nat -> result GoError A) : quiet (call_at f). Proof. done. Qed.
Lemma quiet_ask {A} (f : nat -> A) : quiet (ask f). Proof. done. Qed.
Lemma quiet_of_result {A} (r : result GoError A) : quiet (of_result r). Proof. done. Qed.
Lemma quiet_throw_if b e : quiet (throw_if b e). Proof. done. Qed.
Lemma quiet_attempt {A} (m : pipeline A) : quiet m -> quiet (attempt m).
Proof. intros Hm t. unfold attempt. specialize (Hm t). by destruct (m t). Qed.

(** A tactic for the calls that append nothing. *)
Ltac quiet :=
  repeat first
    [ apply quiet_ret | apply quiet_call | apply quiet_ask | apply quiet_of_result
    | apply quiet_throw_if | apply quiet_attempt | assumption
    | apply quiet_bind; [|intros ?] | case_match ].

Lemma quiet_batchAllow p req ids : quiet (batchAllow p req ids).
Proof. unfold batchAllow. quiet. Qed.
Lemma quiet_bindOrg p req : quiet (bindOrg p req).
Proof. unfold bindOrg. quiet. Qed.
Lemma quiet_checkDelegation req : quiet (checkDelegation req).
Proof. unfold checkDelegation. quiet. Qed.
Lemma quiet_expand p req preds hops frontier authzOK disc tr :
  quiet (expand p req preds hops frontier authzOK disc tr).
Proof.
  revert frontier authzOK disc tr.
  induction hops as [|hops IH]; intros frontier authzOK disc tr; simpl; [apply quiet_ret|].
  pose proof (quiet_batchAllow p req). quiet; eauto.
Qed.
Lemma quiet_hydrate_all p req ids visible : quiet (hydrate_all p req ids visible).
Proof.
  revert visible. induction ids as [|id ids IH]; intros visible; simpl; [apply quiet_ret|].
  apply quiet_bind; [unfold hydrate; quiet | intros; apply IH].
Qed.
Lemma quiet_visibleSubgraph p req seeds depth preds :
  quiet (visibleSubgraph p req seeds depth preds).
Proof.
  unfold visibleSubgraph. pose proof (quiet_batchAllow p req).
  pose proof (quiet_expand p req preds). pose proof (quiet_hydrate_all p req). quiet; eauto.
Qed.
Lemma quiet_citeHits p req hits acc : quiet (citeHits p req hits acc).
Proof.
  revert acc. induction hits as [|h hits IH]; intros acc; simpl; [apply quiet_ret|].
  apply quiet_bind; [unfold citeHit, loadSnippet; quiet | intros; apply IH].
Qed.
Lemma quiet_citeNodes nodes : quiet (citeNodes nodes).
Proof. induction nodes as [|n nodes IH]; simpl; quiet. Qed.

(** [audits m Q]: a run that answers has appended exactly one event, related
    to the answer by [Q]; a run that fails has appended none. *)
Definition audits {A} (m : pipeline A) (Q : A -> AuditEvent -> Prop) : Prop :=
  forall t, match m t with
            | (Ok a, t') => exists e, audited t' = audited t ++ [e] /\ Q a e
            | (Err _, t') => audited t' = audited t
            end.

Lemma audits_bind {A B} (m : pipeline A) (f : A -> pipeline B) Q :
  quiet m -> (forall a, audits (f a) Q) -> audits (m ≫= f) Q.
Proof.
  intros Hm Hf t. unfold mbind, M_bind. specialize (Hm t).
  destruct (m t) as [[a|e] t1]; simpl in *; [|done]. specialize (Hf a t1).
  destruct (f a t1) as [[b|e] t2]; by rewrite <- Hm.
Qed.

(** The last calls of a request: append the event, perhaps read the clock,
    answer. *)
Lemma audits_done {A} e (a : A) (Q : A -> AuditEvent -> Prop) :
  Q a e -> audits (_ ← append_audit e; mret a) Q.
Proof. intros HQ t. simpl. by exists e. Qed.

Lemma audits_ask {A} e (a : Time -> A) (Q : A -> AuditEvent -> Prop) :
  (forall at_, Q (a at_) e) -> audits (_ ← append_audit e; at_ ← ask TimeNow; mret (a at_)) Q.
Proof. intros HQ t. simpl. by exists e. Qed.

(** The event names the packet, the organization and the number of resources
    disclosed, and carries no query. *)
Definition accounts_for (pkt : ContextPacket) (e : AuditEvent) : Prop :=
  aud_AuditID e = pkt_AuditID pkt /\ aud_OrgID e = pkt_OrgID pkt /\
  aud_ResourceCount e = zlen (pkt_Citations pkt) /\
  match aud_Attributes e with
  | None => True
  | Some attrs => dom attrs ⊆ {["query_hash"; "purpose"; "seed"; "depth"]}
  end.

Lemma emptyPacket_audits p req reason : audits (emptyPacket p req reason) accounts_for.
Proof.
  unfold emptyPacket. apply audits_bind; [apply quiet_ask|]. intros auditID.
  apply audits_bind; [apply quiet_ask|]. intros at1. by apply audits_ask.
Qed.

Lemma searchPacket_audits p req pol hits rev : audits (searchPacket p req pol hits rev) accounts_for.
Proof.
  unfold searchPacket. apply audits_bind; [apply quiet_citeHits|]. intros cs.
  apply audits_bind; [apply quiet_visibleSubgraph|]. intros [[nodes es] tr].
  do 4 (apply audits_bind; [apply quiet_ask|]; intros ?). apply audits_done.
  split_and!; [done | done | done |]. simpl. set_solver.
Qed.

Lemma citeNodes_audits {B} nodes (f : list Citation -> pipeline B) Q :
  (forall cs, zlen cs = zlen nodes -> audits (f cs) Q) -> audits (citeNodes nodes ≫= f) Q.
Proof.
  intros Hf t. unfold mbind, M_bind. pose proof (quiet_citeNodes nodes t) as Hq.
  assert (Hok : forall nodes t, exists cs, (citeNodes nodes t).1 = Ok cs /\ zlen cs = zlen nodes).
  { clear. induction nodes as [|n nodes IH]; intros t; [by exists []|].
    simpl. unfold mbind, M_bind, ask, call_at.
    destruct (IH (t <| step := S (step t) |>)) as (cs & Hcs & Hlen). simpl in *.
    destruct (citeNodes nodes _) as [r t']. simpl in Hcs. subst r. simpl.
    eexists. split; [reflexivity|]. unfold zlen in *. simpl. lia. }
  destruct (Hok nodes t) as (cs & Hcs & Hlen). destruct (citeNodes nodes t) as [r t'].
  simpl in *. subst r. specialize (Hf cs Hlen t').
  destruct (f cs t') as [[b|e] t2]; by rewrite <- Hq.
Qed.

Lemma graphPacket_audits p req pol rev : audits (graphPacket p req pol rev) accounts_for.
Proof.
  unfold graphPacket. apply audits_bind; [apply quiet_visibleSubgraph|]. intros [[nodes es] tr].
  destruct (truncateGraphPreserveSeeds _ _ _ _) as [[nodes' es'] tr2].
  apply citeNodes_audits. intros cs Hcs.
  do 4 (apply audits_bind; [apply quiet_ask|]; intros ?). apply audits_done.
  split_and!; [done | done | done |]. simpl. set_solver.
Qed.

Lemma Search_audits req : audits (Search req) accounts_for.
Proof.
  unfold Search. apply audits_bind; [apply quiet_call|]. intros p.
  apply audits_bind; [apply quiet_bindOrg|]. intros r.
  apply audits_bind; [apply quiet_of_result|]. intros _.
  apply audits_bind; [apply quiet_checkDelegation|]. intros _. unfold searchAdmitted.
  apply audits_bind; [apply quiet_call|]. intros scope.
  case_match; [apply emptyPacket_audits|].
  apply audits_bind; [apply quiet_call|]. intros pol.
  destruct (negb (pr_Allow pol)); [apply emptyPacket_audits|]. unfold searchCandidates.
  apply audits_bind; [apply quiet_call|]. intros candidates.
  apply audits_bind; [apply quiet_call|]. intros decisions.
  apply audits_bind; [apply quiet_throw_if|]. intros _.
  destruct (allowed_hits candidates decisions "") as [hits rev]. apply searchPacket_audits.
Qed.

Lemma Graph_audits req : audits (Graph req) accounts_for.
Proof.
  unfold Graph. destruct (is_empty _); [done|].
  apply audits_bind; [apply quiet_call|]. intros p.
  apply audits_bind; [apply quiet_bindOrg|]. intros r.
  apply audits_bind; [apply quiet_checkDelegation|]. intros _.
  apply audits_bind; [apply quiet_of_result|]. intros _. unfold graphAdmitted.
  apply audits_bind; [apply quiet_call|]. intros scope.
  case_match; [apply emptyPacket_audits|].
  apply audits_bind; [apply quiet_call|]. intros pol.
  destruct (negb (pr_Allow pol)); [apply emptyPacket_audits|].
  apply audits_bind; [apply quiet_batchAllow|]. intros [ok rev].
  destruct (negb _); [apply emptyPacket_audits | apply graphPacket_audits].
Qed.
End Audit.

(** Every answered retrieval leaves exactly one audit event, which carries the
    packet's audit identifier and organization and the number of resources
    disclosed, and never the query text; a refused one leaves none. *)
Theorem retrieval_audited `{P : Providers} (graph : bool) req t :
  match (if graph then Graph req else Search req) t with
  | (Ok pkt, t') => exists e, audited t' = audited t ++ [e] /\ accounts_for pkt e
  | (Err _, t') => audited t' = audited t
  end.
Proof. destruct graph; [apply Graph_audits | apply Search_audits]. Qed.

(** ** The pipeline over the in-memory adapters *)
Section MemoryPipeline.
Context `{GoMapOrder}.
Variables (identity : Credentials -> result GoError Principal) (m : Memory) (s : Store)
  (idx : Index) (clock : nat -> Time) (ids : nat -> string).

Definition memory_providers : Providers := {|
  Authenticate _ cr := identity cr;
  Retrieval.ResolveCandidateScope _ r := OpenFGA.ResolveCandidateScope m r;
  Retrieval.BatchCheck n reqs := OpenFGA.BatchCheck m (clock n) reqs;
  EvaluatePolicy _ q := Evaluate New q;
  LedgerGetRecord _ org id := (GetRecord org id s).1;
  LedgerListEdges _ org opts := (ListEdges org opts s).1;
  IndexSearch _ org query limit filters := Ok (SearchCandidates org query limit filters idx);
  SnippetDocument := Some (fun _ org id => GetDocument org id idx);
  NewEventID := ids;
  TimeNow := clock;
  AllowEmptyScopes := false;
|}.

(** The ledger's invariant gives the law of the interface. *)
Lemma memory_filed : ledger_ok s -> @LedgerFiled memory_providers.
Proof.
  intros Hok n org id rec Hget. simpl in Hget. unfold GetRecord, find in Hget.
  destruct (lookup2 (records s) org id) as [r|] eqn:E; simplify_eq/=.
  by apply (ok_records _ Hok) in E as [_ ?].
Qed.

Lemma memory_read_allowed lo hi principal deleg id :
  @read_allowed memory_providers lo hi principal deleg id ->
  reads m (formatUser principal) (formatObject id).
Proof.
  intros (n & checks & ds & i & c & d & _ & [= <-] & Hc & Hd & Ha & <- & Hact & <- & _).
  rewrite list_lookup_fmap, Hc in Hd. simpl in Hd. injection Hd as <-.
  simpl in Ha. rewrite Hact in Ha. apply evaluate_permitted in Ha. exact Ha.
Qed.

Lemma memory_record_allowed lo hi principal purpose org id rec r :
  @record_allowed memory_providers lo hi principal purpose org id rec r ->
  lookup2 (records s) org id = Some rec /\ IsTombstoned (rec_State rec) = false /\
  normalize purpose ∈ AllowedPurposes New.
Proof.
  intros (n & k & q & _ & _ & Hget & Htomb & Hpol & Hallow & _ & <- & _). simpl in *.
  unfold GetRecord, find in Hget.
  destruct (lookup2 (records s) org id) as [r'|]; simplify_eq/=. split_and!; [done | done |].
  by destruct (Evaluate_allowed _ _ _ Hpol Hallow) as (c & k' & _ & ? & _).
Qed.
End MemoryPipeline.

(** ** End to end over the in-memory adapters *)
Section EndToEnd.
Context `{GoMapOrder}.
Variables (identity : Credentials -> result GoError Principal) (m : Memory) (s : Store)
  (idx : Index) (clock : nat -> Time) (ids : nat -> string).
Hypothesis Hledger : ledger_ok s.
#[local] Instance adapters : Providers := memory_providers identity m s idx clock ids.

(** A live record of the principal's organization that the stored tuples let it read, for
    an allowed purpose *)
Definition disclosable (principal : Principal) (purpose id : string) : Prop :=
  reads m (formatUser principal) (formatObject id) /\
  exists rec, lookup2 (records s) (p_OrgID principal) id = Some rec /\
    IsTombstoned (rec_State rec) = false /\ normalize purpose ∈ AllowedPurposes New.

Lemma memory_graph_nodes req lo hi principal nodes es n :
  rq_OrgID req = p_OrgID principal ->
  graph_ok principal req lo hi nodes es -> n ∈ nodes ->
  disclosable principal (rq_Purpose req) (node_ResourceID n).
Proof.
  intros Ho (_ & Hall & _) Hin. destruct (Hall n Hin) as [Ha (rec & r & Hr & _)].
  split; [by eapply memory_read_allowed|]. exists rec. rewrite <- Ho. by eapply memory_record_allowed.
Qed.

Lemma memory_search_spec req t pkt t' :
  Search req t = (Ok pkt, t') ->
  exists principal,
    identity (rq_Credentials req) = Ok principal /\ pkt_OrgID pkt = p_OrgID principal /\
    forall id, id ∈ (cit_ResourceID <$> pkt_Citations pkt) ++ (node_ResourceID <$> pkt_Nodes pkt) ->
      disclosable principal (rq_Purpose req) id.
Proof.
  pose proof (memory_filed identity m s idx clock ids Hledger) as Hfiled.
  intros [_ (p & Hadm & Horg & Hg & Hc)]%(Search_spec req (step t) t pkt t' (le_n _)).
  destruct Hadm as ((n & _ & Hauth) & _). exists p. split_and!; [exact Hauth | exact Horg|].
  intros id [(c & -> & Hin)%list_elem_of_fmap|(n' & -> & Hin)%list_elem_of_fmap]%elem_of_app.
  - destruct (Hc c Hin) as [Ha (rec & r & Hr & _)]. split; [by eapply memory_read_allowed|].
    exists rec. by eapply memory_record_allowed.
  - by eapply memory_graph_nodes in Hg.
Qed.

Lemma memory_graph_spec req t pkt t' :
  Graph req t = (Ok pkt, t') ->
  exists principal,
    identity (rq_Credentials req) = Ok principal /\ pkt_OrgID pkt = p_OrgID principal /\
    forall id, id ∈ (cit_ResourceID <$> pkt_Citations pkt) ++ (node_ResourceID <$> pkt_Nodes pkt) ->
      disclosable principal (rq_Purpose req) id.
Proof.
  pose proof (memory_filed identity m s idx clock ids Hledger) as Hfiled.
  intros [_ (p & Hadm & Hans)]%(Graph_spec req (step t) t pkt t' (le_n _)).
  destruct Hadm as ((n & _ & Hauth) & _). exists p. split; [exact Hauth|].
  destruct Hans as [(Ho & Hn & _ & Hc)|(_ & Ho & Hg & _ & Hc%cites_ids)]; (split; [exact Ho|]);
    intros id Hid; rewrite Hc in Hid.
  - rewrite Hn in Hid. set_solver.
  - assert (id ∈ node_ResourceID <$> pkt_Nodes pkt) as (n' & -> & Hin)%list_elem_of_fmap by set_solver.
    by eapply memory_graph_nodes in Hg.
Qed.
End EndToEnd.

(** A concrete world: alice reads one of two documents of her organization. *)
Definition alice : Principal :=
  mkPrincipal "local|alice" PrincipalKindUser "acme" "local" "alice" [] [] ["context:read"] "" ∅.
Definition world_identity (cr : Credentials) : result GoError Principal :=
  if String.eqb (cr_BearerToken cr) "token-a" then Ok alice else Err (ErrUnauthorized "bad token").
Definition world_authz : Memory :=
  AddOrgMember "acme" "alice"
    (WriteTuples [mkTuple "resource:r1" "reader" "user:alice"] NewMemory).
Definition world_store : Store :=
  run (H := order_forward)
    [CUpsertRecord 5 (sample_record "r1"); CUpsertRecord 6 (sample_record "r2");
     CUpsertEdge 7 "e1" (sample_edge <| edge_FromID := "r1" |> <| edge_ToID := "r2" |>)] NewStore.
Definition world_index : Index :=
  Upsert [sample_doc "acme" "r1" "Mail bob@acme.test"; sample_doc "acme" "r2" "Mail of the board"]
    NewIndex.
Definition world_ids (n : nat) : string := "id" +:+ itoa (Z.of_nat n).
#[local] Instance world : Providers :=
  @memory_providers order_forward world_identity world_authz world_store world_index
    (fun n => Z.of_nat n) world_ids.
Definition world_request : Request :=
  mkRequest (mkCredentials "token-a" "" ∅) "" "mail" "support" 0 ∅ ConsistencyUnset [] "" "r1" 2 0 [] None.
Definition start : Trace := mkTrace 0 [].
Definition search_run := Search (world_request <| rq_ResourceID := "" |>) start.
Definition graph_run := Graph world_request start.
Definition no_packet : ContextPacket :=
  mkPacket "" "" "" "" "" [] [] [] [] "" "" "" "" [] false "" 0.
Definition packet_of (r : result GoError ContextPacket * Trace) : ContextPacket :=
  match r.1 with Ok pkt => pkt | Err _ => no_packet end.

Definition search_request : Request := world_request <| rq_ResourceID := "" |>.
Lemma search_run_ok : Search search_request start = (Ok (packet_of search_run), search_run.2).
Proof. vm_compute. reflexivity. Qed.
Lemma graph_run_ok : Graph world_request start = (Ok (packet_of graph_run), graph_run.2).
Proof. vm_compute. reflexivity. Qed.
Lemma world_store_ok : ledger_ok world_store.
Proof. apply run_ok, ledger_ok_new. Qed.
#[local] Instance world_filed : LedgerFiled.
Proof. apply memory_filed, world_store_ok. Qed.

(** Only the readable document is cited and shown. *)
Example sample_disclosure :
  map cit_ResourceID (pkt_Citations (packet_of search_run)) = ["r1"] /\
  map cit_Snippet (pkt_Citations (packet_of search_run)) = ["Mail bob@acme.test"] /\
  map node_ResourceID (pkt_Nodes (packet_of graph_run)) = ["r1"] /\
  pkt_Edges (packet_of graph_run) = [].
Proof. split_and!; vm_compute; reflexivity. Qed.

Lemma search_discloses_allowed_witness :
  exists principal, packet_ok 0 (step search_run.2) search_request
                      principal (packet_of search_run).
Proof.
  destruct (@search_discloses_allowed world world_filed search_request start
              (packet_of search_run) search_run.2 search_run_ok) as (p & _ & Hp).
  exists p. exact Hp.
Defined.

Lemma graph_discloses_allowed_witness :
  exists principal,
    graph_answer 0 (step graph_run.2) (world_request <| rq_OrgID := p_OrgID principal |>) principal
      (node_cap world_request) (packet_of graph_run).
Proof.
  destruct (@graph_discloses_allowed world world_filed world_request start (packet_of graph_run) graph_run.2 graph_run_ok)
    as (p & _ & Hp & _).
  exists p. exact Hp.
Defined.
