(* ===== verification/Export.v ===== *)
(** * [internal/export/export.go]: export and import of an organization

    [Build] reads an organization out of the ledger into a manifest sealed with a
    hash of its JSON form; [ImportInto] verifies the hash and writes the rows into
    another organization. A slice is an [option]: [nil] and the empty slice have
    different JSON forms, and the hash is taken over the JSON form. *)
From Corelib Require Import SpecFloat.
From S2P Require Import Prelude GoStd Sha256 Ports Platform Json Mapping.
From S2P Require Import Ledger Index World.

Definition FormatVersion : string := "context-fabric.export/v1".

(** [Evidence] is optional: [exp_Evidence] says whether the service has the
    evidence store of the deployment. *)
Record ExportService := mkExportService {
  exp_Evidence : bool; exp_RecordCap : Z; exp_EdgeCap : Z;
}.

Record ContentEntry := mkContent {
  ce_Path : string; ce_Kind : string; ce_SHA256 : string; ce_ByteSize : Z; ce_RecordCount : Z;
}.

Record EvidenceRef := mkEvidenceRef {
  er_Key : string; er_ResourceID : string; er_RevisionID : string; er_ContentHash : string;
  er_ByteSize : Z;
}.
#[export] Instance EvidenceRef_eta : Settable EvidenceRef := fun r =>
  mkEvidenceRef (er_Key r) (er_ResourceID r) (er_RevisionID r) (er_ContentHash r) (er_ByteSize r).

Record AuthzTupleManifest := mkTupleManifest {
  tm_Operation : string; tm_Object : string; tm_Relation : string; tm_Subject : string;
  tm_EdgeID : string;
}.

Record Tombstone := mkTombstone {
  tb_ResourceID : string; tb_RevisionID : string; tb_State : string; tb_At : Time;
}.

Record Manifest := mkExport {
  em_FormatVersion : string; em_ExportID : string; em_OrganizationID : string;
  em_CreatedAt : Time; em_CreatedBy : string; em_Status : string; em_Checksums : strmap;
  em_Contents : list ContentEntry; em_SchemaVersions : option strmap;
  em_Records : option (list LedgerRecord); em_Revisions : option (list Revision);
  em_Sources : option (list SourceRegistration); em_Tombstones : option (list Tombstone);
  em_GraphEdges : option (list GraphEdge); em_AuthzTuples : option (list AuthzTupleManifest);
  em_EvidenceRefs : option (list EvidenceRef);
}.
#[export] Instance Manifest_eta : Settable Manifest := fun r =>
  mkExport (em_FormatVersion r) (em_ExportID r) (em_OrganizationID r) (em_CreatedAt r)
    (em_CreatedBy r) (em_Status r) (em_Checksums r) (em_Contents r) (em_SchemaVersions r)
    (em_Records r) (em_Revisions r) (em_Sources r) (em_Tombstones r) (em_GraphEdges r)
    (em_AuthzTuples r) (em_EvidenceRefs r).

(** ** The JSON form of the rows; [None] where [json.Marshal] fails *)
Definition marshal_record (r : LedgerRecord) : option string :=
  created ← json_time (rec_CreatedAt r);
  updated ← json_time (rec_UpdatedAt r);
  Some (json_struct
    ([json_str "resource_id" (rec_ResourceID r); json_str "org_id" (rec_OrgID r);
      json_str "kind" (rec_Kind r)]
     ++ opt_str "title" (rec_Title r) ++ opt_str "classification" (rec_Classification r)
     ++ opt_strings "labels" (rec_Labels r) ++ opt_str "source_system" (rec_SourceSystem r)
     ++ opt_str "external_id" (rec_ExternalID r)
     ++ opt_str "current_revision_id" (rec_CurrentRevID r) ++ opt_str "state" (rec_State r)
     ++ opt_strmap "attributes" (rec_Attributes r)
     ++ [json_member "created_at" created; json_member "updated_at" updated])).

Definition marshal_revision (r : Revision) : option string :=
  observed ← json_time (rev_ObservedAt r);
  created ← json_time (rev_CreatedAt r);
  Some (json_struct
    ([json_str "revision_id" (rev_RevisionID r); json_str "resource_id" (rev_ResourceID r);
      json_str "org_id" (rev_OrgID r)]
     ++ opt_str "content_hash" (rev_ContentHash r) ++ opt_str "evidence_ref" (rev_EvidenceRef r)
     ++ [json_member "sequence" (itoa (rev_Sequence r)); json_str "state" (rev_State r)]
     ++ opt_strmap "attributes" (rev_Attributes r)
     ++ [json_member "observed_at" observed; json_member "created_at" created])).

Definition marshal_source (s : SourceRegistration) : option string :=
  inline ← if is_empty (src_MappingSpecInline s) then Some []
           else raw ← json_raw (src_MappingSpecInline s); Some [json_member "mapping_spec" raw];
  created ← json_time (src_CreatedAt s);
  updated ← json_time (src_UpdatedAt s);
  Some (json_struct
    ([json_str "source_id" (src_SourceID s); json_str "organization_id" (src_OrgID s);
      json_str "system" (src_System s)]
     ++ opt_str "display_name" (src_DisplayName s) ++ opt_str "trust_tier" (src_TrustTier s)
     ++ opt_str "trust_ceiling" (src_TrustCeiling s)
     ++ opt_str "authority_ceiling" (src_AuthorityCeiling s)
     ++ opt_str "classification_ceiling" (src_ClassificationCeiling s)
     ++ opt_str "classification_default" (src_ClassificationDefault s)
     ++ opt_str "mapping_spec_id" (src_MappingSpec s) ++ inline
     ++ [json_member "enabled" (json_bool (src_Enabled s))]
     ++ opt_str "signing_secret" (src_SigningSecret s)
     ++ omitempty (src_ReplayWindowSeconds s =? 0)
          (json_member "replay_window_seconds" (itoa (src_ReplayWindowSeconds s)))
     ++ opt_strings "allowed_record_types" (src_AllowedRecordTypes s)
     ++ opt_strings "allowed_visibility_refs" (src_AllowedVisibilityRefs s)
     ++ opt_strmap "attributes" (src_Attributes s)
     ++ [json_member "created_at" created; json_member "updated_at" updated])).

Definition marshal_tombstone (t : Tombstone) : option string :=
  at_ ← json_time (tb_At t);
  Some (json_struct
    [json_str "resource_id" (tb_ResourceID t); json_str "revision_id" (tb_RevisionID t);
     json_str "state" (tb_State t); json_member "at" at_]).

(** [omitempty] has no effect on a [time.Time]; infinities and NaN have no JSON form. *)
Definition marshal_confidence (x : float64) : option (list string) :=
  match x with
  | S754_infinity _ | S754_nan => None
  | _ => Some (omitempty (f_eq x f_zero) (json_member "confidence" (marshal_float x)))
  end.

Definition marshal_edge (e : GraphEdge) : option string :=
  confidence ← marshal_confidence (edge_Confidence e);
  created ← json_time (edge_CreatedAt e);
  updated ← json_time (edge_UpdatedAt e);
  Some (json_struct
    ([json_str "edge_id" (edge_EdgeID e)] ++ opt_str "organization_id" (edge_OrgID e)
     ++ [json_str "from_id" (edge_FromID e); json_str "to_id" (edge_ToID e);
         json_str "predicate" (edge_Predicate e)]
     ++ confidence ++ opt_str "state" (edge_State e)
     ++ omitempty (negb (edge_SyncAuthz e)) (json_member "sync_authz" (json_bool (edge_SyncAuthz e)))
     ++ opt_strmap "attributes" (edge_Attributes e)
     ++ [json_member "created_at" created; json_member "updated_at" updated])).

Definition marshal_tuple (t : AuthzTupleManifest) : option string :=
  Some (json_struct
    ([json_str "operation" (tm_Operation t); json_str "object" (tm_Object t);
      json_str "relation" (tm_Relation t); json_str "subject" (tm_Subject t)]
     ++ opt_str "edge_id" (tm_EdgeID t))).

Definition marshal_evidence (r : EvidenceRef) : option string :=
  Some (json_struct
    ([json_str "key" (er_Key r)] ++ opt_str "resource_id" (er_ResourceID r)
     ++ opt_str "revision_id" (er_RevisionID r) ++ opt_str "content_hash" (er_ContentHash r)
     ++ omitempty (er_ByteSize r =? 0) (json_member "byte_size" (itoa (er_ByteSize r))))).

(** [mustCanonicalJSON]: [null] for a value without a JSON form; [json.Compact] leaves
    what [json.Marshal] wrote as it is. *)
Definition mustCanonicalJSON (raw : option string) : string := default "null" raw.

Definition sealed (raw : string) : string := "sha256:" +:+ hex_encode (sha256 raw).

(** The document that [HashManifest] hashes *)
Definition payload (m : Manifest) : option string :=
  records ← json_rows marshal_record (em_Records m);
  revisions ← json_rows marshal_revision (em_Revisions m);
  sources ← json_rows marshal_source (em_Sources m);
  tombstones ← json_rows marshal_tombstone (em_Tombstones m);
  edges ← json_rows marshal_edge (em_GraphEdges m);
  tuples ← json_rows marshal_tuple (em_AuthzTuples m);
  refs ← json_rows marshal_evidence (em_EvidenceRefs m);
  Some (json_struct
    [json_str "format_version" (em_FormatVersion m);
     json_str "organization_id" (em_OrganizationID m);
     json_member "schema_versions" (from_option json_strmap "null" (em_SchemaVersions m));
     json_member "records" records; json_member "revisions" revisions;
     json_member "sources" sources; json_member "tombstones" tombstones;
     json_member "graph_edges" edges; json_member "authz_tuples" tuples;
     json_member "evidence_refs" refs]).

Definition HashManifest (m : Manifest) : string := sealed (mustCanonicalJSON (payload m)).

Definition entry (path kind raw : string) (count : Z) : ContentEntry :=
  mkContent path kind (sealed raw) (Z.of_nat (String.length raw)) count.

(** ** Helpers of [Build] *)

(** The keys are compared as they are written: [lk] is not lower-cased. *)
Definition secretKeys : list string :=
  ["secret"; "token"; "api_key"; "password"; "authorization"; "bearer"; "client_secret";
   "signing_secret"].
Definition scrubSecrets (in_ : strmap) : strmap :=
  filter (fun kv => mem_str kv.1 secretKeys = false) in_.

Definition isTomb (state : string) : bool :=
  mem_str state ["TOMBSTONED"; "PURGE_PENDING"; "PURGED"].

Fixpoint collectEvidence (revs : list Revision) (seen : list string) : list EvidenceRef :=
  match revs with
  | [] => []
  | r :: revs =>
      let ref := trim_space (rev_EvidenceRef r) in
      if is_empty ref || mem_str ref seen then collectEvidence revs seen
      else mkEvidenceRef ref (rev_ResourceID r) (rev_RevisionID r) (rev_ContentHash r) 0
             :: collectEvidence revs (ref :: seen)
  end.
Definition collectEvidenceRefs (revs : list Revision) : list EvidenceRef := collectEvidence revs [].

Definition splitEvidenceRef (ref : string) : string * string :=
  match index_byte ref "@" with
  | Some i => (take_str i ref, drop_str (S i) ref)
  | None => match index_byte ref "#" with
            | Some i => (take_str i ref, drop_str (S i) ref)
            | None => (ref, "")
            end
  end.

Definition tombstone_of (rec : LedgerRecord) : Tombstone :=
  mkTombstone (rec_ResourceID rec) (rec_CurrentRevID rec) (rec_State rec) (rec_UpdatedAt rec).
Definition tuple_of (e : GraphEdge) : AuthzTupleManifest :=
  mkTupleManifest "write" (ResourceObject (edge_FromID e)) "parent"
    (ResourceObject (edge_ToID e)) (edge_EdgeID e).

Definition inherits (e : GraphEdge) : bool :=
  String.eqb (edge_State e) "ACTIVE" && edge_SyncAuthz e && String.eqb (edge_Predicate e) EdgeParent.

(** [sort.Slice(l, func(i, j int) bool { return l[i].k < l[j].k })] *)
Definition by_key {A} (k : A -> string) : list A -> list A :=
  sort_slice (fun a b => str_lt (k a) (k b)).
Definition tuple_less : AuthzTupleManifest -> AuthzTupleManifest -> bool :=
  then_by tm_Object str_lt (fun a b => str_lt (tm_Subject a) (tm_Subject b)).

Definition schemaVersions : strmap :=
  {["record" := "context-fabric.record/v1"; "export" := FormatVersion;
    "packet" := "context-fabric.packet/v1"; "graph_edge" := "context-fabric.graph-edge/v1";
    "authz_tuple" := "context-fabric.authz-tuple/v1"; "evidence" := "context-fabric.evidence-ref/v1"]}.

Definition scrub_record (r : LedgerRecord) : LedgerRecord :=
  r <| rec_Attributes := scrubSecrets (rec_Attributes r) |>.
Definition scrub_source (s : SourceRegistration) : SourceRegistration :=
  s <| src_Attributes := scrubSecrets (src_Attributes s) |>.

Section Transfer.
Context `{GoEnv, GoMapOrder}.

(** ** Build *)
Definition revisions_of (orgID : string) (acc : list Revision) (rec : LedgerRecord)
    : ledger (list Revision) :=
  revs ← ListRevisions orgID (rec_ResourceID rec) 10000;
  mret (acc ++ by_key rev_RevisionID revs).

(** At most 64 MiB of the object are counted. *)
Definition resolve_ref (r : EvidenceRef) : service EvidenceRef :=
  let '(key, ver) := splitEvidenceRef (er_Key r) in
  got ← attempt (on_evidence (Get key ver));
  mret match got with
       | Ok (body, meta) =>
           let r := r <| er_ByteSize := Z.min (Z.of_nat (String.length body)) (Z.shiftl 64 20) |> in
           if is_empty (eo_Key meta) then r
           else r <| er_Key := if is_empty (eo_VersionID meta) then eo_Key meta
                               else eo_Key meta +:+ "@" +:+ eo_VersionID meta |>
       | Err _ => r
       end.

Definition resolve_refs (s : ExportService) (refs : list EvidenceRef) : service (list EvidenceRef) :=
  if exp_Evidence s then
    fold_m (fun acc r => r ← resolve_ref r; mret (acc ++ [r])) [] refs
  else mret refs.

Definition contents (records : list LedgerRecord) (revs : list Revision)
    (sources : list SourceRegistration) (tombs : list Tombstone) (edges : list GraphEdge)
    (tuples : list AuthzTupleManifest) (refs : list EvidenceRef) : list ContentEntry :=
  let section {A} path kind (enc : A -> option string) (l : list A) :=
    entry path kind (mustCanonicalJSON (json_rows enc (Some l))) (zlen l) in
  [section "records.json" "records" marshal_record records;
   section "revisions.json" "events" marshal_revision revs;
   section "sources.json" "source_registrations" marshal_source sources;
   section "tombstones.json" "tombstones" marshal_tombstone tombs;
   section "graph_edges.json" "graph_edges" marshal_edge edges;
   section "authz_tuples.json" "authz_tuples" marshal_tuple tuples;
   section "evidence_refs.json" "evidence_refs" marshal_evidence refs].

Definition Build (s : ExportService) (orgID createdBy : string) : service Manifest :=
  if is_empty orgID then throw (ErrValidation "organization_id required")
  else
    now ← tick;
    exportID ← draw;
    let recordHardCap := or_limit (exp_RecordCap s) 10000 in
    let edgeHardCap := or_limit (exp_EdgeCap s) 50000 in
    listed ← on_ledger (ListRecords orgID (wrap64 (recordHardCap + 1)) "");
    let records := listed.1 in
    if recordHardCap <? zlen records
    then throw (ErrValidation "export exceeds hard cap of 10000 records; use a bounded export job")
    else
      let records := by_key rec_ResourceID records in
      revisions ← on_ledger (fold_m (revisions_of orgID) [] records);
      let tombstones :=
        by_key tb_ResourceID
          (tombstone_of <$> filter (fun r => isTomb (rec_State r) = true) records) in
      sources ← on_ledger (ListSources orgID);
      let sources := scrub_source <$> by_key src_SourceID sources in
      let records := scrub_record <$> records in
      edges ← on_ledger (ListEdges orgID (mkEdgeOpts [] [] true (wrap64 (edgeHardCap + 1))));
      if edgeHardCap <? zlen edges
      then throw (ErrValidation "export exceeds hard cap of 50000 edges; use a bounded export job")
      else
        let edges := by_key edge_EdgeID edges in
        let tuples := sort_slice tuple_less (tuple_of <$> filter (fun e => inherits e = true) edges) in
        refs ← resolve_refs s (collectEvidenceRefs revisions);
        let refs := by_key er_Key refs in
        let m := mkExport FormatVersion exportID orgID now createdBy "completed" ∅
                   (contents records revisions sources tombstones edges tuples refs)
                   (Some schemaVersions) (Some records) (Some revisions) (Some sources)
                   (Some tombstones) (Some edges) (Some tuples) (Some refs) in
        mret (m <| em_Checksums := {["manifest_sha256" := HashManifest m]} |>).

(** ** Import *)
Definition import_record (target : string) (rec : LedgerRecord) : service unit :=
  let rec := rec <| rec_OrgID := target |> in
  let rec := rec <| rec_Attributes := scrubSecrets (rec_Attributes rec) |> in
  timed (fun t => UpsertRecord t rec).

Definition import_revision (target : string) (rev : Revision) : service unit :=
  timed (fun t => AppendRevision t (rev <| rev_OrgID := target |>)).

Definition import_source (target : string) (src : SourceRegistration) : service unit :=
  let src := src <| src_OrgID := target |> in
  let src := src <| src_Attributes := scrubSecrets (src_Attributes src) |> in
  timed (fun t => UpsertSource t src).

Definition authz_key (object relation subject : string) : string :=
  object +:+ "|" +:+ relation +:+ "|" +:+ subject.

Definition import_edge (target : string) (seenAuthz : list string) (e : GraphEdge)
    : service (list string) :=
  let e := e <| edge_OrgID := target |> in
  t ← tick; id ← draw;
  _ ← on_ledger (UpsertEdge t id e);
  if String.eqb (edge_State e) "ACTIVE" then
    now ← tick;
    _ ← (id ← draw; timed (fun t => EnqueueForEdge t id e OperationWrite now));
    mret (if NeedsSynchronization e
          then authz_key ("resource:" +:+ edge_FromID e) "parent" ("resource:" +:+ edge_ToID e)
                 :: seenAuthz
          else seenAuthz)
  else mret seenAuthz.

Definition import_tombstone (target : string) (tb : Tombstone) : service unit :=
  found ← attempt (on_ledger (GetRecordTx target (tb_ResourceID tb)));
  let rec := match found with
             | Ok rec => rec
             | Err _ => mkRecord (tb_ResourceID tb) target "resource" (tb_ResourceID tb) "internal"
                          [] "" "" "" "" ∅ zero_time zero_time
             end in
  let rec := rec <| rec_State := or_default (tb_State tb) "TOMBSTONED" |> in
  let rec := rec <| rec_CurrentRevID := or_default (tb_RevisionID tb) (rec_CurrentRevID rec) |> in
  let rec := rec <| rec_UpdatedAt := tb_At tb |> in
  timed (fun t => UpsertRecord t rec).

Definition import_tuple (target : string) (seenAuthz : list string) (now : Time)
    (tup : AuthzTupleManifest) : service unit :=
  if mem_str (authz_key (tm_Object tup) (tm_Relation tup) (tm_Subject tup)) seenAuthz then mret tt
  else
    id ← draw; fallback ← draw;
    let op := mkTupleOp id target (or_default (tm_Operation tup) "write") (tm_Object tup)
                (tm_Relation tup) (tm_Subject tup) (tm_EdgeID tup) "pending" 0 "" None now now now
                None in
    timed (fun t => EnqueueAuthzTuple t fallback op).

Definition import_rows (target : string) (m : Manifest) : service unit :=
  _ ← for_each (import_record target) (default [] (em_Records m));
  _ ← for_each (import_revision target) (default [] (em_Revisions m));
  _ ← for_each (import_source target) (default [] (em_Sources m));
  seenAuthz ← fold_m (import_edge target) [] (default [] (em_GraphEdges m));
  _ ← for_each (import_tombstone target) (default [] (em_Tombstones m));
  now ← tick;
  for_each (import_tuple target seenAuthz now) (default [] (em_AuthzTuples m)).

Definition ImportInto (target : string) (m : Manifest) : service unit :=
  if is_empty target then throw (ErrValidation "target organization_id required")
  else if negb (String.eqb (em_FormatVersion m) FormatVersion)
  then throw (ErrValidation "unsupported export format_version")
  else
    let want := attr (em_Checksums m) "manifest_sha256" in
    if is_empty want || negb (String.eqb want (HashManifest m))
    then throw (ErrValidation "manifest hash verification failed")
    else
      known ← attempt (on_ledger (GetOrganization target));
      _ ← (match known with
           | Ok _ => mret (Ok tt)
           | Err _ =>
               t ← tick;
               attempt (timed (fun t' => CreateOrganization t' (mkOrganization target target ∅ t)))
           end);
      WithOrgTx target (import_rows target m).

(** [ImportExport] of the application service after it has authorized the caller: the
    hash is verified, and the manifest sealed again for the target organization. *)
Definition reseal (target : string) (m : Manifest) : Manifest :=
  let m := m <| em_OrganizationID := target |> in
  m <| em_Checksums := {["manifest_sha256" := HashManifest m]} |>.
Definition ImportExport (target : string) (m : Manifest) : service unit :=
  let want := attr (em_Checksums m) "manifest_sha256" in
  if is_empty want || negb (String.eqb want (HashManifest m))
  then throw (ErrValidation "manifest hash verification failed")
  else ImportInto target (reseal target m).
End Transfer.
