(* ===== verification/ExportFacts.v ===== *)
(** * What an export contains and what an import restores

    [Build] writes every row of the organization exactly once, in an order that does
    not depend on the runtime's maps; [ImportInto] accepts only a manifest whose hash
    is the one it carries; the import of an export restores the rows. *)
From S2P Require Import Prelude GoStd Sha256 Ports Platform Json Mapping.
From S2P Require Import Ledger LedgerFacts LedgerQueries Index OpenFGA AuditLog World Export.

(** ** Sorting by a key that identifies the row *)
Section Keys.
Context {A : Type} (k : A -> string).

#[export] Instance by_key_weak : StrictWeak (fun a b => str_lt (k a) (k b)).
Proof.
  split; intros *; [apply (total_asym (lt := str_lt)) | apply (total_ntrans (lt := str_lt))].
Qed.

Lemma by_key_perm l : by_key k l ≡ₚ l.
Proof. apply sort_slice_perm. Qed.

Lemma elem_of_by_key l x : x ∈ by_key k l <-> x ∈ l.
Proof. apply elem_of_sort_slice. Qed.

Lemma by_key_unique l1 l2 :
  (forall x y, x ∈ l1 -> y ∈ l1 -> k x = k y -> x = y) -> l1 ≡ₚ l2 -> by_key k l1 = by_key k l2.
Proof.
  intros Hinj. apply sort_slice_unique; [apply _|]. intros x y Hx Hy Hxy Hyx.
  apply Hinj; [done..|]. by apply (total_eq (lt := str_lt)).
Qed.

Lemma by_key_length l : zlen (by_key k l) = zlen l.
Proof. unfold zlen. by rewrite by_key_perm. Qed.
End Keys.

Lemma ztake_all {A} n (l : list A) : zlen l <= n -> ztake n l = l.
Proof. unfold ztake, zlen. intros Hl. apply take_ge. lia. Qed.

(** ** The rows of an organization *)
Section Rows.
Context {V : Type}.

Definition rows (tbl : tenants V) (org : string) : list V := (map_to_list (inner tbl org)).*2.

Lemma go_rows `{GoMapOrder} tbl org : go_values (inner tbl org) ≡ₚ rows tbl org.
Proof. apply go_values_perm. Qed.

Lemma elem_of_rows tbl org v : v ∈ rows tbl org <-> exists id, lookup2 tbl org id = Some v.
Proof.
  unfold rows. rewrite list_elem_of_fmap. split.
  - intros ([i v'] & -> & Hi%elem_of_map_to_list). by exists i.
  - intros (i & Hi). exists (i, v). split; [done|]. by apply elem_of_map_to_list.
Qed.

Variables (name : V -> string) (filed : string -> V -> Prop) (tbl : tenants V).
Hypothesis Hall : all_rows (fun a b v => filed a v /\ name v = b) tbl.

Lemma row_named org v : v ∈ rows tbl org -> lookup2 tbl org (name v) = Some v.
Proof. intros (i & Hi)%elem_of_rows. by destruct (Hall _ _ _ Hi) as [_ ->]. Qed.

Lemma rows_inj org x y :
  x ∈ rows tbl org -> y ∈ rows tbl org -> name x = name y -> x = y.
Proof. intros Hx%row_named Hy%row_named Heq. congruence. Qed.

Lemma by_key_rows org l : l ≡ₚ rows tbl org -> by_key name l = by_key name (rows tbl org).
Proof.
  intros Hp. apply by_key_unique; [|done]. intros x y. rewrite Hp. apply rows_inj.
Qed.

Lemma NoDup_rows org : NoDup (name <$> rows tbl org).
Proof.
  apply NoDup_fmap_2_strong; [apply rows_inj|]. unfold rows.
  apply NoDup_fmap_2_strong; [|apply NoDup_map_to_list].
  intros [i x] [j y] Hi%elem_of_map_to_list Hj%elem_of_map_to_list. simpl. intros ->.
  destruct (Hall org _ _ Hi) as [_ <-], (Hall org _ _ Hj) as [_ <-]. done.
Qed.
End Rows.

(** ** The manifest of a ledger *)
Section Snapshot.
Variables (s : Store) (org : string).

Definition snap_records : list LedgerRecord := by_key rec_ResourceID (rows (records s) org).
Definition revisions_for (id : string) : list Revision :=
  filter (fun v => String.eqb (rev_ResourceID v) id = true) (rows (revisions s) org).
Definition snap_revisions : list Revision :=
  r ← snap_records; by_key rev_RevisionID (revisions_for (rec_ResourceID r)).
Definition snap_tombstones : list Tombstone :=
  by_key tb_ResourceID (tombstone_of <$> filter (fun r => isTomb (rec_State r) = true) snap_records).
Definition snap_sources : list SourceRegistration :=
  scrub_source <$> by_key src_SourceID (rows (sources s) org).
Definition snap_edges : list GraphEdge := by_key edge_EdgeID (rows (edges s) org).
Definition snap_tuples : list AuthzTupleManifest :=
  sort_slice tuple_less (tuple_of <$> filter (fun e => inherits e = true) snap_edges).
Definition snap_refs : list EvidenceRef := by_key er_Key (collectEvidenceRefs snap_revisions).

Definition snapshot (id createdBy : string) (now : Time) : Manifest :=
  mkExport FormatVersion id org now createdBy "completed" ∅
    (contents (scrub_record <$> snap_records) snap_revisions snap_sources snap_tombstones
       snap_edges snap_tuples snap_refs)
    (Some schemaVersions) (Some (scrub_record <$> snap_records)) (Some snap_revisions)
    (Some snap_sources) (Some snap_tombstones) (Some snap_edges) (Some snap_tuples)
    (Some snap_refs).
Definition seal (m : Manifest) : Manifest :=
  m <| em_Checksums := {["manifest_sha256" := HashManifest m]} |>.

(** Nothing is cut off by the limits of [Build]. *)
Record exportable (sv : ExportService) : Prop := {
  xp_ok : ledger_ok s;
  xp_org : org <> "";
  xp_records : zlen (rows (records s) org) <= or_limit (exp_RecordCap sv) 10000 < int_max;
  xp_edges : zlen (rows (edges s) org) <= or_limit (exp_EdgeCap sv) 50000 < int_max;
  xp_revisions : forall id, zlen (revisions_for id) <= 10000;
}.
End Snapshot.

Section Reading.
Context `{GoEnv, GoMapOrder}.

(** The first page of a listing that asks for more than there is *)
Lemma ListRecords_first s org limit :
  0 < limit <= int_max ->
  exists next, ListRecords org limit "" s = (Ok (ztake limit (sorted_records s org), next), s).
Proof.
  intros Hl. unfold ListRecords. fold (sorted_records s org). cbv zeta.
  set (all := sorted_records s org).
  change (parse_int "") with (0, Some ErrSyntax). cbn [is_empty String.eqb negb andb].
  unfold or_limit. destruct (Z.leb_spec limit 0); [lia|]. rewrite Z.add_0_l.
  rewrite wrap64_id by (unfold in_int, int_min, int_max in *; lia).
  destruct (Z.leb_spec (zlen all) 0) as [Hz|Hz].
  - exists "". destruct all; [|unfold zlen in Hz; cbn in Hz; lia]. unfold ztake. by rewrite take_nil.
  - unfold slice. change (zdrop 0 all) with all. destruct (Z.ltb_spec (zlen all) limit).
    + destruct (Z.leb_spec 0 (zlen all)), (Z.leb_spec (zlen all) (zlen all)); try lia. cbn [andb].
      eexists. rewrite Z.sub_0_r. by rewrite !ztake_all by lia.
    + destruct (Z.leb_spec 0 limit), (Z.leb_spec limit (zlen all)); try lia. cbn [andb].
      eexists. by rewrite Z.sub_0_r.
Qed.

Lemma revisions_run org l acc s :
  (forall id, zlen (revisions_for s org id) <= 10000) -> ledger_ok s ->
  fold_m (revisions_of org) acc l s =
  (Ok (acc ++ (r ← l; by_key rev_RevisionID (revisions_for s org (rec_ResourceID r)))), s).
Proof.
  intros Hcap Hok. revert acc. induction l as [|r l IH]; intros acc; simpl; [by rewrite app_nil_r|].
  set (keep := fun v => String.eqb (rev_ResourceID v) (rec_ResourceID r)).
  assert (Hp : filter (fun v => keep v = true) (go_values (inner (revisions s) org))
               ≡ₚ revisions_for s org (rec_ResourceID r)) by (by rewrite go_rows).
  assert (Heq : by_key rev_RevisionID (filter (fun v => keep v = true) (go_values (inner (revisions s) org)))
                = by_key rev_RevisionID (revisions_for s org (rec_ResourceID r))).
  { apply by_key_unique; [|done]. intros x y.
    intros [_ Hx]%list_elem_of_filter [_ Hy]%list_elem_of_filter. rewrite !go_rows in *.
    by apply (rows_inj rev_RevisionID (fun a v => rev_OrgID v = a) (revisions s) (ok_revisions s Hok) org). }
  rewrite (bind_run _ _ _ (acc ++ by_key rev_RevisionID (revisions_for s org (rec_ResourceID r))) s).
  { rewrite IH, <- app_assoc. done. }
  unfold revisions_of, ListRevisions, gets. unfold mbind at 1, M_bind. cbv beta iota.
  fold keep. rewrite take_matching_spec by done. change (or_limit 10000 50) with 10000.
  rewrite ztake_all; [by rewrite Heq|]. unfold zlen. rewrite Hp. apply Hcap.
Qed.

Lemma ListEdges_all s org limit :
  0 < limit -> zlen (rows (edges s) org) <= limit ->
  exists l, ListEdges org (mkEdgeOpts [] [] true limit) s = (Ok l, s) /\ l ≡ₚ rows (edges s) org.
Proof.
  intros Hl Hn. unfold ListEdges, gets. cbn [opt_Limit]. unfold or_limit.
  destruct (Z.leb_spec limit 0); [lia|].
  assert (Hp : sort_slice edge_less (filter (fun e => edge_wanted (mkEdgeOpts [] [] true limit) e = true)
                 (go_values (inner (edges s) org))) ≡ₚ rows (edges s) org).
  { rewrite sort_slice_perm, filter_all; [apply go_rows|]. by apply Forall_forall. }
  eexists. split; [reflexivity|]. rewrite ztake_all; [done|]. unfold zlen in *. by rewrite Hp.
Qed.

Lemma ListEdges_first s org limit :
  0 < limit ->
  exists l, ListEdges org (mkEdgeOpts [] [] true limit) s = (Ok l, s) /\
    zlen l = Z.min limit (zlen (rows (edges s) org)).
Proof.
  intros Hl. unfold ListEdges, gets. cbn [opt_Limit]. unfold or_limit.
  destruct (Z.leb_spec limit 0); [lia|]. eexists. split; [reflexivity|].
  unfold zlen, ztake. rewrite length_take, sort_slice_perm, filter_all by (by apply Forall_forall).
  rewrite go_rows. lia.
Qed.
End Reading.

Section BuildRun.
Context `{GoEnv, GoMapOrder}.
Variables (sv : ExportService) (org createdBy : string).
Hypothesis Hplain : exp_Evidence sv = false.

(** The world after [Build]: a reading of the clock and an identifier are gone. *)
Definition read_once (w : World) : World :=
  (w <| w_clock := S (w_clock w) |>) <| w_ids := S (w_ids w) |>.

Lemma sorted_records_perm s : sorted_records s org ≡ₚ rows (records s) org.
Proof. unfold sorted_records. by rewrite sort_slice_perm, go_rows. Qed.

Lemma Build_run w :
  exportable (w_ledger w) org sv ->
  Build sv org createdBy w =
  (Ok (seal (snapshot (w_ledger w) org (fresh_id (w_ids w)) createdBy (clock (w_clock w)))),
   read_once w).
Proof.
  intros [Hok Horg Hrec Hedge Hrev]. set (s := w_ledger w) in *.
  assert (Hrcap : 0 < or_limit (exp_RecordCap sv) 10000) by (by apply or_limit_pos).
  assert (Hecap : 0 < or_limit (exp_EdgeCap sv) 50000) by (by apply or_limit_pos).
  assert (Hcap : forall n, 0 < n < int_max -> wrap64 (n + 1) = n + 1).
  { intros n Hn. apply wrap64_id. unfold in_int, int_min, int_max in *. lia. }
  unfold Build. apply is_empty_false in Horg as ->.
  rewrite (bind_run tick _ _ _ _ eq_refl), (bind_run draw _ _ _ _ eq_refl).
  lazymatch goal with |- (_ ≫= _) ?w1 = _ => change w1 with (read_once w) end.
  rewrite !Hcap by lia.
  destruct (ListRecords_first s org (or_limit (exp_RecordCap sv) 10000 + 1)) as [next Hlist]; [lia|].
  rewrite (bind_run _ _ _ (sorted_records s org, next) (read_once w)).
  2: { unfold on_ledger. change (w_ledger (read_once w)) with s. rewrite Hlist, ztake_all; [done|].
       unfold zlen in *. rewrite sorted_records_perm. lia. }
  cbn [fst].
  destruct (Z.ltb_spec (or_limit (exp_RecordCap sv) 10000) (zlen (sorted_records s org))).
  { unfold zlen in *. rewrite sorted_records_perm in *. lia. }
  rewrite (by_key_rows rec_ResourceID (fun a r => rec_OrgID r = a) _ (ok_records s Hok) org)
    by apply sorted_records_perm.
  fold (snap_records s org).
  rewrite (bind_run _ _ _ (snap_revisions s org) (read_once w))
    by (unfold on_ledger; by rewrite (revisions_run org _ _ s Hrev Hok)).
  rewrite (bind_run (on_ledger (ListSources org)) _ (read_once w) (go_values (inner (sources s) org)) (read_once w) eq_refl).
  rewrite (by_key_rows src_SourceID (fun a r => src_OrgID r = a) _ (ok_sources s Hok) org)
    by apply go_rows. fold (snap_sources s org).
  destruct (ListEdges_all s org (or_limit (exp_EdgeCap sv) 50000 + 1)) as (es & Hes & Hp); [lia..|].
  rewrite (bind_run _ _ _ es (read_once w)) by (unfold on_ledger; change (w_ledger (read_once w)) with s; by rewrite Hes).
  destruct (Z.ltb_spec (or_limit (exp_EdgeCap sv) 50000) (zlen es)).
  { unfold zlen in *. rewrite Hp in *. lia. }
  rewrite (by_key_rows edge_EdgeID (fun a r => edge_OrgID r = a) _ (edges_filed _ (ok_edges s Hok)) org)
    by done. fold (snap_edges s org). unfold resolve_refs. rewrite Hplain.
  reflexivity.
Qed.
End BuildRun.

(** ** Membership in the sections *)
Section Contents.
Variables (s : Store) (org : string).
Hypothesis Hok : ledger_ok s.

Lemma elem_of_image {A B} (f : A -> B) (l : list A) (P : A -> Prop) x :
  (forall y, y ∈ l <-> P y) -> x ∈ f <$> l <-> exists y, P y /\ x = f y.
Proof.
  intros Hl. rewrite list_elem_of_fmap. split; intros (y & Hy1 & Hy2); exists y; by rewrite ?Hl in *.
Qed.

Lemma elem_of_kept {A} (keep : A -> bool) (l : list A) (P : A -> Prop) y :
  (y ∈ l <-> P y) -> y ∈ filter (fun x => keep x = true) l <-> P y /\ keep y = true.
Proof. intros Hl. rewrite list_elem_of_filter, Hl. tauto. Qed.

(** The row [v] of [org], under its name *)
Definition filed_in {V} (tbl : tenants V) (v : V) : Prop := exists id, lookup2 tbl org id = Some v.

Lemma in_snap_records r : r ∈ snap_records s org <-> filed_in (records s) r.
Proof. unfold snap_records. by rewrite elem_of_by_key, elem_of_rows. Qed.

Lemma in_scrubbed r' :
  r' ∈ scrub_record <$> snap_records s org <-> exists r, filed_in (records s) r /\ r' = scrub_record r.
Proof. apply elem_of_image, in_snap_records. Qed.

Lemma in_snap_revisions v :
  v ∈ snap_revisions s org <->
  filed_in (revisions s) v /\ is_Some (lookup2 (records s) org (rev_ResourceID v)).
Proof.
  unfold snap_revisions, revisions_for. rewrite list_elem_of_bind. split.
  - intros (r & [Heq%String.eqb_eq Hv%elem_of_rows]%elem_of_by_key%list_elem_of_filter & Hr).
    apply in_snap_records in Hr as (id & Hr). split; [done|]. exists r.
    rewrite Heq. by destruct (ok_records s Hok _ _ _ Hr) as [_ ->].
  - intros [Hv (r & Hr)]. exists r. destruct (ok_records s Hok _ _ _ Hr) as [_ Hn]. split.
    + apply elem_of_by_key, list_elem_of_filter. rewrite String.eqb_eq. by rewrite elem_of_rows.
    + apply in_snap_records. by eexists.
Qed.

Lemma in_snap_sources v' :
  v' ∈ snap_sources s org <-> exists v, filed_in (sources s) v /\ v' = scrub_source v.
Proof.
  unfold snap_sources. apply elem_of_image. intros v. by rewrite elem_of_by_key, elem_of_rows.
Qed.

Lemma in_snap_edges e : e ∈ snap_edges s org <-> filed_in (edges s) e.
Proof. unfold snap_edges. by rewrite elem_of_by_key, elem_of_rows. Qed.

Lemma in_snap_tombstones t :
  t ∈ snap_tombstones s org <->
  exists r, (filed_in (records s) r /\ isTomb (rec_State r) = true) /\ t = tombstone_of r.
Proof.
  unfold snap_tombstones. rewrite elem_of_by_key. apply elem_of_image. intros r.
  apply (elem_of_kept (fun r => isTomb (rec_State r))), in_snap_records.
Qed.

Lemma in_snap_tuples t :
  t ∈ snap_tuples s org <->
  exists e, (filed_in (edges s) e /\ inherits e = true) /\ t = tuple_of e.
Proof.
  unfold snap_tuples. rewrite elem_of_sort_slice. apply elem_of_image. intros e.
  apply elem_of_kept, in_snap_edges.
Qed.

Lemma NoDup_snap_records : NoDup (rec_ResourceID <$> snap_records s org).
Proof.
  unfold snap_records. rewrite (by_key_perm rec_ResourceID).
  apply (NoDup_rows rec_ResourceID (fun a r => rec_OrgID r = a)), Hok.
Qed.
End Contents.

(** Every section of the manifest lists exactly the rows of the organization. *)
Record complete (s : Store) (org : string) (m : Manifest) : Prop := {
  all_records : forall r', r' ∈ default [] (em_Records m) <->
    exists r, filed_in org (records s) r /\ r' = scrub_record r;
  all_revisions : forall v, v ∈ default [] (em_Revisions m) <->
    filed_in org (revisions s) v /\ is_Some (lookup2 (records s) org (rev_ResourceID v));
  all_sources : forall v', v' ∈ default [] (em_Sources m) <->
    exists v, filed_in org (sources s) v /\ v' = scrub_source v;
  all_edges : forall e, e ∈ default [] (em_GraphEdges m) <-> filed_in org (edges s) e;
  all_tombstones : forall t, t ∈ default [] (em_Tombstones m) <->
    exists r, (filed_in org (records s) r /\ isTomb (rec_State r) = true) /\ t = tombstone_of r;
  all_tuples : forall t, t ∈ default [] (em_AuthzTuples m) <->
    exists e, (filed_in org (edges s) e /\ inherits e = true) /\ t = tuple_of e;
}.

Lemma snapshot_complete s org id createdBy now :
  ledger_ok s -> complete s org (seal (snapshot s org id createdBy now)).
Proof.
  intros Hok. split; cbn.
  - apply in_scrubbed.
  - intros v. by apply in_snap_revisions.
  - apply in_snap_sources.
  - apply in_snap_edges.
  - apply in_snap_tombstones.
  - apply in_snap_tuples.
Qed.

(** An organization within the limits is exported whole: [Build] succeeds, leaves
    the ledger as it was, and its manifest lists every record and source of the
    organization (secret attributes removed), every revision of those records, every
    edge, dead ones included, a tombstone for every deleted record and a tuple for every
    active parent edge that inherits access; nothing of another organization; and the
    manifest carries its own hash. *)
Theorem export_complete `{GoEnv, GoMapOrder} sv org createdBy w :
  exportable (w_ledger w) org sv -> exp_Evidence sv = false ->
  exists m, Build sv org createdBy w = (Ok m, read_once w) /\
    w_ledger (read_once w) = w_ledger w /\ em_OrganizationID m = org /\
    complete (w_ledger w) org m /\
    attr (em_Checksums m) "manifest_sha256" = HashManifest m.
Proof.
  intros Hx Hev. eexists. split; [by apply Build_run|]. split_and!; try done.
  apply snapshot_complete, Hx.
Qed.

(** The manifest is not free of secrets: the signing secret of every source is in it. *)
Lemma export_carries_signing_secret `{GoEnv, GoMapOrder} sv org createdBy w v :
  exportable (w_ledger w) org sv -> exp_Evidence sv = false -> filed_in org (sources (w_ledger w)) v ->
  exists m v', (Build sv org createdBy w).1 = Ok m /\ v' ∈ default [] (em_Sources m) /\
    src_SourceID v' = src_SourceID v /\ src_SigningSecret v' = src_SigningSecret v.
Proof.
  intros Hx Hev Hv. rewrite (Build_run sv org createdBy Hev w Hx). cbn [fst].
  eexists _, (scrub_source v). split; [reflexivity|]. split; [|done].
  apply all_sources with (s := w_ledger w) (org := org); [apply snapshot_complete, Hx | by eexists].
Qed.

(** An attribute is removed only under the lower-case spelling of its name. *)
Example scrub_is_case_sensitive :
  scrubSecrets {["Token" := "t"; "token" := "t"]} = {["Token" := "t"]}.
Proof. vm_compute. reflexivity. Qed.

(** The hash of an export is a function of the organization's rows: whatever order
    the runtime ranges over its maps in, whoever builds and whenever, two exports of the
    same ledger list the same rows in the same order and carry the same hash. *)
Theorem export_hash_stable `{GoEnv} (O1 O2 : GoMapOrder) sv org by1 by2 w1 w2 :
  exportable (w_ledger w1) org sv -> exp_Evidence sv = false -> w_ledger w2 = w_ledger w1 ->
  exists m1 m2, (@Build _ O1 sv org by1 w1).1 = Ok m1 /\ (@Build _ O2 sv org by2 w2).1 = Ok m2 /\
    em_Checksums m1 = em_Checksums m2 /\ em_Contents m1 = em_Contents m2 /\
    payload m1 = payload m2 /\ em_ExportID m1 = fresh_id (w_ids w1).
Proof.
  intros Hx Hev Heq. pose proof Hx as Hx2. rewrite <- Heq in Hx2.
  rewrite (Build_run (H0 := O1) sv org by1 Hev w1 Hx), (Build_run (H0 := O2) sv org by2 Hev w2 Hx2).
  rewrite Heq. eexists _, _. split_and!; reflexivity.
Qed.

Lemma revisions_total `{GoEnv, GoMapOrder} org l acc s :
  exists revs, fold_m (revisions_of org) acc l s = (Ok revs, s).
Proof.
  revert acc. induction l as [|r l IH]; intros acc; simpl; [by eexists|].
  rewrite (bind_run (revisions_of org acc r) _ s _ s eq_refl). apply IH.
Qed.

(** An export is never cut short in silence: with more records or more edges than the
    limit of [Build] allows, it is refused with a validation error and the ledger stays
    as it was. *)
Theorem export_refuses_oversize `{GoEnv, GoMapOrder} sv org createdBy w :
  org <> "" ->
  or_limit (exp_RecordCap sv) 10000 < int_max -> or_limit (exp_EdgeCap sv) 50000 < int_max ->
  or_limit (exp_RecordCap sv) 10000 < zlen (rows (records (w_ledger w)) org) \/
  or_limit (exp_EdgeCap sv) 50000 < zlen (rows (edges (w_ledger w)) org) ->
  exists msg, Build sv org createdBy w = (Err (ErrValidation msg), read_once w).
Proof.
  intros Horg Hr He Hover. set (s := w_ledger w) in *.
  assert (Hrcap : 0 < or_limit (exp_RecordCap sv) 10000) by (by apply or_limit_pos).
  assert (Hecap : 0 < or_limit (exp_EdgeCap sv) 50000) by (by apply or_limit_pos).
  unfold Build. apply is_empty_false in Horg as ->.
  rewrite (bind_run tick _ _ _ _ eq_refl), (bind_run draw _ _ _ _ eq_refl).
  lazymatch goal with |- exists _, (_ ≫= _) ?w1 = _ => change w1 with (read_once w) end.
  rewrite !wrap64_id by (unfold in_int, int_min, int_max in *; lia).
  destruct (ListRecords_first s org (or_limit (exp_RecordCap sv) 10000 + 1)) as [next Hlist]; [lia|].
  set (listed := ztake _ _) in Hlist.
  rewrite (bind_run _ _ _ (listed, next) (read_once w))
    by (unfold on_ledger; change (w_ledger (read_once w)) with s; by rewrite Hlist).
  cbn [fst]. destruct (Z.ltb_spec (or_limit (exp_RecordCap sv) 10000) (zlen listed)) as [|Hle]; [by eexists|].
  destruct Hover as [Hover|Hover].
  { exfalso. unfold listed, ztake, zlen in *. rewrite length_take, sorted_records_perm in Hle. lia. }
  destruct (revisions_total org (by_key rec_ResourceID listed) [] s) as [revs Hrevs].
  rewrite (bind_run _ _ _ revs (read_once w))
    by (unfold on_ledger; change (w_ledger (read_once w)) with s; by rewrite Hrevs).
  rewrite (bind_run (on_ledger (ListSources org)) _ (read_once w) (go_values (inner (sources s) org)) (read_once w) eq_refl).
  destruct (ListEdges_first s org (or_limit (exp_EdgeCap sv) 50000 + 1)) as (es & Hes & Hlen); [lia|].
  rewrite (bind_run _ _ _ es (read_once w))
    by (unfold on_ledger; change (w_ledger (read_once w)) with s; by rewrite Hes).
  destruct (Z.ltb_spec (or_limit (exp_EdgeCap sv) 50000) (zlen es)) as [|Hle']; [by eexists|]. lia.
Qed.

(** ** The seal *)
Lemma hex_digits_inj a b :
  hex_digit (code a / 16) = hex_digit (code b / 16) ->
  hex_digit (code a mod 16) = hex_digit (code b mod 16) -> a = b.
Proof.
  set (unhex := fun c => match hex_val c with Some z => Z.to_nat z | None => 0%nat end).
  assert (Hback : forall c, ascii_of_nat (16 * unhex (hex_digit (code c / 16)) +
                              unhex (hex_digit (code c mod 16))) = c).
  { intros [[] [] [] [] [] [] [] []]; vm_compute; reflexivity. }
  intros Hhi Hlo. by rewrite <- (Hback a), <- (Hback b), Hhi, Hlo.
Qed.

#[export] Instance hex_encode_inj : Inj (=) (=) hex_encode.
Proof.
  intros s. induction s as [|a s IH]; intros [|b t]; simpl; [done..|].
  intros [= Hhi Hlo Ht]. by rewrite (hex_digits_inj a b), (IH t).
Qed.


Lemma sealed_eq a b : sealed a = sealed b -> sha256 a = sha256 b.
Proof. unfold sealed. by intros ?%(inj _)%(inj _). Qed.

Section Importing.
Context `{GoEnv, GoMapOrder}.

(** What [ImportInto] demands of a manifest *)
Definition accepts (m : Manifest) : Prop :=
  em_FormatVersion m = FormatVersion /\ attr (em_Checksums m) "manifest_sha256" <> "" /\
  attr (em_Checksums m) "manifest_sha256" = HashManifest m.

Lemma import_refused target m w :
  ~ accepts m -> exists msg, ImportInto target m w = (Err (ErrValidation msg), w).
Proof.
  intros Hno. unfold ImportInto. destruct (is_empty target); [by eexists|].
  destruct (String.eqb_spec (em_FormatVersion m) FormatVersion) as [Hv|]; [|by eexists]. simpl.
  destruct (is_empty (attr (em_Checksums m) "manifest_sha256")) eqn:Hw; [by eexists|].
  destruct (String.eqb_spec (attr (em_Checksums m) "manifest_sha256") (HashManifest m)); [|by eexists].
  destruct Hno. by apply is_empty_false in Hw.
Qed.
End Importing.

(** ** A manifest sent as JSON

    The sections of the manifest are tagged [omitempty]: an empty one is left out of
    the document and decodes to [nil]. *)
Definition drop_empty {A} (l : option (list A)) : option (list A) :=
  match l with Some [] => None | _ => l end.
Definition transmitted (m : Manifest) : Manifest :=
  mkExport (em_FormatVersion m) (em_ExportID m) (em_OrganizationID m) (em_CreatedAt m)
    (em_CreatedBy m) (em_Status m) (em_Checksums m) (em_Contents m) (em_SchemaVersions m)
    (drop_empty (em_Records m)) (drop_empty (em_Revisions m)) (drop_empty (em_Sources m))
    (drop_empty (em_Tombstones m)) (drop_empty (em_GraphEdges m)) (drop_empty (em_AuthzTuples m))
    (drop_empty (em_EvidenceRefs m)).

Definition hollow {A} (l : option (list A)) : bool :=
  match l with Some [] => true | _ => false end.
(** Some section has no row. *)
Definition has_hollow (m : Manifest) : bool :=
  hollow (em_Records m) || hollow (em_Revisions m) || hollow (em_Sources m)
  || hollow (em_Tombstones m) || hollow (em_GraphEdges m) || hollow (em_AuthzTuples m)
  || hollow (em_EvidenceRefs m).

(** The texts of a section before and after: an empty list became [null]. *)
Inductive nulled : string -> string -> bool -> Prop :=
| kept_text t : nulled t t false
| null_text : nulled "[]" "null" true.

Lemma json_rows_nulled {A} (enc : A -> option string) l t :
  json_rows enc l = Some t ->
  exists t', json_rows enc (drop_empty l) = Some t' /\ nulled t t' (hollow l).
Proof.
  destruct l as [[|x l]|]; simpl; intros Ht.
  - injection Ht as <-. eexists. split; [done|]. constructor.
  - exists t. split; [done|]. constructor.
  - exists t. split; [done|]. constructor.
Qed.

Definition members (l : list (string * string)) : list string :=
  (fun nt => json_member nt.1 nt.2) <$> l.
Lemma str_app_assoc a b c : (a +:+ b) +:+ c = a +:+ (b +:+ c).
Proof. induction a as [|x a IH]; [done|]. exact (f_equal (String x) IH). Qed.

Lemma nulled_differ (l : list (string * string * string * bool)) tail :
  Forall (fun x => nulled x.1.1.2 x.1.2 x.2) l -> existsb snd l = true ->
  join (members (fst <$> (fst <$> l))) "," +:+ tail
  <> join (members ((fun x => (x.1.1.1, x.1.2)) <$> l)) "," +:+ tail.
Proof.
  induction 1 as [|[[[n t] t'] b] l Hn Hl IH]; simpl; [done|]. intros Hb Heq.
  simpl in Hn. inversion Hn; subst; simpl in *.
  - destruct l as [|y l]; [done|]. apply IH; [exact Hb|].
    simpl in Heq |- *. rewrite !str_app_assoc in Heq.
    by apply (inj (String.append _)), (inj (String.append _)) in Heq.
  - unfold json_member in Heq. destruct l as [|y l]; simpl in Heq; rewrite ?str_app_assoc in Heq;
      by apply (inj (String.append _)) in Heq.
Qed.

Lemma payload_transmitted m raw :
  payload m = Some raw -> has_hollow m = true ->
  exists raw', payload (transmitted m) = Some raw' /\ raw <> raw'.
Proof.
  unfold payload. intros Hp Hh.
  repeat match type of Hp with
  | (json_rows ?enc ?l ≫= _) = Some _ =>
      let E := fresh "E" in
      destruct (json_rows enc l) eqn:E in Hp; [|discriminate Hp];
      apply json_rows_nulled in E as (? & ? & ?); cbn [mbind option_bind] in Hp
  end.
  injection Hp as <-. cbn [em_Records em_Revisions em_Sources em_Tombstones em_GraphEdges
    em_AuthzTuples em_EvidenceRefs em_FormatVersion em_OrganizationID em_SchemaVersions transmitted].
  repeat match goal with
  | E : json_rows ?enc ?l = Some _ |- context [json_rows ?enc ?l] =>
      rewrite E; cbn [mbind option_bind]; clear E
  end.
  eexists. split; [reflexivity|]. intros Heq.
  unfold json_struct in Heq. apply (inj (String.append "{")) in Heq.
  refine (nulled_differ
    [("format_version", _, _, false); ("organization_id", _, _, false);
     ("schema_versions", _, _, false); ("records", _, _, hollow (em_Records m));
     ("revisions", _, _, hollow (em_Revisions m)); ("sources", _, _, hollow (em_Sources m));
     ("tombstones", _, _, hollow (em_Tombstones m)); ("graph_edges", _, _, hollow (em_GraphEdges m));
     ("authz_tuples", _, _, hollow (em_AuthzTuples m));
     ("evidence_refs", _, _, hollow (em_EvidenceRefs m))] "}" _ _ Heq).
  - repeat constructor; done.
  - revert Hh. unfold has_hollow. cbn [existsb snd]. rewrite orb_false_r, !orb_assoc. done.
Qed.

Lemma transmitted_refused `{GoEnv, GoMapOrder} m raw raw' target w :
  payload m = Some raw -> payload (transmitted m) = Some raw' -> sha256 raw <> sha256 raw' ->
  attr (em_Checksums m) "manifest_sha256" = HashManifest m ->
  ImportExport target (transmitted m) w =
    (Err (ErrValidation "manifest hash verification failed"), w).
Proof.
  intros Hp Hp' Hsha Hsum. unfold ImportExport.
  change (em_Checksums (transmitted m)) with (em_Checksums m).
  destruct (String.eqb_spec (attr (em_Checksums m) "manifest_sha256") (HashManifest (transmitted m)))
    as [Heq|]; [|by rewrite orb_true_r].
  rewrite Hsum in Heq. unfold HashManifest in Heq. rewrite Hp, Hp' in Heq. simpl in Heq.
  by apply sealed_eq in Heq.
Qed.

(** C32 The export of an organization without deleted records does not survive its own
    JSON form: its empty list of tombstones is hashed as a list but left out of the
    document, so that the manifest read back hashes differently, and its import is refused
    as tampered with (unless SHA-256 collides on the two documents). *)
Theorem transmitted_export_refused `{GoEnv, GoMapOrder} sv org createdBy w raw :
  exportable (w_ledger w) org sv -> exp_Evidence sv = false ->
  (forall r, filed_in org (records (w_ledger w)) r -> isTomb (rec_State r) = false) ->
  exists m, (Build sv org createdBy w).1 = Ok m /\
    (payload m = Some raw ->
     exists raw', payload (transmitted m) = Some raw' /\ raw' <> raw /\
       (sha256 raw <> sha256 raw' -> forall target w',
          ImportExport target (transmitted m) w' =
            (Err (ErrValidation "manifest hash verification failed"), w'))).
Proof.
  intros Hx Hev Hlive. rewrite (Build_run sv org createdBy Hev w Hx). cbn [fst].
  eexists. split; [reflexivity|]. intros Hraw.
  assert (Hnil : snap_tombstones (w_ledger w) org = []).
  { apply elem_of_nil_inv. intros t (r & [Hr Ht] & _)%in_snap_tombstones. by rewrite Hlive in Ht. }
  destruct (payload_transmitted _ _ Hraw) as (raw' & Hraw' & Hne).
  { unfold has_hollow. cbn. rewrite Hnil. simpl. by rewrite !orb_true_r. }
  exists raw'. split_and!; [done | done |]. intros Hsha target w'.
  by eapply transmitted_refused.
Qed.
