(* ===== verification/TransferFacts.v ===== *)
(** * The import of an export restores the organization

    Loop by loop, what [ImportInto] leaves in the tables of the target organization. *)
From S2P Require Import Prelude GoStd Sha256 Ports Platform Json Mapping.
From S2P Require Import Ledger LedgerFacts LedgerQueries Index OpenFGA AuditLog World.
From S2P Require Import Worker WorkerFacts QueueFacts Export ExportFacts.

(** ** Steps that draw no identifier *)
Section Steps.
Context `{GoEnv, GoMapOrder}.

Definition keeps_ids {A} (m : service A) : Prop := forall w, w_ids (m w).2 = w_ids w.

Lemma keeps_ids_for_each {A} (f : A -> service unit) l :
  (forall x, keeps_ids (f x)) -> keeps_ids (for_each f l).
Proof.
  intros Hf w. apply (for_each_inv (fun w' => w_ids w' = w_ids w)); [|done].
  intros x w' _ <-. apply Hf.
Qed.

Lemma keeps_ids_timed {A} (m : Time -> ledger A) : keeps_ids (timed m).
Proof.
  intros w. unfold timed. rewrite (bind_run tick _ _ _ _ eq_refl). unfold on_ledger.
  by destruct (m _ _).
Qed.

Lemma run_effect {A} (m : service A) a (P : Store -> Prop) w :
  effect m (w_ledger w) (fun r s' => r = Ok a /\ P s') -> keeps_ids m ->
  exists w', m w = (Ok a, w') /\ P (w_ledger w') /\ w_ids w' = w_ids w.
Proof.
  intros Heff Hids. destruct (Heff w eq_refl) as [Hr Hp]. specialize (Hids w).
  destruct (m w) as [r w']; simpl in *. subst. by exists w'.
Qed.

Lemma fresh_ids_same w w' :
  authzTuples (w_ledger w') = authzTuples (w_ledger w) -> w_ids w' = w_ids w ->
  fresh_ids w -> fresh_ids w'.
Proof.
  intros Ht Hi (? & ? & Hr). split_and!; [done..|]. unfold row_of. rewrite Ht, Hi. apply Hr.
Qed.

Lemma queued_same operation w w' e :
  authzTuples (w_ledger w') = authzTuples (w_ledger w) -> queued operation w e -> queued operation w' e.
Proof. unfold queued, row_of. by intros ->. Qed.
End Steps.

(** ** A loop that files every row of a list *)

(** [new] is [old] with a copy of every row of [l] under its name. *)
Definition filled {V} (copied : V -> V -> Prop) (name : V -> string) (l : list V)
    (old new : gmap string V) : Prop :=
  (forall x, x ∈ l -> exists x', new !! name x = Some x' /\ copied x x') /\
  (forall id, id ∉ name <$> l -> new !! id = old !! id).

Section Fill.
Context {V : Type} (copied : V -> V -> Prop) (name : V -> string).

Lemma filled_nil old : filled copied name [] old old.
Proof. split; [by intros x ?%elem_of_nil | done]. Qed.

Lemma filled_cons x x' l old new :
  (forall y, y ∈ l -> name y = name x -> y = x) -> copied x x' ->
  filled copied name l (<[name x := x']> old) new -> filled copied name (x :: l) old new.
Proof.
  intros Hinj Hx [Hin Hout]. split.
  - intros y [->|Hy]%elem_of_cons; [|by apply Hin].
    destruct (decide (name x ∈ name <$> l)) as [(y & Heq & Hy)%list_elem_of_fmap|Hno].
    + apply Hinj in Hy as Hyx; [|done]. subst. by apply Hin.
    + exists x'. by rewrite Hout, lookup_insert_eq.
  - intros id [Hne Hid]%not_elem_of_cons. rewrite Hout by done. by rewrite lookup_insert_ne.
Qed.

Lemma filled_update x x' l old new :
  (forall y, y ∈ l -> name y = name x -> y = x) -> x ∈ l -> copied x x' ->
  filled copied name l old new -> filled copied name l old (<[name x := x']> new).
Proof.
  intros Hinj Hx Hc [Hin Hout]. split.
  - intros y Hy. destruct (decide (name y = name x)) as [Heq|Hne].
    + rewrite (Hinj y Hy Heq). exists x'. by rewrite lookup_insert_eq.
    + destruct (Hin y Hy) as (y' & Hl & Hy'). exists y'. by rewrite lookup_insert_ne.
  - intros id Hid. rewrite lookup_insert_ne; [by apply Hout|]. intros <-.
    by apply Hid, list_elem_of_fmap_2.
Qed.

(** Into an empty table: the table of the source, copied. *)
Lemma filled_restores (src : gmap string V) l new :
  (forall x, x ∈ l <-> src !! name x = Some x) ->
  (forall id x, src !! id = Some x -> name x = id) ->
  filled copied name l ∅ new ->
  forall id, option_Forall2 copied (src !! id) (new !! id).
Proof.
  intros Hl Hname [Hin Hout] id. destruct (src !! id) as [x|] eqn:Hx.
  - apply Hname in Hx as Hn. subst. destruct (Hin x) as (x' & -> & Hc); [by apply Hl|].
    by constructor.
  - rewrite Hout, lookup_empty; [constructor|]. intros (x & -> & Hi%Hl)%list_elem_of_fmap.
    congruence.
Qed.
End Fill.

Section FileRows.
Context `{GoEnv, GoMapOrder}.
Context {V : Type} (tbl : Store -> tenants V) (put : tenants V -> Store -> Store).
Hypothesis tbl_put : forall m s, tbl (put m s) = m.
Hypothesis put_put : forall m m' s, put m (put m' s) = put m s.
Hypothesis put_tbl : forall s, put (tbl s) s = s.
Variables (target : string) (copied : V -> V -> Prop) (name : V -> string).
Variable f : V -> service unit.

(** One row is filed. *)
Definition files (x : V) : Prop := forall s,
  effect (f x) s (fun r s' => r = Ok tt /\
    exists x', copied x x' /\ s' = put (insert2 target (name x) x' (tbl s)) s).

Lemma file_rows l s :
  (forall x, x ∈ l -> files x) ->
  (forall x y, x ∈ l -> y ∈ l -> name x = name y -> x = y) ->
  effect (for_each f l) s (fun r s' => r = Ok tt /\
    exists m, s' = put m s /\ filled copied name l (inner (tbl s) target) (inner m target)).
Proof.
  revert s. induction l as [|x l IH]; intros s Hf Hinj; simpl.
  - apply effect_ret. split; [done|]. exists (tbl s). split; [done | apply filled_nil].
  - apply effect_bind. eapply effect_mono; [apply Hf; left|].
    intros r s' (-> & x' & Hx & ->). eapply effect_mono.
    + apply IH; [intros; apply Hf; by right | intros; apply Hinj; [by right..|done]].
    + intros r s' (-> & m & -> & Hm). split; [done|]. exists m. split; [by rewrite put_put|].
      apply filled_cons with x'; [|done|].
      * intros y Hy. apply Hinj; [by right | left].
      * rewrite tbl_put in Hm. unfold insert2 in Hm. rewrite inner_insert in Hm.
        by rewrite decide_True in Hm by done.
Qed.

Lemma file_stage l w :
  (forall x, x ∈ l -> files x) -> (forall x, keeps_ids (f x)) ->
  (forall x y, x ∈ l -> y ∈ l -> name x = name y -> x = y) ->
  inner (tbl (w_ledger w)) target = ∅ ->
  exists w' m, for_each f l w = (Ok tt, w') /\ w_ledger w' = put m (w_ledger w) /\
    w_ids w' = w_ids w /\ filled copied name l ∅ (inner m target).
Proof.
  intros Hf Hids Hinj Hva. destruct (run_effect (for_each f l) tt
      (fun s' => exists m, s' = put m (w_ledger w) /\ filled copied name l ∅ (inner m target)) w)
    as (w' & Hrun & (m & Hl & Hfill) & Hi); [| |by exists w', m].
  - rewrite <- Hva. by apply file_rows.
  - by apply keeps_ids_for_each.
Qed.
End FileRows.

(** ** The rows of each kind *)
Definition moved_record (target : string) (r r' : LedgerRecord) : Prop :=
  exists c u, r' = ((r <| rec_OrgID := target |>) <| rec_CreatedAt := or_now (rec_CreatedAt r) c |>)
                     <| rec_UpdatedAt := u |>.
Definition moved_revision (target : string) (v v' : Revision) : Prop :=
  exists c, v' = (v <| rev_OrgID := target |>) <| rev_CreatedAt := or_now (rev_CreatedAt v) c |>.
Definition moved_source (target : string) (v v' : SourceRegistration) : Prop :=
  exists c u, v' = (((v <| src_OrgID := target |>) <| src_CreatedAt := or_now (src_CreatedAt v) c |>)
                      <| src_UpdatedAt := u |>) <| src_MappingSpecInline := "" |>.
Definition moved_edge (target : string) (e e' : GraphEdge) : Prop :=
  exists c u, e' = (((e <| edge_OrgID := target |>) <| edge_CreatedAt := or_now (edge_CreatedAt e) c |>)
                      <| edge_UpdatedAt := u |>) <| edge_State := or_default (edge_State e) "ACTIVE" |>.

Lemma scrub_twice m : scrubSecrets (scrubSecrets m) = scrubSecrets m.
Proof.
  apply map_eq. intros k. unfold scrubSecrets. apply option_eq. intros v.
  rewrite !map_lookup_filter_Some. tauto.
Qed.

Section Rows.
Context `{GoEnv, GoMapOrder}.
Variable target : string.
Hypothesis Htarget : target <> "".

Definition put_records (m : tenants LedgerRecord) (s : Store) : Store := s <| records := m |>.
Definition put_revisions (m : tenants Revision) (s : Store) : Store := s <| revisions := m |>.
Definition put_sources (m : tenants SourceRegistration) (s : Store) : Store := s <| sources := m |>.

(** A record that was scrubbed when it was exported *)
Lemma files_record r :
  rec_ResourceID r <> "" ->
  files records put_records target (moved_record target) rec_ResourceID (import_record target)
    (scrub_record r).
Proof.
  intros Hid s. unfold import_record. apply effect_timed. intros t. unfold UpsertRecord. simpl.
  apply is_empty_false in Htarget as ->. apply is_empty_false in Hid as ->. simpl.
  split; [done|]. eexists. split; [|reflexivity]. exists t, t. unfold scrub_record.
  destruct r; simpl. by rewrite scrub_twice.
Qed.

Lemma files_revision v :
  files revisions put_revisions target (moved_revision target) rev_RevisionID (import_revision target) v.
Proof.
  intros s. unfold import_revision. apply effect_timed. intros t. split; [done|].
  eexists. split; [|reflexivity]. by exists t.
Qed.

Lemma files_source v :
  files sources put_sources target (moved_source target) src_SourceID (import_source target)
    (scrub_source v).
Proof.
  intros s. unfold import_source. apply effect_timed. intros t. split; [done|].
  eexists. split; [|reflexivity]. exists t, t. destruct v; simpl. by rewrite scrub_twice.
Qed.

(** The record of a tombstone is there: it keeps everything but the time of update. *)
Lemma tombstone_again r r' s :
  rec_ResourceID r <> "" -> isTomb (rec_State r) = true ->
  lookup2 (records s) target (rec_ResourceID r) = Some r' -> moved_record target (scrub_record r) r' ->
  effect (import_tombstone target (tombstone_of r)) s (fun res s' => res = Ok tt /\
    exists r'', moved_record target (scrub_record r) r'' /\
      s' = put_records (insert2 target (rec_ResourceID r) r'' (records s)) s).
Proof.
  intros Hid Hst Hl (c & u & ->). unfold import_tombstone. apply effect_bind, effect_attempt.
  apply effect_on_ledger. unfold GetRecordTx, GetRecord, find. cbn [tb_ResourceID tombstone_of].
  rewrite Hl. cbn [fst snd]. apply effect_timed. intros t. unfold UpsertRecord. simpl.
  apply is_empty_false in Htarget as ->. apply is_empty_false in Hid as ->. simpl.
  split; [done|]. eexists. split; [|reflexivity].
  exists (or_now c t), t. destruct r as [id org k ti cl lb ss ex rev st at_ cr up]. simpl in *.
  unfold scrub_record, tombstone_of; simpl.
  assert (Hst' : or_default st "TOMBSTONED" = st).
  { unfold or_default. destruct (is_empty st) eqn:He; [|done].
    apply is_empty_true in He. by subst. }
  rewrite Hst'. f_equal.
  - unfold or_default. by destruct (is_empty rev).
  - unfold or_now. by destruct (is_zero_time cr) eqn:Hz; rewrite ?Hz.
Qed.

Lemma inner_insert2 {V} (m : tenants V) a b v : inner (insert2 a b v m) a = <[b := v]> (inner m a).
Proof. unfold insert2. rewrite inner_insert. by case_decide. Qed.

Lemma tombstones_kept L tbs old s :
  (forall tb, tb ∈ tbs -> exists r, (r ∈ L /\ isTomb (rec_State r) = true) /\ tb = tombstone_of r) ->
  (forall x y, x ∈ L -> y ∈ L -> rec_ResourceID x = rec_ResourceID y -> x = y) ->
  (forall r, r ∈ L -> rec_ResourceID r <> "") ->
  filled (moved_record target) rec_ResourceID (scrub_record <$> L) old (inner (records s) target) ->
  effect (for_each (import_tombstone target) tbs) s (fun res s' => res = Ok tt /\
    exists m, s' = put_records m s /\
      filled (moved_record target) rec_ResourceID (scrub_record <$> L) old (inner m target)).
Proof.
  intros Htb Hinj Hid. revert s. induction tbs as [|tb tbs IH]; intros s Hfill; simpl.
  - apply effect_ret. split; [done|]. exists (records s). split; [by destruct s | done].
  - destruct (Htb tb ltac:(left)) as (r & [Hr Hst] & ->).
    assert (Hin : scrub_record r ∈ scrub_record <$> L) by by apply list_elem_of_fmap_2.
    destruct (proj1 Hfill _ Hin) as (r' & Hl & Hmoved).
    apply effect_bind. eapply effect_mono; [by eapply tombstone_again; [apply Hid|..]|].
    intros res s' (-> & r'' & Hm & ->). eapply effect_mono; [apply IH|].
    + intros tb Hin'. apply Htb. by right.
    + change (records (put_records ?m _)) with m. rewrite inner_insert2.
      apply (filled_update (moved_record target) rec_ResourceID (scrub_record r)); [|done..].
      intros y (x & -> & Hx)%list_elem_of_fmap Heq. f_equal. by apply Hinj.
    + intros res s' (-> & m & -> & Hm'). split; [done|]. by exists m.
Qed.

(** ** Edges *)
Definition quiet_triple (s : Store) (e : GraphEdge) : Prop :=
  forall id e', lookup2 (edges s) target id = Some e' -> edge_State e' = "ACTIVE" -> triple e' <> triple e.

Lemma upsert_fresh t id e s :
  edge_FromID e <> "" -> edge_ToID e <> "" -> edge_Predicate e <> "" -> edge_FromID e <> edge_ToID e ->
  edge_EdgeID e <> "" -> quiet_triple s e ->
  exists e', moved_edge target e e' /\ triple e' = triple e /\
    UpsertEdge t id (e <| edge_OrgID := target |>) s =
      (Ok tt, s <| edges := insert2 target (edge_EdgeID e) e' (edges s) |>).
Proof.
  intros Hf Ht Hp Hft Hid Hq. eexists. split; [by exists t, t|]. split; [done|].
  unfold UpsertEdge. simpl. apply is_empty_false in Htarget as ->.
  apply is_empty_false in Hf as ->. apply is_empty_false in Ht as ->. apply is_empty_false in Hp as ->.
  apply String.eqb_neq in Hft as ->. simpl. unfold modify. f_equal. unfold or_default at 1.
  apply is_empty_false in Hid as Hid'. rewrite Hid'.
  destruct (find_entry _ _) as [[k e0]|] eqn:Hfind.
  - apply find_row_Some in Hfind as [Hl Ha]. unfold active_triple in Ha. simpl in Ha. bools.
    destruct (Hq k e0 Hl); [done|]. unfold triple. congruence.
  - simpl. unfold or_default. by rewrite Hid'.
Qed.

Definition sound_edge (e : GraphEdge) : Prop :=
  edge_FromID e <> "" /\ edge_ToID e <> "" /\ edge_Predicate e <> "" /\
  edge_FromID e <> edge_ToID e /\ edge_EdgeID e <> "".

(** The edge in the target organization *)
Definition in_target (e : GraphEdge) : GraphEdge := e <| edge_OrgID := target |>.

(** The access that the edge passes on is queued, and the loop remembers it. *)
Definition passed_on (e : GraphEdge) (seen : list string) (w : World) : Prop :=
  queued OperationWrite w (in_target e) /\
  authz_key (ResourceObject (edge_FromID e)) "parent" (ResourceObject (edge_ToID e)) ∈ seen.

(** Only the edges and the queue of the ledger change. *)
Definition edges_to (w w' : World) (m : tenants GraphEdge) : Prop :=
  exists T, w_ledger w' = ((w_ledger w) <| edges := m |>) <| authzTuples := T |>.

Lemma import_edge_spec seen e w :
  sound_edge e -> quiet_triple (w_ledger w) e -> fresh_ids w ->
  exists seen' w' e', import_edge target seen e w = (Ok seen', w') /\
    moved_edge target e e' /\ triple e' = triple e /\
    edges_to w w' (insert2 target (edge_EdgeID e) e' (edges (w_ledger w))) /\ fresh_ids w' /\
    (inherits e = true -> passed_on e seen' w') /\
    (forall x, x ∈ seen -> x ∈ seen') /\
    (forall operation y, queued operation w y -> queued operation w' y).
Proof.
  intros (Hf & Ht & Hp & Hft & Hid) Hq Hfresh. unfold import_edge.
  rewrite (bind_run tick _ _ _ _ eq_refl), (bind_run draw _ _ _ _ eq_refl).
  destruct (upsert_fresh (clock (w_clock w)) (fresh_id (w_ids w)) e (w_ledger w)) as (e' & Hm & Htr & Hu); [done..|].
  set (w1 := ((w <| w_clock := S (w_clock w) |>) <| w_ids := S (w_ids w) |>)
               <| w_ledger := (w_ledger w) <| edges := insert2 target (edge_EdgeID e) e' (edges (w_ledger w)) |> |>).
  rewrite (bind_run _ _ _ tt w1) by (unfold on_ledger; simpl in Hu |- *; by rewrite Hu).
  assert (Hf1 : fresh_ids w1).
  { destruct Hfresh as (? & ? & Hr). split_and!; [done..|]. intros n a Hn. apply Hr. simpl in Hn. lia. }
  cbn [edge_State]. change (edge_State (e <| edge_OrgID := target |>)) with (edge_State e).
  destruct (String.eqb_spec (edge_State e) "ACTIVE") as [Hact|Hdead].
  2: { exists seen, w1, e'. split_and!; try done; [by exists (authzTuples (w_ledger w))|].
       unfold inherits. by apply String.eqb_neq in Hdead as ->. }
  rewrite (bind_run tick _ _ _ _ eq_refl). set (w2 := w1 <| w_clock := S (w_clock w1) |>).
  assert (Hf2 : fresh_ids w2) by done.
  change (NeedsSynchronization (e <| edge_OrgID := target |>)) with (NeedsSynchronization e).
  destruct (NeedsSynchronization e) eqn:Hn.
  - destruct (enqueue_spec (clock (w_clock w1)) OperationWrite (in_target e) w2 Hf2)
      as (w3 & Hrun & [T ->] & Hf3 & Hqu & Hkeep); [by split | by left|].
    unfold in_target in Hrun. rewrite (bind_run _ _ _ _ _ Hrun).
    eexists _, _, e'. split_and!; [reflexivity | done | done | by exists T | done | | |].
    + intros _. split; [done|]. left.
    + intros x Hx. by right.
    + intros op y Hy. by apply Hkeep.
  - erewrite bind_run; cycle 1.
    { rewrite (bind_run draw _ _ _ _ eq_refl). unfold timed. rewrite (bind_run tick _ _ _ _ eq_refl).
      unfold on_ledger, EnqueueForEdge.
      change (NeedsSynchronization (e <| edge_OrgID := target |>)) with (NeedsSynchronization e).
      rewrite Hn. reflexivity. }
    eexists _, _, e'. split_and!; try done; [by exists (authzTuples (w_ledger w)) | |].
    + destruct Hf2 as (? & ? & Hr). split_and!; [done..|]. intros n a Hle. apply Hr. simpl in Hle |- *. lia.
    + unfold inherits. unfold NeedsSynchronization in Hn. intros [[_ Hs]%andb_prop Hpred]%andb_prop.
      by rewrite Hs, Hpred in Hn.
Qed.

Lemma import_edges_spec l seen w :
  (forall e, e ∈ l -> sound_edge e) ->
  (forall x y, x ∈ l -> y ∈ l -> edge_EdgeID x = edge_EdgeID y -> x = y) ->
  NoDup (triple <$> l) ->
  (forall e, e ∈ l -> quiet_triple (w_ledger w) e) -> fresh_ids w ->
  exists seen' w' m, fold_m (import_edge target) seen l w = (Ok seen', w') /\
    edges_to w w' m /\ fresh_ids w' /\
    filled (moved_edge target) edge_EdgeID l (inner (edges (w_ledger w)) target) (inner m target) /\
    (forall e, e ∈ l -> inherits e = true -> passed_on e seen' w') /\
    (forall x, x ∈ seen -> x ∈ seen') /\
    (forall operation y, queued operation w y -> queued operation w' y).
Proof.
  intros Hsound Hinj. revert seen w. induction l as [|e l IH]; intros seen w Hnd Hq Hfresh; cbn [fold_m].
  { exists seen, w, (edges (w_ledger w)). split_and!; try done.
    - exists (authzTuples (w_ledger w)). by destruct (w_ledger w).
    - apply filled_nil.
    - by intros e ?%elem_of_nil. }
  rewrite fmap_cons in Hnd. apply NoDup_cons in Hnd as [Hnew Hnd].
  destruct (import_edge_spec seen e w) as (seen1 & w1 & e' & Hrun & Hm & Htr & [T Hl] & Hf1 & Hpass & Hsub & Hkeep);
    [apply Hsound; left | apply Hq; left | done|].
  rewrite (bind_run _ _ _ _ _ Hrun).
  assert (He1 : edges (w_ledger w1) = insert2 target (edge_EdgeID e) e' (edges (w_ledger w))) by (by rewrite Hl).
  destruct (IH ltac:(intros; apply Hsound; by right) ltac:(intros; apply Hinj; [by right..|done]) seen1 w1)
    as (seen' & w' & m & Hrest & [T' Hl'] & Hf' & Hfill & Hpass' & Hsub' & Hkeep'); [done | | done|].
  { intros y Hy id v. rewrite He1, lookup2_insert2. case_decide; [|apply Hq; by right].
    intros [= <-] _. rewrite Htr. intros Heq. apply Hnew. rewrite Heq. by apply list_elem_of_fmap_2. }
  exists seen', w', m. split_and!; [done | | done | | | auto | auto].
  - exists T'. rewrite Hl', Hl. by destruct (w_ledger w).
  - apply filled_cons with e'; [|done|].
    + intros y Hy. apply Hinj; [by right | left].
    + by rewrite He1, inner_insert2 in Hfill.
  - intros y [->|Hy]%elem_of_cons Hi; [|by apply Hpass'].
    destruct (Hpass Hi) as [Hqu Hs]. split; auto.
Qed.

(** Every tuple of the manifest stands for an edge that was imported: none is left. *)
Lemma tuples_covered seen now l w :
  (forall t, t ∈ l -> authz_key (tm_Object t) (tm_Relation t) (tm_Subject t) ∈ seen) ->
  for_each (import_tuple target seen now) l w = (Ok tt, w).
Proof.
  induction l as [|t l IH]; intros Hl; [done|]. cbn [for_each].
  rewrite (bind_run _ _ _ tt w); [apply IH; intros; apply Hl; by right|].
  unfold import_tuple. by rewrite (proj2 (mem_str_In _ _) (Hl t ltac:(left))).
Qed.
End Rows.

(** ** The transfer *)

(** No row is nameless, every revision has its record, and no dead edge shadows
    another of the same endpoints and predicate. *)
Record movable (s : Store) (org : string) : Prop := {
  mv_records : lookup2 (records s) org "" = None;
  mv_edges : lookup2 (edges s) org "" = None;
  mv_revisions : forall v, filed_in org (revisions s) v ->
    is_Some (lookup2 (records s) org (rev_ResourceID v));
  mv_triples : forall e1 e2, filed_in org (edges s) e1 -> filed_in org (edges s) e2 ->
    triple e1 = triple e2 -> e1 = e2;
}.

Record vacant (s : Store) (org : string) : Prop := {
  va_records : inner (records s) org = ∅;
  va_revisions : inner (revisions s) org = ∅;
  va_sources : inner (sources s) org = ∅;
  va_edges : inner (edges s) org = ∅;
}.

(** The tables of [target] in [s'] are those of [org] in [s], filed under [target], with
    secret attributes removed and new times of update. *)
Record restored (s : Store) (org : string) (s' : Store) (target : string) : Prop := {
  re_records : forall id, option_Forall2 (fun r => moved_record target (scrub_record r))
    (inner (records s) org !! id) (inner (records s') target !! id);
  re_revisions : forall id, option_Forall2 (moved_revision target)
    (inner (revisions s) org !! id) (inner (revisions s') target !! id);
  re_sources : forall id, option_Forall2 (fun v => moved_source target (scrub_source v))
    (inner (sources s) org !! id) (inner (sources s') target !! id);
  re_edges : forall id, option_Forall2 (moved_edge target)
    (inner (edges s) org !! id) (inner (edges s') target !! id);
}.

Section Transfer.
Context `{GoEnv, GoMapOrder}.
Variables (s : Store) (org target : string).
Hypothesis Htarget : target <> "".
Hypothesis Hok : ledger_ok s.
Hypothesis Hmove : movable s org.

Lemma record_named r : filed_in org (records s) r -> rec_ResourceID r <> "".
Proof.
  intros (id & Hr) He. destruct (ok_records s Hok _ _ _ Hr) as [_ <-].
  rewrite He, (mv_records _ _ Hmove) in Hr. done.
Qed.

Lemma edge_sound e : filed_in org (edges s) e -> sound_edge e.
Proof.
  intros (id & He). destruct (edges_named _ (ok_edges s Hok) _ _ _ He) as (_ & ? & ? & ? & ?).
  destruct (edges_filed _ (ok_edges s Hok) _ _ _ He) as [_ <-].
  split_and!; try done. intros Hn. rewrite Hn, (mv_edges _ _ Hmove) in He. done.
Qed.

Lemma filed_inj {V} (tbl : tenants V) (name : V -> string) (P : string -> V -> Prop) x y :
  all_rows (fun a b v => P a v /\ name v = b) tbl ->
  filed_in org tbl x -> filed_in org tbl y -> name x = name y -> x = y.
Proof.
  intros Hall Hx%elem_of_rows Hy%elem_of_rows. by apply (rows_inj name P tbl Hall org).
Qed.

Lemma records_stage w :
  inner (records (w_ledger w)) target = ∅ ->
  exists w' m, for_each (import_record target) (scrub_record <$> snap_records s org) w = (Ok tt, w') /\
    w_ledger w' = put_records m (w_ledger w) /\ w_ids w' = w_ids w /\
    filled (moved_record target) rec_ResourceID (scrub_record <$> snap_records s org) ∅ (inner m target).
Proof.
  apply file_stage; [done | done | by intros [] | | intros x; apply keeps_ids_timed |].
  - intros x (r & -> & Hr%in_snap_records)%list_elem_of_fmap. by apply files_record, record_named.
  - intros x y (r1 & -> & H1%in_snap_records)%list_elem_of_fmap (r2 & -> & H2%in_snap_records)%list_elem_of_fmap Heq.
    f_equal. eapply (filed_inj (records s) rec_ResourceID (fun a r => rec_OrgID r = a)); [apply Hok | done..].
Qed.

Lemma revisions_stage w :
  inner (revisions (w_ledger w)) target = ∅ ->
  exists w' m, for_each (import_revision target) (snap_revisions s org) w = (Ok tt, w') /\
    w_ledger w' = put_revisions m (w_ledger w) /\ w_ids w' = w_ids w /\
    filled (moved_revision target) rev_RevisionID (snap_revisions s org) ∅ (inner m target).
Proof.
  apply file_stage; [done | done | by intros [] | | intros x; apply keeps_ids_timed |].
  - intros x _. apply files_revision.
  - intros x y [Hx _]%in_snap_revisions [Hy _]%in_snap_revisions; [|done..].
    eapply (filed_inj (revisions s) rev_RevisionID (fun a r => rev_OrgID r = a)); [apply Hok | done..].
Qed.

Lemma sources_stage w :
  inner (sources (w_ledger w)) target = ∅ ->
  exists w' m, for_each (import_source target) (snap_sources s org) w = (Ok tt, w') /\
    w_ledger w' = put_sources m (w_ledger w) /\ w_ids w' = w_ids w /\
    filled (moved_source target) src_SourceID (snap_sources s org) ∅ (inner m target).
Proof.
  apply file_stage; [done | done | by intros [] | | intros x; apply keeps_ids_timed |].
  - intros x (v & _ & ->)%in_snap_sources. apply files_source.
  - intros x y (v1 & Hv1 & ->)%in_snap_sources (v2 & Hv2 & ->)%in_snap_sources Heq.
    f_equal. eapply (filed_inj (sources s) src_SourceID (fun a r => src_OrgID r = a)); [apply Hok | done..].
Qed.

Lemma edges_stage w :
  inner (edges (w_ledger w)) target = ∅ -> fresh_ids w ->
  exists seen w' m, fold_m (import_edge target) [] (snap_edges s org) w = (Ok seen, w') /\
    edges_to w w' m /\ fresh_ids w' /\
    filled (moved_edge target) edge_EdgeID (snap_edges s org) ∅ (inner m target) /\
    forall e, filed_in org (edges s) e -> inherits e = true -> passed_on target e seen w'.
Proof.
  intros Hva Hfresh. assert (Hinj : forall x y, x ∈ snap_edges s org -> y ∈ snap_edges s org ->
    edge_EdgeID x = edge_EdgeID y -> x = y).
  { intros x y Hx%in_snap_edges Hy%in_snap_edges.
    eapply (filed_inj (edges s) edge_EdgeID (fun a e => edge_OrgID e = a)); [|done..].
    apply edges_filed, Hok. }
  destruct (import_edges_spec target Htarget (snap_edges s org) [] w)
    as (seen & w' & m & Hrun & Hto & Hf & Hfill & Hpass & _); [| done | | | done |].
  - intros e He%in_snap_edges. by apply edge_sound.
  - apply NoDup_fmap_2_strong.
    + intros x y Hx%in_snap_edges Hy%in_snap_edges. by apply (mv_triples _ _ Hmove).
    + apply (NoDup_fmap_1 edge_EdgeID). unfold snap_edges. rewrite (by_key_perm edge_EdgeID).
      apply (NoDup_rows edge_EdgeID (fun a e => edge_OrgID e = a)), edges_filed, Hok.
  - intros e _ id e'. unfold lookup2. by rewrite Hva, lookup_empty.
  - exists seen, w', m. rewrite Hva in Hfill. split_and!; try done.
    intros e He. apply Hpass. by apply in_snap_edges.
Qed.

Lemma tombstones_stage w :
  filled (moved_record target) rec_ResourceID (scrub_record <$> snap_records s org) ∅
    (inner (records (w_ledger w)) target) ->
  exists w' m, for_each (import_tombstone target) (snap_tombstones s org) w = (Ok tt, w') /\
    w_ledger w' = put_records m (w_ledger w) /\ w_ids w' = w_ids w /\
    filled (moved_record target) rec_ResourceID (scrub_record <$> snap_records s org) ∅ (inner m target).
Proof.
  intros Hfill. destruct (run_effect (for_each (import_tombstone target) (snap_tombstones s org)) tt
      (fun s' => exists m, s' = put_records m (w_ledger w) /\
         filled (moved_record target) rec_ResourceID (scrub_record <$> snap_records s org) ∅ (inner m target)) w)
    as (w' & Hrun & (m & Hl & Hf) & Hi); [| |by exists w', m].
  - apply (tombstones_kept target Htarget (snap_records s org) (snap_tombstones s org)); [| | |exact Hfill].
    + intros tb (r & [Hr Hst] & ->)%in_snap_tombstones. exists r. by rewrite in_snap_records.
    + intros x y Hx%in_snap_records Hy%in_snap_records.
      eapply (filed_inj (records s) rec_ResourceID (fun a r => rec_OrgID r = a)); [apply Hok | done..].
    + intros r Hr%in_snap_records. by apply record_named.
  - apply keeps_ids_for_each. intros x w'. unfold import_tombstone, mbind, M_bind, attempt.
    destruct (on_ledger _ w') as [r w1] eqn:Ho. unfold on_ledger in Ho.
    destruct (GetRecordTx _ _ _); injection Ho as <- <-. by rewrite keeps_ids_timed.
Qed.

Lemma restored_rows {V} (tbl : tenants V) (name : V -> string) (P : string -> V -> Prop) (g : V -> V)
    (copied : V -> V -> Prop) l (new : gmap string V) :
  all_rows (fun a b v => P a v /\ name v = b) tbl -> (forall v, name (g v) = name v) ->
  (forall x, x ∈ l <-> exists v, filed_in org tbl v /\ x = g v) ->
  filled copied name l ∅ new ->
  forall id, option_Forall2 (fun v => copied (g v)) (inner tbl org !! id) (new !! id).
Proof.
  intros Hall Hg Hl Hfill id.
  assert (Hname : forall id v, inner tbl org !! id = Some v -> name v = id).
  { intros i v Hv. by destruct (Hall org i v Hv). }
  assert (Hres : option_Forall2 copied ((g <$> inner tbl org) !! id) (new !! id)).
  { apply (filled_restores copied name _ l); [| |done].
    - intros x. rewrite Hl, lookup_fmap, fmap_Some. split.
      + intros (v & (i & Hi) & ->). exists v. rewrite Hg. split; [|done].
        apply Hname in Hi as Hn. by subst.
      + intros (v & Hv & ->). exists v. split; [by eexists | done].
    - intros i x. rewrite lookup_fmap, fmap_Some. intros (v & Hv & ->). rewrite Hg. by apply Hname. }
  rewrite lookup_fmap in Hres. destruct (inner tbl org !! id); inversion Hres; by constructor.
Qed.

(** The rows of a manifest, in an empty organization *)
Lemma import_rows_spec m w :
  em_Records m = Some (scrub_record <$> snap_records s org) ->
  em_Revisions m = Some (snap_revisions s org) -> em_Sources m = Some (snap_sources s org) ->
  em_GraphEdges m = Some (snap_edges s org) -> em_Tombstones m = Some (snap_tombstones s org) ->
  em_AuthzTuples m = Some (snap_tuples s org) ->
  vacant (w_ledger w) target -> fresh_ids w ->
  exists w', import_rows target m w = (Ok tt, w') /\ restored s org (w_ledger w') target /\
    forall e, filed_in org (edges s) e -> inherits e = true ->
      queued OperationWrite w' (in_target target e).
Proof.
  intros Hr Hv Hs He Ht Ha [Var Vav Vas Vae] Hfresh. unfold import_rows.
  rewrite Hr, Hv, Hs, He, Ht, Ha. cbn [default from_option id].
  destruct (records_stage w Var) as (w1 & m1 & R1 & L1 & I1 & F1). rewrite (bind_run _ _ _ _ _ R1).
  destruct (revisions_stage w1) as (w2 & m2 & R2 & L2 & I2 & F2); [by rewrite L1|].
  rewrite (bind_run _ _ _ _ _ R2).
  destruct (sources_stage w2) as (w3 & m3 & R3 & L3 & I3 & F3); [by rewrite L2, L1|].
  rewrite (bind_run _ _ _ _ _ R3).
  destruct (edges_stage w3) as (seen & w4 & m4 & R4 & [T L4] & Hf4 & F4 & Hpass).
  { by rewrite L3, L2, L1. }
  { apply (fresh_ids_same w); [by rewrite L3, L2, L1 | by rewrite I3, I2, I1 | done]. }
  rewrite (bind_run _ _ _ _ _ R4).
  destruct (tombstones_stage w4) as (w5 & m5 & R5 & L5 & I5 & F5); [by rewrite L4, L3, L2, L1|].
  rewrite (bind_run _ _ _ _ _ R5). rewrite (bind_run tick _ _ _ _ eq_refl).
  rewrite tuples_covered.
  2: { intros t (e & [He1 He2] & ->)%in_snap_tuples. by apply (Hpass e He1 He2). }
  eexists. split; [reflexivity|]. split.
  - change (w_ledger (w5 <| w_clock := S (w_clock w5) |>)) with (w_ledger w5). split.
    + rewrite L5. change (records (put_records ?m _)) with m.
      apply (restored_rows (records s) rec_ResourceID (fun a r => rec_OrgID r = a) scrub_record _
               (scrub_record <$> snap_records s org)); [apply Hok | done | | done].
      apply in_scrubbed.
    + rewrite L5, L4, L3, L2. change (revisions (put_records _ _)) with m2.
      apply (restored_rows (revisions s) rev_RevisionID (fun a r => rev_OrgID r = a) id _
               (snap_revisions s org)); [apply Hok | done | | done].
      intros v. rewrite in_snap_revisions by done. split; [intros [Hx _]; by exists v|].
      intros (v' & Hx & ->). split; [done|]. by apply (mv_revisions _ _ Hmove).
    + rewrite L5, L4, L3. change (sources (put_records _ _)) with m3.
      apply (restored_rows (sources s) src_SourceID (fun a r => src_OrgID r = a) scrub_source _
               (snap_sources s org)); [apply Hok | done | apply in_snap_sources | done].
    + rewrite L5, L4. change (edges (put_records _ _)) with m4.
      apply (restored_rows (edges s) edge_EdgeID (fun a e => edge_OrgID e = a) id _
               (snap_edges s org)); [apply edges_filed, Hok | done | | done].
      intros e. rewrite in_snap_edges. split; [by exists e | by intros (? & ? & ->)].
  - intros e He1 He2. apply (queued_same _ w4); [simpl; by rewrite L5 | by apply Hpass].
Qed.
End Transfer.

Lemma sealed_nonempty raw : is_empty (sealed raw) = false.
Proof. done. Qed.

#[local] Opaque sealed.

Lemma sum_of_seal m :
  attr (em_Checksums (seal m)) "manifest_sha256" = HashManifest m /\ HashManifest (seal m) = HashManifest m.
Proof. split; [|reflexivity]. unfold attr, seal. simpl. by rewrite lookup_singleton_eq. Qed.

Lemma hash_nonempty m : HashManifest m <> "".
Proof. apply is_empty_false, sealed_nonempty. Qed.

Lemma seal_accepted m : em_FormatVersion m = FormatVersion -> accepts (seal m).
Proof.
  intros Hv. destruct (sum_of_seal m) as [Hs Hh]. split; [done|]. rewrite Hs, Hh.
  split; [apply hash_nonempty | done].
Qed.

Lemma import_started `{GoEnv, GoMapOrder} target m w :
  target <> "" -> accepts m -> vacant (w_ledger w) target -> fresh_ids w ->
  exists w', ImportInto target m w = import_rows target m w' /\ vacant (w_ledger w') target /\
    fresh_ids w'.
Proof.
  intros Ht%is_empty_false (Hv & Hne%is_empty_false & Hsum) Hvac Hfresh. unfold ImportInto.
  rewrite Ht, Hv, String.eqb_refl, Hne, Hsum, String.eqb_refl. cbn [negb orb].
  unfold WithOrgTx. rewrite Ht.
  destruct (orgs (w_ledger w) !! target) as [o|] eqn:Ho.
  - rewrite (bind_run _ _ w (Ok o) w)
      by (apply attempt_run; unfold on_ledger, GetOrganization; rewrite Ho; by destruct w).
    by exists w.
  - rewrite (bind_run _ _ w (Err (ErrNotFound "organization not found")) w)
      by (apply attempt_run; unfold on_ledger, GetOrganization; rewrite Ho; by destruct w).
    erewrite bind_run; cycle 1.
    { rewrite (bind_run tick _ _ _ _ eq_refl). apply attempt_run. unfold timed.
      rewrite (bind_run tick _ _ _ _ eq_refl). unfold on_ledger, CreateOrganization. simpl.
      rewrite Ho. reflexivity. }
    eexists. split; [reflexivity|]. split; [by destruct Hvac | done].
Qed.

Lemma import_rows_seal `{GoEnv, GoMapOrder} target m :
  import_rows target (seal (m <| em_OrganizationID := target |>)) = import_rows target m.
Proof. unfold import_rows. reflexivity. Qed.

Lemma ImportExport_started `{GoEnv, GoMapOrder} target m w :
  target <> "" -> em_FormatVersion m = FormatVersion ->
  attr (em_Checksums m) "manifest_sha256" = HashManifest m ->
  vacant (w_ledger w) target -> fresh_ids w ->
  exists w', ImportExport target m w = import_rows target m w' /\ vacant (w_ledger w') target /\
    fresh_ids w'.
Proof.
  intros Ht Hv Hsum Hvac Hfresh. unfold ImportExport. rewrite Hsum, String.eqb_refl.
  rewrite (proj2 (is_empty_false _) (hash_nonempty m)). cbn [negb orb].
  destruct (import_started target (seal (m <| em_OrganizationID := target |>)) w) as (w' & Hrun & Hrest);
    [done | by apply seal_accepted | done..|].
  exists w'. rewrite import_rows_seal in Hrun. by split.
Qed.

(** C30 An export imported into a vacant organization restores it. For an export without
    evidence from a well-formed ledger whose records and edges are within the exporter's
    caps, where no record has more than 10000 revisions ([Build] leaves out the rest), no
    record or edge is filed under an empty name, every revision has its record and no two
    edges share endpoints and predicate ([movable]: a dead edge would shadow the other),
    and for a target without records, revisions, sources and edges and identifiers drawn
    that are fresh: the import of what [Build] produced is accepted, and every record,
    revision, source and edge of the source organization, and no other, is then in the
    target under the same name, deleted records still deleted. A row restored differs from
    the one exported in its organization, in the secret attributes of records and sources,
    which are removed, in its time of update, in a time of creation that was not set, in an
    edge's state that was not set, and in the inline mapping of a source, which is cleared;
    in nothing else, so that a source brings its signing secret along. And the access that an active parent edge passes on is queued for the
    target's edge. *)
Theorem export_import_roundtrip `{GoEnv, GoMapOrder} sv org target createdBy w w2 :
  exportable (w_ledger w) org sv -> movable (w_ledger w) org -> exp_Evidence sv = false ->
  target <> "" -> vacant (w_ledger w2) target -> fresh_ids w2 ->
  exists m w3, (Build sv org createdBy w).1 = Ok m /\ ImportExport target m w2 = (Ok tt, w3) /\
    restored (w_ledger w) org (w_ledger w3) target /\
    forall e, filed_in org (edges (w_ledger w)) e -> inherits e = true ->
      queued OperationWrite w3 (in_target target e).
Proof.
  intros Hx Hmove Hev Htarget Hvac Hfresh. rewrite (Build_run sv org createdBy Hev w Hx). cbn [fst].
  set (m0 := snapshot _ _ _ _ _). destruct (sum_of_seal m0) as [Hs Hh].
  destruct (ImportExport_started target (seal m0) w2) as (w' & Hrun & Hvac' & Hfresh');
    [done | done | by rewrite Hs, Hh | done..|].
  destruct (import_rows_spec (w_ledger w) org target Htarget (xp_ok _ _ _ Hx) Hmove m0 w')
    as (w3 & Hrows & Hres & Hq); [done..|].
  exists (seal m0), w3. split_and!; [done | | done | done]. rewrite Hrun. exact Hrows.
Qed.

(** ** A concrete transfer *)
#[local] Existing Instances tally_env order_forward.

Definition moving_record (id state : string) : LedgerRecord :=
  mkRecord id "acme" "document" id "internal" [] "" "" "v1" state {["token" := "x"]} 3 3.
Definition moving_edge : GraphEdge :=
  mkEdge "e1" "acme" "a" "b" EdgeParent f_one "ACTIVE" true ∅ 4 4.
Definition moving_revision : Revision := mkRevision "v1" "a" "acme" "h" "" 1 "INDEXED" ∅ 3 3.
Definition moving_source : SourceRegistration :=
  mkSource "src" "acme" "crm" "" "verified" "" "" "" "" "" "" true "s3cret" 0 [] [] ∅ 3 3.
(** The record "b" is in the given state. *)
Definition moving_store (state : string) : Store :=
  run [CUpsertRecord 5 (moving_record "a" "INDEXED"); CUpsertRecord 6 (moving_record "b" state);
       CAppendRevision 6 moving_revision; CUpsertSource 6 moving_source;
       CUpsertEdge 7 "e" moving_edge] NewStore.
Definition moving_world (state : string) : World :=
  mkWorld (moving_store state) None None NewMemory [] [] 0 0.
Definition exporter : ExportService := mkExportService false 0 0.
Definition small_exporter : ExportService := mkExportService false 1 0.

Lemma moving_revisions state : rows (revisions (moving_store state)) "acme" = [moving_revision].
Proof. vm_compute. reflexivity. Qed.
Lemma moving_edges state :
  rows (edges (moving_store state)) "acme" = [moving_edge <| edge_UpdatedAt := 7 |>].
Proof. vm_compute. reflexivity. Qed.
Lemma moving_records state :
  rows (records (moving_store state)) "acme" =
  [(moving_record "a" "INDEXED") <| rec_UpdatedAt := 5 |>; (moving_record "b" state) <| rec_UpdatedAt := 6 |>].
Proof. vm_compute. reflexivity. Qed.

Lemma moving_exportable state : exportable (moving_store state) "acme" exporter.
Proof.
  split.
  - apply run_ok, ledger_ok_new.
  - discriminate.
  - rewrite moving_records. vm_compute. split; congruence.
  - rewrite moving_edges. vm_compute. split; congruence.
  - intros id. unfold revisions_for. rewrite moving_revisions. unfold zlen.
    pose proof (length_filter (fun v => String.eqb (rev_ResourceID v) id = true) [moving_revision]) as Hl.
    cbn [length] in Hl. lia.
Qed.

Lemma moving_movable state : movable (moving_store state) "acme".
Proof.
  split.
  - vm_compute. reflexivity.
  - vm_compute. reflexivity.
  - intros v Hv%elem_of_rows. rewrite moving_revisions in Hv. apply list_elem_of_singleton in Hv as ->.
    vm_compute. by eexists.
  - intros e1 e2 H1%elem_of_rows H2%elem_of_rows. rewrite moving_edges in *.
    apply list_elem_of_singleton in H1 as ->. by apply list_elem_of_singleton in H2 as ->.
Qed.

Lemma moving_fresh state : fresh_ids (moving_world state).
Proof.
  destruct lost_world_fresh as (? & ? & _). split_and!; [done..|]. intros n a _.
  unfold row_of. simpl. apply lookup2_empty.
Qed.

Lemma export_import_roundtrip_witness :
  exists m w3, (Build exporter "acme" "alice" (moving_world "TOMBSTONED")).1 = Ok m /\
    ImportExport "copy" m (moving_world "TOMBSTONED") = (Ok tt, w3).
Proof.
  destruct (@export_import_roundtrip tally_env order_forward exporter "acme" "copy" "alice"
    (moving_world "TOMBSTONED") (moving_world "TOMBSTONED") (moving_exportable _) (moving_movable _) eq_refl)
    as (m & w3 & Hb & Hi & _); [discriminate | split; vm_compute; reflexivity | apply moving_fresh |].
  exists m, w3. split; [exact Hb | exact Hi].
Defined.

Lemma export_complete_witness :
  exists m, (Build exporter "acme" "alice" (moving_world "INDEXED")).1 = Ok m /\
    complete (moving_store "INDEXED") "acme" m.
Proof.
  destruct (@export_complete tally_env order_forward exporter "acme" "alice" (moving_world "INDEXED")
    (moving_exportable _) eq_refl) as (m & Hb & _ & _ & Hc & _).
  exists m. rewrite Hb. split; [reflexivity | exact Hc].
Defined.

Lemma export_hash_stable_witness :
  exists m1 m2, (@Build _ order_forward exporter "acme" "alice" (moving_world "INDEXED")).1 = Ok m1 /\
    (@Build _ order_backward exporter "acme" "bob" (moving_world "INDEXED")).1 = Ok m2 /\
    em_Checksums m1 = em_Checksums m2.
Proof.
  destruct (@export_hash_stable tally_env order_forward order_backward exporter "acme" "alice" "bob"
    (moving_world "INDEXED") (moving_world "INDEXED") (moving_exportable _) eq_refl eq_refl)
    as (m1 & m2 & H1 & H2 & Hs & _).
  exists m1, m2. split; [exact H1|]. split; [exact H2 | exact Hs].
Defined.

Lemma export_refuses_oversize_witness :
  exists msg, (Build small_exporter "acme" "alice" (moving_world "INDEXED")).1 = Err (ErrValidation msg).
Proof.
  destruct (@export_refuses_oversize tally_env order_forward small_exporter "acme" "alice" (moving_world "INDEXED"))
    as [msg Hm]; [discriminate | reflexivity | reflexivity | left; vm_compute; reflexivity |].
  exists msg. rewrite Hm. reflexivity.
Defined.

(** The document is there: the times have four-digit years. *)
Definition moving_payload : option string :=
  let s := moving_store "INDEXED" in
  payload (mkExport FormatVersion "" "acme" 0 "" "" ∅ [] (Some schemaVersions)
    (Some (scrub_record <$> snap_records s "acme")) (Some (snap_revisions s "acme"))
    (Some (snap_sources s "acme")) (Some (snap_tombstones s "acme")) (Some (snap_edges s "acme"))
    (Some (snap_tuples s "acme")) (Some (snap_refs s "acme"))).
Lemma moving_payload_some : exists raw, moving_payload = Some raw.
Proof. vm_compute. by eexists. Qed.

Lemma transmitted_export_refused_witness :
  exists m raw raw', (Build exporter "acme" "alice" (moving_world "INDEXED")).1 = Ok m /\
    moving_payload = Some raw /\ payload (transmitted m) = Some raw' /\ raw' <> raw.
Proof.
  destruct moving_payload_some as [raw Hraw].
  destruct (@transmitted_export_refused tally_env order_forward exporter "acme" "alice"
    (moving_world "INDEXED") raw (moving_exportable _) eq_refl) as (m & Hb & Hall).
  - intros r Hr%elem_of_rows. change (w_ledger _) with (moving_store "INDEXED") in Hr.
    rewrite moving_records in Hr.
    apply elem_of_cons in Hr as [->|Hr]; [reflexivity|]. by apply list_elem_of_singleton in Hr as ->.
  - rewrite (Build_run exporter "acme" "alice" eq_refl (moving_world "INDEXED") (moving_exportable _)) in Hb |- *.
    injection Hb as <-. destruct (Hall Hraw) as (raw' & Hp & Hne & _).
    eexists _, raw, raw'. split; [reflexivity|]. split; [exact Hraw|]. split; [exact Hp | exact Hne].
Defined.
