(* ===== verification/Traces.v ===== *)
(** * Runs as sequences of ledger calls

    Whatever an operation does to the ledger, it does by calling the ledger's methods.
    [traced view P m Q]: from a well-formed ledger, a run of [m] leaves the ledger that some
    [call]s satisfying [P] make of it, and a result that it returns satisfies [Q]. The rules
    follow the structure of the programs; those of the calls are hints. *)
From S2P Require Import Prelude GoStd Ports Platform Mapping Ledger LedgerFacts AuditLog Index OpenFGA.
From S2P Require Import Changes World Ingest Worker Deletion Export.

Create HintDb traces.

(** Calls without restriction, and those that touch no organization but [org] *)
Definition anything (c : call) : Prop := True.
Definition within (org : string) (c : call) : Prop := forall a, a <> org -> may_touch c a = false.
Definition whatever {A} (x : A) : Prop := True.
Definition on_ok {A} (Q : A -> Prop) (r : result GoError A) : Prop :=
  match r with Ok x => Q x | Err _ => True end.

Lemma run_app `{GoMapOrder} cs cs' s : run (cs ++ cs') s = run cs' (run cs s).
Proof. apply foldl_app. Qed.

Section Traced.
Context `{GoMapOrder} {S : Type} (view : S -> Store) (P : call -> Prop).

Definition calls (s s' : S) : Prop := exists cs, Forall P cs /\ view s' = run cs (view s).
Definition traced {A} (m : M GoError S A) (Q : A -> Prop) : Prop :=
  forall s, ledger_ok (view s) -> calls s (m s).2 /\ on_ok Q (m s).1.

Lemma calls_none s s' : view s' = view s -> calls s s'.
Proof. intros Hv. by exists []. Qed.
Lemma calls_trans s1 s2 s3 : calls s1 s2 -> calls s2 s3 -> calls s1 s3.
Proof.
  intros (cs & Hcs & H1) (cs' & Hcs' & H2). exists (cs ++ cs').
  rewrite run_app, H2, H1. by split; [apply Forall_app|].
Qed.
Lemma calls_ok s s' : calls s s' -> ledger_ok (view s) -> ledger_ok (view s').
Proof. intros (cs & _ & ->). apply run_ok. Qed.

(** A program that leaves the ledger alone *)
Lemma traced_quiet {A} (m : M GoError S A) : (forall s, view (m s).2 = view s) -> traced m whatever.
Proof. intros Hq s _. split; [by apply calls_none | by destruct (m s).1]. Qed.
Lemma traced_ret {A} (x : A) (Q : A -> Prop) : Q x -> traced (mret x) Q.
Proof. intros Hx s _. split; [by apply calls_none | done]. Qed.
Lemma traced_throw {A} e (Q : A -> Prop) : traced (throw e) Q.
Proof. intros s _. split; [by apply calls_none | done]. Qed.
Lemma traced_of_result {A} (r : result GoError A) (Q : A -> Prop) : on_ok Q r -> traced (of_result r) Q.
Proof. intros Hr s _. split; [by apply calls_none | done]. Qed.
Lemma traced_bind {A B} (m : M GoError S A) (f : A -> M GoError S B) R Q :
  traced m R -> (forall x, R x -> traced (f x) Q) -> traced (m ≫= f) Q.
Proof.
  intros Hm Hf s Hs. destruct (Hm s Hs) as [Hc HR]. unfold mbind, M_bind.
  destruct (m s) as [[x|e] s1]; [|done]. simpl in Hc, HR.
  destruct (Hf x HR s1 (calls_ok s s1 Hc Hs)) as [Hc' HQ]. split; [by apply (calls_trans s s1) | done].
Qed.
Lemma traced_attempt {A} (m : M GoError S A) Q : traced m Q -> traced (attempt m) (on_ok Q).
Proof. intros Hm s Hs. destruct (Hm s Hs). unfold attempt. by destruct (m s). Qed.
Lemma traced_mono {A} (m : M GoError S A) (R Q : A -> Prop) :
  (forall x, R x -> Q x) -> traced m R -> traced m Q.
Proof. intros HRQ Hm s Hs. destruct (Hm s Hs) as [Hc HR]. split; [done|]. destruct (m s).1; [by apply HRQ | done]. Qed.
Lemma traced_weaken {A} (m : M GoError S A) (Q : A -> Prop) : traced m Q -> traced m whatever.
Proof. by apply traced_mono. Qed.
Lemma traced_for_each {A} (f : A -> M GoError S unit) l :
  (forall x, x ∈ l -> traced (f x) whatever) -> traced (for_each f l) whatever.
Proof.
  intros Hf. induction l as [|x l IH]; [by apply traced_ret|]. cbn [for_each].
  apply (traced_bind _ _ whatever); [apply Hf, list_elem_of_here|]. intros _ _. apply IH. intros y Hy.
  by apply Hf, list_elem_of_further.
Qed.
Lemma traced_fold_m {A B} (f : B -> A -> M GoError S B) acc l :
  (forall b x, traced (f b x) whatever) -> traced (fold_m f acc l) whatever.
Proof.
  intros Hf. revert acc. induction l as [|x l IH]; intros acc; [by apply traced_ret|]. cbn [fold_m].
  apply (traced_bind _ _ whatever); auto.
Qed.
Lemma traced_with_org {A} org (m : M GoError S A) Q : traced m Q -> traced (WithOrgTx org m) Q.
Proof. intros Hm. unfold WithOrgTx. destruct (is_empty org); [apply traced_throw | exact Hm]. Qed.
End Traced.

(** A run within an organization leaves the tables of the others as they are. *)
Lemma within_isolated `{GoMapOrder} {S} (view : S -> Store) org s s' a :
  calls view (within org) s s' -> a <> org -> tenant_view (view s') a = tenant_view (view s) a.
Proof.
  intros (cs & Hcs & ->) Ha. generalize (view s). clear s s'.
  induction Hcs as [|c cs Hc _ IH]; intros st; [done|]. change (run (c :: cs) st) with (run cs (exec c st)).
  rewrite IH. by apply exec_isolated, Hc.
Qed.

(** ** Automation *)
Ltac allowed_call :=
  match goal with
  | |- anything _ => exact I
  | |- within _ _ => let a := fresh in let H := fresh in
      intros a H; cbn; first [reflexivity | apply String.eqb_neq; cbn in *; congruence]
  end.
#[export] Hint Extern 0 (anything _) => exact I : traces.
#[export] Hint Extern 0 (within _ _) => allowed_call : traces.

(** A call with a hint gives its result's property, any other gives none. *)
Ltac traced_leaf := solve [eauto 6 with traces | eapply traced_weaken; eauto 6 with traces].
(** Enters a call that holds a program; the components that define such calls extend it. *)
Ltac traced_enter := fail.
Ltac traced_step :=
  match goal with
  | |- forall _, _ => intros ?
  | |- whatever _ => exact I
  | |- on_ok whatever ?r => by destruct r
  | H : on_ok _ (Ok _) |- _ => cbn [on_ok] in H
  | |- traced _ _ (_ ≫= _) _ =>
      first [ eapply traced_bind; [solve [eauto 6 with traces | apply traced_attempt; eauto 6 with traces]|]
            | apply (traced_bind _ _ _ _ whatever) ]
  | |- traced _ _ (mret _) _ => apply traced_ret
  | |- traced _ _ (throw _) _ => apply traced_throw
  | |- traced _ _ (throw_if _ _) _ => apply traced_of_result
  | |- traced _ _ (of_result _) _ => apply traced_of_result
  | |- traced _ _ (gets _) _ => apply traced_quiet; reflexivity
  | |- traced _ _ (modify _) _ => apply traced_quiet; reflexivity
  | |- traced _ _ (attempt _) whatever => eapply traced_weaken, (traced_attempt _ _ _ whatever)
  | |- traced _ _ (for_each _ _) _ => apply traced_for_each
  | |- traced _ _ (fold_m _ _ _) _ => apply traced_fold_m
  | |- traced _ _ (WithOrgTx _ _) _ => apply traced_with_org
  | |- traced _ _ (match ?x with _ => _ end) _ => destruct x eqn:?
  | |- traced _ _ (let _ := _ in _) _ => cbv zeta
  | |- traced _ _ _ _ => first [traced_leaf | traced_enter]
  end.
Ltac trace := repeat traced_step.

(** ** The ledger's methods *)
Abbreviation ledger_calls := (traced (fun s : Store => s)).

Section Ledger.
Context `{GoMapOrder} (P : call -> Prop).

Lemma traced_call {A} (m : ledger A) c : (forall s, (m s).2 = exec c s) -> P c -> ledger_calls P m whatever.
Proof. intros Hc HP s _. split; [|by destruct (m s).1]. exists [c]. by split; [repeat constructor | apply Hc]. Qed.

Lemma traced_UpsertRecord t rec : P (CUpsertRecord t rec) -> ledger_calls P (UpsertRecord t rec) whatever.
Proof. by apply traced_call. Qed.
Lemma traced_InsertPlaceholder t rec :
  P (CInsertPlaceholder t rec) -> ledger_calls P (InsertPlaceholder t rec) whatever.
Proof. by apply traced_call. Qed.
Lemma traced_PromotePlaceholder t rec :
  P (CPromotePlaceholder t rec) -> ledger_calls P (PromotePlaceholder t rec) whatever.
Proof. by apply traced_call. Qed.
Lemma traced_AppendRevision t rev : P (CAppendRevision t rev) -> ledger_calls P (AppendRevision t rev) whatever.
Proof. by apply traced_call. Qed.
Lemma traced_EnqueueOutbox t id e : P (CEnqueueOutbox t id e) -> ledger_calls P (EnqueueOutbox t id e) whatever.
Proof. by apply traced_call. Qed.
Lemma traced_ClaimOutbox t n : P (CClaimOutbox t n) -> ledger_calls P (ClaimOutbox t n) whatever.
Proof. by apply traced_call. Qed.
Lemma traced_MarkOutboxPublished ids t :
  P (CMarkOutboxPublished ids t) -> ledger_calls P (MarkOutboxPublished ids t) whatever.
Proof. by apply traced_call. Qed.
Lemma traced_PutInbox e : P (CPutInbox e) -> ledger_calls P (PutInbox e) whatever.
Proof. by apply traced_call. Qed.
Lemma traced_PutMappingSpec org id spec :
  P (CPutMappingSpec org id spec) -> ledger_calls P (PutMappingSpec org id spec) whatever.
Proof. by apply traced_call. Qed.
Lemma traced_PutAccessRequest t a b c d e f :
  P (CPutAccessRequest t a b c d e f) -> ledger_calls P (PutAccessRequest t a b c d e f) whatever.
Proof. by apply traced_call. Qed.
Lemma traced_PutIdempotency t r : P (CPutIdempotency t r) -> ledger_calls P (PutIdempotency t r) whatever.
Proof. by apply traced_call. Qed.
Lemma traced_UpsertSource t src : P (CUpsertSource t src) -> ledger_calls P (UpsertSource t src) whatever.
Proof. by apply traced_call. Qed.
Lemma traced_UpsertEdge t id e : P (CUpsertEdge t id e) -> ledger_calls P (UpsertEdge t id e) whatever.
Proof. by apply traced_call. Qed.
Lemma traced_TombstoneEdge t org id :
  P (CTombstoneEdge t org id) -> ledger_calls P (TombstoneEdge t org id) whatever.
Proof. by apply traced_call. Qed.
Lemma traced_EnqueueAuthzTuple t id op :
  P (CEnqueueAuthzTuple t id op) -> ledger_calls P (EnqueueAuthzTuple t id op) whatever.
Proof. by apply traced_call. Qed.
Lemma traced_ClaimAuthzTuples t n l :
  P (CClaimAuthzTuples t n l) -> ledger_calls P (ClaimAuthzTuples t n l) whatever.
Proof. by apply traced_call. Qed.
Lemma traced_MarkAuthzTupleApplied id t :
  P (CMarkAuthzTupleApplied id t) -> ledger_calls P (MarkAuthzTupleApplied id t) whatever.
Proof. by apply traced_call. Qed.
Lemma traced_MarkAuthzTupleFailed t id n next e dead :
  P (CMarkAuthzTupleFailed t id n next e dead) ->
  ledger_calls P (MarkAuthzTupleFailed t id n next e dead) whatever.
Proof. by apply traced_call. Qed.
Lemma traced_AppendChange ev : P (CAppendChange ev) -> ledger_calls P (AppendChange ev) whatever.
Proof. by apply traced_call. Qed.
Lemma traced_SetQuotas org q : P (CSetQuotas org q) -> ledger_calls P (Ledger.SetQuotas org q) whatever.
Proof. by apply traced_call. Qed.
Lemma traced_PutExportJob t a b c m :
  P (CPutExportJob t a b c m) -> ledger_calls P (PutExportJob t a b c m) whatever.
Proof. by apply traced_call. Qed.
Lemma traced_CreateOrganization t o :
  P (CCreateOrganization t o) -> ledger_calls P (CreateOrganization t o) whatever.
Proof. by apply traced_call. Qed.
End Ledger.
#[export] Hint Resolve traced_UpsertRecord traced_InsertPlaceholder traced_PromotePlaceholder
  traced_AppendRevision traced_EnqueueOutbox traced_ClaimOutbox traced_MarkOutboxPublished traced_PutInbox
  traced_PutMappingSpec traced_PutAccessRequest traced_PutIdempotency traced_UpsertSource traced_UpsertEdge
  traced_TombstoneEdge traced_EnqueueAuthzTuple traced_ClaimAuthzTuples traced_MarkAuthzTupleApplied
  traced_MarkAuthzTupleFailed traced_AppendChange traced_SetQuotas traced_PutExportJob
  traced_CreateOrganization : traces.

(** The composite calls name the organization of what they write. *)
Section Composite.
Context `{GoMapOrder}.
Lemma traced_EnqueueForEdge_any t id e op now : ledger_calls anything (EnqueueForEdge t id e op now) whatever.
Proof. unfold EnqueueForEdge. trace. Qed.
Lemma traced_EnqueueForEdge org t id e op now :
  edge_OrgID e = org -> ledger_calls (within org) (EnqueueForEdge t id e op now) whatever.
Proof. intros <-. unfold EnqueueForEdge. trace. Qed.
Lemma traced_Append org t id ev :
  chg_OrgID ev = org -> ledger_calls (within org) (Changes.Append t id ev) whatever.
Proof. intros <-. unfold Changes.Append. cbv zeta. trace. Qed.
End Composite.
#[export] Hint Resolve traced_EnqueueForEdge_any traced_EnqueueForEdge traced_Append : traces.

(** ** Reads *)
Ltac quiet_read := apply traced_quiet; intros ?; cbv beta;
  unfold find, throw, of_result, gets, mbind, M_bind, mret, M_ret; repeat case_match; simplify_eq; reflexivity.

Section Reads.
Context `{GoMapOrder} (P : call -> Prop).

(** A row is found under its organization. *)
Lemma traced_find {V} (tbl : Store -> tenants V) (orgOf idOf : V -> string) org id msg :
  (forall s, ledger_ok s -> all_rows (fun a b v => orgOf v = a /\ idOf v = b) (tbl s)) ->
  ledger_calls P (find tbl org id msg) (fun v => orgOf v = org).
Proof.
  intros Hok s Hs. unfold find. destruct (lookup2 (tbl s) org id) as [v|] eqn:Hv;
    (split; [by apply calls_none|]); [|done]. by destruct (Hok s Hs org id v Hv).
Qed.
Lemma traced_GetSource org id : ledger_calls P (GetSource org id) (fun src => src_OrgID src = org).
Proof. apply (traced_find sources src_OrgID src_SourceID). intros s Hs. apply ok_sources, Hs. Qed.
Lemma traced_GetRecord org id : ledger_calls P (GetRecord org id) (fun rec => rec_OrgID rec = org).
Proof. apply (traced_find records rec_OrgID rec_ResourceID). intros s Hs. apply ok_records, Hs. Qed.
Lemma traced_GetRecordTx org id : ledger_calls P (GetRecordTx org id) (fun rec => rec_OrgID rec = org).
Proof. apply traced_GetRecord. Qed.
Lemma traced_ListEdges org o :
  ledger_calls P (ListEdges org o) (fun l => forall e, e ∈ l -> edge_OrgID e = org).
Proof.
  intros s Hs. split; [by apply calls_none|]. intros e He%(subseteq_take _ _).
  apply elem_of_sort_slice, list_elem_of_filter in He as [_ (id & Hid)%elem_of_go_values].
  by destruct (edges_filed _ (ok_edges _ Hs) org id e Hid).
Qed.

Lemma traced_GetOrganization org : ledger_calls P (GetOrganization org) whatever.
Proof. unfold GetOrganization. quiet_read. Qed.
Lemma traced_GetQuotas org : ledger_calls P (Ledger.GetQuotas org) whatever.
Proof. unfold Ledger.GetQuotas. quiet_read. Qed.
Lemma traced_ListSources org : ledger_calls P (Ledger.ListSources org) whatever.
Proof. unfold Ledger.ListSources. quiet_read. Qed.
Lemma traced_GetMappingSpec org id : ledger_calls P (GetMappingSpec org id) whatever.
Proof. unfold GetMappingSpec. quiet_read. Qed.
Lemma traced_List_ org cursor n : ledger_calls P (List_ org cursor n) whatever.
Proof. unfold List_, ListChanges. quiet_read. Qed.
Lemma traced_GetExportJob org id : ledger_calls P (GetExportJob org id) whatever.
Proof. unfold GetExportJob, LookupExportJob. quiet_read. Qed.
Lemma traced_ListAudit org n : ledger_calls P (ListAudit org n) whatever.
Proof. unfold ListAudit. quiet_read. Qed.
Lemma traced_ListOutboxPending org n : ledger_calls P (ListOutboxPending org n) whatever.
Proof. unfold ListOutboxPending. quiet_read. Qed.
Lemma traced_CountAuthzTuplePending org : ledger_calls P (CountAuthzTuplePending org) whatever.
Proof. unfold CountAuthzTuplePending. quiet_read. Qed.
Lemma traced_GetIdempotency org key : ledger_calls P (GetIdempotency org key) whatever.
Proof. unfold GetIdempotency. quiet_read. Qed.
Lemma traced_HasInbox a b c : ledger_calls P (HasInbox a b c) whatever.
Proof. unfold HasInbox. quiet_read. Qed.
Lemma traced_HasCoverage a b c d e : ledger_calls P (HasAuthzTupleCoverage a b c d e) whatever.
Proof. unfold HasAuthzTupleCoverage. quiet_read. Qed.
Lemma traced_HasPending a b c d e : ledger_calls P (HasAuthzTuplePending a b c d e) whatever.
Proof. unfold HasAuthzTuplePending. quiet_read. Qed.
Lemma traced_ListActive org n : ledger_calls P (ListActiveParentEdgesNeedingAuthz org n) whatever.
Proof. unfold ListActiveParentEdgesNeedingAuthz. quiet_read. Qed.
Lemma traced_ListRevisions org id n : ledger_calls P (ListRevisions org id n) whatever.
Proof. unfold ListRevisions. quiet_read. Qed.
Lemma traced_HasLegalHold org id : ledger_calls P (HasLegalHold org id) whatever.
Proof. unfold HasLegalHold. quiet_read. Qed.
Lemma traced_ListRecords org n cursor : ledger_calls P (ListRecords org n cursor) whatever.
Proof. unfold ListRecords. quiet_read. Qed.
#[local] Hint Resolve traced_GetSource traced_GetIdempotency traced_ListRevisions : traces.
Lemma traced_accept_source now req : ledger_calls P (accept_source now req) whatever.
Proof. unfold accept_source. trace. Qed.
Lemma traced_find_duplicate org key : ledger_calls P (find_duplicate org key) whatever.
Proof. unfold find_duplicate. trace. Qed.
Lemma traced_revisions_of org acc rec : ledger_calls P (revisions_of org acc rec) whatever.
Proof. unfold revisions_of. trace. Qed.
End Reads.
#[export] Hint Resolve traced_GetOrganization traced_GetQuotas traced_GetSource traced_ListSources
  traced_GetMappingSpec traced_GetRecord traced_GetRecordTx traced_List_ traced_GetExportJob traced_ListAudit
  traced_ListOutboxPending traced_CountAuthzTuplePending traced_GetIdempotency traced_HasInbox
  traced_HasCoverage traced_HasPending traced_ListActive traced_ListEdges traced_ListRevisions
  traced_HasLegalHold traced_ListRecords traced_accept_source traced_find_duplicate traced_revisions_of : traces.

(** ** Services *)
Abbreviation service_calls := (traced w_ledger).

(** A call of another component *)
Ltac elsewhere := apply traced_quiet; intros ?; repeat case_match; simplify_eq; reflexivity.

Section Services.
Context `{GoEnv, GoMapOrder} (P : call -> Prop).

Lemma traced_on_ledger {A} (m : ledger A) Q : ledger_calls P m Q -> service_calls P (on_ledger m) Q.
Proof.
  intros Hm w Hw. destruct (Hm (w_ledger w) Hw) as [Hc HQ]. unfold on_ledger. by destruct (m (w_ledger w)).
Qed.
Lemma traced_tick : service_calls P tick whatever.
Proof. by apply traced_quiet. Qed.
Lemma traced_draw : service_calls P draw whatever.
Proof. by apply traced_quiet. Qed.
Lemma traced_timed {A} (m : Time -> ledger A) Q :
  (forall t, ledger_calls P (m t) Q) -> service_calls P (timed m) Q.
Proof.
  intros Hm. apply (traced_bind _ _ _ _ whatever); [apply traced_tick|]. intros t _. apply traced_on_ledger, Hm.
Qed.
Lemma traced_on_index {A} (m : Index -> A * Index) : service_calls P (on_index m) whatever.
Proof. unfold on_index. elsewhere. Qed.
Lemma traced_on_authz f : service_calls P (on_authz f) whatever.
Proof. by apply traced_quiet. Qed.
Lemma traced_on_audit {A} (m : M GoError (list AuditEvent) A) : service_calls P (on_audit m) whatever.
Proof. unfold on_audit. elsewhere. Qed.
Lemma traced_on_evidence {A} (m : M GoError EvidenceStore A) : service_calls P (on_evidence m) whatever.
Proof. unfold on_evidence. elsewhere. Qed.
End Services.
#[export] Hint Resolve traced_on_ledger traced_tick traced_draw traced_timed traced_on_index traced_on_authz
  traced_on_audit traced_on_evidence : traces.

Section AppendEvent.
Context `{GoEnv, GoMapOrder} (P : call -> Prop).
Lemma traced_append_event ev : service_calls P (append_event ev) whatever.
Proof. unfold append_event. trace. Qed.
End AppendEvent.
#[export] Hint Resolve traced_append_event : traces.

(** ** Intake *)
Section Intake.
Context `{GoEnv, GoMapOrder}.

Lemma traced_ensureEndpoint org a b c d now : service_calls (within org) (ensureEndpoint org a b c d now) whatever.
Proof. unfold ensureEndpoint. trace. Qed.
#[local] Hint Resolve traced_ensureEndpoint : traces.
Lemma traced_ensure_known org now known a b c d :
  service_calls (within org) (ensure_known org now known a b c d) whatever.
Proof. unfold ensure_known. trace. Qed.
#[local] Hint Resolve traced_ensure_known : traces.
Lemma traced_writeEdge org now known e : service_calls (within org) (writeEdge org now known e) whatever.
Proof. unfold writeEdge. trace. Qed.
#[local] Hint Resolve traced_writeEdge : traces.
Lemma traced_writeEdges org seed es now : service_calls (within org) (writeEdges org seed es now) whatever.
Proof. unfold writeEdges. trace. Qed.
#[local] Hint Resolve traced_writeEdges : traces.

Lemma traced_reconcile P now generated rec existing :
  service_calls P (of_result (reconcile now generated rec existing)) (fun r => rec_OrgID r = rec_OrgID rec).
Proof.
  apply traced_of_result. destruct existing as [old|e]; simpl; [|by destruct (has_status e 404)].
  destruct (generated && isSourceOfTruth old); [destruct (wouldOverwriteSoT old rec)|]; done.
Qed.
#[local] Hint Resolve traced_reconcile : traces.
Lemma traced_commit_tx req now key id generated rec rev es :
  rec_OrgID rec = iq_OrgID req -> rev_OrgID rev = iq_OrgID req ->
  service_calls (within (iq_OrgID req)) (commit_tx req now key id generated rec rev es) whatever.
Proof. intros Hrec Hrev. unfold commit_tx. trace. Qed.
#[local] Hint Resolve traced_commit_tx : traces.
Lemma stamped_org revID now req src t c : rec_OrgID (stamped revID now (record_of req src t c)) = iq_OrgID req.
Proof. unfold stamped, record_of. by repeat case_match. Qed.
#[local] Hint Resolve stamped_org : traces.
Lemma traced_commit req src now key h ref c :
  service_calls (within (iq_OrgID req)) (commit req src now key h ref c) whatever.
Proof. unfold commit. trace. Qed.
#[local] Hint Resolve traced_commit : traces.
Lemma traced_store_evidence P req body h : service_calls P (store_evidence req body h) whatever.
Proof.
  apply traced_quiet. intros w. unfold store_evidence. destruct (iq_DryRun req); [done|].
  destruct (w_evidence w) eqn:He; [|done]. unfold on_evidence, draw, mbind, M_bind. simpl. rewrite He.
  by case_match.
Qed.
#[local] Hint Resolve traced_store_evidence : traces.
Lemma traced_Intake req org : iq_OrgID req = org -> service_calls (within org) (Ingest.Intake req) whatever.
Proof. intros <-. unfold Ingest.Intake, process. trace. Qed.
End Intake.
#[export] Hint Resolve traced_Intake : traces.

(** ** The background passes *)
Section Passes.
Context `{GoEnv, GoMapOrder, Links}.
Abbreviation pass := (service_calls anything).

Lemma traced_publish subject data headers : pass (publish subject data headers) whatever.
Proof. unfold publish. elsewhere. Qed.
Lemma traced_apply_tuple op : pass (apply_tuple op) whatever.
Proof. unfold apply_tuple. elsewhere. Qed.
Lemma traced_inspect_tuple t : pass (inspect_tuple t) whatever.
Proof. unfold inspect_tuple. elsewhere. Qed.
#[local] Hint Resolve traced_publish traced_apply_tuple traced_inspect_tuple : traces.
Lemma traced_projectPayload data : pass (projectPayload data) whatever.
Proof. unfold projectPayload, project, project_record, mark_inbox, has_index. trace. Qed.
#[local] Hint Resolve traced_projectPayload : traces.
Lemma traced_relay_entry e : pass (relay_entry e) whatever.
Proof. unfold relay_entry. trace. Qed.
#[local] Hint Resolve traced_relay_entry : traces.
Lemma traced_relayOnce wk : pass (relayOnce wk) whatever.
Proof. unfold relayOnce. trace. Qed.
Lemma traced_consumeOnce : pass consumeOnce whatever.
Proof. unfold consumeOnce. trace. Qed.
Lemma traced_settle_op wk op : pass (settle_op wk op) whatever.
Proof. unfold settle_op, settle_failure. trace. Qed.
#[local] Hint Resolve traced_settle_op : traces.
Lemma traced_authzOnce wk : pass (authzOnce wk) whatever.
Proof. unfold authzOnce. trace. Qed.
Lemma traced_reconcile_edge wk now e : pass (reconcile_edge wk now e) whatever.
Proof. unfold reconcile_edge, covered. trace. Qed.
#[local] Hint Resolve traced_reconcile_edge : traces.
Lemma traced_reconcileOnce wk : pass (reconcileOnce wk) whatever.
Proof. unfold reconcileOnce. trace. Qed.
End Passes.
#[export] Hint Resolve traced_relayOnce traced_consumeOnce traced_authzOnce traced_reconcileOnce : traces.

(** ** Deletion *)
Section DeletionRun.
Context `{GoEnv, GoMapOrder}.

Lemma traced_authorize P req : service_calls P (authorize_deletion req) whatever.
Proof. unfold authorize_deletion, may_delete, authz_check. trace. Qed.
Lemma traced_tombstone_edge org now e :
  edge_OrgID e = org -> service_calls (within org) (tombstone_edge org now e) whatever.
Proof. intros He. unfold tombstone_edge. trace. Qed.
#[local] Hint Resolve traced_authorize traced_tombstone_edge : traces.
Lemma traced_revoke req tomb rec :
  rev_OrgID tomb = dr_OrgID req -> rec_OrgID rec = dr_OrgID req ->
  service_calls (within (dr_OrgID req)) (revoke_visibility req tomb rec) whatever.
Proof. intros Ht Hr. unfold revoke_visibility. trace; auto with traces. Qed.
Lemma traced_enumerate P org id rec : service_calls P (enumerate org id rec) whatever.
Proof. unfold enumerate. trace. Qed.
Lemma traced_remove P req : service_calls P (remove_from_index req) whatever.
Proof. unfold remove_from_index. elsewhere. Qed.
Lemma traced_erase P ds had : service_calls P (erase_evidence ds had) whatever.
Proof. revert had. induction ds as [|d ds IH]; intros had; cbn [erase_evidence]; trace; apply IH. Qed.
#[local] Hint Resolve traced_revoke traced_enumerate traced_remove traced_erase : traces.
Lemma traced_purge svc req rec ds :
  rec_OrgID rec = dr_OrgID req -> service_calls (within (dr_OrgID req)) (purge svc req rec ds) whatever.
Proof. intros Hr. unfold purge, erase_or_block, has_evidence. trace. Qed.
Lemma traced_announce svc req m : service_calls (within (dr_OrgID req)) (announce svc req m) whatever.
Proof. unfold announce. trace. Qed.
#[local] Hint Resolve traced_purge traced_announce : traces.
Lemma traced_Run svc req org : dr_OrgID req = org -> service_calls (within org) (Run svc req) whatever.
Proof. intros <-. unfold Run. trace. Qed.
End DeletionRun.
#[export] Hint Resolve traced_Run : traces.
#[export] Hint Extern 1 (iq_OrgID _ = _) => reflexivity : traces.
#[export] Hint Extern 1 (dr_OrgID _ = _) => reflexivity : traces.

(** ** Export and import *)
Section Transfer.
Context `{GoEnv, GoMapOrder}.

Lemma traced_resolve_ref P r : service_calls P (resolve_ref r) whatever.
Proof. unfold resolve_ref. trace. Qed.
#[local] Hint Resolve traced_resolve_ref : traces.
Lemma traced_resolve_refs P svc refs : service_calls P (resolve_refs svc refs) whatever.
Proof. unfold resolve_refs. trace. Qed.
Lemma traced_all_revisions P org recs : ledger_calls P (fold_m (revisions_of org) [] recs) whatever.
Proof. trace. Qed.
#[local] Hint Resolve traced_resolve_refs traced_all_revisions : traces.
Lemma traced_Build P svc org by_ : service_calls P (Build svc org by_) whatever.
Proof. unfold Build. trace. Qed.

Lemma traced_import_record org rec : service_calls (within org) (import_record org rec) whatever.
Proof. unfold import_record. trace. Qed.
Lemma traced_import_revision org rev : service_calls (within org) (import_revision org rev) whatever.
Proof. unfold import_revision. trace. Qed.
Lemma traced_import_source org src : service_calls (within org) (import_source org src) whatever.
Proof. unfold import_source. trace. Qed.
Lemma traced_import_edge org seen e : service_calls (within org) (import_edge org seen e) whatever.
Proof. unfold import_edge. trace. Qed.
Lemma traced_import_tombstone org tb : service_calls (within org) (import_tombstone org tb) whatever.
Proof.
  unfold import_tombstone. eapply traced_bind; [apply traced_attempt, traced_on_ledger, traced_GetRecordTx|].
  intros [rec|e] Hrec; simpl in Hrec; trace.
Qed.
Lemma traced_import_tuple org seen now tup : service_calls (within org) (import_tuple org seen now tup) whatever.
Proof. unfold import_tuple. trace. Qed.
#[local] Hint Resolve traced_import_record traced_import_revision traced_import_source traced_import_edge
  traced_import_tombstone traced_import_tuple : traces.
Lemma traced_import_rows org m : service_calls (within org) (import_rows org m) whatever.
Proof. unfold import_rows. trace. Qed.
#[local] Hint Resolve traced_import_rows : traces.
Lemma traced_ImportExport org m : service_calls (within org) (ImportExport org m) whatever.
Proof. unfold ImportExport, ImportInto. trace. Qed.
End Transfer.
#[export] Hint Resolve traced_Build traced_ImportExport : traces.
