(* ===== verification/Application.v ===== *)
(** * [internal/application]: the operations behind the HTTP and MCP handlers

    [service.go] and [authz_gate.go] over the in-memory deployment that
    [cmd/context-fabric/main.go] wires: every optional collaborator is present,
    and the export service has no evidence store. An operation authenticates the
    caller, passes the gates, and calls the component; the state of all of them
    is an [App]. A Go [map[string]any] answer is a list of members. *)
From S2P Require Import Prelude GoStd Ports Platform Json Policy Mapping MappingSpec OpenFGA Ledger.
From S2P Require Import Index AuditLog Credentials Authn Quota Changes World Ingest Deletion.
From S2P Require Import Retrieval Disclosure Export.

(** ** State and collaborators *)
Record VersionInfo := mkVersion {
  vi_ProductVersion : string; vi_APIVersion : string; vi_PacketVersion : string;
  vi_ExportFormatVersion : string; vi_GitSHA : string; vi_AuthzModelID : string;
}.
#[export] Instance VersionInfo_eta : Settable VersionInfo := fun r =>
  mkVersion (vi_ProductVersion r) (vi_APIVersion r) (vi_PacketVersion r) (vi_ExportFormatVersion r)
    (vi_GitSHA r) (vi_AuthzModelID r).

(** The fields of [ApplicationService] that are configuration, the bootstrap token of
    the environment and the bound of the readiness probe *)
Record ApplicationService := mkService {
  svc_Deletion : DeletionService; svc_Export : ExportService; svc_ChangeFeed : FeedConfig;
  svc_Build : VersionInfo; svc_bootstrapToken : string; svc_maxPending : Z;
}.

Record quotaLimitsEntry := mkQuotaEntry { qe_limits : Limits; qe_at : Time }.

(** [app_manifests] holds the manifests that export jobs refer to; [app_draws] counts the
    reads of random bytes. *)
Record App := mkApp {
  app_world : World; app_creds : CredentialStore; app_limiter : Limiter;
  app_quotaCache : gmap string quotaLimitsEntry; app_feed : Courier;
  app_manifests : tenants Manifest; app_draws : nat;
}.
#[export] Instance App_eta : Settable App := fun r =>
  mkApp (app_world r) (app_creds r) (app_limiter r) (app_quotaCache r) (app_feed r)
    (app_manifests r) (app_draws r).
Abbreviation application := (M GoError App).

(** What lies outside: the identity provider that [WithAPIKeys] wraps, asked at a reading
    of the clock; [crypto/rand]; the resolver behind [ValidateWebhookTarget]; and the
    text of a JSON decoder's error. *)
Class Host := {
  primary : nat -> Credentials -> result GoError Principal;
  entropy : nat -> Z -> result GoError string;
  webhook_target : nat -> string -> option string;
  decoder_error : string -> string;
}.

(** The values of a response *)
Inductive value :=
| VStr (s : string) | VBool (b : bool) | VInt (n : Z) | VTime (t : Time) | VAny (v : any)
| VExport (m : Manifest) | VDeletion (m : CompletionManifest)
| VSubscription (s : Subscription) | VSubscriptions (l : list Subscription)
| VDelivery (d : DeliveryAttempt) | VDeliveries (l : list DeliveryAttempt)
| VPublic (e : PublicEvent) | VChanges (l : list PublicEvent)
| VAudit (e : AuditEvent) | VAudits (l : list AuditEvent)
| VDecision (d : AuthzDecision) | VPolicy (p : PolicyResult) | VVersion (v : VersionInfo)
| VMap (m : list (string * value)) | VMaps (l : list (list (string * value))).
Abbreviation response := (list (string * value)).

Section Application.
Context `{GoEnv, GoMapOrder, Client, Host}.
Variable svc : ApplicationService.

(** ** Calls of the components *)
Definition on_world {A} (m : service A) : application A := fun a =>
  let '(r, w) := m (app_world a) in (r, a <| app_world := w |>).
Definition on_store {A} (m : ledger A) : application A := on_world (on_ledger m).
Definition on_creds {A} (m : credentials A) : application A := fun a =>
  let '(r, c) := m (app_creds a) in (r, a <| app_creds := c |>).
Definition on_limiter {A} (m : M GoError Limiter A) : application A := fun a =>
  let '(r, l) := m (app_limiter a) in (r, a <| app_limiter := l |>).
(** The change feed reads the clock and draws identifiers with the others. *)
Definition on_feed {A} (m : courier A) : application A := fun a =>
  let w := app_world a in
  let c := ((app_feed a) <| cr_clock := w_clock w |>) <| cr_ids := w_ids w |> in
  let '(r, c) := m c in
  (r, (a <| app_feed := c |>) <| app_world := (w <| w_clock := cr_clock c |>) <| w_ids := cr_ids c |> |>).
Definition now : application Time := on_world tick.
Definition new_id : application string := on_world draw.

(** [rand.Read] of [n] bytes *)
Definition random (n : Z) : application (result GoError string) := fun a =>
  (Ok (entropy (app_draws a) n), a <| app_draws := S (app_draws a) |>).

Definition authenticate (creds : Credentials) : application Principal :=
  n ← gets (fun a => w_clock (app_world a));
  t ← now; t' ← now;
  on_creds (ChainAuthenticate (primary n) t t' creds).

Definition check (c : AuthzCheck) : application AuthzDecision :=
  t ← now;
  m ← gets (fun a => w_authz (app_world a));
  of_result (Check_ m t c).

(** The pipeline runs over the stores as they are; what it appends to the audit log is
    appended when it is done. *)
Definition providers_at (a : App) (idx : Index) : Providers :=
  let w := app_world a in
  let n := w_clock w in
  let identity cr :=
    (ChainAuthenticate (primary n) (clock n) (clock (S n)) cr (app_creds a)).1 in
  memory_providers identity (w_authz w) (w_ledger w) idx
    (fun k => clock (S (S n) + k)) (fun k => fresh_id (w_ids w + k)).
Definition log_events (events : list AuditEvent) : service unit :=
  for_each (fun e => _ ← attempt (append_event e); mret tt) events.
Definition retrieve {A} (run : Providers -> pipeline A) : application A := fun a =>
  let w := app_world a in
  match w_index w with
  | None => (Err (EPanic "nil pointer dereference"), a)
  | Some idx =>
      let '(r, t) := run (providers_at a idx) (mkTrace 0 []) in
      let w := (w <| w_clock := (S (S (w_clock w)) + step t)%nat |>)
                 <| w_ids := (w_ids w + step t)%nat |> in
      (r, a <| app_world := (log_events (audited t) w).2 |>)
  end.

(** ** [authz_gate.go] *)
Definition ScopeSearch : string := "context:search".
Definition ScopeRead : string := "context:read".
Definition ScopeIngest : string := "context:ingest".
Definition ScopeManagePolicy : string := "context:manage_policy".
Definition ScopeAuditRead : string := "context:audit_read".

Definition scopesOf (principal : Principal) (extra : list string) : list string :=
  match p_Scopes principal with [] => extra | _ => p_Scopes principal end.

Definition hasScope (scopes : list string) (required : string) : bool :=
  existsb (fun s =>
    String.eqb s required
    || String.eqb required ScopeSearch && String.eqb s ScopeRead
    || String.eqb required ScopeAuditRead && String.eqb s ScopeManagePolicy) scopes.

Definition requireScope (scopes : list string) (required : string) : result GoError unit :=
  fail_if (negb (hasScope scopes required)) (ErrForbidden ("missing oauth scope " +:+ required)).

Definition org_check (principal : Principal) (orgID action : string) : AuthzCheck :=
  mkAuthzCheck principal action ("organization:" +:+ orgID) ConsistencyFullyConsistent None.
(** The loop over the actions *)
Fixpoint any_allowed (principal : Principal) (orgID : string) (actions : list string)
    : application unit :=
  match actions with
  | [] => throw (ErrForbidden "can_manage required")
  | action :: actions =>
      dec ← check (org_check principal orgID action);
      if ad_Allowed dec then mret tt else any_allowed principal orgID actions
  end.
Definition requireAuthzManage (principal : Principal) (orgID : string) : application unit :=
  any_allowed principal orgID ["can_manage"; "manager"; "knowledge_admin"].

Definition requireManage (principal : Principal) (orgID : string) (extraScopes : list string)
    : application unit :=
  _ ← of_result (requireScope (scopesOf principal extraScopes) ScopeManagePolicy);
  requireAuthzManage principal orgID.

Definition requireIngest (principal : Principal) (orgID : string) (extraScopes : list string)
    : result GoError unit :=
  _ ← RequireOrg principal orgID;
  requireScope (scopesOf principal extraScopes) ScopeIngest.
Definition requireAuditRead (principal : Principal) (orgID : string) (extraScopes : list string)
    : result GoError unit :=
  _ ← RequireOrg principal orgID;
  requireScope (scopesOf principal extraScopes) ScopeAuditRead.
Definition requireRead (principal : Principal) (orgID : string) (extraScopes : list string)
    : result GoError unit :=
  _ ← RequireOrg principal orgID;
  let scopes := scopesOf principal extraScopes in
  match requireScope scopes ScopeRead with
  | Err _ => requireScope scopes ScopeSearch
  | Ok _ => Ok tt
  end.

Definition platformBootstrapToken : string := trim_space (svc_bootstrapToken svc).
Definition validPlatformBootstrap (creds : Credentials) : bool :=
  if is_empty platformBootstrapToken then false
  else String.eqb (trim_prefix (trim_space (cr_BearerToken creds)) "Bearer ") platformBootstrapToken.

Definition isPlatformAdmin (principal : Principal) : bool :=
  existsb (fun r => equal_fold r "platform_admin" || equal_fold r "owner") (p_Roles principal)
  || existsb (fun g => equal_fold g "platform_admin") (p_Groups principal).

Definition requireOrgBootstrap (creds : Credentials) (principal : Principal) (orgID : string)
    (extraScopes : list string) : application unit :=
  if validPlatformBootstrap creds || isPlatformAdmin principal then mret tt
  else
    known ← attempt (on_store (GetOrganization orgID));
    match known with
    | Ok _ => requireManage principal orgID extraScopes
    | Err e =>
        match AsAPIError e with
        | Some ae => if String.eqb (ReasonCode ae) "not_found"
                     then throw (ErrForbidden "organization bootstrap requires platform credentials")
                     else throw (ErrUnavailable "organization lookup failed")
        | None => throw (ErrUnavailable "organization lookup failed")
        end
    end.

(** ** Quota *)
Definition orDefault (v def : Z) : Z := if v <=? 0 then def else v.
Definition org_limits (q : Quota) : Limits :=
  mkLimits (f_of_Z (orDefault (q_SearchPerMinute q) 60)) (f_of_Z (orDefault (q_IntakePerMinute q) 120))
    (f_of_Z (orDefault (q_ExportPerMinute q) 10)) (f_of_Z 20).
Definition zero_limits : Limits := mkLimits f_zero f_zero f_zero f_zero.

(** The stored quota of an organization is read again when the cached limits are 30
    seconds old; the buckets are reset only when the limits changed. *)
Definition fresh_entry (e : option quotaLimitsEntry) : application bool :=
  match e with
  | Some e => t ← now; mret (sub_time t (qe_at e) <? 30 * second)
  | None => mret false
  end.
Definition refreshOrgQuota (orgID : string) : application unit :=
  if is_empty (trim_space orgID) then mret tt
  else
    e ← gets (fun a => app_quotaCache a !! orgID);
    fresh ← fresh_entry e;
    if fresh : bool then mret tt
    else
      q ← on_store (GetQuotas orgID);
      let limits := org_limits q in
      t ← now;
      _ ← modify (fun a => a <| app_quotaCache := <[orgID := mkQuotaEntry limits t]> (app_quotaCache a) |>);
      if decide (from_option qe_limits zero_limits e = limits) then mret tt
      else on_limiter (modify (SetOrgLimits orgID limits)).

Definition enforceQuota (orgID : string) (op : Operation) : application unit :=
  _ ← refreshOrgQuota orgID;
  t ← now;
  on_limiter (Allow t (mkKey orgID "" "" op)).

(** ** Retrieval *)
Record SearchRequest := mkSearchRequest {
  sq_Query : string; sq_Purpose : string; sq_Scope : list (string * any);
  sq_IncludeTags : list string; sq_MaxItems : Z; sq_Consistency : string;
}.
Record GraphRequest := mkGraphRequest {
  gq_ResourceID : string; gq_Purpose : string; gq_Depth : Z; gq_MaxNodes : Z;
  gq_Predicates : list string; gq_Consistency : string;
}.

Definition joinComma (parts : list string) : string :=
  match parts with
  | [] => ""
  | p :: parts => foldl (fun out q => out +:+ "," +:+ q) p parts
  end.
Definition consistency_of (s : string) : ConsistencyMode :=
  if String.eqb s "fully_consistent" then ConsistencyFullyConsistent else ConsistencyMinLatency.

Definition search_filters (body : SearchRequest) : strmap :=
  let filters := match sq_IncludeTags body with
                 | [] => ∅
                 | tags => {["include_tags" := joinComma tags]}
                 end in
  match assoc (sq_Scope body) "context_space_id" with
  | Some (AStr cs) => <["context_space_id" := cs]> filters
  | _ => filters
  end.

Definition Search (creds : Credentials) (orgID : string) (scopes : list string) (body : SearchRequest)
    : application ContextPacket :=
  _ ← enforceQuota orgID OpSearch;
  retrieve (fun P => Retrieval.Search
    (mkRequest creds orgID (sq_Query body) (sq_Purpose body) (sq_MaxItems body) (search_filters body)
       (consistency_of (sq_Consistency body)) scopes "context.search" "" 0 0 [] None)).

(** [GetResource] and [Brief] search for one resource. *)
Definition lookup_request (creds : Credentials) (orgID resourceID purpose consistency action : string)
    (scopes : list string) (limit : Z) : Retrieval.Request :=
  mkRequest creds orgID resourceID purpose limit {["resource_id" := resourceID]}
    (consistency_of consistency) scopes action resourceID 0 0 [] None.
Definition GetResource (creds : Credentials) (orgID resourceID purpose consistency : string)
    (scopes : list string) : application ContextPacket :=
  retrieve (fun P => Retrieval.Search
    (lookup_request creds orgID resourceID purpose consistency "context.get" scopes 1)).
Definition Brief (creds : Credentials) (orgID : string) (scopes : list string)
    (purpose resourceID consistency : string) (maxItems : Z) : application ContextPacket :=
  retrieve (fun P => Retrieval.Search
    (lookup_request creds orgID resourceID purpose consistency "context.brief" scopes maxItems)).

Definition Graph (creds : Credentials) (orgID : string) (scopes : list string) (body : GraphRequest)
    : application ContextPacket :=
  _ ← enforceQuota orgID OpSearch;
  retrieve (fun P => Retrieval.Graph
    (mkRequest creds orgID "" (gq_Purpose body) 0 ∅ (consistency_of (gq_Consistency body)) scopes
       "context.graph" (gq_ResourceID body) (gq_Depth body) (gq_MaxNodes body) (gq_Predicates body)
       None)).

Definition RequestAccess (creds : Credentials) (orgID resourceID purpose justification : string)
    : application response :=
  principal ← authenticate creds;
  _ ← of_result (RequireOrg principal orgID);
  id ← new_id;
  auditID ← new_id;
  t ← now;
  _ ← attempt (on_world (append_event
        (mkAuditEvent auditID orgID (p_ID principal) (p_Kind principal) "" "context.request_access"
           "ACCESS_REQUEST_PENDING" "" "" 0 [] ""
           (Some {["resource_id" := resourceID; "purpose" := purpose]}) t)));
  _ ← attempt (on_world (timed (fun t =>
        PutAccessRequest t orgID id resourceID purpose justification auditID)));
  t ← now;
  mret [("request_id", VStr id); ("status", VStr "pending"); ("resource_id", VStr resourceID);
        ("purpose", VStr purpose); ("justification", VStr justification); ("created_at", VTime t);
        ("audit_id", VStr auditID)].

(** ** Sources *)

(** The defaults of a registration *)
Definition complete_source (src : SourceRegistration) : SourceRegistration :=
  let src := src <| src_TrustCeiling := or_default (src_TrustCeiling src) (src_TrustTier src) |> in
  let src := src <| src_TrustTier := or_default (src_TrustTier src) (src_TrustCeiling src) |> in
  let src := src <| src_AuthorityCeiling := or_default (src_AuthorityCeiling src) "source_of_truth" |> in
  let src := src <| src_ClassificationCeiling :=
    or_default (src_ClassificationCeiling src) (EffectiveClassificationCeiling src) |> in
  let src := src <| src_ReplayWindowSeconds := or_limit (src_ReplayWindowSeconds src) DefaultReplay |> in
  if is_empty (src_SigningSecret src) then src
  else src <| src_Attributes := <["signing_secret" := src_SigningSecret src]> (src_Attributes src) |>.

(** The inline mapping specification and the registration that names it *)
Definition inline_mapping (orgID : string) (src : SourceRegistration)
    : result GoError (SourceRegistration * option Spec) :=
  if is_empty (src_MappingSpecInline src) then Ok (src, None)
  else
    spec ← ParseSpec decoder_error (src_MappingSpecInline src);
    let spec := spec <| sp_ID := or_default (sp_ID spec) (src_MappingSpec src) |> in
    let spec := spec <| sp_ID := or_default (sp_ID spec) (src_SourceID src) |> in
    let src := src <| src_MappingSpec := or_default (src_MappingSpec src) (sp_ID spec) |> in
    Ok (src, Some ((spec <| sp_OrganizationID := orgID |>) <| sp_SourceID := src_SourceID src |>)).

Definition RegisterSource (creds : Credentials) (orgID : string) (src : SourceRegistration)
    : application SourceRegistration :=
  principal ← authenticate creds;
  _ ← of_result (RequireOrg principal orgID);
  _ ← requireManage principal orgID [];
  sourceID ← (if is_empty (src_SourceID src) then new_id else mret (src_SourceID src));
  let src := (src <| src_SourceID := sourceID |>) <| src_OrgID := orgID |> in
  '(src, inline) ← of_result (inline_mapping orgID (complete_source src));
  let src := src <| src_MappingSpecInline := "" |> in
  _ ← WithOrgTx orgID (on_world (timed (fun t => UpsertSource t src)));
  _ ← (match inline with
       | Some spec => _ ← attempt (on_store (PutMappingSpec orgID (src_SourceID src) spec)); mret tt
       | None => mret tt
       end);
  mret src.

(** The checks of the operations on an organization's sources and settings *)
Definition as_manager (creds : Credentials) (orgID : string) : application Principal :=
  principal ← authenticate creds;
  _ ← requireManage principal orgID [];
  mret principal.

Definition source_status (src : SourceRegistration) (status : string) (checkedAt : Time)
    (detail : response) : response :=
  [("source_id", VStr (src_SourceID src)); ("system", VStr (src_System src));
   ("enabled", VBool (src_Enabled src)); ("status", VStr status); ("checked_at", VTime checkedAt)]
  ++ detail.
Definition failed_check (code detail : string) : response :=
  [("reason_code", VStr code); ("detail", VStr detail)].

Definition VerifySource (creds : Credentials) (orgID sourceID : string) : application response :=
  _ ← as_manager creds orgID;
  src ← on_store (GetSource orgID sourceID);
  let secret := or_default (src_SigningSecret src) (attr (src_Attributes src) "signing_secret") in
  checkedAt ← now;
  if is_empty secret then
    mret (source_status src "failed" checkedAt
            (failed_check "missing_signing_secret" "signing_secret is empty"))
  else
    let probe := "context-fabric-verify-probe" in
    match VerifyHMAC secret probe (Ingest.SignHMAC secret probe) with
    | Err e => mret (source_status src "failed" checkedAt
                       (failed_check "hmac_self_test_failed" (error_string e)))
    | Ok _ => mret (source_status src "ok" checkedAt [])
    end.

Definition redactSource (src : SourceRegistration) : SourceRegistration :=
  let src := (src <| src_SigningSecret := "" |>) <| src_MappingSpecInline := "" |> in
  src <| src_Attributes := delete "signing_secret" (src_Attributes src) |>.

Definition ListSources (creds : Credentials) (orgID : string) : application (list SourceRegistration) :=
  _ ← as_manager creds orgID;
  items ← on_store (Ledger.ListSources orgID);
  mret (redactSource <$> items).
Definition GetSource (creds : Credentials) (orgID sourceID : string) : application SourceRegistration :=
  _ ← as_manager creds orgID;
  src ← on_store (Ledger.GetSource orgID sourceID);
  mret (redactSource src).

Definition randomSigningSecret : application string :=
  b ← random 32;
  b ← of_result b;
  mret ("cfsrc_" +:+ hex_encode b).
Definition RotateSourceSecret (creds : Credentials) (orgID sourceID : string) : application response :=
  _ ← as_manager creds orgID;
  src ← on_store (Ledger.GetSource orgID sourceID);
  secret ← randomSigningSecret;
  keyID ← new_id;
  t ← now;
  let src := src <| src_Attributes :=
    <["signing_key_id" := keyID]> (<["signing_secret" := secret]> (src_Attributes src)) |> in
  let src := (src <| src_SigningSecret := secret |>) <| src_UpdatedAt := t |> in
  _ ← WithOrgTx orgID (on_world (timed (fun t => UpsertSource t src)));
  mret [("source_id", VStr (src_SourceID src)); ("key_id", VStr keyID); ("secret_once", VStr secret)].

(** ** Seeding of the in-process authorization store *)
Definition principalSubject (p : Principal) : string :=
  if is_empty (trim_space (p_Subject p)) then trim_space (p_ID p) else trim_space (p_Subject p).

Definition seedMemoryAuthzOrg (orgID : string) (p : Principal) (m : Memory) : Memory :=
  let subj := principalSubject p in
  if is_empty subj then m
  else
    let user := "user:" +:+ subj in
    let m := AddOrgMember orgID user (AddOrgMember orgID subj m) in
    Grant ("organization:" +:+ orgID) "manager" user (Grant ("organization:" +:+ orgID) "member" user m).

Definition seedMemoryAuthzResource (orgID resourceID : string) (p : Principal) (m : Memory) : Memory :=
  let subj := principalSubject p in
  if is_empty resourceID || is_empty subj then m
  else
    let user := "user:" +:+ subj in
    let object := "resource:" +:+ resourceID in
    let m := AddOrgMember orgID user (AddOrgMember orgID subj m) in
    Grant object "reader" user
      (Grant object "owner" user (Grant object "organization" ("organization:" +:+ orgID) m)).

(** ** Intake *)
Record IntakeRequest := mkIntakeRequest {
  ir_Event : IntakeEvent; ir_Body : string; ir_Signature : string; ir_Timestamp : string;
  ir_IdempotencyKey : string; ir_SourceID : string; ir_Payload : option (list (string * any));
  ir_DryRun : bool; ir_SkipHMAC : bool; ir_Mapping : Spec;
}.

(** The event with an identifier, the organization and an idempotency key *)
Definition intake_event (orgID eventID : string) (req : IntakeRequest) : IntakeEvent :=
  let e := ir_Event req in
  mkIntakeEvent eventID orgID (ev_SourceSystem e) (ev_ExternalID e) (ev_SourceRevision e)
    (or_default (ev_IdempotencyKey e) (ir_IdempotencyKey req)) (ev_ContentType e) (ev_ContentHash e)
    (ev_EvidenceRef e) (ev_Attributes e) (ev_ReceivedAt e).

(** [MappingBySource] when the request carries no specification *)
Definition mapping_of (orgID sourceID : string) (req : IntakeRequest) : application Spec :=
  if is_empty (sp_ID (ir_Mapping req)) && negb (is_empty sourceID) then
    m ← attempt (on_store (GetMappingSpec orgID sourceID));
    mret (match m with Ok spec => spec | Err _ => ir_Mapping req end)
  else mret (ir_Mapping req).

Definition feed_event (orgID : string) (result : Result) (action cursor : string) (failed : string)
    : application unit :=
  id ← new_id; t ← now;
  r ← attempt (on_world (t' ← tick; id' ← draw; on_ledger (Append t' id'
        (mkChangeEvent id orgID (res_ResourceID result) (res_RevisionID result) action cursor t))));
  match r with
  | Ok _ => mret tt
  | Err e => throw (ErrUnavailable (failed +:+ error_string e))
  end.

Definition document_of (orgID : string) (result : Result) (rec : LedgerRecord) : IndexDocument :=
  mkIndexDocument (res_ResourceID result) (res_RevisionID result) orgID (rec_Title rec)
    (rec_Labels rec) {["classification" := rec_Classification rec; "purpose_allowlist" := "support"]}.

(** The record is indexed, and its sender becomes its owner and reader. *)
Definition index_accepted (orgID : string) (principal : Principal) (result : Result)
    : application unit :=
  indexed ← gets (fun a => bool_decide (is_Some (w_index (app_world a))));
  if negb (indexed : bool) || is_empty (res_ResourceID result) then mret tt
  else
    r ← attempt (on_store (GetRecord orgID (res_ResourceID result)));
    match r with
    | Err e => throw (ErrUnavailable ("index load record failed: " +:+ error_string e))
    | Ok rec =>
        _ ← (if negb (String.eqb (rec_State rec) LifecyclePlaceholder)
                && negb (String.eqb (rec_State rec) LifecycleEnsured)
             then on_world (on_index (fun i => (tt, Upsert [document_of orgID result rec] i)))
             else mret tt);
        on_world (on_authz (seedMemoryAuthzResource orgID (res_ResourceID result) principal))
    end.

(** What follows an accepted event *)
Definition publish_accepted (orgID : string) (principal : Principal) (result : Result)
    : application unit :=
  _ ← feed_event orgID result "resource.accepted" (res_RevisionID result) "change feed append failed: ";
  _ ← (if 0 <? res_EdgeCount result
       then feed_event orgID result "graph.edges_upserted" (res_RevisionID result +:+ ":edges")
              "change feed edge append failed: "
       else mret tt);
  index_accepted orgID principal result.

Definition intake_response (result : Result) : response :=
  [("event_id", VStr (res_EventID result)); ("organization_id", VStr (res_OrganizationID result));
   ("resource_id", VStr (res_ResourceID result)); ("revision_id", VStr (res_RevisionID result));
   ("status", VStr (res_Status result)); ("duplicate", VBool (res_Duplicate result));
   ("idempotent_replay", VBool (res_IdempotentReplay result))].

Definition Intake (creds : Credentials) (orgID : string) (req : IntakeRequest) : application response :=
  principal ← authenticate creds;
  _ ← of_result (requireIngest principal orgID []);
  _ ← enforceQuota orgID OpIntake;
  eventID ← (if is_empty (ev_EventID (ir_Event req)) then new_id else mret (ev_EventID (ir_Event req)));
  let event := intake_event orgID eventID req in
  let sourceID := or_default (ir_SourceID req) (ev_SourceSystem event) in
  spec ← mapping_of orgID sourceID req;
  result ← on_world (Ingest.Intake (Ingest.mkRequest orgID sourceID (ir_Body req) (ir_Signature req)
             (ir_Timestamp req) (ev_IdempotencyKey event) spec (ir_Payload req) event (ir_DryRun req)
             (ir_SkipHMAC req)));
  _ ← (if negb (res_Duplicate result) && negb (ir_DryRun req)
       then publish_accepted orgID principal result
       else mret tt);
  mret (intake_response result).

Definition rejected_item (orgID : string) (req : IntakeRequest) (e : GoError) : response :=
  [("status", VStr "rejected"); ("organization_id", VStr orgID)]
  ++ match AsAPIError e with
     | Some ae => [("reason_code", VStr (ReasonCode ae)); ("message", VStr (Message ae))]
     | None => [("message", VStr (error_string e))]
     end
  ++ (if is_empty (ev_EventID (ir_Event req)) then [] else [("event_id", VStr (ev_EventID (ir_Event req)))]).

(** The results so far, and the numbers accepted and rejected *)
Definition intake_one (creds : Credentials) (orgID : string) (acc : list response * Z * Z)
    (req : IntakeRequest) : application (list response * Z * Z) :=
  let '(results, accepted, rejected) := acc in
  r ← attempt (Intake creds orgID req);
  mret (match r with
        | Err e => (results ++ [rejected_item orgID req e], accepted, rejected + 1)
        | Ok out => (results ++ [out], accepted + 1, rejected)
        end).
Definition IntakeBatch (creds : Credentials) (orgID : string) (reqs : list IntakeRequest)
    : application response :=
  principal ← authenticate creds;
  _ ← of_result (requireIngest principal orgID []);
  '(results, accepted, rejected) ← fold_m (intake_one creds orgID) ([], 0, 0) reqs;
  mret [("results", VMaps results); ("accepted_count", VInt accepted); ("rejected_count", VInt rejected)].

(** ** Evidence, changes and webhooks *)
Definition PresignEvidence (creds : Credentials) (orgID key contentType : string)
    : application response :=
  principal ← authenticate creds;
  _ ← of_result (RequireOrg principal orgID);
  _ ← requireManage principal orgID [];
  t ← now;
  let '(url, exp) := PresignPut t (orgID +:+ "/" +:+ key) (15 * minute) in
  mret [("upload_url", VStr url); ("expires_at", VTime exp); ("object_key", VStr (orgID +:+ "/" +:+ key))].

Definition ListChanges (creds : Credentials) (orgID cursor : string) (limit : Z) : application response :=
  principal ← authenticate creds;
  _ ← of_result (requireRead principal orgID []);
  '(items, next) ← on_store (List_ orgID cursor limit);
  mret [("items", VChanges items); ("next_cursor", VStr next)].

Definition string_of (v : option any) : string := match v with Some (AStr s) => s | _ => "" end.
Definition body_string (body : list (string * any)) (key : string) : string := string_of (assoc body key).
Definition body_strings (body : list (string * any)) (key : string) : list string :=
  match assoc body key with
  | Some (AArr l) => omap (fun v => match v with AStr s => Some s | _ => None end) l
  | _ => []
  end.

(** The secret is drawn by [UpsertWebhook] when the request has none. *)
Definition upsert_webhook (orgID : string) (body : list (string * any)) : application response :=
  let target := body_string body "target_url" in
  n ← gets (fun a => w_clock (app_world a));
  b ← random 32;
  let secret := match b with Ok b => Ok (hex_encode b) | Err e => Err (error_string e) end in
  sub ← on_feed (UpsertWebhook (webhook_target n target) secret orgID target (body_strings body "events")
                   (body_string body "secret"));
  _ ← attempt (on_feed (DeliverTestPing (svc_ChangeFeed svc) orgID (sub_ID sub)));
  mret [("subscription", VSubscription sub); ("status", VStr "ok")].

Definition replay_change (orgID : string) (body : list (string * any)) : application response :=
  s ← gets (fun a => w_ledger (app_world a));
  '(d, sig, pub) ← on_feed (Replay (svc_ChangeFeed svc) s orgID (body_string body "subscription_id")
                              (body_string body "event_id"));
  mret [("delivery", VDelivery d); ("signature", VStr sig); ("event", VPublic pub)].

Definition ManageWebhooks (creds : Credentials) (orgID action : string) (body : list (string * any))
    : application response :=
  _ ← as_manager creds orgID;
  if mem_str action ["upsert"; "create"; ""] then upsert_webhook orgID body
  else if String.eqb action "replay" then replay_change orgID body
  else mret [("organization_id", VStr orgID); ("action", VStr action); ("status", VStr "ok")].

Definition ListWebhooks (creds : Credentials) (orgID : string) : application response :=
  _ ← as_manager creds orgID;
  items ← on_feed (Changes.ListWebhooks orgID);
  mret [("items", VSubscriptions items)].
Definition GetWebhook (creds : Credentials) (orgID subscriptionID : string) : application response :=
  _ ← as_manager creds orgID;
  sub ← on_feed (Changes.GetWebhook orgID subscriptionID);
  mret [("subscription", VSubscription sub)].
Definition ListDeliveries (creds : Credentials) (orgID subscriptionID : string) (limit : Z)
    : application response :=
  _ ← as_manager creds orgID;
  items ← on_feed (Changes.ListDeliveries orgID subscriptionID limit);
  mret [("items", VDeliveries items)].

(** ** Export and deletion *)

(** The job table keeps a reference to the manifest. *)
Definition StartExport (creds : Credentials) (orgID : string) : application response :=
  principal ← authenticate creds;
  _ ← of_result (RequireOrg principal orgID);
  _ ← requireManage principal orgID [];
  _ ← enforceQuota orgID OpExport;
  manifest ← on_world (Build (svc_Export svc) orgID (p_ID principal));
  _ ← attempt (on_world (timed (fun t =>
        PutExportJob t orgID (em_ExportID manifest) "completed" (AStr (em_ExportID manifest)))));
  _ ← modify (fun a => a <| app_manifests := insert2 orgID (em_ExportID manifest) manifest (app_manifests a) |>);
  mret [("export_id", VStr (em_ExportID manifest)); ("organization_id", VStr orgID);
        ("status", VStr "completed"); ("format_version", VStr (em_FormatVersion manifest));
        ("created_at", VTime (em_CreatedAt manifest)); ("manifest", VExport manifest)].

Definition GetExport (creds : Credentials) (orgID exportID : string) : application response :=
  _ ← as_manager creds orgID;
  '(id, status, ref) ← on_store (GetExportJob orgID exportID);
  stored ← gets (fun a => lookup2 (app_manifests a) orgID (string_of (Some ref)));
  mret [("export_id", VStr id); ("organization_id", VStr orgID); ("status", VStr status);
        ("manifest", from_option VExport (VAny ref) stored)].

Definition ImportExport (creds : Credentials) (target : string) (m : Manifest) : application response :=
  _ ← as_manager creds target;
  _ ← on_world (Export.ImportExport target m);
  mret [("organization_id", VStr target); ("status", VStr "imported"); ("export_id", VStr (em_ExportID m));
        ("source_sha256", VStr (attr (em_Checksums m) "manifest_sha256"));
        ("manifest_sha256", VStr (attr (em_Checksums (reseal target m)) "manifest_sha256"))].

Definition DeleteResource (creds : Credentials) (orgID resourceID reason : string)
    : application response :=
  principal ← authenticate creds;
  _ ← of_result (RequireOrg principal orgID);
  _ ← requireManage principal orgID [];
  m ← on_world (Run (svc_Deletion svc) (mkDeletionRequest orgID resourceID principal reason));
  mret [("manifest", VDeletion m); ("status", VStr (cm_Status m))].

(** ** Audit and diagnosis *)
Definition GetAudit (creds : Credentials) (orgID : string) (limit : Z) : application response :=
  principal ← authenticate creds;
  _ ← of_result (requireAuditRead principal orgID []);
  items ← on_store (ListAudit orgID limit);
  mret [("items", VAudits items)].

Definition DiagnoseDecision (creds : Credentials) (orgID resourceID action purpose : string)
    : application response :=
  principal ← authenticate creds;
  _ ← of_result (requireAuditRead principal orgID []);
  dec ← check (mkAuthzCheck principal action resourceID ConsistencyFullyConsistent None);
  pol ← of_result (Evaluate New (mkPolicyEval principal action purpose "internal" None 0));
  mret [("organization_id", VStr orgID); ("authz", VDecision dec); ("policy", VPolicy pol)].

Definition DiagnoseByAuditID (creds : Credentials) (orgID auditID : string) : application response :=
  principal ← authenticate creds;
  _ ← of_result (requireAuditRead principal orgID []);
  items ← on_store (ListAudit orgID 500);
  match List.find (fun ev => String.eqb (aud_AuditID ev) auditID) items with
  | None => throw (ErrNotFound "audit event not found")
  | Some ev =>
      let resourceID := default "" (head (aud_ResourceIDsSample ev)) in
      let purpose := match aud_Attributes ev with Some attrs => attr attrs "purpose" | None => "" end in
      out ← DiagnoseDecision creds orgID resourceID (aud_Action ev) purpose;
      mret (out ++ [("audit", VAudit ev)])
  end.

(** ** Quotas, organizations and agents *)
Definition GetQuotas (creds : Credentials) (orgID : string) : application Quota :=
  _ ← as_manager creds orgID;
  on_store (Ledger.GetQuotas orgID).
Definition SetQuotas (creds : Credentials) (orgID : string) (q : Quota) : application Quota :=
  _ ← as_manager creds orgID;
  _ ← on_store (Ledger.SetQuotas orgID q);
  mret q.

Definition Bootstrap (creds : Credentials) (orgID name : string) : application response :=
  principal ← authenticate creds;
  _ ← of_result (RequireOrg principal orgID);
  _ ← requireOrgBootstrap creds principal orgID [];
  t ← now;
  r ← attempt (on_world (timed (fun t' => CreateOrganization t' (mkOrganization orgID name ∅ t))));
  _ ← (match r with
       | Err e => throw_if (negb (IsAPIError e)) e
       | Ok _ => mret tt
       end);
  _ ← on_world (on_authz (seedMemoryAuthzOrg orgID principal));
  mret [("organization_id", VStr orgID); ("name", VStr name); ("status", VStr "ready")].

Definition OrgStatus (creds : Credentials) (orgID : string) : application response :=
  principal ← authenticate creds;
  _ ← of_result (requireRead principal orgID []);
  r ← attempt (on_store (GetOrganization orgID));
  mret match r with
       | Err _ => [("organization_id", VStr orgID); ("status", VStr "provisioning")]
       | Ok org => [("organization_id", VStr (org_ID org)); ("name", VStr (org_Name org));
                    ("status", VStr "ready"); ("created_at", VTime (org_CreatedAt org))]
       end.

Definition CreateAgent (creds : Credentials) (orgID : string) (req : CreateAgentCredentialRequest)
    : application AgentCredential :=
  _ ← as_manager creds orgID;
  agentID ← (if is_empty (ccr_AgentID req) then new_id else mret (ccr_AgentID req));
  let req := mkCreateCredential orgID agentID (ccr_OwnerID req) (ccr_DelegationID req)
               (ccr_ExpiresAt req) (ccr_Label req) in
  b ← random 24; id ← new_id; t ← now;
  on_creds (CreateAgentCredential t b id req).
Definition RotateAgent (creds : Credentials) (orgID agentID : string) : application AgentCredential :=
  _ ← as_manager creds orgID;
  b ← random 24; id ← new_id; t ← now;
  on_creds (RotateAgentCredential t b id (mkCreateCredential orgID agentID "" "" None "")).
Definition RevokeAgent (creds : Credentials) (orgID credentialID : string) : application response :=
  _ ← as_manager creds orgID;
  _ ← on_creds (Credentials.Revoke orgID credentialID);
  mret [("organization_id", VStr orgID); ("credential_id", VStr credentialID); ("status", VStr "revoked")].

(** ** Operations *)
Definition age_ms (t : Time) (e : OutboxEntry) : Z := Z.quot (sub_time t (ob_CreatedAt e)) millisecond.
Definition oldest_age (t : Time) (pending : list OutboxEntry) : Z :=
  foldl (fun oldest e =>
    if is_zero_time (ob_CreatedAt e) then oldest
    else if oldest <? age_ms t e then age_ms t e else oldest) 0 pending.

Definition OpsLag (creds : Credentials) (orgID : string) : application response :=
  _ ← as_manager creds orgID;
  pending ← on_store (ListOutboxPending orgID 1000);
  t ← now;
  mret [("organization_id", VStr orgID); ("outbox_pending", VInt (zlen pending));
        ("oldest_age_ms", VInt (oldest_age t pending)); ("projection_lag_ms", VInt 0);
        ("status", VStr "ok");
        ("note", VStr "projection_lag_ms reserved until durable projector metrics exist; outbox rows are not leased by this endpoint")].

Definition Version : VersionInfo :=
  let v := svc_Build svc in
  let v := v <| vi_APIVersion := or_default (vi_APIVersion v) "1.0.0" |> in
  let v := v <| vi_PacketVersion := or_default (vi_PacketVersion v) PacketVersion |> in
  let v := v <| vi_ExportFormatVersion := or_default (vi_ExportFormatVersion v) FormatVersion |> in
  v <| vi_ProductVersion := or_default (vi_ProductVersion v) "0.0.0-dev" |>.

(** The probe [ReadyDetail] of the memory profile *)
Definition outbox_detail (pending dead : Z) : string :=
  if 0 <? dead
  then "dead-letter AuthZ tuples present (" +:+ itoa dead +:+ "); pending=" +:+ itoa pending
  else if svc_maxPending svc <? pending
  then "AuthZ outbox lag exceeds SLO: pending=" +:+ itoa pending +:+ " max=" +:+ itoa (svc_maxPending svc)
  else "pending=" +:+ itoa pending +:+ " dead=" +:+ itoa dead +:+ " max_pending=" +:+ itoa (svc_maxPending svc).
Definition probe (ok : bool) (detail : string) : response := [("ok", VBool ok); ("detail", VStr detail)].
Definition ReadyStatus : application (bool * response) :=
  let authzOK := negb (is_empty (trim_space (vi_AuthzModelID (svc_Build svc)))) in
  r ← attempt (on_store (CountAuthzTuplePending ""));
  let '(pending, dead) := match r with Ok c => c | Err _ => (0, 0) end in
  let outboxOK := is_ok r && (dead =? 0) && (pending <=? svc_maxPending svc) in
  let detail := match r with Ok _ => outbox_detail pending dead | Err e => error_string e end in
  mret (authzOK && outboxOK,
        [("migrations", VMap (probe true "memory profile (no schema_migrations)"));
         ("authz_model_pinned",
          VMap (probe authzOK (if authzOK then "authz model id present" else "authz model id missing")));
         ("authz_tuple_writer", VMap (probe true "RelationshipWriter available"));
         ("authz_outbox", VMap (probe outboxOK detail
           ++ [("pending", VInt pending); ("dead", VInt dead); ("max_pending", VInt (svc_maxPending svc))]))]).
Definition Health : application response :=
  '(ready, checks) ← ReadyStatus;
  mret [("status", VStr (if ready : bool then "ok" else "degraded")); ("ready", VBool ready);
        ("checks", VMap checks)].

Definition SupportBundle (creds : Credentials) (orgID : string) : application response :=
  _ ← as_manager creds orgID;
  t ← now;
  health ← Health;
  mret [("organization_id", VStr orgID); ("collected_at", VTime t); ("version", VVersion Version);
        ("health", VMap health);
        ("notes", VStr "sanitized support bundle; no secrets or content")].
End Application.
