(* ===== verification/ApplicationFacts.v ===== *)
(** * Theorems of the application service

    The gates: who passes them and what a refused caller changes; what an API key may do;
    the bootstrap of an organization and the seeding of a resource's owner. *)
From S2P Require Import Prelude GoStd Ports Platform Json Policy Mapping OpenFGA Ledger LedgerFacts.
From S2P Require Import Index AuditLog Credentials Authn AuthnFacts Quota Changes World Ingest Deletion.
From S2P Require Import QueueFacts Retrieval RetrievalFacts Disclosure Export Application.

(** [k] readings of the clock later *)
Definition later (k : nat) (a : App) : App :=
  a <| app_world := (app_world a) <| w_clock := (w_clock (app_world a) + k)%nat |> |>.

Lemma later_0 a : later 0 a = a.
Proof. destruct a as [[] ?]. unfold later. simpl. by rewrite Nat.add_0_r. Qed.
Lemma later_add j k a : later j (later k a) = later (k + j) a.
Proof. destruct a as [[] ?]. unfold later. simpl. by rewrite Nat.add_assoc. Qed.

(** The chain of providers only reads the store of credentials. *)
Lemma authenticateKey_state t now key s : (authenticateKey t now key s).2 = s.
Proof.
  unfold authenticateKey, Resolve, ResolveAPIKey. destruct (is_empty _); [done|].
  unfold mbind, M_bind, mret, M_ret. destruct (byKey s !! _) as [c|]; [|done].
  by destruct (cred_revoked c), (live t c).
Qed.
Lemma chain_state primary t now creds s : (ChainAuthenticate primary t now creds s).2 = s.
Proof.
  unfold ChainAuthenticate. destruct (negb _); [apply authenticateKey_state|].
  repeat (case_match; [done|]). unfold mbind, M_bind, attempt.
  pose proof (authenticateKey_state t now (bearer (cr_BearerToken creds)) s) as Hs.
  by destruct (authenticateKey _ _ _ s) as [[p|e] s']; simpl in *; subst.
Qed.

Lemma no_key t now key :
  exists e, authenticateKey t now key NewCredentialStore = (Err e, NewCredentialStore).
Proof.
  unfold authenticateKey, Resolve. destruct (is_empty _); [eexists; reflexivity|].
  exists (ErrUnauthorized "invalid api key"). apply bind_fail, bind_fail. unfold ResolveAPIKey. cbn [byKey NewCredentialStore].
  by rewrite lookup_empty.
Qed.

(** Without keys, the primary provider answers. *)
Lemma chain_unknown prov t now creds e :
  trim_space (cr_APIKey creds) = "" -> prov creds = Err e ->
  (ChainAuthenticate prov t now creds NewCredentialStore).1 = Err e.
Proof.
  intros Hkey He. unfold ChainAuthenticate. rewrite Hkey. change (negb (is_empty "")) with false. cbv iota zeta.
  destruct (looksLikeJWT _); [exact He|]. destruct (is_empty (bearer _)); [exact He|].
  destruct (no_key t now (bearer (cr_BearerToken creds))) as [e' Hk].
  rewrite (bind_run _ _ _ _ _ (attempt_run _ _ _ _ Hk)). exact He.
Qed.

Section Gates.
Context `{GoEnv, GoMapOrder, Client, Host}.
Variable svc : ApplicationService.

(** Who the credentials stand for when they are presented *)
Definition caller (a : App) (creds : Credentials) : result GoError Principal :=
  let n := w_clock (app_world a) in
  (ChainAuthenticate (primary n) (clock n) (clock (S n)) creds (app_creds a)).1.

Lemma now_run a : now a = (Ok (clock (w_clock (app_world a))), later 1 a).
Proof. destruct a as [[] ?]. unfold later. simpl. by rewrite Nat.add_1_r. Qed.

Lemma authenticate_run creds a : authenticate creds a = (caller a creds, later 2 a).
Proof.
  unfold authenticate. rewrite (bind_run (gets _) _ a _ a eq_refl).
  rewrite (bind_run _ _ _ _ _ (now_run a)), (bind_run _ _ _ _ _ (now_run _)), later_add.
  unfold on_creds, caller. destruct a as [w c l q f m d]. unfold later. cbn.
  rewrite (Nat.add_1_r (w_clock w)).
  pose proof (chain_state (primary (w_clock w)) (clock (w_clock w)) (clock (S (w_clock w))) creds c) as Hc.
  destruct (ChainAuthenticate _ _ _ _ c) as [r c']. simpl in *. by subst.
Qed.

(** ** The manage permission *)
Definition org_manager (m : Memory) (principal : Principal) (orgID : string) : bool :=
  let object := "organization:" +:+ orgID in
  let user := formatUser principal in
  has m object "manager" user || has m object "knowledge_admin" user || has m object "owner" user.

Definition may_manage (a : App) (creds : Credentials) (orgID : string) (p : Principal) : Prop :=
  caller a creds = Ok p /\ hasScope (scopesOf p []) ScopeManagePolicy = true /\
  org_manager (w_authz (app_world a)) p orgID = true.

Lemma check_run c a :
  exists d, check c a = (Ok d, later 1 a) /\
    ad_Allowed d = evaluate (w_authz (app_world a)) (formatObject (ac_ResourceID c))
                     (mapRelation (ac_Action c)) (formatUser (ac_Principal c)).
Proof.
  unfold check. rewrite (bind_run _ _ _ _ _ (now_run a)). eexists. split; [reflexivity|]. done.
Qed.

Definition org_relation (m : Memory) (principal : Principal) (orgID action : string) : bool :=
  evaluate m (formatObject ("organization:" +:+ orgID)) (mapRelation action) (formatUser principal).

Lemma evaluate_org m orgID relation s :
  relation <> "can_read" ->
  let object := "organization:" +:+ orgID in
  evaluate m object relation s
  = if String.eqb relation "can_manage"
    then has m object "manager" s || has m object "knowledge_admin" s || has m object "owner" s
    else has m object relation s.
Proof.
  intros Hr%String.eqb_neq object. unfold evaluate, can_fuel. generalize (S (2 * size (reachable_objects m object)))%nat.
  intros n. cbn [can]. case_decide as Hd; [by apply not_elem_of_empty in Hd|]. rewrite Hr.
  unfold object. rewrite app_has_prefix. by case_match.
Qed.

Lemma formatObject_org orgID : formatObject ("organization:" +:+ orgID) = "organization:" +:+ orgID.
Proof. unfold formatObject. by destruct orgID. Qed.

(** Of the three actions the first covers the others. *)
Lemma org_relation_spec m p orgID :
  (org_relation m p orgID "can_manage"
   || (org_relation m p orgID "manager" || org_relation m p orgID "knowledge_admin"))
  = org_manager m p orgID.
Proof.
  unfold org_relation, org_manager. rewrite formatObject_org.
  rewrite !evaluate_org by discriminate. simpl. by repeat destruct (has m _ _ _).
Qed.

Lemma any_allowed_run p orgID actions a :
  exists k, any_allowed p orgID actions a
    = (if existsb (org_relation (w_authz (app_world a)) p orgID) actions then Ok tt
       else Err (ErrForbidden "can_manage required"), later k a).
Proof.
  revert a. induction actions as [|action actions IH]; intros a; simpl.
  { exists 0%nat. by rewrite later_0. }
  destruct (check_run (org_check p orgID action) a) as (d & Hd & Ha).
  rewrite (bind_run _ _ _ _ _ Hd), Ha. unfold org_relation at 1. simpl.
  destruct (evaluate _ _ _ _); [by exists 1%nat|].
  destruct (IH (later 1 a)) as [k Hk]. exists (1 + k)%nat. by rewrite Hk, later_add.
Qed.

(** What the manage gate answers, and that only the clock moves *)
Lemma requireManage_run p orgID a :
  exists k, requireManage p orgID [] a
    = (if hasScope (scopesOf p []) ScopeManagePolicy
       then if org_manager (w_authz (app_world a)) p orgID then Ok tt
            else Err (ErrForbidden "can_manage required")
       else Err (ErrForbidden "missing oauth scope context:manage_policy"), later k a).
Proof.
  unfold requireManage, requireScope.
  destruct (hasScope _ _); simpl; [|exists 0%nat; by rewrite later_0].
  destruct (any_allowed_run p orgID ["can_manage"; "manager"; "knowledge_admin"] a) as [k Hk].
  exists k. unfold requireAuthzManage. etrans; [exact Hk|]. f_equal. simpl.
  rewrite orb_false_r, org_relation_spec. done.
Qed.

(** ** Operations behind the manage gate *)

(** Unless the caller may manage the organization, the operation is refused and nothing
    but the clock moves. *)
Definition gated {A} (creds : Credentials) (orgID : string) (m : application A) : Prop :=
  forall a, (exists p, may_manage a creds orgID p) \/ exists e k, m a = (Err e, later k a).

Lemma gated_bind {A B} creds orgID (m : application A) (f : A -> application B) :
  gated creds orgID m -> gated creds orgID (m ≫= f).
Proof.
  intros Hm a. destruct (Hm a) as [?|(e & k & Hr)]; [by left|]. right. exists e, k.
  by apply bind_fail.
Qed.

Lemma gated_manage {A} creds orgID (guard : Principal -> result GoError unit)
    (f : Principal -> application A) :
  gated creds orgID
    (p ← authenticate creds; _ ← of_result (guard p); _ ← requireManage p orgID []; f p).
Proof.
  intros a. assert (Hrun := authenticate_run creds a). unfold may_manage.
  destruct (caller a creds) as [p|e]; [|right; exists e, 2%nat; by apply bind_fail].
  rewrite (bind_run _ _ _ _ _ Hrun). cbv beta.
  destruct (guard p) as [[]|e]; [|by right; exists e, 2%nat].
  rewrite (bind_run (of_result (Ok tt)) _ (later 2 a) tt (later 2 a) eq_refl).
  destruct (requireManage_run p orgID (later 2 a)) as [k Hk]. rewrite later_add in Hk.
  unfold mbind, M_bind. rewrite Hk. unfold later at 1. simpl.
  destruct (hasScope _ _) eqn:Hs; [|right; eauto].
  destruct (org_manager _ p orgID) eqn:Hm; [left; by exists p | right; eauto].
Qed.

Lemma gated_as_manager creds orgID : gated creds orgID (as_manager creds orgID).
Proof.
  intros a. destruct (gated_manage creds orgID (fun _ => Ok tt) mret a) as [?|(e & k & Hr)]; [by left|].
  right. exists e, k. exact Hr.
Qed.

Inductive manager_op :=
| MRegisterSource (src : SourceRegistration) | MVerifySource (sourceID : string) | MListSources
| MGetSource (sourceID : string) | MRotateSourceSecret (sourceID : string)
| MPresignEvidence (key contentType : string)
| MManageWebhooks (action : string) (body : list (string * any)) | MListWebhooks
| MGetWebhook (subscriptionID : string) | MListDeliveries (subscriptionID : string) (limit : Z)
| MStartExport | MGetExport (exportID : string) | MImportExport (m : Manifest)
| MDeleteResource (resourceID reason : string) | MGetQuotas | MSetQuotas (q : Quota)
| MCreateAgent (req : CreateAgentCredentialRequest) | MRotateAgent (agentID : string)
| MRevokeAgent (credentialID : string) | MOpsLag | MSupportBundle.

(** The operation on an organization, its answer dropped *)
Definition run_op (creds : Credentials) (orgID : string) (op : manager_op) : application unit :=
  match op with
  | MRegisterSource src => _ ← RegisterSource creds orgID src; mret tt
  | MVerifySource id => _ ← VerifySource creds orgID id; mret tt
  | MListSources => _ ← Application.ListSources creds orgID; mret tt
  | MGetSource id => _ ← Application.GetSource creds orgID id; mret tt
  | MRotateSourceSecret id => _ ← RotateSourceSecret creds orgID id; mret tt
  | MPresignEvidence key ct => _ ← PresignEvidence creds orgID key ct; mret tt
  | MManageWebhooks action body => _ ← ManageWebhooks svc creds orgID action body; mret tt
  | MListWebhooks => _ ← Application.ListWebhooks creds orgID; mret tt
  | MGetWebhook id => _ ← Application.GetWebhook creds orgID id; mret tt
  | MListDeliveries id limit => _ ← Application.ListDeliveries creds orgID id limit; mret tt
  | MStartExport => _ ← StartExport svc creds orgID; mret tt
  | MGetExport id => _ ← GetExport creds orgID id; mret tt
  | MImportExport m => _ ← Application.ImportExport creds orgID m; mret tt
  | MDeleteResource id reason => _ ← DeleteResource svc creds orgID id reason; mret tt
  | MGetQuotas => _ ← Application.GetQuotas creds orgID; mret tt
  | MSetQuotas q => _ ← Application.SetQuotas creds orgID q; mret tt
  | MCreateAgent req => _ ← CreateAgent creds orgID req; mret tt
  | MRotateAgent id => _ ← RotateAgent creds orgID id; mret tt
  | MRevokeAgent id => _ ← RevokeAgent creds orgID id; mret tt
  | MOpsLag => _ ← OpsLag creds orgID; mret tt
  | MSupportBundle => _ ← SupportBundle svc creds orgID; mret tt
  end.

Lemma op_gated creds orgID op : gated creds orgID (run_op creds orgID op).
Proof.
  destruct op; apply gated_bind;
    first [ apply (gated_bind _ _ _ _ (gated_as_manager creds orgID))
          | apply (gated_manage creds orgID (fun p => RequireOrg p orgID)) ].
Qed.

(** C12 Every administrative operation on an organization (sources, webhooks, exports and
    imports, deletion, quotas, agents, lag and support) is behind the manage gate: unless
    the credentials authenticate a principal with the scope [context:manage_policy] that
    the stored tuples make manager, knowledge administrator or owner of that organization,
    it answers an error and leaves everything but the clock as it was. *)
Theorem manage_required creds orgID op a :
  (exists p, caller a creds = Ok p /\ hasScope (scopesOf p []) ScopeManagePolicy = true /\
     org_manager (w_authz (app_world a)) p orgID = true) \/
  exists e k, run_op creds orgID op a = (Err e, later k a).
Proof. apply op_gated. Qed.

(** ** Callers with an API key *)

Lemma key_scopes a creds p :
  reachable (app_creds a) -> trim_space (cr_APIKey creds) <> "" -> caller a creds = Ok p ->
  p_Scopes p = ["context:search"; "context:read"].
Proof.
  intros Hreach%reachable_confined Hkey%is_empty_false. unfold caller, ChainAuthenticate. rewrite Hkey.
  cbn [negb]. destruct (authenticateKey _ _ _ _) as [r c] eqn:Hr. simpl. intros ->.
  apply authenticateKey_spec in Hr as (_ & cr & Hk & _ & ->); [|done].
  by destruct (Hreach _ _ Hk) as [-> _].
Qed.

(** A gate that the scopes of an agent do not pass *)
Lemma gated_ingest {A} creds orgID (f : Principal -> application A) a :
  (forall p, caller a creds = Ok p -> p_Scopes p = ["context:search"; "context:read"]) ->
  exists e, (p ← authenticate creds; _ ← of_result (requireIngest p orgID []); f p) a = (Err e, later 2 a).
Proof.
  intros Hs. assert (Hrun := authenticate_run creds a).
  destruct (caller a creds) as [p|e]; [|exists e; by apply bind_fail].
  rewrite (bind_run _ _ _ _ _ Hrun). cbv beta.
  assert (exists e, requireIngest p orgID [] = Err e) as [e He].
  { unfold requireIngest, scopesOf. rewrite (Hs p eq_refl).
    destruct (RequireOrg p orgID); eexists; reflexivity. }
  exists e. rewrite He. reflexivity.
Qed.

(** An API key cannot administer or write: whatever happened to the store of
    credentials, and whatever tuples are stored, a caller that presents a key in the key
    header is refused every administrative operation and every intake, single or in a
    batch, and nothing but the clock moves. *)
Theorem api_key_read_only creds orgID a :
  reachable (app_creds a) -> trim_space (cr_APIKey creds) <> "" ->
  (forall op, exists e k, run_op creds orgID op a = (Err e, later k a)) /\
  (forall req, exists e, Application.Intake creds orgID req a = (Err e, later 2 a)) /\
  (forall reqs, exists e, IntakeBatch creds orgID reqs a = (Err e, later 2 a)).
Proof.
  intros Hreach Hkey. pose proof (key_scopes a creds) as Hs. split_and!.
  - intros op. destruct (op_gated creds orgID op a) as [(p & Hc & Hm & _)|?]; [|done].
    unfold scopesOf in Hm. by rewrite (Hs p Hreach Hkey Hc) in Hm.
  - intros req. by apply gated_ingest; eauto.
  - intros reqs. by apply gated_ingest; eauto.
Qed.

(** ** Bootstrap *)

(** A read of the ledger, whether it finds what it looks for or not *)
Lemma on_store_read {A} (m : ledger A) a :
  (m (w_ledger (app_world a))).2 = w_ledger (app_world a) ->
  on_store m a = ((m (w_ledger (app_world a))).1, a).
Proof.
  destruct a as [w]. unfold on_store, on_world, on_ledger. simpl. intros Hs.
  destruct (m (w_ledger w)) as [r s]. simpl in *. subst. by destruct w.
Qed.

Definition known_org (a : App) (orgID : string) : Prop := is_Some (orgs (w_ledger (app_world a)) !! orgID).
Definition may_bootstrap (a : App) (creds : Credentials) (p : Principal) (orgID : string) : Prop :=
  validPlatformBootstrap svc creds = true \/ isPlatformAdmin p = true \/
  known_org a orgID /\ hasScope (scopesOf p []) ScopeManagePolicy = true /\
  org_manager (w_authz (app_world a)) p orgID = true.

Lemma requireOrgBootstrap_run creds p orgID a :
  exists r k, requireOrgBootstrap svc creds p orgID [] a = (r, later k a) /\
    (is_ok r = true -> may_bootstrap a creds p orgID).
Proof.
  unfold requireOrgBootstrap, may_bootstrap, known_org.
  destruct (validPlatformBootstrap svc creds); [exists (Ok tt), 0%nat; rewrite later_0; eauto|].
  destruct (isPlatformAdmin p); [exists (Ok tt), 0%nat; rewrite later_0; eauto|]. cbn [orb].
  assert (Hget := on_store_read (GetOrganization orgID) a). unfold GetOrganization in Hget at 1 3.
  destruct (orgs (w_ledger (app_world a)) !! orgID) as [o|] eqn:Ho; specialize (Hget eq_refl);
    rewrite (bind_run _ _ _ _ _ (attempt_run _ _ _ _ Hget)); cbv beta iota.
  - destruct (requireManage_run p orgID a) as [k Hk]. eexists _, k. split; [exact Hk|].
    destruct (hasScope _ _), (org_manager _ _ _); try done. intros _. right. right. by split; [exists o|].
  - exists (Err (ErrForbidden "organization bootstrap requires platform credentials")), 0%nat.
    by rewrite later_0.
Qed.

(** The tuples that bootstrap writes *)
Lemma seed_org orgID p m :
  principalSubject p <> "" -> formatUser p = "user:" +:+ principalSubject p ->
  org_manager (seedMemoryAuthzOrg orgID p m) p orgID = true /\
  has (seedMemoryAuthzOrg orgID p m) ("organization:" +:+ orgID) "member" (formatUser p) = true.
Proof.
  intros Hne%is_empty_false Hu. unfold seedMemoryAuthzOrg, org_manager. rewrite Hne, Hu.
  unfold Grant. split; rewrite !has_grant; unfold same_tuple.
  - by rewrite bool_decide_eq_true_2.
  - rewrite (bool_decide_eq_true_2 (_ /\ "member" = granted_relation "member" /\ _)) by done.
    apply orb_true_r.
Qed.

Lemma create_organization_run org a :
  exists r a1, attempt (on_world (timed (fun t => CreateOrganization t org))) a = (Ok r, a1) /\
    known_org a1 (org_ID org) /\ w_authz (app_world a1) = w_authz (app_world a).
Proof.
  unfold attempt, on_world, timed, on_ledger, known_org. destruct a as [w].
  rewrite (bind_run tick _ w (clock (w_clock w)) (w <| w_clock := S (w_clock w) |>) eq_refl).
  unfold CreateOrganization. cbn. destruct (orgs (w_ledger w) !! org_ID org) as [o|] eqn:Ho.
  - eexists _, _. split; [reflexivity|]. cbn. by rewrite Ho.
  - eexists _, _. split; [reflexivity|]. cbn. by rewrite lookup_insert_eq.
Qed.

(** Bootstrap hands an organization over: it succeeds only for a caller of that
    organization who holds the platform token, is a platform administrator, or already
    manages the organization; afterwards the organization exists, and a caller whose
    tuples name it as a user is one of its members and passes the manage relation. *)
Theorem bootstrap_hands_over creds orgID name a r a' :
  Bootstrap svc creds orgID name a = (Ok r, a') ->
  exists p, caller a creds = Ok p /\ p_OrgID p = orgID /\ orgID <> "" /\
    may_bootstrap a creds p orgID /\ known_org a' orgID /\
    (principalSubject p <> "" -> formatUser p = "user:" +:+ principalSubject p ->
     org_manager (w_authz (app_world a')) p orgID = true /\
     has (w_authz (app_world a')) ("organization:" +:+ orgID) "member" (formatUser p) = true).
Proof.
  unfold Bootstrap. intros (p & a1 & Hp & Hr)%bind_Ok. rewrite authenticate_run in Hp.
  injection Hp as Hp <-. exists p. apply bind_Ok in Hr as ([] & a1 & Horg & Hr).
  injection Horg as [Ho Hne]%RequireOrg_Ok <-.
  apply bind_Ok in Hr as ([] & a1 & Hb & Hr).
  destruct (requireOrgBootstrap_run creds p orgID (later 2 a)) as (v & k & Hv & Hmay).
  rewrite Hv in Hb. injection Hb as -> <-. specialize (Hmay eq_refl). rewrite later_add in Hr.
  apply bind_Ok in Hr as (t & a1 & Ht & Hr). rewrite now_run in Ht. injection Ht as <- <-.
  set (org := mkOrganization orgID name ∅ _) in Hr.
  destruct (create_organization_run org (later 1 (later (2 + k) a))) as (made & a1 & Hc & Hknown & Hz).
  rewrite (bind_run _ _ _ _ _ Hc) in Hr. cbv beta in Hr.
  apply bind_Ok in Hr as ([] & a2 & Hm & Hr).
  assert (a2 = a1) as -> by (destruct made; injection Hm; congruence).
  apply bind_Ok in Hr as ([] & a3 & [= <-] & [= _ <-]).
  split_and!; [done | done | done | done | exact Hknown |].
  intros Hs Hu. cbn. rewrite Hz. by apply seed_org.
Qed.

(** The platform token is compared after the caller is authenticated with the same
    bearer token: an identity provider that does not know the token refuses the first
    bootstrap it is meant for. *)
Lemma platform_token_unusable creds orgID name a :
  app_creds a = NewCredentialStore -> trim_space (cr_APIKey creds) = "" ->
  (forall n, exists e, primary n creds = Err e) ->
  exists e, Bootstrap svc creds orgID name a = (Err e, later 2 a).
Proof.
  intros Hc Hkey Hprim. assert (exists e, caller a creds = Err e) as [e He].
  { unfold caller. rewrite Hc. destruct (Hprim (w_clock (app_world a))) as [e He]. exists e.
    by apply chain_unknown. }
  exists e. assert (Hrun := authenticate_run creds a). rewrite He in Hrun. by apply bind_fail.
Qed.

(** Intake gives the record to the user of the sender's subject, whatever kind of
    principal the sender is. *)
Lemma seed_resource_owner orgID resourceID p m :
  resourceID <> "" -> principalSubject p <> "" ->
  has (seedMemoryAuthzResource orgID resourceID p m) ("resource:" +:+ resourceID) "owner"
    ("user:" +:+ principalSubject p) = true.
Proof.
  intros Hr%is_empty_false Hs%is_empty_false. unfold seedMemoryAuthzResource. rewrite Hr, Hs. cbn [orb].
  unfold Grant. rewrite 2!has_grant. unfold same_tuple at 2.
  rewrite (bool_decide_eq_true_2 (_ /\ "owner" = granted_relation "owner" /\ _)) by done.
  apply orb_true_r.
Qed.
End Gates.

(** ** A deployment *)
#[local] Existing Instances tally_env order_forward.
Definition demo_client : Client := {| answer := fun _ => Ok 200 |}.
Definition demo_host : Host := {|
  primary := fun _ => LocalAuthenticate;
  entropy := fun k _ => Ok ("random" +:+ itoa (Z.of_nat k));
  webhook_target := fun _ _ => None;
  decoder_error := fun _ => "invalid";
|}.
#[local] Existing Instances demo_client demo_host.

Definition demo_service : ApplicationService :=
  mkService (mkDeletionService true true "key") (mkExportService false 0 0) (mkFeedConfig "hook" 0)
    (mkVersion "" "" "" "" "" "memory-model") "" 500.
Definition demo_world : World :=
  mkWorld NewStore (Some NewEvidence) (Some NewIndex) NewMemory [] [] 0 0.
Definition demo_app : App :=
  mkApp demo_world NewCredentialStore (NewLimiter DefaultLimits) ∅ (mkCourier ∅ ∅ [] 0 0) ∅ 0.
Definition owner_creds : Credentials := mkCredentials "local:acme:alice:owner" "" ∅.
Definition alice : Principal := local_principal "acme" "alice" "owner".
Definition bootstrapped : App := (Bootstrap demo_service owner_creds "acme" "Acme" demo_app).2.

Lemma demo_bootstrap :
  Bootstrap demo_service owner_creds "acme" "Acme" demo_app
  = (Ok [("organization_id", VStr "acme"); ("name", VStr "Acme"); ("status", VStr "ready")], bootstrapped).
Proof. vm_compute. reflexivity. Qed.
Lemma demo_caller : caller demo_app owner_creds = Ok alice.
Proof. vm_compute. reflexivity. Qed.

Lemma bootstrap_hands_over_witness :
  known_org bootstrapped "acme" /\
  org_manager (w_authz (app_world bootstrapped)) alice "acme" = true.
Proof.
  destruct (@bootstrap_hands_over tally_env order_forward demo_host demo_service owner_creds
    "acme" "Acme" demo_app _ _ demo_bootstrap) as (p & Hp & _ & _ & _ & Hk & Hm).
  rewrite demo_caller in Hp. injection Hp as <-. split; [exact Hk|].
  apply Hm; vm_compute; [discriminate | reflexivity].
Defined.

(** A caller with the key of an agent *)
Definition keyed_app : App := demo_app <| app_creds := one_key |>.
Lemma api_key_read_only_witness :
  exists e k, run_op demo_service key_caller "acme" MSupportBundle keyed_app = (Err e, later k keyed_app).
Proof.
  refine (proj1 (@api_key_read_only tally_env order_forward demo_client demo_host demo_service key_caller "acme"
    keyed_app one_key_reachable ltac:(vm_compute; discriminate)) MSupportBundle).
Defined.
