(* ===== verification/ServiceFacts.v ===== *)
(** * Theorems of the service's reads

    Retrieval through the service with its quota and its audit trail, what the
    reads of sources and webhooks reveal, the rotation of a source's secret, and
    batches of events. *)
From S2P Require Import Prelude GoStd Sha256 Ports Platform Json Policy Mapping OpenFGA Ledger LedgerFacts.
From S2P Require Import MappingSpec Index AuditLog Credentials Authn AuthnFacts Quota Changes World Ingest IngestFacts.
From S2P Require Import Deletion QueueFacts Retrieval RetrievalFacts Disclosure Export Application ApplicationFacts.

Section Service.
Context `{GoEnv, GoMapOrder, Client, Host}.
Variable svc : ApplicationService.

(** ** Quota *)

(** The gate of the quota moves the clock, the cache of limits and the buckets. *)
Definition same_stores (a a' : App) : Prop :=
  (exists k, app_world a' = app_world (later k a)) /\ app_creds a' = app_creds a /\
  app_feed a' = app_feed a /\ app_manifests a' = app_manifests a /\ app_draws a' = app_draws a.

Lemma same_stores_trans a b c : same_stores a b -> same_stores b c -> same_stores a c.
Proof.
  intros ([j Hj] & ? & ? & ? & ?) ([k Hk] & ? & ? & ? & ?). split_and!; try congruence.
  exists (j + k)%nat. rewrite Hk. unfold later. rewrite Hj. unfold later. destruct (app_world a); simpl.
  by rewrite Nat.add_assoc.
Qed.
Lemma same_stores_later k a : same_stores a (later k a).
Proof. split_and!; [by exists k | done..]. Qed.
Lemma same_stores_refl a : same_stores a a.
Proof. rewrite <-(later_0 a) at 2. apply same_stores_later. Qed.

Lemma same_stores_bind {A B} (m : application A) (f : A -> application B) a :
  same_stores a (m a).2 -> (forall x a1, same_stores a1 (f x a1).2) -> same_stores a ((m ≫= f) a).2.
Proof.
  intros Hm Hf. unfold mbind, M_bind. destruct (m a) as [[x|e] a1]; [|done].
  eapply same_stores_trans; [exact Hm | apply Hf].
Qed.
Lemma same_stores_now a : same_stores a (now a).2.
Proof. rewrite now_run. apply same_stores_later. Qed.
Lemma same_stores_limiter {A} (m : M GoError Limiter A) a : same_stores a (on_limiter m a).2.
Proof.
  unfold on_limiter. destruct (m _) as [r l]. split_and!; try done. exists 0%nat. by rewrite later_0.
Qed.

Lemma refreshOrgQuota_stores orgID a : same_stores a (refreshOrgQuota orgID a).2.
Proof.
  unfold refreshOrgQuota. destruct (is_empty _); [apply same_stores_refl|].
  apply same_stores_bind; [apply same_stores_refl|]. intros e a1.
  apply same_stores_bind.
  { unfold fresh_entry. destruct e; [|apply same_stores_refl].
    apply same_stores_bind; [apply same_stores_now|]. intros. apply same_stores_refl. }
  intros [] a2; [apply same_stores_refl|]. apply same_stores_bind.
  { rewrite on_store_read by done. apply same_stores_refl. }
  intros q a3. apply same_stores_bind; [apply same_stores_now|]. intros t a4.
  apply same_stores_bind.
  { split_and!; try done. exists 0%nat. by rewrite later_0. }
  intros [] a5. destruct (decide _); [apply same_stores_refl | apply same_stores_limiter].
Qed.

Lemma enforceQuota_stores orgID op a : same_stores a (enforceQuota orgID op a).2.
Proof.
  unfold enforceQuota. apply same_stores_bind; [apply refreshOrgQuota_stores|]. intros [] a1.
  apply same_stores_bind; [apply same_stores_now|]. intros t a2. apply same_stores_limiter.
Qed.

(** ** Retrieval *)

(** Nothing changed but the clock, the identifiers drawn, the quota and the audit log. *)
Definition untouched (a a' : App) : Prop :=
  let w := app_world a in let w' := app_world a' in
  w_ledger w' = w_ledger w /\ w_evidence w' = w_evidence w /\ w_index w' = w_index w /\
  w_authz w' = w_authz w /\ w_bus w' = w_bus w /\ app_creds a' = app_creds a /\
  app_feed a' = app_feed a /\ app_manifests a' = app_manifests a /\ app_draws a' = app_draws a.

Lemma stores_untouched a a' :
  same_stores a a' -> untouched a a' /\ w_audit (app_world a') = w_audit (app_world a).
Proof. intros ([k Hw] & ? & ? & ? & ?). unfold untouched. by rewrite Hw. Qed.
Lemma untouched_trans a b c : untouched a b -> untouched b c -> untouched a c.
Proof. unfold untouched. intros. destruct_and!. split_and!; congruence. Qed.

(** An answer of the pipeline and the event that accounts for it *)
Lemma retrieve_spec (run : Providers -> pipeline ContextPacket) a :
  (forall P, audits (run P) accounts_for) ->
  let '(r, a') := retrieve run a in
  untouched a a' /\
  match r with
  | Ok pkt => exists idx t e now id,
      run (providers_at a idx) (mkTrace 0 []) = (Ok pkt, t) /\ accounts_for pkt e /\
      w_audit (app_world a') = w_audit (app_world a) ++ [stored_event now id e]
  | Err _ => w_audit (app_world a') = w_audit (app_world a)
  end.
Proof.
  intros Haud. unfold retrieve. destruct (w_index (app_world a)) as [idx|] eqn:Hidx; [|by split_and!].
  specialize (Haud (providers_at a idx) (mkTrace 0 [])).
  destruct (run (providers_at a idx) (mkTrace 0 [])) as [[pkt|err] t] eqn:Hrun; simpl in Haud.
  - destruct Haud as (e & He & Hacc). rewrite He. split; [by split_and!|].
    exists idx, t, e. eexists _, _. split; [exact Hrun|]. split; [exact Hacc|]. reflexivity.
  - rewrite Haud. by split_and!.
Qed.

Inductive read_op :=
| RSearch (orgID : string) (scopes : list string) (body : SearchRequest)
| RGetResource (orgID resourceID purpose consistency : string) (scopes : list string)
| RBrief (orgID : string) (scopes : list string) (purpose resourceID consistency : string) (maxItems : Z)
| RGraph (orgID : string) (scopes : list string) (body : GraphRequest).
Definition run_read (creds : Credentials) (op : read_op) : application ContextPacket :=
  match op with
  | RSearch org scopes body => Application.Search creds org scopes body
  | RGetResource org id purpose mode scopes => GetResource creds org id purpose mode scopes
  | RBrief org scopes purpose id mode n => Brief creds org scopes purpose id mode n
  | RGraph org scopes body => Application.Graph creds org scopes body
  end.
Definition purpose_of (op : read_op) : string :=
  match op with
  | RSearch _ _ body => sq_Purpose body
  | RGetResource _ _ purpose _ _ | RBrief _ _ purpose _ _ _ => purpose
  | RGraph _ _ body => gq_Purpose body
  end.

(** What a read answers, and what it leaves behind *)
Definition answered (a a1 : App) (creds : Credentials) (purpose : string) (pkt : ContextPacket)
    (a' : App) : Prop :=
  exists p, caller a1 creds = Ok p /\ pkt_OrgID pkt = p_OrgID p /\
    (forall id, id ∈ (cit_ResourceID <$> pkt_Citations pkt) ++ (node_ResourceID <$> pkt_Nodes pkt) ->
       disclosable (w_authz (app_world a)) (w_ledger (app_world a)) p purpose id) /\
    exists e now id, accounts_for pkt e /\
      w_audit (app_world a') = w_audit (app_world a) ++ [stored_event now id e].

Lemma retrieve_search req a :
  ledger_ok (w_ledger (app_world a)) ->
  let '(r, a') := retrieve (fun P => Retrieval.Search req) a in
  untouched a a' /\
  match r with
  | Ok pkt => answered a a (rq_Credentials req) (rq_Purpose req) pkt a'
  | Err _ => w_audit (app_world a') = w_audit (app_world a)
  end.
Proof.
  intros Hok. pose proof (retrieve_spec (fun P => Retrieval.Search req) a (fun P => Search_audits req)) as Hs.
  destruct (retrieve _ a) as [[pkt|err] a']; [|exact Hs].
  destruct Hs as (Hu & idx & t & e & now & id & Hrun & Hacc & Haud). split; [exact Hu|].
  apply memory_search_spec in Hrun as (p & Hp & Ho & Hd); [|exact Hok].
  exists p. split_and!; [exact Hp | exact Ho | exact Hd | by exists e, now, id].
Qed.
Lemma retrieve_graph req a :
  ledger_ok (w_ledger (app_world a)) ->
  let '(r, a') := retrieve (fun P => Retrieval.Graph req) a in
  untouched a a' /\
  match r with
  | Ok pkt => answered a a (rq_Credentials req) (rq_Purpose req) pkt a'
  | Err _ => w_audit (app_world a') = w_audit (app_world a)
  end.
Proof.
  intros Hok. pose proof (retrieve_spec (fun P => Retrieval.Graph req) a (fun P => Graph_audits req)) as Hs.
  destruct (retrieve _ a) as [[pkt|err] a']; [|exact Hs].
  destruct Hs as (Hu & idx & t & e & now & id & Hrun & Hacc & Haud). split; [exact Hu|].
  apply memory_graph_spec in Hrun as (p & Hp & Ho & Hd); [|exact Hok].
  exists p. split_and!; [exact Hp | exact Ho | exact Hd | by exists e, now, id].
Qed.

Definition read_contract (a : App) (creds : Credentials) (purpose : string)
    (ra : result GoError ContextPacket * App) : Prop :=
  let '(r, a') := ra in
  untouched a a' /\
  match r with
  | Ok pkt => exists a1, same_stores a a1 /\ answered a a1 creds purpose pkt a'
  | Err _ => w_audit (app_world a') = w_audit (app_world a)
  end.

Lemma unmetered a creds purpose (m : application ContextPacket) :
  (let '(r, a') := m a in untouched a a' /\
     match r with
     | Ok pkt => answered a a creds purpose pkt a'
     | Err _ => w_audit (app_world a') = w_audit (app_world a)
     end) -> read_contract a creds purpose (m a).
Proof.
  unfold read_contract. destruct (m a) as [[pkt|e] a']; [|done]. intros [Hu Ha]. split; [exact Hu|].
  exists a. split; [apply same_stores_refl | exact Ha].
Qed.

Lemma metered a orgID op creds purpose (m : application ContextPacket) :
  (forall a1, w_ledger (app_world a1) = w_ledger (app_world a) ->
     read_contract a1 creds purpose (m a1)) ->
  read_contract a creds purpose ((_ ← enforceQuota orgID op; m) a).
Proof.
  intros Hm. pose proof (enforceQuota_stores orgID op a) as Hq.
  unfold mbind, M_bind. destruct (enforceQuota orgID op a) as [[u|e] a1]; simpl in Hq.
  - pose proof (stores_untouched _ _ Hq) as [Hu Ha]. pose proof Hu as (Hl & _ & _ & Hz & _).
    specialize (Hm a1 Hl). unfold read_contract in *. destruct (m a1) as [[pkt|e] a'].
    + destruct Hm as [Hu' (a2 & Hs & (p & Hp & Ho & Hd & Hrest))].
      split; [by eapply untouched_trans|]. exists a2. split; [by eapply same_stores_trans|].
      exists p. rewrite <- Hz, <- Hl, <- Ha. by split_and!.
    + destruct Hm as [Hu' Ha']. split; [by eapply untouched_trans | congruence].
  - pose proof (stores_untouched _ _ Hq) as [Hu Ha]. by split.
Qed.

Lemma run_read_contract creds op a :
  ledger_ok (w_ledger (app_world a)) -> read_contract a creds (purpose_of op) (run_read creds op a).
Proof.
  intros Hok. destruct op; simpl.
  - apply metered. intros a1 Hl. apply unmetered.
    apply (retrieve_search (mkRequest creds _ _ _ _ _ _ _ _ _ _ _ _ _) a1). by rewrite Hl.
  - apply unmetered. by apply (retrieve_search (lookup_request creds _ _ _ _ _ _ _) a).
  - apply unmetered. by apply (retrieve_search (lookup_request creds _ _ _ _ _ _ _) a).
  - apply metered. intros a1 Hl. apply unmetered.
    apply (retrieve_graph (mkRequest creds _ _ _ _ _ _ _ _ _ _ _ _ _) a1). by rewrite Hl.
Qed.

(** C10 Every read of the service (search, one resource, brief, graph) answers only what
    its caller may see, and only logs: the packet is of the organization of the principal
    the credentials stand for once the quota is charged, every resource cited or shown is
    a live record of that organization that the stored tuples let the principal read, for
    an allowed purpose; one audit event that accounts for the packet is appended, none
    when the read is refused, and no store, tuple, key or subscription changes. *)
Theorem reads_authorized creds op a :
  ledger_ok (w_ledger (app_world a)) ->
  let '(r, a') := run_read creds op a in
  untouched a a' /\
  match r with
  | Ok pkt => exists a1 p, same_stores a a1 /\ caller a1 creds = Ok p /\ pkt_OrgID pkt = p_OrgID p /\
      (forall id, id ∈ (cit_ResourceID <$> pkt_Citations pkt) ++ (node_ResourceID <$> pkt_Nodes pkt) ->
         disclosable (w_authz (app_world a)) (w_ledger (app_world a)) p (purpose_of op) id) /\
      exists e now id, accounts_for pkt e /\
        w_audit (app_world a') = w_audit (app_world a) ++ [stored_event now id e]
  | Err _ => w_audit (app_world a') = w_audit (app_world a)
  end.
Proof.
  intros Hok. pose proof (run_read_contract creds op a Hok) as Hc. unfold read_contract in Hc.
  destruct (run_read creds op a) as [[pkt|e] a']; [|exact Hc].
  destruct Hc as [Hu (a1 & Hs & p & Hrest)]. split; [exact Hu|]. by exists a1, p.
Qed.

(** The quota is charged before anyone is authenticated: what a search takes from the
    buckets does not depend on the credentials presented. *)
Lemma search_charges_anyone creds creds' orgID scopes body a :
  app_limiter (Application.Search creds orgID scopes body a).2
  = app_limiter (Application.Search creds' orgID scopes body a).2.
Proof.
  unfold Application.Search, mbind, M_bind. destruct (enforceQuota orgID OpSearch a) as [[u|e] a1]; [|done].
  unfold retrieve. destruct (w_index _); [|done]. by repeat case_match.
Qed.

(** [GetAudit] and [DiagnoseByAuditID] read the ledger's audit table; the events of the
    memory deployment go to the audit log's own list, so no event is ever found. *)
Lemma audit_not_in_ledger e w : w_ledger (append_event e w).2 = w_ledger w.
Proof. reflexivity. Qed.
Lemma audit_not_found creds orgID auditID a p :
  caller a creds = Ok p -> requireAuditRead p orgID [] = Ok tt ->
  entries_of (Ledger.audits (w_ledger (app_world a))) orgID = [] ->
  DiagnoseByAuditID creds orgID auditID a = (Err (ErrNotFound "audit event not found"), later 2 a).
Proof.
  intros Hp Hr Hn. unfold DiagnoseByAuditID. assert (Hrun := authenticate_run creds a). rewrite Hp in Hrun.
  rewrite (bind_run _ _ _ _ _ Hrun). cbv beta. rewrite Hr.
  rewrite (bind_run (of_result (Ok tt)) _ (later 2 a) tt (later 2 a) eq_refl).
  assert (Hget := on_store_read (ListAudit orgID 500) (later 2 a) eq_refl).
  rewrite (bind_run _ _ _ _ _ Hget).
  assert (Hnil : (ListAudit orgID 500 (w_ledger (app_world (later 2 a)))).1 = Ok []).
  { unfold ListAudit, gets. simpl. by rewrite Hn. }
  unfold ListAudit, gets in Hnil |- *. simpl in Hnil |- *. injection Hnil as ->. done.
Qed.

(** ** Secrets *)
Lemma as_manager_ok creds orgID a p a1 :
  as_manager creds orgID a = (Ok p, a1) ->
  may_manage a creds orgID p /\ exists k, a1 = later k a.
Proof.
  unfold as_manager. intros (q & a2 & Hq & Hr)%bind_Ok. rewrite authenticate_run in Hq.
  injection Hq as Hq <-. apply bind_Ok in Hr as ([] & a2 & Hm & [= <- <-]).
  destruct (requireManage_run q orgID (later 2 a)) as [k Hk]. rewrite Hk, later_add in Hm. unfold may_manage.
  destruct (hasScope _ _), (org_manager _ _ _) eqn:Ho; try done. injection Hm as <-.
  split; [by split_and! | by exists (2 + k)%nat].
Qed.

(** A registration without its signing secret, neither in its field nor in the attributes,
    and without the text of its mapping *)
Definition without_secret (src : SourceRegistration) : SourceRegistration :=
  mkSource (src_SourceID src) (src_OrgID src) (src_System src) (src_DisplayName src)
    (src_TrustTier src) (src_TrustCeiling src) (src_AuthorityCeiling src)
    (src_ClassificationCeiling src) (src_ClassificationDefault src) (src_MappingSpec src) ""
    (src_Enabled src) "" (src_ReplayWindowSeconds src) (src_AllowedRecordTypes src)
    (src_AllowedVisibilityRefs src)
    (filter (fun kv : string * string => kv.1 <> "signing_secret") (src_Attributes src))
    (src_CreatedAt src) (src_UpdatedAt src).
Definition stored_sources (a : App) (orgID : string) : gmap string SourceRegistration :=
  inner (sources (w_ledger (app_world a))) orgID.

Lemma redact_without src : redactSource src = without_secret src.
Proof.
  unfold redactSource, without_secret. cbn. f_equal. apply map_eq. intros k.
  destruct (decide (k = "signing_secret")) as [->|Hk].
  - rewrite lookup_delete_eq. symmetry. apply map_lookup_filter_None_2. right. by intros v _ [].
  - rewrite lookup_delete_ne by done. symmetry. destruct (src_Attributes src !! k) as [v|] eqn:Hv.
    + by apply map_lookup_filter_Some_2.
    + apply map_lookup_filter_None_2. by left.
Qed.

(** A subscription without its secret *)
Definition unsigned (sub : Subscription) : Subscription := sub <| sub_Secret := "" |>.
Definition stored_webhooks (a : App) (orgID : string) : gmap string Subscription :=
  inner (subs (app_feed a)) orgID.

(** Only the clock moved, of which the feed keeps its own copy. *)
Definition clock_moved (a a' : App) : Prop :=
  exists k c, a' = (later k a) <| app_feed := c |> /\
    subs c = subs (app_feed a) /\ deliv c = deliv (app_feed a) /\ cr_posts c = cr_posts (app_feed a).
Lemma later_moved k a : clock_moved a (later k a).
Proof. exists k, (app_feed a). by destruct a as [[] ?]. Qed.

(** A read of the feed *)
Lemma on_feed_read {A} (m : courier A) k a r a' :
  (forall c, (m c).2 = c) -> on_feed m (later k a) = (Ok r, a') ->
  (exists c, subs c = subs (app_feed a) /\ (m c).1 = Ok r) /\ clock_moved a a'.
Proof.
  intros Hm. unfold on_feed, later. cbv zeta.
  match goal with |- context [m ?c] => set (c0 := c); specialize (Hm c0) end.
  destruct (m c0) as [r' c] eqn:Hr. simpl in Hm. intros [= -> <-]. subst c.
  split; [exists c0; by rewrite Hr|]. exists k, c0. destruct a as [[] ?]. done.
Qed.

(** C13 Reading does not reveal secrets: a manager who lists the sources of an organization
    sees each stored registration, and one who gets a source the stored one, exactly as it
    is but for its signing secret, in its field and in the attributes, and the text of its
    mapping, which are left out; one who lists or gets webhooks sees the stored
    subscriptions, exactly as they are but for their secrets; and none of these reads moves
    anything but the clock. *)
Theorem secrets_withheld creds orgID id a :
  (forall items a', Application.ListSources creds orgID a = (Ok items, a') ->
     items ≡ₚ without_secret <$> (map_to_list (stored_sources a orgID)).*2 /\ clock_moved a a') /\
  (forall src a', Application.GetSource creds orgID id a = (Ok src, a') ->
     without_secret <$> stored_sources a orgID !! id = Some src /\ clock_moved a a') /\
  (forall r a', Application.ListWebhooks creds orgID a = (Ok r, a') ->
     (exists items, r = [("items", VSubscriptions items)] /\
        items ≡ₚ unsigned <$> (map_to_list (stored_webhooks a orgID)).*2) /\ clock_moved a a') /\
  (forall r a', Application.GetWebhook creds orgID id a = (Ok r, a') ->
     (exists sub, stored_webhooks a orgID !! id = Some sub /\
        r = [("subscription", VSubscription (unsigned sub))]) /\ clock_moved a a').
Proof.
  split_and!.
  - intros items a' (p & a1 & [_ [k ->]]%as_manager_ok & Hr)%bind_Ok.
    apply bind_Ok in Hr as (l & a2 & Hl & [= <- <-]). rewrite on_store_read in Hl by done.
    injection Hl as <- <-. split; [|apply later_moved]. rewrite <-go_values_perm.
    erewrite list_fmap_ext; [reflexivity|]. intros i src _. apply redact_without.
  - intros src a' (p & a1 & [_ [k ->]]%as_manager_ok & Hr)%bind_Ok.
    apply bind_Ok in Hr as (s & a2 & Hs & [= <- <-]). rewrite on_store_read in Hs.
    + injection Hs as Hs <-. split; [|apply later_moved]. unfold Ledger.GetSource, find in Hs.
      change (stored_sources a orgID !! id) with (lookup2 (sources (w_ledger (app_world a))) orgID id).
      change (w_ledger (app_world (later k a))) with (w_ledger (app_world a)) in Hs.
      destruct (lookup2 _ orgID id) as [s'|]; simplify_eq/=. by rewrite redact_without.
    + unfold Ledger.GetSource, find. by destruct (lookup2 _ _ _).
  - intros r a' (p & a1 & [_ [k ->]]%as_manager_ok & Hr)%bind_Ok.
    apply bind_Ok in Hr as (l & a2 & Hl & [= <- <-]).
    apply on_feed_read in Hl as [(c & Hc & Hl) Hmv]; [|done]. split; [|exact Hmv].
    exists l. split; [done|]. injection Hl as <-. unfold stored_webhooks. by rewrite <-go_values_perm, Hc.
  - intros r a' (p & a1 & [_ [k ->]]%as_manager_ok & Hr)%bind_Ok.
    apply bind_Ok in Hr as (s & a2 & Hs & [= <- <-]).
    assert (Hget : forall c, Changes.GetWebhook orgID id c =
              (match lookup2 (subs c) orgID id with
               | Some sub => Ok (unsigned sub)
               | None => Err (ErrNotFound "webhook subscription not found") end, c)).
    { intros c. unfold Changes.GetWebhook, lookupSubscription, mbind, M_bind. by destruct (lookup2 _ _ _). }
    apply on_feed_read in Hs as [(c & Hc & Hl) Hmv]; [|intros c; by rewrite Hget]. split; [|exact Hmv].
    rewrite Hget, Hc in Hl. simpl in Hl.
    change (stored_webhooks a orgID !! id) with (lookup2 (subs (app_feed a)) orgID id).
    destruct (lookup2 _ orgID id) as [sub|]; [|done]. exists sub. split; [done|]. by injection Hl as <-.
Qed.

(** Rotating a source's secret takes effect at once and only there: the answer holds the
    new secret, made of 32 random bytes, the stored registration verifies signatures with
    it, and no other row of the ledger changes. *)
Theorem rotation_takes_effect creds orgID id a r a' :
  ledger_ok (w_ledger (app_world a)) -> RotateSourceSecret creds orgID id a = (Ok r, a') ->
  exists src src' b, lookup2 (sources (w_ledger (app_world a))) orgID id = Some src /\
    entropy (app_draws a) 32 = Ok b /\ ("secret_once", VStr ("cfsrc_" +:+ hex_encode b)) ∈ r /\
    w_ledger (app_world a') = (w_ledger (app_world a))
      <| sources := insert2 orgID id src' (sources (w_ledger (app_world a))) |> /\
    signing_secret src' = "cfsrc_" +:+ hex_encode b /\
    src_OrgID src' = orgID /\ src_SourceID src' = id /\ src_Enabled src' = src_Enabled src /\
    EffectiveTrustCeiling src' = EffectiveTrustCeiling src /\
    src_AuthorityCeiling src' = src_AuthorityCeiling src.
Proof.
  intros Hok (p & a1 & [_ [k ->]]%as_manager_ok & Hr)%bind_Ok.
  apply bind_Ok in Hr as (src & a2 & Hs & Hr).
  rewrite on_store_read in Hs by (unfold Ledger.GetSource, find; by destruct (lookup2 _ _ _)).
  unfold Ledger.GetSource, find in Hs. destruct (lookup2 _ orgID id) as [s'|] eqn:Hl; [|done].
  injection Hs as -> <-. change (lookup2 (sources (w_ledger (app_world a))) orgID id = Some src) in Hl.
  destruct (ok_sources _ Hok _ _ _ Hl) as [Ho Hi]. apply bind_Ok in Hr as (secret & a2 & Hsec & Hr).
  apply bind_Ok in Hsec as (rb & a3 & [= <- <-] & Hsec).
  apply bind_Ok in Hsec as (b & a4 & Hb & [= <- <-]). unfold of_result in Hb. injection Hb as Hb <-.
  apply bind_Ok in Hr as (key & a3 & [= <- <-] & Hr).
  apply bind_Ok in Hr as (t & a4 & [= <- <-] & Hr).
  apply bind_Ok in Hr as ([] & a5 & Hu & [= <- <-]).
  unfold WithOrgTx in Hu. destruct (is_empty orgID); [done|]. injection Hu as <-.
  exists src. eexists. exists b.
  split_and!; [done | exact Hb | right; right; left | simpl; rewrite Ho, Hi; reflexivity | ..]; done.
Qed.

(** ** Batches *)
Fixpoint intakes (creds : Credentials) (orgID : string) (reqs : list IntakeRequest) (a : App)
    : list (result GoError response) * App :=
  match reqs with
  | [] => ([], a)
  | req :: reqs =>
      let '(r, a1) := Application.Intake creds orgID req a in
      let '(rs, a2) := intakes creds orgID reqs a1 in (r :: rs, a2)
  end.
Definition batch_item (orgID : string) (req : IntakeRequest) (r : result GoError response) : response :=
  match r with Ok out => out | Err e => rejected_item orgID req e end.
Definition accepted (rs : list (result GoError response)) : list (result GoError response) :=
  List.filter is_ok rs.

Lemma intake_fold creds orgID reqs results n k a :
  fold_m (intake_one creds orgID) (results, n, k) reqs a
  = let '(rs, a') := intakes creds orgID reqs a in
    (Ok (results ++ zip_with (batch_item orgID) reqs rs, n + zlen (accepted rs),
         k + (zlen reqs - zlen (accepted rs))), a').
Proof.
  assert (Hz : forall A (x : A) l, zlen (x :: l) = zlen l + 1) by (intros; unfold zlen; simpl; lia).
  revert results n k a. induction reqs as [|req reqs IH]; intros results n k a; simpl.
  { unfold mret, M_ret. rewrite app_nil_r. change (zlen _) with 0. by rewrite !Z.add_0_r. }
  unfold mbind, M_bind at 1 2. unfold attempt. destruct (Application.Intake creds orgID req a) as [[out|e] a1].
  - simpl. rewrite IH. destruct (intakes creds orgID reqs a1) as [rs a2]. simpl.
    rewrite <-app_assoc. change (accepted (Ok out :: rs)) with (Ok (E := GoError) out :: accepted rs).
    rewrite !Hz. f_equal. f_equal. f_equal; [f_equal|]; lia.
  - simpl. rewrite IH. destruct (intakes creds orgID reqs a1) as [rs a2]. simpl.
    rewrite <-app_assoc. change (accepted (Err e :: rs)) with (accepted rs).
    rewrite !Hz. f_equal. f_equal. f_equal; lia.
Qed.

(** A batch is the sequence of its intakes: once the caller passes the ingest gate, the
    events are taken one after the other, a refused one does not stop the next, the answer
    has one item per event in the order of the batch, and the two counts add up. *)
Theorem batch_is_sequence creds orgID reqs a p :
  caller a creds = Ok p -> requireIngest p orgID [] = Ok tt ->
  IntakeBatch creds orgID reqs a
  = let '(rs, a') := intakes creds orgID reqs (later 2 a) in
    (Ok [("results", VMaps (zip_with (batch_item orgID) reqs rs));
         ("accepted_count", VInt (zlen (accepted rs)));
         ("rejected_count", VInt (zlen reqs - zlen (accepted rs)))], a').
Proof.
  intros Hp Hi. unfold IntakeBatch. assert (Hrun := authenticate_run creds a). rewrite Hp in Hrun.
  rewrite (bind_run _ _ _ _ _ Hrun). cbv beta. rewrite Hi.
  rewrite (bind_run (of_result (Ok tt)) _ (later 2 a) tt (later 2 a) eq_refl).
  pose proof (intake_fold creds orgID reqs [] 0 0 (later 2 a)) as Hf.
  destruct (intakes creds orgID reqs (later 2 a)) as [rs a'].
  by rewrite (bind_run _ _ _ _ _ Hf).
Qed.
End Service.

(** ** A deployment with two documents, of which alice may read one *)
#[local] Existing Instances tally_env order_forward demo_client demo_host.
Definition stocked : App :=
  demo_app <| app_world := mkWorld world_store (Some NewEvidence) (Some world_index) world_authz [] [] 0 0 |>.
Definition member_creds : Credentials := mkCredentials "local:acme:alice:member" "" ∅.
Definition mail_search : read_op :=
  RSearch "acme" [] (mkSearchRequest "mail" "support" [] [] 0 "").
Definition mail_packet : ContextPacket := match (run_read member_creds mail_search stocked).1 with Ok pkt => pkt | Err _ => no_packet end.

Lemma mail_run :
  run_read member_creds mail_search stocked = (Ok mail_packet, (run_read member_creds mail_search stocked).2).
Proof. vm_compute. reflexivity. Qed.
Example mail_cited : cit_ResourceID <$> pkt_Citations mail_packet = ["r1"].
Proof. vm_compute. reflexivity. Qed.

Lemma reads_authorized_witness :
  reads world_authz "user:alice" "resource:r1" /\
  exists e now id, accounts_for mail_packet e /\
    w_audit (app_world (run_read member_creds mail_search stocked).2) = [stored_event now id e].
Proof.
  pose proof (@reads_authorized tally_env order_forward demo_host member_creds mail_search stocked
    world_store_ok) as Hr.
  rewrite mail_run in Hr. destruct Hr as (_ & a1 & p & Hs & Hp & _ & Hd & Haud). split; [|exact Haud].
  assert (Hin : "r1" ∈ (cit_ResourceID <$> pkt_Citations mail_packet)
                        ++ (node_ResourceID <$> pkt_Nodes mail_packet)).
  { apply elem_of_app. left. rewrite mail_cited. left. }
  assert (p = local_principal "acme" "alice" "member") as ->.
  { destruct Hs as (_ & Hc & _). unfold caller in Hp. rewrite Hc in Hp. vm_compute in Hp. injection Hp as <-. reflexivity. }
  exact (proj1 (Hd "r1" Hin)).
Defined.

(** The secret of a source is rotated, and a batch of events refused one by one. *)
Definition crm : SourceRegistration :=
  mkSource "crm" "acme" "crm" "" "" "" "" "" "" "" "" true "first" 0 [] [] ∅ zero_time zero_time.
Definition with_source : App :=
  bootstrapped <| app_world := (app_world bootstrapped)
    <| w_ledger := run [CUpsertSource 5 crm] NewStore |> |>.
Definition rotation : result GoError response * App := RotateSourceSecret owner_creds "acme" "crm" with_source.
Lemma rotation_run : rotation = (Ok [("source_id", VStr "crm"); ("key_id", VStr (fresh_id 0));
  ("secret_once", VStr ("cfsrc_" +:+ hex_encode "random0"))], rotation.2).
Proof. vm_compute. reflexivity. Qed.
Lemma with_source_ok : ledger_ok (w_ledger (app_world with_source)).
Proof. apply run_ok, ledger_ok_new. Qed.

Lemma rotation_takes_effect_witness :
  exists src', lookup2 (sources (w_ledger (app_world rotation.2))) "acme" "crm" = Some src' /\
    signing_secret src' = "cfsrc_" +:+ hex_encode "random0".
Proof.
  destruct (@rotation_takes_effect tally_env order_forward demo_host owner_creds "acme" "crm" with_source
    _ rotation.2 with_source_ok rotation_run) as (src & src' & b & _ & Hb & _ & Hl & Hs & _).
  exists src'. rewrite Hl. split; [apply lookup2_insert2_eq|]. rewrite Hs.
  vm_compute in Hb. by injection Hb as <-.
Defined.

Definition no_event : IntakeRequest :=
  mkIntakeRequest (mkIntakeEvent "e1" "" "crm" "" "" "" "" "" "" ∅ zero_time) "{}" "" "" "" "" None false
    false zeroSpec.
Lemma batch_is_sequence_witness :
  exists a', IntakeBatch owner_creds "acme" [no_event; no_event] with_source
  = (Ok [("results", VMaps (zip_with (batch_item "acme") [no_event; no_event]
            (intakes owner_creds "acme" [no_event; no_event] (later 2 with_source)).1));
         ("accepted_count", VInt 0); ("rejected_count", VInt 2)], a').
Proof.
  assert (Hn : zlen (accepted (intakes owner_creds "acme" [no_event; no_event] (later 2 with_source)).1) = 0)
    by (vm_compute; reflexivity).
  pose proof (@batch_is_sequence tally_env order_forward demo_host owner_creds "acme" [no_event; no_event]
    with_source alice ltac:(vm_compute; reflexivity) ltac:(vm_compute; reflexivity)) as Hb.
  destruct (intakes owner_creds "acme" [no_event; no_event] (later 2 with_source)) as [rs a'].
  exists a'. rewrite Hb. simpl in Hn. by rewrite Hn.
Defined.
