(* ===== verification/Shutdown.v ===== *)
(** * [internal/application/worker.go]: shutting down, and the messages of JetStream

    [RunWorker] ends with [Drain], a bounded last pass over every queue. The context of the
    drain is over when [ctx_err] says so, by the number of readings of the clock. The
    messages that [FetchIndex] pulls are an argument; what is sent back for each of them,
    [Ack] or [Nak], is the answer. *)
From S2P Require Import Prelude GoStd Ports Platform Json Ledger OpenFGA Changes World Worker.
From S2P Require Import Retrieval Application Config Wiring.

Class DrainContext := { ctx_err : nat -> bool }.

(** ** The consumer of JetStream *)
Inductive Receipt := Ack | Nak.
#[export] Instance Receipt_eq_dec : EqDecision Receipt.
Proof. solve_decision. Defined.

Section Consume.
Context `{GoEnv, GoMapOrder, Links}.

Definition consume_message (m : EventMessage) : service Receipt :=
  r ← attempt (projectPayload (msg_Data m));
  mret (match r with Ok _ => Ack | Err _ => Nak end).
Definition consume_message_into (sent : list Receipt) (m : EventMessage) : service (list Receipt) :=
  r ← consume_message m; mret (sent ++ [r]).
(** [consumeOnce] over a bus with a pull consumer *)
Definition consumeFetched (fetched : result GoError (list EventMessage)) : service (list Receipt) :=
  msgs ← of_result fetched;
  fold_m consume_message_into [] msgs.

(** The identifier that [Bus.Publish] gives a message: the headers are walked in the order of
    the map, and the last of the two names wins. *)
Definition bus_message_id (headers : strmap) : string :=
  fold_left (fun id kv => if equal_fold kv.1 "Nats-Msg-Id" || equal_fold kv.1 "event_id" then kv.2 else id)
    (go_range headers) "".
End Consume.

(** ** Draining *)
Definition drain_timeout (environ : strmap) : Z :=
  let v := os_getenv environ "WORKER_DRAIN_TIMEOUT" in
  if is_empty v then 30 * second
  else match parse_duration v with
       | Some d => if 0 <? d then d else 30 * second
       | None => 30 * second
       end.

Section Stopping.
Context `{GoEnv, GoMapOrder, Links, Client, DrainContext}.
Variable feed : FeedConfig.

Definition cancelled : application bool := gets (fun a => ctx_err (w_clock (app_world a))).

(** [None] when the fuel is spent before the loop ends *)
Fixpoint drain_relay (fuel : nat) (wk : Worker) : application (option unit) :=
  match fuel with
  | O => mret None
  | S fuel =>
      r ← attempt (on_world (relayOnce wk));
      over ← cancelled;
      match r with
      | Err _ => mret (Some tt)
      | Ok _ =>
          if over : bool then mret (Some tt)
          else
            pending ← on_store (ListOutboxPending "" 1);
            match pending with
            | [] => mret (Some tt)
            | _ => drain_relay fuel wk
            end
      end
  end.

(** At most [n] passes of the webhooks, of [pages] pages each *)
Fixpoint drain_feed (n pages : nat) (wk : Worker) : application unit :=
  match n with
  | O => mret tt
  | S n =>
      over ← cancelled;
      if over : bool then mret tt
      else
        s ← gets (fun a => w_ledger (app_world a));
        delivered ← on_feed (DeliverPending pages feed s (wk_Batch wk));
        if delivered =? 0 then mret tt else drain_feed n pages wk
  end.
Fixpoint drain_authz (n : nat) (wk : Worker) : application unit :=
  match n with
  | O => mret tt
  | S n =>
      over ← cancelled;
      if over : bool then mret tt
      else
        r ← attempt (on_world (authzOnce wk));
        match r with
        | Err _ => mret tt
        | Ok _ =>
            counts ← attempt (on_store (CountAuthzTuplePending ""));
            match counts with
            | Ok (pending, _) => if pending =? 0 then mret tt else drain_authz n wk
            | Err _ => mret tt
            end
        end
  end.

(** The bus is the in-process one, whose messages [consumeOnce] projects. *)
Definition Drain (fuel pages : nat) (wk : Worker) : application (option unit) :=
  ended ← drain_relay fuel wk;
  match ended with
  | None => mret None
  | Some _ =>
      _ ← attempt (on_world consumeOnce);
      _ ← drain_feed 5 pages wk;
      _ ← drain_authz 5 wk;
      mret (Some tt)
  end.
End Stopping.
