(* ===== verification/ShutdownFacts.v ===== *)
(** * What the drain and the consumer guarantee

    The clock never goes back while a pass runs, so a drain whose context ends comes to an
    end; a message of the bus is acknowledged only once its event is settled. *)
From S2P Require Import Prelude GoStd Ports Platform Json Ledger OpenFGA Changes World Worker WorkerFacts.
From S2P Require Import Mapping AuditLog Retrieval Disclosure Application ApplicationFacts Config Wiring Shutdown.

(** ** The clock *)
Definition forward {A} (m : service A) : Prop := forall w, (w_clock w <= w_clock (m w).2)%nat.
Lemma forward_bind {A B} (m : service A) (f : A -> service B) :
  forward m -> (forall x, forward (f x)) -> forward (m ≫= f).
Proof.
  intros Hm Hf w. specialize (Hm w). unfold mbind, M_bind. destruct (m w) as [[x|e] w1]; [|done].
  etrans; [exact Hm | apply Hf].
Qed.
Lemma forward_attempt {A} (m : service A) : forward m -> forward (attempt m).
Proof. intros Hm w. specialize (Hm w). unfold attempt. by destruct (m w). Qed.
Lemma forward_for_each {A} (f : A -> service unit) l : (forall x, forward (f x)) -> forward (for_each f l).
Proof.
  intros Hf. induction l as [|x l IH]; [by intros w|]. cbn [for_each]. by apply forward_bind.
Qed.
Lemma forward_ledger {A} (m : ledger A) : forward (on_ledger m).
Proof. intros w. unfold on_ledger. by destruct (m (w_ledger w)). Qed.
Ltac forward_leaf := intros ?; cbn; repeat case_match; simplify_eq/=; lia.
Ltac forward_step :=
  match goal with
  | |- forall _, _ => intros ?
  | |- forward (_ ≫= _) => apply forward_bind
  | |- forward (attempt _) => apply forward_attempt
  | |- forward (for_each _ _) => apply forward_for_each
  | |- forward (on_ledger _) => apply forward_ledger
  | |- forward (match ?x with _ => _ end) => destruct x
  | |- forward (timed _) => unfold timed
  | |- forward _ => forward_leaf
  end.

Section Clock.
Context `{GoEnv, GoMapOrder, Links}.
Lemma forward_projectPayload data : forward (projectPayload data).
Proof. unfold projectPayload, project, project_record, mark_inbox, on_index. repeat forward_step. Qed.
Lemma forward_relay_entry e : forward (relay_entry e).
Proof. unfold relay_entry, publish. repeat (apply forward_projectPayload || forward_step). Qed.
(** A pass of the relay reads the clock. *)
Lemma relayOnce_ticks wk w : (w_clock w < w_clock (relayOnce wk w).2)%nat.
Proof.
  assert (exists out w1, timed (fun t => ClaimOutbox t (wk_Batch wk)) w = (Ok out, w1) /\ w_clock w1 = S (w_clock w))
    as (out & w1 & Hc & Hw).
  { unfold timed. rewrite (bind_run tick _ _ _ _ eq_refl). unfold on_ledger, ClaimOutbox.
    destruct (claim_outbox _ _ _ _ _ _) as [[? ?] out]. by eexists out, _. }
  unfold relayOnce. rewrite (bind_run _ _ _ _ _ Hc).
  assert (forall m : service unit, forward m -> (w_clock w < w_clock (m w1).2)%nat) as Hf.
  { intros m Hm. specialize (Hm w1). lia. }
  apply Hf. destruct out; repeat (apply forward_relay_entry || forward_step).
Qed.
End Clock.

(** ** The end of a drain *)
Section Ends.
Context `{GoEnv, GoMapOrder, Links, DrainContext}.

Lemma drain_relay_ends wk over fuel a :
  (forall n, (over <= n)%nat -> ctx_err n = true) ->
  (over <= w_clock (app_world a) + fuel)%nat -> (0 < fuel)%nat ->
  exists a', drain_relay fuel wk a = (Ok (Some tt), a').
Proof.
  intros Hover. revert a. induction fuel as [|fuel IH]; intros a Hn Hpos; [lia|]. cbn [drain_relay].
  pose proof (relayOnce_ticks wk (app_world a)) as Ht.
  destruct (relayOnce wk (app_world a)) as [r w1] eqn:Hr. simpl in Ht.
  assert (on_world (relayOnce wk) a = (r, a <| app_world := w1 |>)) as Hrun by (unfold on_world; by rewrite Hr).
  rewrite (bind_run _ _ _ _ _ (attempt_run _ _ _ _ Hrun)). set (a1 := a <| app_world := w1 |>).
  rewrite (bind_run cancelled _ a1 (ctx_err (w_clock w1)) a1 eq_refl).
  destruct r as [[]|e]; [|by exists a1]. destruct (ctx_err (w_clock w1)) eqn:Ho; [by exists a1|].
  assert (w_clock w1 < over)%nat.
  { destruct (decide (w_clock w1 < over)%nat) as [|Hge]; [done|]. rewrite Hover in Ho; [done | lia]. }
  match goal with |- exists _, (?m ≫= ?f) _ = _ =>
    assert (exists out a2, m a1 = (Ok out, a2) /\ w_clock (app_world a2) = w_clock w1) as (out & a2 & Hp & Hc2) end.
  { eexists _, _. split; reflexivity. }
  rewrite (bind_run _ _ _ _ _ Hp). destruct out; [by exists a2|].
  apply IH; simpl; rewrite ?Hc2; lia.
Qed.
End Ends.

(** The context of the drain is over from the [over]th reading of the clock on. *)
Definition ends_by `{DrainContext} (over : nat) : Prop := forall n, (over <= n)%nat -> ctx_err n = true.

(** C28 Shutting down ends: once the context of the drain is over from some reading of the
    clock on, as many passes of the relay as there are readings left are enough, however the
    bus and the authorization service fail and even when entries stay pending under the lease
    of another worker; the other queues take five passes at most. *)
Theorem drain_ends `{GoEnv, GoMapOrder, Links, Client, DrainContext} feed wk over fuel pages a :
  ends_by over -> (over <= w_clock (app_world a) + fuel)%nat -> (0 < fuel)%nat ->
  (Drain feed fuel pages wk a).1 <> Ok None.
Proof.
  intros Hover Hn Hpos. destruct (drain_relay_ends wk over fuel a Hover Hn Hpos) as [a1 Hr].
  unfold Drain. rewrite (bind_run _ _ _ _ _ Hr). unfold mbind, M_bind.
  destruct (attempt (on_world consumeOnce) a1) as [[?|?] a2]; [|done].
  destruct (drain_feed feed 5 pages wk a2) as [[?|?] a3]; [|done].
  by destruct (drain_authz 5 wk a3) as [[?|?] a4].
Qed.

(** ** Receipts *)
Section Receipts.
Context `{GoEnv, GoMapOrder, Links}.

(** A message that carries no event: its payload does not decode, or it names no
    organization or no event *)
Definition eventless (m : EventMessage) : Prop :=
  forall p, decode_payload (msg_Data m) = Some p -> pl_OrgID p = "" \/ pl_EventID p = "".
Definition recorded (s : Store) (m : EventMessage) : Prop :=
  exists p, decode_payload (msg_Data m) = Some p /\ projected s p.
(** The projection of the event needs a record that is not there. *)
Definition record_missing (s : Store) (m : EventMessage) : Prop :=
  exists p, decode_payload (msg_Data m) = Some p /\ pl_ResourceID p <> "" /\
    lookup2 (records s) (pl_OrgID p) (pl_ResourceID p) = None.

(** What each receipt says *)
Definition answered (s : Store) (m : EventMessage) (r : Receipt) : Prop :=
  match r with Ack => eventless m \/ recorded s m | Nak => record_missing s m end.
Lemma answered_grows w w' m r : inbox_grows w w' -> answered (w_ledger w) m r -> answered (w_ledger w') m r.
Proof.
  intros (i & Hl & Hi & _). destruct r; cbn.
  - intros [He|(p & Hp & Hm)]; [by left | right]. exists p. split; [done|]. unfold projected in *. rewrite Hl. by apply Hi.
  - intros (p & Hp & Hr & Hm). exists p. by rewrite Hl.
Qed.

Lemma consume_message_spec m w :
  exists r w', consume_message m w = (Ok r, w') /\ inbox_grows w w' /\ answered (w_ledger w') m r.
Proof.
  unfold consume_message. pose proof (projectPayload_grows (msg_Data m) w) as Hg.
  destruct (projectPayload (msg_Data m) w) as [r w'] eqn:Hr.
  rewrite (bind_run _ _ _ _ _ (attempt_run _ _ _ _ Hr)).
  eexists _, w'. split; [reflexivity|]. split; [exact Hg|]. unfold projectPayload in Hr.
  destruct (decode_payload (msg_Data m)) as [p|] eqn:Hp.
  2: { injection Hr as <- _. left. intros p' Hp'. congruence. }
  destruct (decide (settled_event (w_ledger w) p)) as [Hs|Hs].
  - rewrite (project_settled _ _ Hs) in Hr. injection Hr as <- <-. destruct Hs as [Ho|[Ho|Hm]].
    1,2: left; intros p' Hp'; rewrite Hp in Hp'; injection Hp' as <-; auto.
    right. by exists p.
  - destruct (project_spec p w Hs) as [(e & Hrun & _ & Hne & Hl)|(w2 & Hrun & _ & Hm)];
      rewrite Hrun in Hr; injection Hr as <- <-.
    + by exists p.
    + right. exists p. split; [done | by eapply marks_projected].
Qed.

(** A message without an event is acknowledged, and leaves no trace. *)
Lemma eventless_acknowledged m w : eventless m -> consume_message m w = (Ok Ack, w).
Proof.
  unfold eventless, consume_message, projectPayload. intros He.
  destruct (decode_payload (msg_Data m)) as [p|]; [|done].
  assert (Hp : project p w = (Ok tt, w)).
  { apply project_settled. destruct (He p eq_refl); [by left | by right; left]. }
  by rewrite (bind_run _ _ _ _ _ (attempt_run _ _ _ _ Hp)).
Qed.
End Receipts.

(** C27 At-least-once consumption: every message that was fetched is answered, in order. One
    that carries an event, that is a payload which decodes and names an organization and an
    event, is acknowledged only when the event is marked as projected in the ledger, and
    sent back only when the record to project is missing. One that carries none is never
    sent back. *)
Theorem acknowledged_when_recorded `{GoEnv, GoMapOrder, Links} msgs w :
  exists sent w', consumeFetched (Ok msgs) w = (Ok sent, w') /\ length sent = length msgs /\
    forall i m r, msgs !! i = Some m -> sent !! i = Some r ->
      match r with
      | Ack => eventless m \/ recorded (w_ledger w') m
      | Nak => ~ eventless m /\ record_missing (w_ledger w') m
      end.
Proof.
  unfold consumeFetched. rewrite (bind_run (of_result (Ok msgs)) _ w msgs w eq_refl).
  assert (forall sent0, exists sent w', fold_m consume_message_into sent0 msgs w = (Ok (sent0 ++ sent)%list, w') /\
    inbox_grows w w' /\
    Forall2 (fun m r => answered (w_ledger w') m r /\ (r = Nak -> ~ eventless m)) msgs sent) as Hall.
  { revert w. induction msgs as [|m msgs IH]; intros w sent0; cbn [fold_m].
    { exists [], w. rewrite app_nil_r. by split_and!; [|apply inbox_grows_refl|]. }
    destruct (consume_message_spec m w) as (r & w1 & Hm & Hg & Hr).
    rewrite (bind_run _ _ w (sent0 ++ [r])%list w1).
    2: { unfold consume_message_into. by rewrite (bind_run _ _ _ _ _ Hm). }
    destruct (IH w1 (sent0 ++ [r])%list) as (sent & w2 & Hrun & Hg2 & Hf). exists (r :: sent), w2.
    rewrite Hrun, <-app_assoc. split; [done|]. split; [by eapply inbox_grows_trans|].
    constructor; [|done]. split; [by eapply answered_grows|].
    intros -> He. by rewrite (eventless_acknowledged m w He) in Hm. }
  destruct (Hall []) as (sent & w' & Hrun & _ & Hf). exists sent, w'. split; [exact Hrun|].
  split; [by symmetry; eapply Forall2_length|]. intros i m r Hi Hs.
  destruct (Forall2_lookup_lr _ _ _ _ _ _ Hf Hi Hs) as [Ha Hn]. destruct r; [exact Ha | by split; [apply Hn|]].
Qed.

(** ** Message identifiers *)

(** The bus deduplicates by the event's identifier whatever the order of the headers. *)
Lemma bus_message_id_order `{GoMapOrder} headers v :
  (exists k, is_Some (headers !! k) /\ (equal_fold k "Nats-Msg-Id" || equal_fold k "event_id") = true) ->
  (forall k x, headers !! k = Some x -> (equal_fold k "Nats-Msg-Id" || equal_fold k "event_id") = true -> x = v) ->
  bus_message_id headers = v.
Proof.
  intros (k & [x Hk] & Hf) Hv.
  assert (forall l id, (forall kv, kv ∈ l -> (equal_fold kv.1 "Nats-Msg-Id" || equal_fold kv.1 "event_id") = true ->
            kv.2 = v) ->
    id = v \/ (exists kv, kv ∈ l /\ (equal_fold kv.1 "Nats-Msg-Id" || equal_fold kv.1 "event_id") = true) ->
    fold_left (fun id kv => if equal_fold kv.1 "Nats-Msg-Id" || equal_fold kv.1 "event_id" then kv.2 else id) l id
    = v) as Hgo.
  { induction l as [|kv l IH]; intros id Hall Hor; simpl.
    { by destruct Hor as [|(kv & Hin & _)]; [|apply elem_of_nil in Hin]. }
    apply IH; [intros kv' Hin; apply Hall; by right|].
    destruct (equal_fold kv.1 "Nats-Msg-Id" || equal_fold kv.1 "event_id") eqn:Hm; [left; apply Hall; [by left | done]|].
    destruct Hor as [|(kv' & [->|Hin]%elem_of_cons & Hm')]; [by left | congruence | right; by exists kv']. }
  apply Hgo; [|right; exists (k, x); split; [by apply elem_of_go_range | done]].
  intros [k' x'] Hin%elem_of_go_range. by apply Hv.
Qed.

(** ** A drain against a lease of another worker *)
Definition leased_world : World :=
  relay_world <| w_ledger := (w_ledger relay_world) <| outboxLease := {["ev1" := 1000000000000]} |> |>.
Lemma drain_ends_witness :
  let a := demo_app <| app_world := leased_world |> in
  (@Drain sample_env order_forward links_up demo_client {| ctx_err := fun n => (20 <=? n)%nat |}
     (mkFeedConfig "" 0) 21 1 sample_worker a).1 <> Ok None.
Proof.
  cbv zeta. apply (@drain_ends sample_env order_forward links_up demo_client) with (over := 20%nat);
    [|vm_compute; lia | lia].
  intros n Hn. by apply Nat.leb_le.
Defined.
