(* ===== verification/Wire.v ===== *)
(** * Requests and answers of the HTTP and MCP servers

    A request as [net/http] hands it to a handler, the credentials in its headers, and
    the bodies that handlers decode. *)
From S2P Require Import Prelude GoStd Ports Platform Json Decode Mapping MappingSpec OpenFGA Ledger.
From S2P Require Import Credentials Authn Changes World Deletion Export Application.

(** ** Requests *)

(** [hr_Path] holds the segments of the path, unescaped; the server redirects a path
    that is not clean before it looks for a handler. Headers and query parameters are
    the first values of their (canonical) names, [hr_ContentLength] is -1 when unknown.
    [hr_Cut]: reading fails after [hr_Body], where it would end otherwise. *)
Record HttpRequest := mkHttpRequest {
  hr_Method : string; hr_Path : list string; hr_Query : strmap; hr_Header : strmap;
  hr_Host : string; hr_TLS : bool; hr_ContentLength : Z; hr_Body : string;
  hr_Cut : bool;
}.
#[export] Instance HttpRequest_eta : Settable HttpRequest := fun r =>
  mkHttpRequest (hr_Method r) (hr_Path r) (hr_Query r) (hr_Header r) (hr_Host r) (hr_TLS r)
    (hr_ContentLength r) (hr_Body r) (hr_Cut r).
Definition header (r : HttpRequest) (name : string) : string := attr (hr_Header r) name.
Definition query (r : HttpRequest) (name : string) : string := attr (hr_Query r) name.
Definition url_path (r : HttpRequest) : string := "/" +:+ join (hr_Path r) "/".

(** [io.ReadAll(io.LimitReader(r.Body, n))]; [None] on an error *)
Definition read_all (n : Z) (r : HttpRequest) : option string :=
  if hr_Cut r && (Z.of_nat (String.length (hr_Body r)) <? n) then None else Some (limited n (hr_Body r)).

(** The environment of the process *)
Definition getenv (env : strmap) (name : string) : string := attr env name.

Definition hasCredential (r : HttpRequest) : bool :=
  negb (is_empty (trim_space (header r "Authorization")))
  || negb (is_empty (trim_space (header r "X-Api-Key"))).

(** The scopes of a header that is read when the deployment says so *)
Definition extra_scopes (env : strmap) (r : HttpRequest) : strmap :=
  if String.eqb (getenv env "CONTEXT_FABRIC_ALLOW_SCOPE_HEADER") "1" then
    match fields (header r "X-Context-Scopes") with
    | [] => ∅
    | scopes => {["scopes" := join scopes " "]}
    end
  else ∅.
Definition bearerCreds (env : strmap) (r : HttpRequest) : Credentials :=
  let token := trim_space (header r "Authorization") in
  let token := if has_prefix (to_lower token) "bearer " then trim_space (drop_str 7 token) else token in
  mkCredentials token (trim_space (header r "X-Api-Key")) (extra_scopes env r).
Definition scopesOf (creds : Credentials) : list string := fields (attr (cr_Extra creds) "scopes").

(** ** Bodies *)
Record SearchBody := mkSearchBody {
  sb_Query : string; sb_Purpose : string; sb_Scope : option (list (string * any));
  sb_Filters : option (Slice string); sb_MaxItems : Z; sb_Consistency : string;
}.
#[export] Instance SearchBody_eta : Settable SearchBody := fun r =>
  mkSearchBody (sb_Query r) (sb_Purpose r) (sb_Scope r) (sb_Filters r) (sb_MaxItems r) (sb_Consistency r).
Definition dec_SearchFilters : decoder (Slice string) :=
  dec_struct [("include_tags", dec_strings)].
Definition dec_SearchBody : decoder SearchBody :=
  dec_struct
    [field "query" sb_Query dec_string; field "purpose" sb_Purpose dec_string;
     field "scope" sb_Scope dec_anymap; field "filters" sb_Filters (dec_pointer ([], []) dec_SearchFilters);
     field "max_items" sb_MaxItems dec_int; field "consistency" sb_Consistency dec_string].
Definition zeroSearchBody : SearchBody := mkSearchBody "" "" None None 0 "".
Definition search_request (b : SearchBody) : SearchRequest :=
  mkSearchRequest (sb_Query b) (sb_Purpose b) (default [] (sb_Scope b)) (default ([], []) (sb_Filters b)).1
    (sb_MaxItems b) (sb_Consistency b).

Record GraphBody := mkGraphBody {
  gb_ResourceID : string; gb_Purpose : string; gb_Depth : Z; gb_MaxNodes : Z;
  gb_Predicates : Slice string; gb_Consistency : string;
}.
#[export] Instance GraphBody_eta : Settable GraphBody := fun r =>
  mkGraphBody (gb_ResourceID r) (gb_Purpose r) (gb_Depth r) (gb_MaxNodes r) (gb_Predicates r) (gb_Consistency r).
Definition dec_GraphBody : decoder GraphBody :=
  dec_struct
    [field "resource_id" gb_ResourceID dec_string; field "purpose" gb_Purpose dec_string;
     field "depth" gb_Depth dec_int; field "max_nodes" gb_MaxNodes dec_int;
     field "predicates" gb_Predicates dec_strings; field "consistency" gb_Consistency dec_string].
Definition graph_request (b : GraphBody) : GraphRequest :=
  mkGraphRequest (gb_ResourceID b) (gb_Purpose b) (gb_Depth b) (gb_MaxNodes b) (gb_Predicates b).1
    (gb_Consistency b).

Record BriefBody := mkBriefBody {
  bb_Purpose : string; bb_ResourceID : string; bb_MaxItems : Z; bb_Consistency : string;
}.
#[export] Instance BriefBody_eta : Settable BriefBody := fun r =>
  mkBriefBody (bb_Purpose r) (bb_ResourceID r) (bb_MaxItems r) (bb_Consistency r).
Definition dec_BriefBody : decoder BriefBody :=
  dec_struct
    [field "purpose" bb_Purpose dec_string;
     field "scope" bb_ResourceID (dec_struct [("resource_id", dec_string)]);
     field "max_items" bb_MaxItems dec_int; field "consistency" bb_Consistency dec_string].

(** Bodies of three strings, of two and of one *)
Definition dec_strings3 (a b c : string) : decoder (string * string * string) :=
  dec_struct
    [(a, fun v r => let '(x, o) := dec_string v r.1.1 in (x, r.1.2, r.2, o));
     (b, fun v r => let '(x, o) := dec_string v r.1.2 in (r.1.1, x, r.2, o));
     (c, fun v r => let '(x, o) := dec_string v r.2 in (r.1.1, r.1.2, x, o))].
Definition dec_strings2 (a b : string) : decoder (string * string) :=
  dec_struct
    [(a, fun v r => let '(x, o) := dec_string v r.1 in (x, r.2, o));
     (b, fun v r => let '(x, o) := dec_string v r.2 in (r.1, x, o))].
Definition dec_strings1 (a : string) : decoder string := dec_struct [(a, dec_string)].

#[export] Instance Quota_eta : Settable Quota := fun r =>
  mkQuota (q_SearchPerMinute r) (q_IntakePerMinute r) (q_ExportPerMinute r) (q_MaxResults r).
Definition dec_Quota : decoder Quota :=
  dec_struct
    [field "search_per_minute" q_SearchPerMinute dec_int; field "intake_per_minute" q_IntakePerMinute dec_int;
     field "export_per_minute" q_ExportPerMinute dec_int; field "max_results" q_MaxResults dec_int].

#[export] Instance CreateAgent_eta : Settable CreateAgentCredentialRequest := fun r =>
  mkCreateCredential (ccr_OrgID r) (ccr_AgentID r) (ccr_OwnerID r) (ccr_DelegationID r)
    (ccr_ExpiresAt r) (ccr_Label r).
Definition dec_CreateAgent : decoder CreateAgentCredentialRequest :=
  dec_struct
    [field "org_id" ccr_OrgID dec_string; field "agent_id" ccr_AgentID dec_string;
     field "owner_id" ccr_OwnerID dec_string; field "delegation_id" ccr_DelegationID dec_string;
     field "expires_at" ccr_ExpiresAt (dec_pointer zero_time dec_time); field "label" ccr_Label dec_string].

#[export] Instance IntakeEvent_eta : Settable IntakeEvent := fun r =>
  mkIntakeEvent (ev_EventID r) (ev_OrgID r) (ev_SourceSystem r) (ev_ExternalID r) (ev_SourceRevision r)
    (ev_IdempotencyKey r) (ev_ContentType r) (ev_ContentHash r) (ev_EvidenceRef r) (ev_Attributes r)
    (ev_ReceivedAt r).
Definition dec_IntakeEvent : decoder IntakeEvent :=
  dec_struct
    [field "event_id" ev_EventID dec_string; field "org_id" ev_OrgID dec_string;
     field "source_system" ev_SourceSystem dec_string; field "external_id" ev_ExternalID dec_string;
     field "source_revision" ev_SourceRevision dec_string;
     field "idempotency_key" ev_IdempotencyKey dec_string; field "content_type" ev_ContentType dec_string;
     field "content_hash" ev_ContentHash dec_string; field "evidence_ref" ev_EvidenceRef dec_string;
     field "attributes" ev_Attributes (dec_map "" dec_string); field "received_at" ev_ReceivedAt dec_time].
Definition zeroIntakeEvent : IntakeEvent := mkIntakeEvent "" "" "" "" "" "" "" "" "" ∅ zero_time.

(** A registration with the backing arrays of its slices *)
Record SourceBody := mkSourceBody {
  so_Source : SourceRegistration; so_RecordTypes : Slice string; so_VisibilityRefs : Slice string;
}.
#[export] Instance SourceBody_eta : Settable SourceBody := fun r =>
  mkSourceBody (so_Source r) (so_RecordTypes r) (so_VisibilityRefs r).
Definition zeroSource : SourceRegistration :=
  mkSource "" "" "" "" "" "" "" "" "" "" "" false "" 0 [] [] ∅ zero_time zero_time.
Definition zeroSourceBody : SourceBody := mkSourceBody zeroSource ([], []) ([], []).
Definition dec_SourceBody : decoder SourceBody :=
  let src {A} (name : string) (f : SourceRegistration -> A) `{!Setter f} (dec : decoder A) :=
    part so_Source (field name f dec) in
  dec_struct
    [src "source_id" src_SourceID dec_string; src "organization_id" src_OrgID dec_string;
     src "system" src_System dec_string; src "display_name" src_DisplayName dec_string;
     src "trust_tier" src_TrustTier dec_string; src "trust_ceiling" src_TrustCeiling dec_string;
     src "authority_ceiling" src_AuthorityCeiling dec_string;
     src "classification_ceiling" src_ClassificationCeiling dec_string;
     src "classification_default" src_ClassificationDefault dec_string;
     src "mapping_spec_id" src_MappingSpec dec_string; src "mapping_spec" src_MappingSpecInline dec_raw;
     src "enabled" src_Enabled dec_bool; src "signing_secret" src_SigningSecret dec_string;
     src "replay_window_seconds" src_ReplayWindowSeconds dec_int;
     field "allowed_record_types" so_RecordTypes dec_strings;
     field "allowed_visibility_refs" so_VisibilityRefs dec_strings;
     src "attributes" src_Attributes (dec_map "" dec_string);
     src "created_at" src_CreatedAt dec_time; src "updated_at" src_UpdatedAt dec_time].
Definition source_of (b : SourceBody) : SourceRegistration :=
  ((so_Source b) <| src_AllowedRecordTypes := (so_RecordTypes b).1 |>)
    <| src_AllowedVisibilityRefs := (so_VisibilityRefs b).1 |>.

(** ** The manifest of an import: rows with the backing arrays of their slices *)
Record RecordRow := mkRecordRow { rr_Record : LedgerRecord; rr_Labels : Slice string }.
#[export] Instance RecordRow_eta : Settable RecordRow := fun r => mkRecordRow (rr_Record r) (rr_Labels r).
Definition zeroRecord : LedgerRecord := mkRecord "" "" "" "" "" [] "" "" "" "" ∅ zero_time zero_time.
Definition dec_RecordRow : decoder RecordRow :=
  let rec {A} (name : string) (f : LedgerRecord -> A) `{!Setter f} (dec : decoder A) :=
    part rr_Record (field name f dec) in
  dec_struct
    [rec "resource_id" rec_ResourceID dec_string; rec "org_id" rec_OrgID dec_string;
     rec "kind" rec_Kind dec_string; rec "title" rec_Title dec_string;
     rec "classification" rec_Classification dec_string; field "labels" rr_Labels dec_strings;
     rec "source_system" rec_SourceSystem dec_string; rec "external_id" rec_ExternalID dec_string;
     rec "current_revision_id" rec_CurrentRevID dec_string; rec "state" rec_State dec_string;
     rec "attributes" rec_Attributes (dec_map "" dec_string);
     rec "created_at" rec_CreatedAt dec_time; rec "updated_at" rec_UpdatedAt dec_time].
Definition record_of (r : RecordRow) : LedgerRecord := (rr_Record r) <| rec_Labels := (rr_Labels r).1 |>.

Definition zeroRevision : Revision := mkRevision "" "" "" "" "" 0 "" ∅ zero_time zero_time.
Definition dec_Revision : decoder Revision :=
  dec_struct
    [field "revision_id" rev_RevisionID dec_string; field "resource_id" rev_ResourceID dec_string;
     field "org_id" rev_OrgID dec_string; field "content_hash" rev_ContentHash dec_string;
     field "evidence_ref" rev_EvidenceRef dec_string; field "sequence" rev_Sequence dec_int;
     field "state" rev_State dec_string; field "attributes" rev_Attributes (dec_map "" dec_string);
     field "observed_at" rev_ObservedAt dec_time; field "created_at" rev_CreatedAt dec_time].

Definition zeroEdge : GraphEdge := mkEdge "" "" "" "" "" f_zero "" false ∅ zero_time zero_time.
Definition dec_GraphEdge : decoder GraphEdge :=
  dec_struct
    [field "edge_id" edge_EdgeID dec_string; field "organization_id" edge_OrgID dec_string;
     field "from_id" edge_FromID dec_string; field "to_id" edge_ToID dec_string;
     field "predicate" edge_Predicate dec_string; field "confidence" edge_Confidence dec_float;
     field "state" edge_State dec_string; field "sync_authz" edge_SyncAuthz dec_bool;
     field "attributes" edge_Attributes (dec_map "" dec_string);
     field "created_at" edge_CreatedAt dec_time; field "updated_at" edge_UpdatedAt dec_time].

#[export] Instance Tombstone_eta : Settable Tombstone := fun r =>
  mkTombstone (tb_ResourceID r) (tb_RevisionID r) (tb_State r) (tb_At r).
Definition dec_Tombstone : decoder Tombstone :=
  dec_struct
    [field "resource_id" tb_ResourceID dec_string; field "revision_id" tb_RevisionID dec_string;
     field "state" tb_State dec_string; field "at" tb_At dec_time].
#[export] Instance AuthzTuple_eta : Settable AuthzTupleManifest := fun r =>
  mkTupleManifest (tm_Operation r) (tm_Object r) (tm_Relation r) (tm_Subject r) (tm_EdgeID r).
Definition dec_AuthzTuple : decoder AuthzTupleManifest :=
  dec_struct
    [field "operation" tm_Operation dec_string; field "object" tm_Object dec_string;
     field "relation" tm_Relation dec_string; field "subject" tm_Subject dec_string;
     field "edge_id" tm_EdgeID dec_string].
Definition dec_EvidenceRef : decoder EvidenceRef :=
  dec_struct
    [field "key" er_Key dec_string; field "resource_id" er_ResourceID dec_string;
     field "revision_id" er_RevisionID dec_string; field "content_hash" er_ContentHash dec_string;
     field "byte_size" er_ByteSize dec_int].
#[export] Instance ContentEntry_eta : Settable ContentEntry := fun r =>
  mkContent (ce_Path r) (ce_Kind r) (ce_SHA256 r) (ce_ByteSize r) (ce_RecordCount r).
Definition dec_ContentEntry : decoder ContentEntry :=
  dec_struct
    [field "path" ce_Path dec_string; field "kind" ce_Kind dec_string;
     field "sha256" ce_SHA256 dec_string; field "byte_size" ce_ByteSize dec_int;
     field "record_count" ce_RecordCount dec_int].

(** The slices of a manifest are taken from the rows next to it. *)
Record ManifestBody := mkManifestBody {
  mb_Manifest : Manifest; mb_Contents : Slice ContentEntry; mb_Records : option (Slice RecordRow);
  mb_Revisions : option (Slice Revision); mb_Sources : option (Slice SourceBody);
  mb_Tombstones : option (Slice Tombstone); mb_GraphEdges : option (Slice GraphEdge);
  mb_AuthzTuples : option (Slice AuthzTupleManifest); mb_EvidenceRefs : option (Slice EvidenceRef);
}.
#[export] Instance ManifestBody_eta : Settable ManifestBody := fun r =>
  mkManifestBody (mb_Manifest r) (mb_Contents r) (mb_Records r) (mb_Revisions r) (mb_Sources r)
    (mb_Tombstones r) (mb_GraphEdges r) (mb_AuthzTuples r) (mb_EvidenceRefs r).
Definition zeroManifest : Manifest :=
  mkExport "" "" "" zero_time "" "" ∅ [] None None None None None None None None.
Definition zeroManifestBody : ManifestBody :=
  mkManifestBody zeroManifest ([], []) None None None None None None None.
Definition dec_Manifest : decoder ManifestBody :=
  let top {A} (name : string) (f : Manifest -> A) `{!Setter f} (dec : decoder A) :=
    part mb_Manifest (field name f dec) in
  dec_struct
    [top "format_version" em_FormatVersion dec_string; top "export_id" em_ExportID dec_string;
     top "organization_id" em_OrganizationID dec_string; top "created_at" em_CreatedAt dec_time;
     top "created_by" em_CreatedBy dec_string; top "status" em_Status dec_string;
     top "checksums" em_Checksums (dec_map "" dec_string);
     field "contents" mb_Contents (dec_slice (mkContent "" "" "" 0 0) dec_ContentEntry);
     top "schema_versions" em_SchemaVersions (dec_pointer ∅ (dec_map "" dec_string));
     field "records" mb_Records (dec_rows (mkRecordRow zeroRecord ([], [])) dec_RecordRow);
     field "revisions" mb_Revisions (dec_rows zeroRevision dec_Revision);
     field "sources" mb_Sources (dec_rows zeroSourceBody dec_SourceBody);
     field "tombstones" mb_Tombstones (dec_rows (mkTombstone "" "" "" zero_time) dec_Tombstone);
     field "graph_edges" mb_GraphEdges (dec_rows zeroEdge dec_GraphEdge);
     field "authz_tuples" mb_AuthzTuples (dec_rows (mkTupleManifest "" "" "" "" "") dec_AuthzTuple);
     field "evidence_refs" mb_EvidenceRefs (dec_rows (mkEvidenceRef "" "" "" "" 0) dec_EvidenceRef)].
Definition rows {A B} (f : A -> B) (r : option (Slice A)) : option (list B) :=
  match r with Some s => Some (map f s.1) | None => None end.
Definition manifest_of (b : ManifestBody) : Manifest :=
  let m := (mb_Manifest b) <| em_Contents := (mb_Contents b).1 |> in
  let m := m <| em_Records := rows record_of (mb_Records b) |> in
  let m := m <| em_Revisions := rows id (mb_Revisions b) |> in
  let m := m <| em_Sources := rows source_of (mb_Sources b) |> in
  let m := m <| em_Tombstones := rows id (mb_Tombstones b) |> in
  let m := m <| em_GraphEdges := rows id (mb_GraphEdges b) |> in
  let m := m <| em_AuthzTuples := rows id (mb_AuthzTuples b) |> in
  m <| em_EvidenceRefs := rows id (mb_EvidenceRefs b) |>.
