(* ===== verification/WireFacts.v ===== *)
(** * What the decoders of request bodies produce

    The model writes Go's [int] as an integer; the decoders only ever store 64 bits. *)
From S2P Require Import Prelude GoStd Ports Json Decode Mapping Ledger Deletion Export Application Wire.

(** ** Invariants of a decoding *)
Definition preserves {A} (P : A -> Prop) (dec : decoder A) : Prop := forall v x, P x -> P (dec v x).1.

Lemma step_value {A} o (n : A * outcome) : (step o n).1 = n.1.
Proof. reflexivity. Qed.

Lemma dec_members_preserves {R} (P : R -> Prop) (member : string -> decoder R) ms r :
  (forall k, preserves P (member k)) -> P r -> P (dec_members member ms r).1.
Proof.
  intros Hm. revert r. induction ms as [|[k v] ms IH]; intros r Hr; [done|]. simpl.
  pose proof (Hm k v r Hr) as H1. destruct (member k v r) as [r1 o]. simpl in H1.
  destruct o; [| |exact H1]; by apply IH.
Qed.

Lemma dec_struct_preserves {R} (P : R -> Prop) (fields : list (string * decoder R)) :
  Forall (fun f => preserves P f.2) fields -> preserves P (dec_struct fields).
Proof.
  intros Hf v x Hx. unfold dec_struct. destruct v.2; try done. apply dec_members_preserves; [|done].
  intros k w y Hy. destruct (List.find _ fields) as [f|] eqn:E; [|done].
  apply List.find_some in E as [Hin _]. rewrite Forall_forall in Hf. apply Hf; [|done].
  by apply list_elem_of_In.
Qed.

Lemma decode_preserves {A} (P : A -> Prop) (dec : decoder A) body x :
  preserves P dec -> P x -> P (decode dec body x).1.
Proof.
  intros Hd Hx. unfold decode. destruct (parse_first _) as [[v r]|]; [|done].
  pose proof (Hd v x Hx) as Hp. by destruct (dec v x).
Qed.

(** A decoded number is one that [strconv.ParseInt] returns. *)
Lemma parse_int_range s : in_int (parse_int s).1.
Proof.
  unfold parse_int, in_int, int_min, int_max.
  repeat case_match; subst; simpl; try lia;
    repeat match goal with
           | Hb : (_ <? _) = false |- _ => apply Z.ltb_ge in Hb
           | Hb : (_ <? _) = true |- _ => apply Z.ltb_lt in Hb
           end; unfold int_min, int_max in *; lia.
Qed.
Lemma dec_int_preserves : preserves in_int dec_int.
Proof.
  intros v x Hx. unfold dec_int. destruct v.2; try done.
  pose proof (parse_int_range lit) as Hp. destruct (parse_int lit) as [n [e|]]; [done | exact Hp].
Qed.

(** A field of which the invariant speaks, and one of which it does not *)
Lemma field_preserves {R A} name (f : R -> A) `{!Setter f} dec (P : R -> Prop) (Q : A -> Prop) :
  preserves Q dec -> (forall r, P r -> Q (f r)) -> (forall r x, P r -> Q x -> P (r <| f := x |>)) ->
  preserves P (field name f dec).2.
Proof.
  intros Hd Hg Hs v r Hr. unfold field. simpl. pose proof (Hd v (f r) (Hg r Hr)) as Hx.
  destruct (dec v (f r)) as [x o]. by apply Hs.
Qed.
Lemma field_apart {R A} name (f : R -> A) `{!Setter f} dec (P : R -> Prop) :
  (forall r x, P r -> P (r <| f := x |>)) -> preserves P (field name f dec).2.
Proof.
  intros Hs. apply (field_preserves name f dec P (fun _ => True)); [by intros ? ? ? | done |].
  intros r x Hr _. by apply Hs.
Qed.
Lemma part_preserves {R S} (f : R -> S) `{!Setter f} fld (P : R -> Prop) (Q : S -> Prop) :
  preserves Q fld.2 -> (forall r, P r -> Q (f r)) -> (forall r x, P r -> Q x -> P (r <| f := x |>)) ->
  preserves P (part f fld).2.
Proof.
  intros Hd Hg Hs v r Hr. unfold part. simpl. pose proof (Hd v (f r) (Hg r Hr)) as Hx.
  destruct (fld.2 v (f r)) as [x o]. by apply Hs.
Qed.

Lemma dec_elems_preserves {A} (P : A -> Prop) zero (dec : decoder A) vs old :
  preserves P dec -> P zero -> Forall P old -> Forall P (dec_elems zero dec vs old).1.
Proof.
  intros Hd Hz. revert old. induction vs as [|v vs IH]; intros old Ho; [done|]. simpl.
  assert (Hh : P (default zero (head old))) by (destruct Ho; done).
  assert (Ht : Forall P (tail old)) by (destruct Ho; done).
  pose proof (Hd v _ Hh) as Hx. specialize (IH _ Ht).
  destruct (dec v (default zero (head old))) as [x o].
  destruct (dec_elems zero dec vs (tail old)) as [l o2]. by destruct o; simpl; constructor.
Qed.

(** A slice whose elements, and those of its backing array, satisfy [P] *)
Definition all_elems {A} (P : A -> Prop) (s : Slice A) : Prop := Forall P (s.1 ++ s.2).
Definition all_rows {A} (P : A -> Prop) (r : option (Slice A)) : Prop :=
  match r with Some s => all_elems P s | None => True end.

Lemma dec_slice_preserves {A} (P : A -> Prop) zero (dec : decoder A) :
  preserves P dec -> P zero -> preserves (all_elems P) (dec_slice zero dec).
Proof.
  intros Hd Hz v s Hs. unfold dec_slice. destruct v.2 as [| | | |[|w vs]|]; try done; try by constructor.
  pose proof (dec_elems_preserves P zero dec (w :: vs) _ Hd Hz Hs) as Hl.
  destruct (dec_elems zero dec (w :: vs) (s.1 ++ s.2)) as [all o]. unfold all_elems.
  cbn [fst snd]. by rewrite take_drop.
Qed.
Lemma dec_rows_preserves {A} (P : A -> Prop) zero (dec : decoder A) :
  preserves P dec -> P zero -> preserves (all_rows P) (dec_rows zero dec).
Proof.
  intros Hd Hz v r Hr.
  assert (Hs : all_elems P (default ([], []) r)) by (destruct r; [done | by constructor]).
  pose proof (dec_slice_preserves P zero dec Hd Hz v _ Hs) as Hl. unfold dec_rows.
  destruct (dec_slice zero dec v (default ([], []) r)) as [l o]. by destruct v.2.
Qed.

(** ** The integers of a request *)
Definition search_ints (b : SearchBody) : Prop := in_int (sb_MaxItems b).
Definition graph_ints (b : GraphBody) : Prop := in_int (gb_Depth b) /\ in_int (gb_MaxNodes b).
Definition brief_ints (b : BriefBody) : Prop := in_int (bb_MaxItems b).
Definition quota_ints (q : Quota) : Prop :=
  in_int (q_SearchPerMinute q) /\ in_int (q_IntakePerMinute q)
  /\ in_int (q_ExportPerMinute q) /\ in_int (q_MaxResults q).
Definition source_ints (b : SourceBody) : Prop := in_int (src_ReplayWindowSeconds (so_Source b)).
Definition revision_ints (r : Revision) : Prop := in_int (rev_Sequence r).
Definition content_ints (c : ContentEntry) : Prop := in_int (ce_ByteSize c) /\ in_int (ce_RecordCount c).
Definition evidence_ints (e : EvidenceRef) : Prop := in_int (er_ByteSize e).
Definition manifest_ints (b : ManifestBody) : Prop :=
  all_elems content_ints (mb_Contents b) /\ all_rows revision_ints (mb_Revisions b)
  /\ all_rows source_ints (mb_Sources b) /\ all_rows evidence_ints (mb_EvidenceRefs b).

Lemma in_int_zero : in_int 0.
Proof. by vm_compute. Qed.

(** Goes through the fields of a struct: a field of the invariant needs a decoder that
    keeps its part of it, the others are apart from it. *)
Ltac kept tac :=
  apply dec_struct_preserves; repeat first [apply Forall_nil_2 | apply Forall_cons_2];
  first [ apply field_apart; intros ? ? H; exact H
        | tac ].
Ltac int_field :=
  eapply field_preserves; [exact dec_int_preserves | intros ? H; apply H |];
  intros ? ? H Hx; let rec go := first [exact Hx | apply H | split; go] in go.

Lemma dec_SearchBody_ints : preserves search_ints dec_SearchBody.
Proof. kept int_field. Qed.
Lemma dec_GraphBody_ints : preserves graph_ints dec_GraphBody.
Proof. kept int_field. Qed.
Lemma dec_BriefBody_ints : preserves brief_ints dec_BriefBody.
Proof. kept int_field. Qed.
Lemma dec_Quota_ints : preserves quota_ints dec_Quota.
Proof. kept int_field. Qed.
Lemma dec_Revision_ints : preserves revision_ints dec_Revision.
Proof. kept int_field. Qed.
Lemma dec_ContentEntry_ints : preserves content_ints dec_ContentEntry.
Proof. kept int_field. Qed.
Lemma dec_EvidenceRef_ints : preserves evidence_ints dec_EvidenceRef.
Proof. kept int_field. Qed.

Lemma part_apart {R S} (f : R -> S) `{!Setter f} fld (P : R -> Prop) :
  (forall r x, P r -> P (r <| f := x |>)) -> preserves P (part f fld).2.
Proof.
  intros Hs. apply (part_preserves f fld P (fun _ => True)); [by intros ? ? ? | done |].
  intros r x Hr _. by apply Hs.
Qed.
Lemma dec_SourceBody_ints : preserves source_ints dec_SourceBody.
Proof.
  kept ltac:(apply (part_preserves so_Source _ source_ints (fun s => in_int (src_ReplayWindowSeconds s)));
             [first [apply field_apart; intros ? ? H; exact H | int_field] | done | done]).
Qed.
Ltac rows_field ok :=
  eapply field_preserves; [apply ok | intros ? H; apply H |];
  intros ? ? H Hx; let rec go := first [exact Hx | apply H | split; go] in go.
Lemma dec_Manifest_ints : preserves manifest_ints dec_Manifest.
Proof.
  pose proof (dec_slice_preserves content_ints (mkContent "" "" "" 0 0) _ dec_ContentEntry_ints
                (conj in_int_zero in_int_zero)) as Hc.
  pose proof (dec_rows_preserves revision_ints zeroRevision _ dec_Revision_ints in_int_zero) as Hr.
  pose proof (dec_rows_preserves source_ints zeroSourceBody _ dec_SourceBody_ints in_int_zero) as Hs.
  pose proof (dec_rows_preserves evidence_ints (mkEvidenceRef "" "" "" "" 0) _ dec_EvidenceRef_ints
                in_int_zero) as He.
  kept ltac:(first [apply part_apart; intros ? ? H; exact H | rows_field Hc | rows_field Hr
                   | rows_field Hs | rows_field He]).
Qed.

(** Whatever the body of a request says, the integers that the handlers decode from
    it are Go [int]s: item limits of a search, depth and size of a graph, the four limits
    of a quota, the replay window of a source, and every row of an imported manifest
    (sequence numbers, byte sizes, counts, replay windows), also where the decoding ends in
    an error, and also in the backing arrays that a repeated member is decoded over. *)
Theorem request_integers_fit (body : string) :
  search_ints (decode dec_SearchBody body zeroSearchBody).1
  /\ graph_ints (decode dec_GraphBody body (mkGraphBody "" "" 0 0 ([], []) "")).1
  /\ brief_ints (decode dec_BriefBody body (mkBriefBody "" "" 0 "")).1
  /\ quota_ints (decode dec_Quota body (mkQuota 0 0 0 0)).1
  /\ source_ints (decode dec_SourceBody body zeroSourceBody).1
  /\ manifest_ints (decode dec_Manifest body zeroManifestBody).1.
Proof.
  pose proof in_int_zero as Hz.
  split_and!; apply decode_preserves;
    first [apply dec_SearchBody_ints | apply dec_GraphBody_ints | apply dec_BriefBody_ints
          | apply dec_Quota_ints | apply dec_SourceBody_ints | apply dec_Manifest_ints
          | repeat split; first [apply Hz | constructor]].
Qed.
