(* ===== verification/Answers.v ===== *)
(** * What the servers answer

    An answer keeps the value that [encoding/json] writes as its body, rather than the
    bytes; a value without a JSON form leaves the body empty. *)
From S2P Require Import Prelude GoStd Ports Platform Json Credentials Changes Ledger Deletion Export Application.

(** The result of a tool call: the text holds the JSON form of a value. *)
Inductive toolValue := TPacket (p : ContextPacket) | TMap (m : response).
Inductive rpcResult :=
| RInitialize (protocolVersion : string)
| RTools (tools : list any)
| RTool (text : toolValue) (isError : bool).
Record rpcError := mkRpcError { re_Code : Z; re_Message : string; re_Data : option response }.
Record rpcResponse := mkRpcResponse {
  rpc_ID : any; rpc_Result : option rpcResult; rpc_Error : option rpcError;
}.

Inductive payload :=
| PMap (m : response)
| PPacket (p : ContextPacket)
| PSource (s : SourceRegistration)
| PSources (items : list SourceRegistration)
| PQuota (q : Quota)
| PVersion (v : VersionInfo)
| PAgent (c : AgentCredential)
| PRpc (r : rpcResponse)
| PText (s : string).

Record HttpResponse := mkHttpResponse {
  rs_Status : Z; rs_Header : strmap; rs_Body : option payload;
}.
#[export] Instance HttpResponse_eta : Settable HttpResponse := fun r =>
  mkHttpResponse (rs_Status r) (rs_Header r) (rs_Body r).

(** ** Values with a JSON form *)
Definition encodes_time (t : Time) : bool := bool_decide (is_Some (json_time t)).
Definition encodes_rows {A} (enc : A -> option string) (l : list A) : bool :=
  forallb (fun x => bool_decide (is_Some (enc x))) l.
Definition encodes_packet (p : ContextPacket) : bool :=
  encodes_rows marshal_edge (pkt_Edges p) && forallb (fun c => bool_decide (is_Some (marshal_confidence (cit_Score c)))) (pkt_Citations p)
  && encodes_time (pkt_GeneratedAt p).
Definition encodes_manifest (m : Manifest) : bool :=
  bool_decide (is_Some (Export.payload m)) && encodes_time (em_CreatedAt m).
Definition encodes_delivery (d : DeliveryAttempt) : bool :=
  encodes_time (dl_CreatedAt d) && from_option encodes_time true (dl_NextAttempt d).

Fixpoint encodes_value (v : value) : bool :=
  match v with
  | VTime t => encodes_time t
  | VExport m => encodes_manifest m
  | VDeletion m => encodes_time (cm_CompletedAt m)
  | VDelivery d => encodes_delivery d
  | VDeliveries l => forallb encodes_delivery l
  | VPublic e => encodes_time (pe_OccurredAt e)
  | VChanges l => forallb (fun e => encodes_time (pe_OccurredAt e)) l
  | VAudit e => encodes_time (aud_CreatedAt e)
  | VAudits l => forallb (fun e => encodes_time (aud_CreatedAt e)) l
  | VDecision d => encodes_time (ad_CheckedAt d)
  | VMap m => forallb (fun '(_, v) => encodes_value v) m
  | VMaps l => forallb (forallb (fun '(_, v) => encodes_value v)) l
  | VSubscription s => encodes_time (sub_CreatedAt s)
  | VSubscriptions l => forallb (fun s => encodes_time (sub_CreatedAt s)) l
  | VStr _ | VBool _ | VInt _ | VAny _ | VPolicy _ | VVersion _ => true
  end.
Definition encodes_map (m : response) : bool := encodes_value (VMap m).
Definition encodes_tool (v : toolValue) : bool :=
  match v with TPacket p => encodes_packet p | TMap m => encodes_map m end.

Definition encodes (v : payload) : bool :=
  match v with
  | PMap m => encodes_map m
  | PPacket p => encodes_packet p
  | PSource s => bool_decide (is_Some (marshal_source s))
  | PSources l => encodes_rows marshal_source l
  | PAgent c => encodes_time (agc_CreatedAt c) && from_option encodes_time true (agc_ExpiresAt c)
  | PQuota _ | PVersion _ | PRpc _ | PText _ => true
  end.

(** ** [writeJSON] and [writeErr] of [internal/httpapi] *)
Definition StatusOK : Z := 200.
Definition StatusCreated : Z := 201.
Definition StatusAccepted : Z := 202.
Definition StatusMethodNotAllowed : Z := 405.
Definition StatusRequestEntityTooLarge : Z := 413.

Definition writeJSON (status : Z) (v : payload) : HttpResponse :=
  mkHttpResponse status {["Content-Type" := "application/json"]} (if encodes v then Some v else None).

Definition error_members (ae : APIError) : response :=
  [("reason_code", VStr (ReasonCode ae)); ("message", VStr (Message ae));
   ("audit_id", VStr (AuditID ae)); ("trace_id", VStr (TraceID ae));
   ("retryable", VBool (Retryable ae)); ("doc_url", VStr (DocURL ae))]
  ++ (if 0 <? RetryAfter ae then [("retry_after_seconds", VInt (Z.quot (RetryAfter ae) second))] else []).
Definition internal_error : APIError :=
  with_msg (baseErr "internal_error" StatusInternalServerError false (docs "internal")) "internal error".
Definition writeErr (err : GoError) : HttpResponse :=
  let ae := default internal_error (AsAPIError err) in
  let status := if HTTPStatus ae =? 0 then StatusInternalServerError else HTTPStatus ae in
  writeJSON status (PMap [("error", VMap (error_members ae))]).

(** The same envelope for failures of the middleware *)
Definition writeJSONError (status : Z) (reason msg : string) : HttpResponse :=
  writeJSON status (PMap [("error", VMap [("reason_code", VStr reason); ("message", VStr msg);
                                          ("retryable", VBool false)])]).

Definition with_header (name v : string) (r : HttpResponse) : HttpResponse :=
  r <| rs_Header := <[name := v]> (rs_Header r) |>.

(** ** Handlers *)

(** A panic passes through a handler, which settles every other error. *)
Fixpoint is_panic (e : GoError) : bool :=
  match e with EPanic _ => true | EWrap _ e => is_panic e | _ => false end.
Definition settle {A B} (m : application A) (failed : GoError -> B) (done : A -> B) : application B :=
  r ← attempt m;
  match r with
  | Ok x => mret (done x)
  | Err e => if is_panic e then throw e else mret (failed e)
  end.
Definition respond {A} (m : application A) (done : A -> HttpResponse) : application HttpResponse :=
  settle m writeErr done.
