(* ===== verification/Mcp.v ===== *)
(** * [internal/mcp]: the read-only tools over JSON-RPC *)
From S2P Require Import Prelude GoStd Ports Platform Json Decode Mapping OpenFGA Ledger Authn Changes.
From S2P Require Import World Application Wire Answers.

(** ** Protected-resource metadata *)
Record PRMConfig := mkPRM {
  prm_ResourceURL : string; prm_AuthorizationServers : list string; prm_ScopesSupported : list string;
  prm_ResourceDocumentation : string;
}.

Definition splitCSV (s : string) : list string :=
  if is_empty (trim_space s) then []
  else filter (fun p => p <> "") (trim_space <$> split_byte s ",").
Definition envOr (env : strmap) (k def : string) : string := or_default (trim_space (getenv env k)) def.
Fixpoint firstNonEmpty (vals : list string) : string :=
  match vals with
  | [] => ""
  | v :: vals => if is_empty (trim_space v) then firstNonEmpty vals else trim_space v
  end.

Definition PRMFromEnv (env : strmap) : PRMConfig :=
  mkPRM (trim_space (getenv env "MCP_RESOURCE_URL"))
    (splitCSV (firstNonEmpty [getenv env "MCP_AUTHORIZATION_SERVERS"; getenv env "OIDC_ISSUER"]))
    (splitCSV (envOr env "MCP_SCOPES_SUPPORTED" "context:search,context:read,context:request_access"))
    (envOr env "MCP_RESOURCE_DOCUMENTATION" "https://docs.context-fabric.io/mcp").

Definition any_strings (l : list string) : value := VAny (AArr (AStr <$> l)).
Definition resource_url (prm : PRMConfig) (r : HttpRequest) : string :=
  let host := or_default (hr_Host r) "localhost" in
  let scheme := if negb (hr_TLS r) && (has_prefix (hr_Host r) "localhost" || has_prefix (hr_Host r) "127.0.0.1")
                then "http" else "https" in
  or_default (prm_ResourceURL prm) (scheme +:+ "://" +:+ host +:+ "/mcp").
Definition ProtectedResourceMetadata (prm : PRMConfig) (r : HttpRequest) : response :=
  let scopes := match prm_ScopesSupported prm with
                | [] => ["context:search"; "context:read"; "context:request_access"]
                | l => l
                end in
  [("resource", VStr (resource_url prm r));
   ("authorization_servers", any_strings (prm_AuthorizationServers prm));
   ("scopes_supported", any_strings scopes); ("bearer_methods_supported", any_strings ["header"])]
  ++ (if is_empty (prm_ResourceDocumentation prm) then []
      else [("resource_documentation", VStr (prm_ResourceDocumentation prm))]).
Definition quoted (s : string) : string := str1 (byte_of 34) +:+ s +:+ str1 (byte_of 34).
Definition WWWAuthenticate (prm : PRMConfig) (r : HttpRequest) : string :=
  "Bearer realm=" +:+ quoted "context-fabric" +:+ ", resource=" +:+ quoted (resource_url prm r).

(** ** The tools *)
Definition typ (t : string) : string * any := ("type", AStr t).
Definition bounds (lo hi : Z) : list (string * any) :=
  [("minimum", ANum (f_of_Z lo)); ("maximum", ANum (f_of_Z hi))].
Definition str_schema : any := AObj [typ "string"].
Definition purpose_schema : any :=
  AObj [typ "string"; ("enum", AArr (AStr <$> ["support"; "account_management"; "marketing"; "finance"; "agent_assist"]))].
Definition consistency_schema : any :=
  AObj [typ "string"; ("enum", AArr (AStr <$> ["min_latency"; "fully_consistent"]))].
Definition strings_schema : any := AObj [typ "array"; ("items", str_schema)].
Definition object_schema (properties : list (string * any)) : list (string * any) :=
  [typ "object"; ("properties", AObj properties)].
Definition tool (name desc : string) (properties : list (string * any)) (required : list string) : any :=
  AObj [("name", AStr name); ("description", AStr desc);
        ("inputSchema", AObj (object_schema properties ++ [("required", AArr (AStr <$> required))]))].

Definition ToolDescriptors : list any :=
  [tool "context.search"
     "Policy-first ranked lexical search (FTS). AuthZ BatchCheck before hydrate. Caps: max_items. Returns cited ContextPacket; may set truncated. Prefer context.get when resource_id is known. Dense/hybrid fusion is out of v1."
     [("organization_id", str_schema); ("query", AObj [typ "string"; ("maxLength", ANum (f_of_Z 4000))]);
      ("purpose", purpose_schema);
      ("scope", AObj (object_schema [("context_space_id", str_schema); ("case_id", str_schema);
                                     ("brand_id", str_schema)]));
      ("filters", AObj (object_schema [("include_tags", strings_schema)]));
      ("max_items", AObj (typ "integer" :: bounds 1 50)); ("consistency", consistency_schema)]
     ["purpose"];
   tool "context.get"
     "Fetch one known resource as a ContextPacket. Use when resource_id is known (routing step 1)."
     [("organization_id", str_schema); ("resource_id", str_schema); ("purpose", purpose_schema);
      ("consistency", consistency_schema)]
     ["resource_id"; "purpose"];
   tool "context.brief"
     "Summarized brief for a resource scope. Citations required; never invent facts beyond packet."
     [("organization_id", str_schema); ("resource_id", str_schema); ("purpose", purpose_schema);
      ("max_items", AObj (typ "integer" :: bounds 1 50)); ("consistency", consistency_schema)]
     ["purpose"];
   tool "context.graph"
     "Visible knowledge subgraph around a seed (AuthZ per node, both edge endpoints). Default depth 1, hard max depth 4, max_nodes 200. next_cursor is truncation signal only—re-query with adjusted caps."
     [("organization_id", str_schema); ("resource_id", str_schema); ("purpose", purpose_schema);
      ("depth", AObj (typ "integer" :: bounds 0 4 ++ [("default", ANum (f_of_Z 1))]));
      ("max_nodes", AObj (typ "integer" :: bounds 1 200 ++ [("default", ANum (f_of_Z 50))]));
      ("predicates", strings_schema); ("consistency", consistency_schema)]
     ["resource_id"; "purpose"];
   tool "context.request_access"
     "Request access when retrieval abstains or AuthZ denies. Prefer after at most three retrieval rounds."
     [("organization_id", str_schema); ("resource_id", str_schema); ("purpose", purpose_schema);
      ("justification", str_schema)]
     ["resource_id"; "purpose"]].

(** ** Arguments *)
Abbreviation arguments := (list (string * any)).
Definition strArg (m : arguments) (k : string) : string := body_string m k.
Definition intArg (m : arguments) (k : string) : Z :=
  match assoc m k with Some (ANum x) => f_to_int x | _ => 0 end.
Definition strSliceArg (m : arguments) (k : string) : list string :=
  filter (fun s => s <> "") (body_strings m k).

Definition search_arguments (args : arguments) : SearchRequest :=
  mkSearchRequest (strArg args "query") (strArg args "purpose")
    (match assoc args "scope" with Some (AObj scope) => scope | _ => [] end)
    (match assoc args "filters" with Some (AObj filters) => body_strings filters "include_tags" | _ => [] end)
    (intArg args "max_items") (strArg args "consistency").
Definition graph_arguments (args : arguments) : GraphRequest :=
  mkGraphRequest (strArg args "resource_id") (strArg args "purpose") (intArg args "depth")
    (intArg args "max_nodes") (strSliceArg args "predicates") (strArg args "consistency").

Record rpcRequest := mkRpcRequest {
  rq_JSONRPC : string; rq_ID : any; rq_Method : string; rq_Params : string;
}.
#[export] Instance rpcRequest_eta : Settable rpcRequest := fun r =>
  mkRpcRequest (rq_JSONRPC r) (rq_ID r) (rq_Method r) (rq_Params r).
Definition dec_rpcRequest : decoder rpcRequest :=
  dec_struct
    [field "jsonrpc" rq_JSONRPC dec_string; field "id" rq_ID dec_any; field "method" rq_Method dec_string;
     field "params" rq_Params dec_raw].

Definition dec_toolCall : decoder (string * option arguments) :=
  dec_struct
    [("name", fun v r => let '(x, o) := dec_string v r.1 in (x, r.2, o));
     ("arguments", fun v r => let '(x, o) := dec_anymap v r.2 in (r.1, x, o))].

Section Mcp.
Context `{GoEnv, GoMapOrder, Client, Host}.

(** [json.Marshal] of the result *)
Definition toolResult (v : toolValue) : application rpcResult :=
  if encodes_tool v then mret (RTool v false) else throw (EPlain "json: unsupported value").

Definition toolErrorResult (err : GoError) : rpcResult :=
  let '(reason, msg, retryable, auditID, retryAfter) :=
    match AsAPIError err with
    | Some ae => (ReasonCode ae, Message ae, Retryable ae, AuditID ae,
                  if 0 <? RetryAfter ae then Z.quot (RetryAfter ae) second else 0)
    | None => ("internal_error", error_string err, false, "", 0)
    end in
  RTool (TMap ([("reason_code", VStr reason); ("message", VStr msg); ("retryable", VBool retryable);
                ("audit_id", VStr auditID)]
               ++ (if 0 <? retryAfter then [("retry_after_seconds", VInt retryAfter)] else []))) true.

Definition packet_tool (m : application ContextPacket) : application rpcResult :=
  pkt ← m; toolResult (TPacket pkt).

Definition run_tool (name : string) (creds : Credentials) (orgID : string) (args : arguments)
    : application rpcResult :=
  let scopes := scopesOf creds in
  let resource := strArg args "resource_id" in
  let purpose := strArg args "purpose" in
  let consistency := strArg args "consistency" in
  if String.eqb name "context.search" then
    packet_tool (Application.Search creds orgID scopes (search_arguments args))
  else if String.eqb name "context.get" then
    packet_tool (GetResource creds orgID resource purpose consistency scopes)
  else if String.eqb name "context.brief" then
    packet_tool (Brief creds orgID scopes purpose resource consistency (intArg args "max_items"))
  else if String.eqb name "context.graph" then
    packet_tool (Application.Graph creds orgID scopes (graph_arguments args))
  else if String.eqb name "context.request_access" then
    out ← RequestAccess creds orgID resource purpose (strArg args "justification");
    toolResult (TMap out)
  else throw (ErrValidation "unknown tool").

Definition callTool (creds : Credentials) (orgID params : string) : application rpcResult :=
  match checked (unmarshal dec_toolCall params ("", None)) with
  | None => throw (ErrValidation "invalid tools/call params")
  | Some (name, args) =>
      let args := default [] args in
      let orgID := or_default (strArg args "organization_id") orgID in
      if is_empty orgID then throw (ErrValidation "organization_id required")
      else run_tool name creds orgID args
  end.

(** ** The endpoint *)
Definition writeRPC (id : any) (result : option rpcResult) (error : option rpcError) : HttpResponse :=
  writeJSON StatusOK (PRpc (mkRpcResponse id result error)).
Definition writeUnauthorized (prm : PRMConfig) (r : HttpRequest) (msg : string) : HttpResponse :=
  with_header "Www-Authenticate" (WWWAuthenticate prm r)
    (writeJSON StatusUnauthorized
       (PRpc (mkRpcResponse ANil None
                (Some (mkRpcError (-32001) msg (Some [("reason_code", VStr "unauthorized")])))))).

Definition originAllowed (env : strmap) (origin : string) : bool :=
  let allow := trim_space (getenv env "MCP_ALLOWED_ORIGINS") in
  is_empty allow || String.eqb allow "*" || existsb (fun o => equal_fold o origin) (splitCSV allow).

Definition supportedProtocolVersions : list string := ["2024-11-05"; "2025-03-26"].
Definition protocol_version (params : string) : string :=
  let wanted := (unmarshal (dec_strings1 "protocolVersion") params "").1 in
  if mem_str wanted supportedProtocolVersions then wanted else "2024-11-05".

Definition dispatch (env : strmap) (r : HttpRequest) (req : rpcRequest) : application HttpResponse :=
  let reply result := writeRPC (rq_ID req) (Some result) None in
  if mem_str (rq_Method req) ["initialize"] then mret (reply (RInitialize (protocol_version (rq_Params req))))
  else if mem_str (rq_Method req) ["tools/list"; "tools.list"] then mret (reply (RTools ToolDescriptors))
  else if mem_str (rq_Method req) ["tools/call"; "tools.call"] then
    let orgID := or_default (header r "X-Organization-Id") (query r "org_id") in
    settle (callTool (bearerCreds env r) orgID (rq_Params req)) (fun e => reply (toolErrorResult e)) reply
  else mret (writeRPC (rq_ID req) None (Some (mkRpcError (-32601) "method not found" None))).

Definition serve (env : strmap) (prm : PRMConfig) (r : HttpRequest) : application HttpResponse :=
  if negb (String.eqb (hr_Method r) "POST") then
    mret (mkHttpResponse StatusMethodNotAllowed {["Content-Type" := "text/plain; charset=utf-8"]}
            (Some (PText "method not allowed")))
  else if negb (is_empty (header r "Origin")) && negb (originAllowed env (header r "Origin")) then
    mret (writeUnauthorized prm r "origin not allowed")
  else if is_empty (trim_space (header r "Authorization")) then mret (writeUnauthorized prm r "unauthorized")
  else
    match checked (decode dec_rpcRequest (hr_Body r) (mkRpcRequest "" ANil "" "")) with
    | None => mret (writeRPC ANil None (Some (mkRpcError (-32700) "parse error" None)))
    | Some req => dispatch env r req
    end.
End Mcp.
