(* ===== verification/Http.v ===== *)
(** * [internal/httpapi]: the REST surface

    [server.go] and [middleware.go] over the application service: the table of routes,
    a handler for each, and what the middleware does around them. *)
From S2P Require Import Prelude GoStd Ports Platform Json Decode Mapping MappingSpec OpenFGA Ledger Authn.
From S2P Require Import Credentials Changes World Deletion Export Application Wire Answers Mcp.

Record MiddlewareConfig := mkMiddleware { MaxBodyBytes : Z; IntakeBatchMaxBytes : Z }.
Record Server := mkServer {
  sv_env : strmap; sv_ready : bool; sv_started : bool; sv_prm : PRMConfig; sv_mw : MiddlewareConfig;
}.

(** ** The table of routes *)
Inductive segment := Literal (s : string) | Wildcard (name : string) | Remainder (name : string).
Definition segment_of (s : string) : segment :=
  if has_prefix s "{" then
    if has_suffix s "...}" then Remainder (take_str (String.length s - 5) (drop_str 1 s))
    else Wildcard (take_str (String.length s - 2) (drop_str 1 s))
  else Literal s.
Definition pattern_of (s : string) : list segment := segment_of <$> tail (split_byte s "/").

(** A wildcard takes one segment, the remainder all that follows a slash. *)
Fixpoint match_path (p : list segment) (path : list string) : option strmap :=
  match p, path with
  | [], [] => Some ∅
  | [Remainder name], _ :: _ => Some {[name := join path "/"]}
  | Literal s :: p, t :: path => if String.eqb s t then match_path p path else None
  | Wildcard name :: p, t :: path =>
      if is_empty t then None else values ← match_path p path; Some (<[name := t]> values)
  | _, _ => None
  end.

(** ** Helpers of the handlers *)
Definition allowSkipHMAC (env : strmap) : bool :=
  if negb (String.eqb (getenv env "CONTEXT_FABRIC_ALLOW_SKIP_HMAC") "1") then false
  else
    let profile := to_lower (trim_space (getenv env "CONTEXT_FABRIC_PROFILE")) in
    let profile := if is_empty profile then to_lower (trim_space (getenv env "PROFILE")) else profile in
    String.eqb profile "demo" || String.eqb profile "memory".

Definition cutRPC (spec action : string) : option string :=
  let suffix := ":" +:+ action in
  if is_empty spec || negb (has_suffix spec suffix) then None
  else
    let id := take_str (String.length spec - String.length suffix) spec in
    if is_empty id then None else Some id.

(** The fields of [data] that stand for missing ones of the event *)
Definition data_string (data : list (string * any)) (old key : string) : string :=
  if is_empty old then body_string data key else old.
Definition data_attributes (data : list (string * any)) : strmap :=
  fold_left (fun attrs k => match assoc data k with Some (AStr v) => <[k := v]> attrs | _ => attrs end)
    ["trust"; "authority"; "source_authority"; "classification"; "resource_id"; "resource_type"] ∅.
Definition with_data (data : list (string * any)) (e : IntakeEvent) : IntakeEvent :=
  let e := e <| ev_ExternalID := data_string data (ev_ExternalID e) "source_external_id" |> in
  let e := e <| ev_SourceRevision := data_string data (ev_SourceRevision e) "source_revision" |> in
  let e := e <| ev_IdempotencyKey := data_string data (ev_IdempotencyKey e) "idempotency_key" |> in
  let evidence := match assoc data "evidence" with Some (AObj ev) => ev | _ => [] end in
  let e := e <| ev_ContentHash := data_string evidence (ev_ContentHash e) "sha256" |> in
  if bool_decide (data_attributes data = ∅) then e
  else e <| ev_Attributes := data_attributes data |>.

Definition parseIntakeEvent (raw idempotencyFallback : string)
    : IntakeEvent * option (list (string * any)) :=
  let payload := (unmarshal dec_anymap raw None).1 in
  let event := (unmarshal dec_IntakeEvent raw zeroIntakeEvent).1 in
  let members := default [] payload in
  let event := event <| ev_EventID := data_string members (ev_EventID event) "id" |> in
  let event := event <| ev_SourceSystem := data_string members (ev_SourceSystem event) "source" |> in
  let event := match assoc members "data" with Some (AObj data) => with_data data event | _ => event end in
  let event := event <| ev_IdempotencyKey := or_default (ev_IdempotencyKey event) idempotencyFallback |> in
  (event, payload).

(** The members of a batch: an array, or an object that holds one *)
Definition batch_events (raw : string) : option (list string) :=
  let dec := dec_slice "" dec_raw in
  match checked (unmarshal dec raw ([], [])) with
  | Some (e :: es, _) => Some (e :: es)
  | _ => match checked (unmarshal (dec_struct [("events", dec)]) raw ([], [])) with
         | Some (e :: es, _) => Some (e :: es)
         | _ => None
         end
  end.

Section Http.
Context `{GoEnv, GoMapOrder, Client, Host}.
Variables (svc : ApplicationService) (sv : Server).

Abbreviation Handler := (strmap -> HttpRequest -> application HttpResponse).

Definition unauthorized (r : HttpRequest) : HttpResponse :=
  with_header "Www-Authenticate" (WWWAuthenticate (sv_prm sv) r)
    (writeErr (ErrUnauthorized "missing Authorization header")).
Definition auth (next : Handler) : Handler := fun path r =>
  if hasCredential r then next path r else mret (unauthorized r).

Definition creds_of (r : HttpRequest) : Credentials := bearerCreds (sv_env sv) r.
Definition orgId (path : strmap) : string := attr path "orgId".

(** A body that has to be decoded *)
Definition with_body {A} (dec : decoder A) (zero : A) (r : HttpRequest)
    (next : A -> application HttpResponse) : application HttpResponse :=
  match checked (decode dec (hr_Body r) zero) with
  | None => mret (writeErr (ErrValidation "invalid json"))
  | Some body => next body
  end.

Definition reply_map (status : Z) (m : application response) : application HttpResponse :=
  respond m (fun out => writeJSON status (PMap out)).
Definition reply_packet (m : application ContextPacket) : application HttpResponse :=
  respond m (fun pkt => writeJSON StatusOK (PPacket pkt)).

(** ** Health and metadata *)
Definition handleLive : Handler := fun _ _ => mret (writeJSON StatusOK (PMap [("status", VStr "ok")])).
Definition handleStartup : Handler := fun _ _ =>
  if sv_started sv then mret (writeJSON StatusOK (PMap [("status", VStr "ok")]))
  else mret (writeErr (ErrUnavailable "starting")).
Definition readiness (status : Z) (word : string) (checks : response) : HttpResponse :=
  writeJSON status (PMap [("status", VStr word); ("checks", VMap checks)]).
Definition handleReady : Handler := fun _ _ =>
  if sv_ready sv then
    respond (ReadyStatus svc) (fun '(ok, checks) =>
      if ok : bool then readiness StatusOK "ready" checks
      else readiness StatusServiceUnavailable "not_ready" checks)
  else mret (readiness StatusServiceUnavailable "not_ready" [("process", VMap (probe false "shutting down"))]).
Definition handleVersion : Handler := fun _ _ => mret (writeJSON StatusOK (PVersion (Version svc))).
Definition handlePRM : Handler := fun _ r =>
  mret (writeJSON StatusOK (PMap (ProtectedResourceMetadata (sv_prm sv) r))).
Definition handleMCP : Handler := fun _ r => Mcp.serve (sv_env sv) (sv_prm sv) r.

(** ** Reading *)
Definition handleSearch : Handler := fun path r =>
  with_body dec_SearchBody zeroSearchBody r (fun body =>
    reply_packet (Application.Search (creds_of r) (orgId path) (scopesOf (creds_of r)) (search_request body))).
Definition handleGet : Handler := fun path r =>
  let purpose := query r "purpose" in
  if is_empty purpose then mret (writeErr (ErrValidation "purpose required"))
  else reply_packet (GetResource (creds_of r) (orgId path) (attr path "resourceId") purpose
                       (query r "consistency") (scopesOf (creds_of r))).
Definition handleGraph : Handler := fun path r =>
  with_body dec_GraphBody (mkGraphBody "" "" 0 0 ([], []) "") r (fun body =>
    reply_packet (Application.Graph (creds_of r) (orgId path) (scopesOf (creds_of r)) (graph_request body))).
Definition handleBrief : Handler := fun path r =>
  with_body dec_BriefBody (mkBriefBody "" "" 0 "") r (fun body =>
    reply_packet (Brief (creds_of r) (orgId path) (scopesOf (creds_of r)) (bb_Purpose body)
                    (bb_ResourceID body) (bb_Consistency body) (bb_MaxItems body))).
Definition handleAccess : Handler := fun path r =>
  with_body (dec_strings3 "resource_id" "purpose" "justification") ("", "", "") r (fun '(res, purpose, why) =>
    reply_map StatusCreated (RequestAccess (creds_of r) (orgId path) res purpose why)).

(** The errors of decoding an optional body are ignored. *)
Definition handleDelete : Handler := fun path r =>
  match cutRPC (attr path "resourceSpec") "delete" with
  | None => mret (writeErr (ErrNotFound "not found"))
  | Some resourceID =>
      let reason := (decode (dec_strings1 "reason") (hr_Body r) "").1 in
      reply_map StatusOK (DeleteResource svc (creds_of r) (orgId path) resourceID reason)
  end.

(** ** Sources *)
Definition handleRegisterSource : Handler := fun path r =>
  with_body dec_SourceBody zeroSourceBody r (fun body =>
    respond (RegisterSource (creds_of r) (orgId path) (source_of body))
      (fun src => writeJSON StatusCreated (PSource src))).
Definition handleListSources : Handler := fun path r =>
  respond (ListSources (creds_of r) (orgId path)) (fun items => writeJSON StatusOK (PSources items)).
Definition handleGetSource : Handler := fun path r =>
  respond (Application.GetSource (creds_of r) (orgId path) (attr path "sourceId"))
    (fun src => writeJSON StatusOK (PSource src)).
Definition handleVerifySource (sourceID : string) : Handler := fun path r =>
  reply_map StatusOK (VerifySource (creds_of r) (orgId path) sourceID).
Definition handleRotateSource (sourceID : string) : Handler := fun path r =>
  reply_map StatusOK (RotateSourceSecret (creds_of r) (orgId path) sourceID).
Definition handleSourceRPC : Handler := fun path r =>
  let spec := attr path "sourceSpec" in
  match cutRPC spec "verify", cutRPC spec "rotate" with
  | Some id, _ => handleVerifySource id path r
  | None, Some id => handleRotateSource id path r
  | None, None => mret (writeErr (ErrNotFound "not found"))
  end.

(** ** Intake and evidence *)
Definition skip_hmac (r : HttpRequest) : bool :=
  String.eqb (header r "X-Context-Fabric-Skip-Hmac") "1" && allowSkipHMAC (sv_env sv).
Definition intake_request (r : HttpRequest) (raw : string) : IntakeRequest :=
  let '(event, payload) := parseIntakeEvent raw (header r "Idempotency-Key") in
  mkIntakeRequest event raw (header r "X-Context-Fabric-Signature") (header r "X-Context-Fabric-Timestamp")
    (ev_IdempotencyKey event) (or_default (header r "X-Context-Fabric-Source-Id") (ev_SourceSystem event))
    payload false (skip_hmac r) zeroSpec.

Definition is_duplicate (out : response) : bool :=
  match assoc out "duplicate" with Some (VBool b) => b | _ => false end.
Definition handleIntake : Handler := fun path r =>
  match read_all 1048576 r with
  | None => mret (writeErr (ErrValidation "unable to read body"))
  | Some raw =>
      respond (Application.Intake (creds_of r) (orgId path) (intake_request r raw)) (fun out =>
        writeJSON (if is_duplicate out then StatusOK else StatusAccepted) (PMap out))
  end.
Definition handleIntakeBatch : Handler := fun path r =>
  match read_all 8388608 r with
  | None => mret (writeErr (ErrValidation "unable to read body"))
  | Some raw =>
      match batch_events raw with
      | None => mret (writeErr (ErrValidation "expected CloudEvents array or {events:[]}"))
      | Some events =>
          reply_map StatusAccepted (IntakeBatch (creds_of r) (orgId path) (intake_request r <$> events))
      end
  end.
Definition handlePresign : Handler := fun path r =>
  with_body (dec_strings2 "object_key" "content_type") ("", "") r (fun '(key, contentType) =>
    reply_map StatusOK (PresignEvidence (creds_of r) (orgId path) key contentType)).

(** ** Changes, audit and webhooks *)
Definition handleChanges : Handler := fun path r =>
  reply_map StatusOK (Application.ListChanges (creds_of r) (orgId path) (query r "cursor") 50).
Definition handleAudit : Handler := fun path r =>
  reply_map StatusOK (GetAudit (creds_of r) (orgId path) 50).
Definition handleWebhooks : Handler := fun path r =>
  let body := default [] (decode dec_anymap (hr_Body r) None).1 in
  reply_map StatusOK (ManageWebhooks svc (creds_of r) (orgId path) "upsert" body).
Definition handleListWebhooks : Handler := fun path r =>
  reply_map StatusOK (Application.ListWebhooks (creds_of r) (orgId path)).
Definition handleGetWebhook : Handler := fun path r =>
  reply_map StatusOK (Application.GetWebhook (creds_of r) (orgId path) (attr path "subscriptionId")).
Definition handleListDeliveries : Handler := fun path r =>
  reply_map StatusOK (Application.ListDeliveries (creds_of r) (orgId path) (attr path "subscriptionId") 50).
Definition handleWebhookReplay : Handler := fun path r =>
  match cutRPC (attr path "deliverySpec") "replay" with
  | None => mret (writeErr (ErrNotFound "not found"))
  | Some deliveryID =>
      let body := default [] (decode dec_anymap (hr_Body r) None).1 in
      let body := set_member "subscription_id" (AStr (attr path "subscriptionId")) body in
      let body := match assoc body "event_id" with
                  | None | Some ANil => set_member "event_id" (AStr deliveryID) body
                  | Some _ => body
                  end in
      reply_map StatusOK (ManageWebhooks svc (creds_of r) (orgId path) "replay" body)
  end.

(** ** Exports, quotas and diagnosis *)
Definition handleExport : Handler := fun path r =>
  reply_map StatusAccepted (StartExport svc (creds_of r) (orgId path)).
Definition handleGetExport : Handler := fun path r =>
  reply_map StatusOK (GetExport (creds_of r) (orgId path) (attr path "exportId")).
Definition handleImport : Handler := fun path r =>
  with_body dec_Manifest zeroManifestBody r (fun body =>
    reply_map StatusAccepted (Application.ImportExport (creds_of r) (orgId path) (manifest_of body))).
Definition handleGetQuotas : Handler := fun path r =>
  respond (Application.GetQuotas (creds_of r) (orgId path)) (fun q => writeJSON StatusOK (PQuota q)).
Definition handleSetQuotas : Handler := fun path r =>
  with_body dec_Quota (mkQuota 0 0 0 0) r (fun q =>
    respond (Application.SetQuotas (creds_of r) (orgId path) q) (fun q => writeJSON StatusOK (PQuota q))).
Definition handleDiagnose : Handler := fun path r =>
  with_body (dec_strings3 "resource_id" "action" "purpose") ("", "", "") r (fun '(res, action, purpose) =>
    reply_map StatusOK (DiagnoseDecision (creds_of r) (orgId path) res action purpose)).
Definition handleDiagnoseAudit : Handler := fun path r =>
  reply_map StatusOK (DiagnoseByAuditID (creds_of r) (orgId path) (attr path "auditId")).

(** ** Organizations, agents and operations *)
Definition handleBootstrap : Handler := fun path r =>
  let name := or_default (decode (dec_strings1 "name") (hr_Body r) "").1 (orgId path) in
  reply_map StatusCreated (Bootstrap svc (creds_of r) (orgId path) name).
Definition handleOrgStatus : Handler := fun path r =>
  reply_map StatusOK (OrgStatus (creds_of r) (orgId path)).
Definition handleCreateAgent : Handler := fun path r =>
  with_body dec_CreateAgent (mkCreateCredential "" "" "" "" None "") r (fun body =>
    respond (CreateAgent (creds_of r) (orgId path) body) (fun c => writeJSON StatusCreated (PAgent c))).
Definition handleRotateAgent (agentID : string) : Handler := fun path r =>
  respond (RotateAgent (creds_of r) (orgId path) agentID) (fun c => writeJSON StatusOK (PAgent c)).
Definition handleRevokeAgent (credentialSpec : string) : Handler := fun path r =>
  match cutRPC credentialSpec "revoke" with
  | None => mret (writeErr (ErrNotFound "not found"))
  | Some credID => reply_map StatusOK (RevokeAgent (creds_of r) (orgId path) credID)
  end.
Definition trim_slashes (s : string) : list string :=
  let strip := fix strip (l : list string) := match l with "" :: l => strip l | _ => l end in
  rev (strip (rev (strip (split_byte s "/")))).
Definition handleAgentRPC : Handler := fun path r =>
  match trim_slashes (attr path "agentTail") with
  | [a; b] =>
      if String.eqb b "credentials:rotate" then handleRotateAgent a path r
      else if String.eqb a "credentials" && bool_decide (is_Some (cutRPC b "revoke"))
      then handleRevokeAgent b path r
      else mret (writeErr (ErrNotFound "not found"))
  | _ => mret (writeErr (ErrNotFound "not found"))
  end.
Definition handleOpsLag : Handler := fun path r =>
  reply_map StatusOK (OpsLag (creds_of r) (orgId path)).
Definition handleSupportBundle : Handler := fun path r =>
  reply_map StatusOK (SupportBundle svc (creds_of r) (orgId path)).
(** ** Routing *)
Definition organization (rest : string) : string := "/v1/organizations/{orgId}" +:+ rest.
Definition routes : list (string * string * Handler) :=
  [("GET", "/health/live", handleLive);
   ("GET", "/health/startup", handleStartup);
   ("GET", "/health/ready", handleReady);
   ("GET", "/v1/system/version", handleVersion);
   ("GET", "/.well-known/oauth-protected-resource", handlePRM);
   ("POST", "/mcp", auth handleMCP);
   ("POST", organization "/bootstrap", auth handleBootstrap);
   ("GET", organization "/status", auth handleOrgStatus);
   ("POST", organization "/context:search", auth handleSearch);
   ("GET", organization "/context/resources/{resourceId}", auth handleGet);
   ("POST", organization "/context:graph", auth handleGraph);
   ("POST", organization "/context/resources/{resourceSpec}", auth handleDelete);
   ("POST", organization "/context:brief", auth handleBrief);
   ("POST", organization "/context/access-requests", auth handleAccess);
   ("POST", organization "/context/sources", auth handleRegisterSource);
   ("GET", organization "/context/sources", auth handleListSources);
   ("GET", organization "/context/sources/{sourceId}", auth handleGetSource);
   ("POST", organization "/context/sources/{sourceSpec}", auth handleSourceRPC);
   ("POST", organization "/context/intake", auth handleIntake);
   ("POST", organization "/context/intake:batch", auth handleIntakeBatch);
   ("POST", organization "/context/evidence:presign", auth handlePresign);
   ("GET", organization "/context/changes", auth handleChanges);
   ("GET", organization "/context/audit", auth handleAudit);
   ("GET", organization "/context/webhooks", auth handleListWebhooks);
   ("POST", organization "/context/webhooks", auth handleWebhooks);
   ("GET", organization "/context/webhooks/{subscriptionId}", auth handleGetWebhook);
   ("GET", organization "/context/webhooks/{subscriptionId}/deliveries", auth handleListDeliveries);
   ("POST", organization "/context/webhooks/{subscriptionId}/deliveries/{deliverySpec}", auth handleWebhookReplay);
   ("POST", organization "/context/exports", auth handleExport);
   ("GET", organization "/context/exports/{exportId}", auth handleGetExport);
   ("POST", organization "/context/imports", auth handleImport);
   ("GET", organization "/context/quotas", auth handleGetQuotas);
   ("PUT", organization "/context/quotas", auth handleSetQuotas);
   ("POST", organization "/context/diagnose", auth handleDiagnose);
   ("GET", organization "/context/diagnose/decision/{auditId}", auth handleDiagnoseAudit);
   ("POST", organization "/agents", auth handleCreateAgent);
   ("POST", organization "/agents/{agentTail...}", auth handleAgentRPC);
   ("GET", organization "/ops/lag", auth handleOpsLag);
   ("POST", organization "/ops/support-bundle", auth handleSupportBundle)].

(** No two patterns of one method match the same path, so the first match is the only one. *)
Fixpoint find_route (table : list (string * string * Handler)) (method : string) (path : list string)
    : option (Handler * strmap) :=
  match table with
  | [] => None
  | (m, p, h) :: table =>
      match (if String.eqb m method then match_path (pattern_of p) path else None) with
      | Some values => Some (h, values)
      | None => find_route table method path
      end
  end.
Definition methods_at (path : list string) : list string :=
  let methods := filter (fun m => is_Some (find_route routes m path)) ["GET"; "POST"; "PUT"] in
  if mem_str "GET" methods then "GET" :: "HEAD" :: tail methods else methods.

(** [http.ServeMux]: a [HEAD] is served by the handler for [GET]. *)
Definition Mux (r : HttpRequest) : application HttpResponse :=
  let method := if String.eqb (hr_Method r) "HEAD" then "GET" else hr_Method r in
  match find_route routes method (hr_Path r) with
  | Some (h, values) => h values r
  | None =>
      let text := {["Content-Type" := "text/plain; charset=utf-8"; "X-Content-Type-Options" := "nosniff"]} in
      match methods_at (hr_Path r) with
      | [] => mret (mkHttpResponse StatusNotFound text (Some (PText "404 page not found")))
      | allowed => mret (mkHttpResponse StatusMethodNotAllowed (<["Allow" := join allowed ", "]> text)
                           (Some (PText "Method Not Allowed")))
      end
  end.

(** ** [middleware.go] *)
Definition isIntakeBatchRoute (r : HttpRequest) : bool :=
  String.eqb (hr_Method r) "POST" && has_suffix (url_path r) "/context/intake:batch".
Definition securityHeaders : strmap :=
  {["X-Content-Type-Options" := "nosniff"; "X-Frame-Options" := "DENY"; "Referrer-Policy" := "no-referrer";
    "Content-Security-Policy" := "default-src 'none'; frame-ancestors 'none'";
    "Permissions-Policy" := "geolocation=(), microphone=(), camera=()"]}.
Definition body_limit (r : HttpRequest) : Z :=
  if isIntakeBatchRoute r then or_limit (IntakeBatchMaxBytes (sv_mw sv)) 8388608
  else or_limit (MaxBodyBytes (sv_mw sv)) 1048576.
(** [http.MaxBytesReader] *)
Definition cut_body (limit : Z) (r : HttpRequest) : HttpRequest :=
  if limit <? Z.of_nat (String.length (hr_Body r))
  then (r <| hr_Body := limited limit (hr_Body r) |>) <| hr_Cut := true |> else r.

(** Headers that were set before the handler ran *)
Definition under (base : strmap) (resp : HttpResponse) : HttpResponse :=
  resp <| rs_Header := rs_Header resp ∪ base |>.
Definition Middleware (next : HttpRequest -> application HttpResponse) (r : HttpRequest)
    : application HttpResponse :=
  let reqID := trim_space (header r "X-Request-Id") in
  reqID ← (if is_empty reqID then new_id else mret reqID);
  let base := <["X-Request-Id" := reqID]> securityHeaders in
  let limit := body_limit r in
  if limit <? hr_ContentLength r then
    mret (under base (writeJSONError StatusRequestEntityTooLarge "payload_too_large" "request body exceeds limit"))
  else
    resp ← attempt (next (cut_body limit r));
    mret (under base (match resp with
                      | Ok resp => resp
                      | Err _ => writeJSONError StatusInternalServerError "internal_error" "internal error"
                      end)).

Definition ServeHTTP : HttpRequest -> application HttpResponse := Middleware Mux.
End Http.
