(* ===== verification/HttpFacts.v ===== *)
(** * Theorems of the servers

    Who gets an answer from the REST surface, and what a refused request changes. *)
From S2P Require Import Prelude GoStd Sha256 Ports Platform Json Decode Policy Mapping MappingSpec OpenFGA.
From S2P Require Import Ledger LedgerFacts Index AuditLog Credentials Authn AuthnFacts Quota Changes World.
From S2P Require Import Ingest IngestFacts Deletion QueueFacts Retrieval RetrievalFacts Disclosure Export.
From S2P Require Import Application ApplicationFacts ServiceFacts Wire Answers Mcp Http.

(** ** What a refusal leaves alone *)

(** Only the clock, the identifiers drawn and the quota moved. *)
Definition quiet (a a' : App) : Prop :=
  untouched a a' /\ w_audit (app_world a') = w_audit (app_world a).

Lemma quiet_refl a : quiet a a.
Proof. by repeat split. Qed.
Lemma quiet_trans a b c : quiet a b -> quiet b c -> quiet a c.
Proof. intros [H1 E1] [H2 E2]. split; [by eapply untouched_trans | congruence]. Qed.
Lemma quiet_stores a a' : same_stores a a' -> quiet a a'.
Proof. apply stores_untouched. Qed.
Lemma quiet_later k a : quiet a (later k a).
Proof. apply quiet_stores, same_stores_later. Qed.

(** An answer that is an error *)
Definition refused (resp : HttpResponse) : bool :=
  match rs_Body resp with
  | Some (PMap ((k, _) :: _)) => String.eqb k "error"
  | Some (PText _) => true
  | _ => false
  end.

Lemma writeErr_refused e : refused (writeErr e) = true.
Proof.
  unfold writeErr, writeJSON, error_members. set (ae := default _ _). clearbody ae.
  destruct (0 <? RetryAfter ae); reflexivity.
Qed.

Section Gates.
Context `{GoEnv, GoMapOrder, Client, Host}.
Variable svc : ApplicationService.
Implicit Types (a : App) (creds : Credentials) (org : string).

(** ** Who is answered *)

(** The credentials stand for someone of the organization, or whom it made a manager. *)
Definition admits creds org a : Prop :=
  exists a1 p, quiet a a1 /\ caller a1 creds = Ok p /\
    (p_OrgID p = org \/ org_manager (w_authz (app_world a)) p org = true).

Lemma admits_quiet creds org a a1 : quiet a a1 -> admits creds org a1 -> admits creds org a.
Proof.
  intros Hq (a2 & p & Hq2 & Hp & Ho). exists a2, p. split; [by eapply quiet_trans|]. split; [exact Hp|].
  destruct Hq as [(_ & _ & _ & <- & _) _]. exact Ho.
Qed.

(** Whoever is not admitted gets an error, and nothing happens. *)
Definition guarded {A} (Adm : App -> Prop) (m : application A) : Prop :=
  forall a, Adm a \/ (exists e, (m a).1 = Err e) /\ quiet a (m a).2.
(** The same for the answers of a handler *)
Definition shields (Adm : App -> Prop) (m : application HttpResponse) : Prop :=
  forall a, Adm a \/
    match (m a).1 with Ok resp => refused resp = true | Err _ => True end /\ quiet a (m a).2.
(** Admission does not depend on what a refusal moves. *)
Definition stable (Adm : App -> Prop) : Prop := forall a a1, quiet a a1 -> Adm a1 -> Adm a.

Lemma admits_stable creds org : stable (admits creds org).
Proof. intros a a1. apply admits_quiet. Qed.

Lemma guarded_bind {A B} Adm (m : application A) (f : A -> application B) :
  guarded Adm m -> guarded Adm (m ≫= f).
Proof.
  intros Hm a. destruct (Hm a) as [?|[[e He] Hq]]; [by left|]. right.
  unfold mbind, M_bind. destruct (m a) as [r a1]. simpl in *. subst. split; [by exists e | exact Hq].
Qed.

Lemma guarded_after {A B} Adm (m : application A) (f : A -> application B) :
  stable Adm -> (forall a, quiet a (m a).2) -> (forall x, guarded Adm (f x)) -> guarded Adm (m ≫= f).
Proof.
  intros Hst Hm Hf a. specialize (Hm a). unfold mbind, M_bind.
  destruct (m a) as [[x|e] a1]; simpl in Hm; [|right; split; [by exists e | exact Hm]].
  destruct (Hf x a1) as [Ha|[He Hq]]; [left; by eapply Hst|].
  right. split; [exact He | by eapply quiet_trans].
Qed.

Lemma guarded_gated {A} creds org (m : application A) : gated creds org m -> guarded (admits creds org) m.
Proof.
  intros Hm a. destruct (Hm a) as [(p & Hc & _ & Ho)|(e & k & Hr)].
  - left. exists a, p. split; [apply quiet_refl|]. auto.
  - right. rewrite Hr. split; [by exists e | apply quiet_later].
Qed.

(** What is known of the caller behind a guard *)
Definition speaks creds (Q : Principal -> Prop) a : Prop :=
  exists a1 p, quiet a a1 /\ caller a1 creds = Ok p /\ Q p.
Lemma guarded_speaks {A} creds (guard : Principal -> result GoError unit) (f : Principal -> application A) :
  guarded (speaks creds (fun p => guard p = Ok tt)) (p ← authenticate creds; _ ← of_result (guard p); f p).
Proof.
  intros a. pose proof (authenticate_run creds a) as Hrun.
  destruct (caller a creds) as [p|e] eqn:Hc.
  - destruct (guard p) as [[]|e] eqn:Hp.
    + left. exists a, p. split; [apply quiet_refl|]. auto.
    + right. rewrite (bind_run _ _ _ _ _ Hrun). cbv beta. rewrite Hp. split; [by exists e | apply quiet_later].
  - right. rewrite (bind_fail _ _ _ _ _ Hrun). split; [by exists e | apply quiet_later].
Qed.
Lemma guarded_mono {A} (Adm Adm' : App -> Prop) (m : application A) :
  (forall a, Adm a -> Adm' a) -> guarded Adm m -> guarded Adm' m.
Proof. intros Hi Hm a. destruct (Hm a); auto. Qed.
Lemma guarded_and {A} (Adm Adm' : App -> Prop) (m : application A) :
  guarded Adm m -> guarded Adm' m -> guarded (fun a => Adm a /\ Adm' a) m.
Proof. intros Hm Hm' a. destruct (Hm a), (Hm' a); auto. Qed.

Lemma guarded_org {A} creds org (guard : Principal -> result GoError unit) (f : Principal -> application A) :
  (forall p, guard p = Ok tt -> p_OrgID p = org) ->
  guarded (admits creds org) (p ← authenticate creds; _ ← of_result (guard p); f p).
Proof.
  intros Hg. eapply guarded_mono; [|apply guarded_speaks].
  intros a (a1 & p & Hq & Hp & Ho). exists a1, p. auto.
Qed.

Lemma require_org p org u : RequireOrg p org = Ok u -> p_OrgID p = org.
Proof. by intros [? _]%RequireOrg_Ok. Qed.
Lemma requireIngest_org p org : requireIngest p org [] = Ok tt -> p_OrgID p = org.
Proof. unfold requireIngest. destruct (RequireOrg p org) eqn:Hr; [|done]. intros _. by eapply require_org. Qed.
Lemma requireRead_org p org : requireRead p org [] = Ok tt -> p_OrgID p = org.
Proof. unfold requireRead. destruct (RequireOrg p org) eqn:Hr; [|done]. intros _. by eapply require_org. Qed.
Lemma requireAuditRead_org p org : requireAuditRead p org [] = Ok tt -> p_OrgID p = org.
Proof. unfold requireAuditRead. destruct (RequireOrg p org) eqn:Hr; [|done]. intros _. by eapply require_org. Qed.

(** ** Reads *)

Lemma bindOrg_org p req t req' t' :
  bindOrg p req t = (Ok req', t') -> rq_OrgID req <> "" -> p_OrgID p = rq_OrgID req.
Proof.
  intros (u & t1 & _ & Hr)%bind_Ok Hne%is_empty_false. rewrite Hne in Hr.
  apply bind_Ok in Hr as (u' & t2 & Ht & _). unfold throw_if, fail_if, of_result in Ht.
  destruct (String.eqb_spec (p_OrgID p) (rq_OrgID req)); [done|]. discriminate.
Qed.

Definition caller_of (P : Providers) (req : Retrieval.Request) : Prop :=
  exists n p, Authenticate n (rq_Credentials req) = Ok p /\ p_OrgID p = rq_OrgID req.

Lemma search_caller (P : Providers) req t pkt t' :
  Retrieval.Search req t = (Ok pkt, t') -> rq_OrgID req <> "" -> caller_of P req.
Proof.
  unfold Retrieval.Search. intros Hs Hne. set (req0 := if is_empty (rq_Action req) then _ else req) in Hs.
  assert (Hreq : rq_OrgID req0 = rq_OrgID req /\ rq_Credentials req0 = rq_Credentials req)
    by (unfold req0; by destruct (is_empty _)).
  clearbody req0. destruct Hreq as [Ho Hc].
  apply bind_Ok in Hs as (p & t1 & Ha & (r & t2 & Hb & _)%bind_Ok).
  unfold call_at in Ha. injection Ha as Ha _. exists (step t), p. rewrite <-Hc, <-Ho. split; [exact Ha|].
  eapply bindOrg_org; [exact Hb | by rewrite Ho].
Qed.
Lemma graph_caller (P : Providers) req t pkt t' :
  Retrieval.Graph req t = (Ok pkt, t') -> rq_OrgID req <> "" -> caller_of P req.
Proof.
  unfold Retrieval.Graph. intros Hs Hne. set (req0 := if is_empty (rq_Action req) then _ else req) in Hs.
  destruct (is_empty (rq_ResourceID req0)); [discriminate|]. cbv zeta in Hs.
  assert (Hreq : rq_OrgID (graphDefaults req0) = rq_OrgID req /\
                 rq_Credentials (graphDefaults req0) = rq_Credentials req)
    by (unfold req0; by destruct (is_empty _)).
  set (req1 := graphDefaults req0) in *. clearbody req1. destruct Hreq as [Ho Hc].
  apply bind_Ok in Hs as (p & t1 & Ha & (r & t2 & Hb & _)%bind_Ok).
  unfold call_at in Ha. injection Ha as Ha _. exists (step t), p. rewrite <-Hc, <-Ho. split; [exact Ha|].
  eapply bindOrg_org; [exact Hb | by rewrite Ho].
Qed.

Lemma retrieve_guarded (run : Providers -> pipeline ContextPacket) creds org :
  (forall P, audits (run P) accounts_for) ->
  (forall P t pkt t', run P t = (Ok pkt, t') ->
     exists n p, Authenticate n creds = Ok p /\ p_OrgID p = org) ->
  guarded (admits creds org) (retrieve run).
Proof.
  intros Haud Hrun a. pose proof (retrieve_spec run a Haud) as Hs.
  destruct (retrieve run a) as [[pkt|e] a']; destruct Hs as [Hu Hs].
  - left. destruct Hs as (idx & t & e & t1 & id & Hr & _). apply Hrun in Hr as (n & p & Hp & Ho).
    exists a, p. split; [apply quiet_refl|]. split; [exact Hp | by left].
  - right. split; [by exists e | by split].
Qed.
Lemma search_guarded req org :
  rq_OrgID req = org -> org <> "" -> guarded (admits (rq_Credentials req) org) (retrieve (fun P => Retrieval.Search req)).
Proof.
  intros <- Hne. apply retrieve_guarded; [intros P; apply Search_audits|].
  intros P t pkt t' Hr. by eapply search_caller.
Qed.
Lemma graph_guarded req org :
  rq_OrgID req = org -> org <> "" -> guarded (admits (rq_Credentials req) org) (retrieve (fun P => Retrieval.Graph req)).
Proof.
  intros <- Hne. apply retrieve_guarded; [intros P; apply Graph_audits|].
  intros P t pkt t' Hr. by eapply graph_caller.
Qed.

Lemma enforceQuota_quiet org op a : quiet a (enforceQuota org op a).2.
Proof. apply quiet_stores, enforceQuota_stores. Qed.

(** ** The operations *)
Lemma as_manager_guarded creds org : guarded (admits creds org) (as_manager creds org).
Proof. apply guarded_gated, gated_as_manager. Qed.

Lemma shields_const Adm resp : refused resp = true -> shields Adm (mret resp).
Proof. intros Hr a. right. split; [exact Hr | apply quiet_refl]. Qed.
Lemma shields_error Adm e : shields Adm (mret (writeErr e)).
Proof. apply shields_const, writeErr_refused. Qed.

Lemma shields_respond {A} Adm (m : application A) done :
  guarded Adm m -> shields Adm (respond m done).
Proof.
  intros Hm a. destruct (Hm a) as [?|[[e He] Hq]]; [by left|]. right.
  unfold respond, settle, mbind, M_bind, attempt. destruct (m a) as [r a']. simpl in *. subst r. simpl.
  destruct (is_panic e); simpl; split; try done. apply writeErr_refused.
Qed.
Lemma shields_body {A} Adm (dec : decoder A) zero r next :
  (forall body, shields Adm (next body)) -> shields Adm (with_body dec zero r next).
Proof.
  intros Hn. unfold with_body. destruct (checked _); [apply Hn|]. apply shields_error.
Qed.
End Gates.

(** The operations are opened up to their gate. *)
Ltac gate_op :=
  lazymatch goal with
  | |- guarded _ (as_manager _ _) => apply as_manager_guarded
  | |- guarded _ (retrieve (fun P => Retrieval.Search ?req)) => by apply (search_guarded req)
  | |- guarded _ (retrieve (fun P => Retrieval.Graph ?req)) => by apply (graph_guarded req)
  | |- guarded _ (enforceQuota _ _ ≫= _) =>
      apply guarded_after; [apply admits_stable | intros; apply enforceQuota_quiet | intros []; gate_op]
  | |- guarded (admits _ ?org) (authenticate _ ≫= _) =>
      first [ apply (guarded_org _ org (fun p => RequireOrg p org)); intros ? Hg; exact (require_org _ _ _ Hg)
            | apply (guarded_org _ org (fun p => requireIngest p org [])); exact (fun p => requireIngest_org p org)
            | apply (guarded_org _ org (fun p => requireRead p org [])); exact (fun p => requireRead_org p org)
            | apply (guarded_org _ org (fun p => requireAuditRead p org [])); exact (fun p => requireAuditRead_org p org) ]
  | |- guarded _ (_ ≫= _) => apply guarded_bind; gate_op
  | |- guarded _ ?m =>
      let rec head t := lazymatch t with ?f _ => head f | _ => t end in
      let h := head m in unfold h; cbv zeta; gate_op
  end.

(** ** The handlers *)
Section Handlers.
Context `{GoEnv, GoMapOrder, Client, Host}.
Variables (svc : ApplicationService) (sv : Server).

(** The handler of a route below an organization *)
Definition tenant_handler (h : strmap -> HttpRequest -> application HttpResponse) : Prop :=
  forall path r, orgId path <> "" -> shields (admits (creds_of sv r) (orgId path)) (h path r).

Lemma auth_tenant h : tenant_handler h -> tenant_handler (auth sv h).
Proof.
  intros Hh path r Ho. unfold auth. destruct (hasCredential r); [by apply Hh|].
  apply shields_const. unfold unauthorized, refused, with_header, writeErr, writeJSON, error_members. reflexivity.
Qed.

Ltac shield :=
  intros path r Hpath; cbv zeta;
  repeat first
    [ apply shields_error
    | apply shields_body; intros
    | apply shields_respond
    | match goal with |- shields _ (match ?x with _ => _ end) => destruct x end
    | match goal with |- shields _ (if ?x then _ else _) => destruct x end
    | match goal with |- shields _ ?m =>
        let rec head t := lazymatch t with ?f _ => head f | _ => t end in
        let h := head m in unfold h; cbv beta zeta
      end ];
  try gate_op.

(** Every handler of a route below an organization *)
Definition tenant_handlers : list (strmap -> HttpRequest -> application HttpResponse) :=
  [handleBootstrap svc sv;
   handleOrgStatus sv;
   handleSearch sv;
   handleGet sv;
   handleGraph sv;
   handleDelete svc sv;
   handleBrief sv;
   handleAccess sv;
   handleRegisterSource sv;
   handleListSources sv;
   handleGetSource sv;
   handleSourceRPC sv;
   handleIntake sv;
   handleIntakeBatch sv;
   handlePresign sv;
   handleChanges sv;
   handleAudit sv;
   handleListWebhooks sv;
   handleWebhooks svc sv;
   handleGetWebhook sv;
   handleListDeliveries sv;
   handleWebhookReplay svc sv;
   handleExport svc sv;
   handleGetExport sv;
   handleImport sv;
   handleGetQuotas sv;
   handleSetQuotas sv;
   handleDiagnose sv;
   handleDiagnoseAudit sv;
   handleCreateAgent sv;
   handleAgentRPC sv;
   handleOpsLag sv;
   handleSupportBundle svc sv].
Lemma handlers_tenant : Forall tenant_handler tenant_handlers.
Proof.
  unfold tenant_handlers. repeat (apply Forall_cons; split); [..| apply Forall_nil; exact I]. all: shield.
Qed.

(** ** Routing *)
Definition binds (name : string) (seg : segment) : bool :=
  match seg with Wildcard n | Remainder n => String.eqb n name | Literal _ => false end.
Definition below_org (p : list segment) : bool :=
  match p with
  | Literal v :: Literal o :: Wildcard n :: rest =>
      String.eqb v "v1" && String.eqb o "organizations" && String.eqb n "orgId"
      && negb (existsb (binds "orgId") rest)
  | _ => false
  end.

Lemma match_path_unbound name p path values :
  existsb (binds name) p = false -> match_path p path = Some values -> values !! name = None.
Proof.
  revert path values. induction p as [|seg p IH]; intros path values Hb Hm.
  { destruct path; [|done]. injection Hm as <-. apply lookup_empty. }
  simpl in Hb. apply orb_false_iff in Hb as [Hseg Hb].
  destruct seg as [x|x|x], path as [|t path]; try (destruct p; discriminate); simpl in Hm.
  - destruct (String.eqb x t); [by eapply IH | done].
  - destruct (is_empty t); [done|]. apply bind_Some in Hm as (v & Hv & [= <-]).
    simpl in Hseg. rewrite lookup_insert_ne by (intros ->; by rewrite String.eqb_refl in Hseg). by eapply IH.
  - destruct p; [|done]. injection Hm as <-. simpl in Hseg.
    apply lookup_singleton_None. intros ->. by rewrite String.eqb_refl in Hseg.
Qed.

Lemma match_path_org p org rest values :
  below_org p = true -> match_path p ("v1" :: "organizations" :: org :: rest) = Some values ->
  orgId values = org /\ org <> "".
Proof.
  unfold below_org. intros Hp Hm. repeat case_match; try done. subst.
  apply andb_true_iff in Hp as [[[->%String.eqb_eq ->%String.eqb_eq]%andb_true_iff ->%String.eqb_eq]%andb_true_iff Hn].
  apply negb_true_iff in Hn. simpl in Hm. destruct (is_empty org) eqn:Ho; [done|].
  apply bind_Some in Hm as (v & _ & [= <-]). split; [|by apply is_empty_false].
  unfold orgId, attr. by rewrite lookup_insert_eq.
Qed.

Definition tenant_route (e : string * string * (strmap -> HttpRequest -> application HttpResponse)) : Prop :=
  below_org (pattern_of e.1.2) = true /\ tenant_handler e.2 \/
  forall org rest, match_path (pattern_of e.1.2) ("v1" :: "organizations" :: org :: rest) = None.

Lemma routes_tenant : Forall tenant_route (routes svc sv).
Proof.
  pose proof handlers_tenant as Hh. unfold tenant_handlers in Hh.
  repeat (apply Forall_cons in Hh as [? Hh]). unfold routes.
  repeat (apply Forall_cons; split);
    [ .. | apply Forall_nil; exact I ];
    first [ left; split; [vm_compute; reflexivity | by apply auth_tenant] | right; intros; reflexivity ].
Qed.

Lemma find_route_tenant method org rest table h values :
  Forall tenant_route table ->
  find_route table method ("v1" :: "organizations" :: org :: rest) = Some (h, values) ->
  tenant_handler h /\ orgId values = org /\ org <> "".
Proof.
  induction 1 as [|[[m p] h0] table Hr _ IH]; [done|]. cbn [find_route].
  destruct (String.eqb m method); [|exact IH].
  destruct (match_path _ _) as [v|] eqn:Hm; [|exact IH]. intros [= -> ->].
  destruct Hr as [[Hp Hh]|Hn]; cbn in *; [|by rewrite Hn in Hm]. split; [exact Hh|]. by eapply match_path_org.
Qed.

Lemma Mux_shields r org rest :
  hr_Path r = "v1" :: "organizations" :: org :: rest -> shields (admits (creds_of sv r) org) (Mux svc sv r).
Proof.
  intros Hp. unfold Mux. rewrite Hp.
  destruct (find_route _ _ _) as [[h values]|] eqn:Hf.
  - apply find_route_tenant in Hf as (Hh & <- & Hne); [|apply routes_tenant]. by apply Hh.
  - destruct (methods_at _ _ _); by apply shields_const.
Qed.

(** ** The middleware *)
Lemma new_id_quiet a : quiet a (new_id a).2.
Proof. repeat split. Qed.

Lemma creds_cut limit r : creds_of sv (cut_body limit r) = creds_of sv r /\ hr_Path (cut_body limit r) = hr_Path r.
Proof. unfold cut_body. by destruct (_ <? _). Qed.

Lemma under_refused base resp : refused (under base resp) = refused resp.
Proof. reflexivity. Qed.

Lemma Middleware_run Adm next r a :
  (forall a, Adm (new_id a).2 -> Adm a) -> shields Adm (next (cut_body (body_limit sv r) r)) ->
  exists resp a', Middleware sv next r a = (Ok resp, a') /\
    (Adm a \/ refused resp = true /\ quiet a a').
Proof.
  intros Hst Hn. unfold Middleware.
  assert (exists id a1, (if is_empty (trim_space (header r "X-Request-Id")) then new_id
                         else mret (trim_space (header r "X-Request-Id"))) a = (Ok id, a1) /\
            quiet a a1 /\ (Adm a1 -> Adm a)) as (id & a1 & Hid & Hq & Hback).
  { destruct (is_empty _); [|by eexists _, a; split_and!; [|apply quiet_refl|]].
    pose proof (new_id_quiet a) as Hq. specialize (Hst a).
    destruct (new_id a) as [[id|e] a1] eqn:E; [by exists id, a1|].
    unfold new_id, on_world, draw in E. discriminate. }
  rewrite (bind_run _ _ _ _ _ Hid). cbv beta zeta.
  destruct (_ <? _); [by eexists _, a1; split; [reflexivity | right]|].
  pose proof (Hn a1) as Hs. unfold mbind, M_bind, attempt.
  destruct (next _ a1) as [res a2]. simpl in Hs. eexists _, a2. split; [reflexivity|].
  destruct Hs as [Ha|[Hr Hq2]]; [left; by apply Hback|]. right. rewrite under_refused.
  split; [by destruct res | by eapply quiet_trans].
Qed.

(** C1 The REST surface answers an organization's people only: every request below
    [/v1/organizations/{org}], whatever its method, path and body, is answered, and unless
    the credentials in its headers authenticate someone of that organization, or someone
    whom its tuples make a manager, the answer is an error and nothing changed but the
    clock, the identifiers drawn and the quota: no record, tuple, key, subscription,
    index entry, export or audit event. *)
Theorem http_gate r org rest a :
  hr_Path r = "v1" :: "organizations" :: org :: rest ->
  exists resp a', ServeHTTP svc sv r a = (Ok resp, a') /\
    ((exists a1 p, quiet a a1 /\ caller a1 (bearerCreds (sv_env sv) r) = Ok p /\
        (p_OrgID p = org \/ org_manager (w_authz (app_world a)) p org = true)) \/
     refused resp = true /\ quiet a a').
Proof.
  intros Hp. apply (Middleware_run (admits (creds_of sv r) org));
    [intros a1; apply admits_stable, new_id_quiet|].
  destruct (creds_cut (body_limit sv r) r) as [<- Hc].
  apply (Mux_shields _ org rest). by rewrite Hc.
Qed.

End Handlers.

Ltac shield :=
  intros path r Hpath;
  repeat first
    [ apply shields_error
    | apply shields_body; intros
    | apply shields_respond
    | case_match ].

(** ** A deployment *)
#[local] Existing Instances tally_env order_forward demo_client demo_host.
Definition demo_server : Server :=
  mkServer {["CONTEXT_FABRIC_PROFILE" := "demo"; "CONTEXT_FABRIC_ALLOW_SKIP_HMAC" := "1"]} true true
    (PRMFromEnv ∅) (mkMiddleware 0 0).
Definition demo_request (method : string) (path : list string) (headers : strmap) (body : string) : HttpRequest :=
  mkHttpRequest method path ∅ headers "localhost:8080" false (Z.of_nat (String.length body)) body false.
Definition owner_headers : strmap :=
  {["Authorization" := "Bearer local:acme:alice:owner"; "X-Request-Id" := "q1"]}.
Definition org_status (headers : strmap) : HttpRequest :=
  demo_request "GET" ["v1"; "organizations"; "acme"; "status"] headers "".
Definition served (r : HttpRequest) (a : App) : Z :=
  match (ServeHTTP demo_service demo_server r a).1 with Ok resp => rs_Status resp | Err _ => 0 end.

(** The owner is answered, a stranger and an anonymous caller are not; a path without a
    handler and a method without one are told apart. *)
Example statuses :
  served (org_status owner_headers) bootstrapped = 200 /\
  served (org_status {["Authorization" := "Bearer local:other:bob:owner"]}) bootstrapped = 403 /\
  served (org_status ∅) bootstrapped = 401 /\
  served (demo_request "GET" ["v1"; "organizations"; "acme"; "nothing"] owner_headers "") bootstrapped = 404 /\
  served (demo_request "DELETE" ["v1"; "organizations"; "acme"; "status"] owner_headers "") bootstrapped = 405 /\
  served (demo_request "PUT" ["v1"; "organizations"; "acme"; "context"; "quotas"] owner_headers
            ("{" +:+ json_member "burst" "1" +:+ "} and more")) bootstrapped = 200.
Proof. vm_compute. split_and!; reflexivity. Qed.

Lemma no_caller a1 : app_creds a1 = NewCredentialStore -> forall p, caller a1 (mkCredentials "" "" ∅) <> Ok p.
Proof. intros Hc p. unfold caller. rewrite Hc. vm_compute. discriminate. Qed.

Lemma http_gate_witness :
  exists resp a', ServeHTTP demo_service demo_server (org_status ∅) bootstrapped = (Ok resp, a') /\
    refused resp = true /\ quiet bootstrapped a'.
Proof.
  destruct (@http_gate tally_env order_forward demo_client demo_host demo_service demo_server (org_status ∅)
    "acme" ["status"] bootstrapped eq_refl) as (resp & a' & Hrun & Hres).
  exists resp, a'. split; [exact Hrun|]. destruct Hres as [(a1 & p & Hq & Hp & _)|Hr]; [|exact Hr].
  exfalso. refine (no_caller a1 _ p Hp). destruct Hq as [(_ & _ & _ & _ & _ & -> & _) _]. vm_compute. reflexivity.
Defined.
