(* ===== verification/McpFacts.v ===== *)
(** * Theorems of the MCP server: its tools read, and answer only callers with a token *)
From S2P Require Import Prelude GoStd Sha256 Ports Platform Json Decode Policy Mapping MappingSpec OpenFGA.
From S2P Require Import Ledger LedgerFacts Index AuditLog Credentials Authn AuthnFacts Quota Changes World.
From S2P Require Import Ingest IngestFacts Deletion QueueFacts Retrieval RetrievalFacts Disclosure Export.
From S2P Require Import Application ApplicationFacts ServiceFacts Wire Answers Mcp Http HttpFacts.

Section Mcp.
Context `{GoEnv, GoMapOrder, Client, Host}.
Implicit Types (a : App) (creds : Credentials).

(** ** What a tool may write: an access request and audit events *)

(** All but the ledger is as it was, and the audit log only grew. *)
Definition kept_beside a a' : Prop :=
  let w := app_world a in let w' := app_world a' in
  w_evidence w' = w_evidence w /\ w_index w' = w_index w /\ w_authz w' = w_authz w /\
  w_bus w' = w_bus w /\ w_audit w `prefix_of` w_audit w' /\ app_creds a' = app_creds a /\
  app_feed a' = app_feed a /\ app_manifests a' = app_manifests a /\ app_draws a' = app_draws a.

(** The ledger with one more pending access request, of the organization [org] and under the
    identifier [id] *)
Definition with_request (org id : string) (s s' : Store) : Prop :=
  exists res purpose why now auditID,
    s' = s <| accessReqs := insert2 org id
                (mkAccessRequest id org res purpose why "pending" now auditID) (accessReqs s) |>.

(** The ledger is as it was, or holds one more access request, of the caller's organization
    and under the next identifier that the process draws. *)
Definition only_requests creds a a' : Prop :=
  let w := app_world a in let w' := app_world a' in
  kept_beside a a' /\
  (w_ledger w' = w_ledger w \/
   exists p, caller a creds = Ok p /\
     with_request (p_OrgID p) (fresh_id (w_ids w)) (w_ledger w) (w_ledger w')).

Lemma kept_beside_trans a b c : kept_beside a b -> kept_beside b c -> kept_beside a c.
Proof.
  unfold kept_beside. intros (? & ? & ? & ? & P1 & ? & ? & ? & ?) (? & ? & ? & ? & P2 & ? & ? & ? & ?).
  split_and!; try congruence. by etrans.
Qed.
Lemma untouched_requests creds a a' :
  untouched a a' -> w_audit (app_world a) `prefix_of` w_audit (app_world a') -> only_requests creds a a'.
Proof.
  unfold untouched, only_requests. intros (Hl & ? & ? & ? & ? & ? & ? & ? & ?) Hp.
  split; [by split_and! | by left].
Qed.
Lemma only_requests_quiet creds a a' : quiet a a' -> only_requests creds a a'.
Proof. intros [Hu Ha]. apply untouched_requests; [exact Hu | by rewrite Ha]. Qed.
Lemma only_requests_refl creds a : only_requests creds a a.
Proof. apply only_requests_quiet, quiet_refl. Qed.

Lemma append_event_kept e a :
  let a' := (on_world (append_event e) a).2 in
  kept_beside a a' /\ w_ledger (app_world a') = w_ledger (app_world a).
Proof. split; [|done]. split_and!; try done. simpl. by eexists. Qed.

Lemma put_request_kept org id res purpose why aud a :
  let a' := (on_world (timed (fun t => PutAccessRequest t org id res purpose why aud)) a).2 in
  kept_beside a a' /\
  (w_ledger (app_world a') = w_ledger (app_world a) \/
   with_request org id (w_ledger (app_world a)) (w_ledger (app_world a'))).
Proof.
  unfold timed, PutAccessRequest, on_world, on_ledger, tick, mbind, M_bind.
  destruct (_ || _); simpl; (split; [by split_and!|]); [by left|]. right. by eexists _, _, _, _, _.
Qed.

Lemma bind_always {A B} (m : application A) (f : A -> application B) a x :
  (m a).1 = Ok x -> (m ≫= f) a = f x (m a).2.
Proof. intros Hm. unfold mbind, M_bind. destruct (m a) as [r a1]. simpl in Hm. by subst r. Qed.
Lemma attempt_always {A} (m : application A) a : (attempt m a).1 = Ok (m a).1 /\ (attempt m a).2 = (m a).2.
Proof. unfold attempt. by destruct (m a). Qed.

Lemma RequestAccess_requests creds org res purpose why a :
  only_requests creds a (RequestAccess creds org res purpose why a).2.
Proof.
  unfold RequestAccess. pose proof (authenticate_run creds a) as Hrun.
  destruct (caller a creds) as [p|e] eqn:Hp;
    [|rewrite (bind_fail _ _ _ _ _ Hrun); apply only_requests_quiet, quiet_later].
  rewrite (bind_run _ _ _ _ _ Hrun). cbv beta.
  destruct (RequireOrg p org) as [u|e] eqn:Horg; [|apply only_requests_quiet, quiet_later].
  rewrite (bind_run (of_result (Ok u)) _ _ u _ eq_refl).
  apply require_org in Horg as <-. set (a1 := later 2 a).
  rewrite (bind_always new_id _ a1 _ eq_refl). set (a2 := (new_id a1).2).
  rewrite (bind_always new_id _ a2 _ eq_refl). set (a3 := (new_id a2).2).
  rewrite (bind_run _ _ _ _ _ (now_run a3)). set (a4 := later 1 a3).
  assert (H4 : quiet a a4).
  { eapply quiet_trans; [apply quiet_later|]. eapply quiet_trans; [apply (new_id_quiet a1)|].
    eapply quiet_trans; [apply (new_id_quiet a2)|]. apply quiet_later. }
  match goal with |- context [attempt (on_world (append_event ?e)) ≫= _] =>
    destruct (attempt_always (on_world (append_event e)) a4) as [Ha1 Ha2];
    destruct (append_event_kept e a4) as [Hk5 Hl5] end.
  rewrite (bind_always _ _ _ _ Ha1), Ha2. set (a5 := (on_world _ a4).2) in *.
  match goal with |- context [attempt ?m ≫= _] => destruct (attempt_always m a5) as [Hb1 Hb2] end.
  rewrite (bind_always _ _ _ _ Hb1), Hb2.
  destruct (put_request_kept (p_OrgID p) (fresh_id (w_ids (app_world a1))) res purpose why
              (fresh_id (w_ids (app_world a2))) a5) as [Hk6 Hl6].
  set (a6 := (on_world (timed _) a5).2) in *. rewrite (bind_run _ _ _ _ _ (now_run a6)). simpl.
  assert (Hq : only_requests creds a a4) by (by apply only_requests_quiet).
  assert (H7 : quiet a6 (later 1 a6)) by apply quiet_later.
  apply (only_requests_quiet creds) in H7 as [Hk7 _].
  split; [by repeat (eapply kept_beside_trans; [eassumption|])|].
  destruct H4 as [(Hl4 & _) _]. rewrite Hl5, Hl4 in Hl6.
  change (w_ledger (app_world (later 1 a6))) with (w_ledger (app_world a6)).
  destruct Hl6 as [Hl6|Hl6]; [by left|]. right. exists p. by split.
Qed.

(** ** What a tool shows *)

(** A packet of the caller's organization with what the caller may see *)
Definition shown a creds (pkt : ContextPacket) : Prop :=
  exists a1 p purpose, same_stores a a1 /\ caller a1 creds = Ok p /\ pkt_OrgID pkt = p_OrgID p /\
    forall id, id ∈ (cit_ResourceID <$> pkt_Citations pkt) ++ (node_ResourceID <$> pkt_Nodes pkt) ->
      disclosable (w_authz (app_world a)) (w_ledger (app_world a)) p purpose id.

Definition tool_contract a creds (ra : result GoError rpcResult * App) : Prop :=
  only_requests creds a ra.2 /\
  forall pkt e, ra.1 = Ok (RTool (TPacket pkt) e) -> shown a creds pkt.

Lemma tool_read creds op a :
  ledger_ok (w_ledger (app_world a)) -> tool_contract a creds (packet_tool (run_read creds op) a).
Proof.
  intros Hok. pose proof (run_read_contract creds op a Hok) as Hc. unfold tool_contract, packet_tool.
  unfold mbind, M_bind. destruct (run_read creds op a) as [[pkt|e] a']; simpl in Hc; cycle 1.
  { split; [|done]. apply only_requests_quiet. exact Hc. }
  destruct Hc as (Hu & a1 & Hs & p & Hp & Ho & Hd & e & t & id & _ & Haud).
  assert (Hst : (toolResult (TPacket pkt) a').2 = a') by (unfold toolResult; by destruct (encodes_tool _)).
  split; [rewrite Hst; apply untouched_requests; [exact Hu | by rewrite Haud; eexists]|].
  intros pkt' e' Hr. unfold toolResult in Hr. destruct (encodes_tool _); [|done]. injection Hr as <- _.
  exists a1, p, (purpose_of op). by split_and!.
Qed.

Lemma tool_contract_none a creds r a' :
  only_requests creds a a' -> (forall pkt e, r <> Ok (RTool (TPacket pkt) e)) -> tool_contract a creds (r, a').
Proof. intros Hq Hn. split; [exact Hq|]. intros pkt e Hr. by apply Hn in Hr. Qed.

Lemma callTool_contract creds org params a :
  ledger_ok (w_ledger (app_world a)) -> tool_contract a creds (callTool creds org params a).
Proof.
  intros Hok. unfold callTool.
  destruct (checked _) as [[name args]|]; [|by apply tool_contract_none; [apply only_requests_refl|]].
  cbv zeta. set (args' := default [] args). clearbody args'.
  destruct (is_empty _); [by apply tool_contract_none; [apply only_requests_refl|]|].
  set (org' := or_default _ org). clearbody org'. unfold run_tool. cbv zeta.
  destruct (String.eqb name "context.search").
  { apply (tool_read creds (RSearch org' (Wire.scopesOf creds) (search_arguments args'))), Hok. }
  destruct (String.eqb name "context.get").
  { apply (tool_read creds (RGetResource org' _ _ _ (Wire.scopesOf creds))), Hok. }
  destruct (String.eqb name "context.brief").
  { apply (tool_read creds (RBrief org' (Wire.scopesOf creds) _ _ _ _)), Hok. }
  destruct (String.eqb name "context.graph").
  { apply (tool_read creds (RGraph org' (Wire.scopesOf creds) (graph_arguments args'))), Hok. }
  destruct (String.eqb name "context.request_access");
    [|by apply tool_contract_none; [apply only_requests_refl|]].
  pose proof (RequestAccess_requests creds org' (strArg args' "resource_id") (strArg args' "purpose")
                (strArg args' "justification") a) as Hr.
  unfold mbind, M_bind. destruct (RequestAccess _ _ _ _ _ a) as [[out|e] a'];
    [|by apply tool_contract_none].
  unfold toolResult. destruct (encodes_tool _); by apply tool_contract_none.
Qed.

Definition packet_in (resp : HttpResponse) : option ContextPacket :=
  match rs_Body resp with
  | Some (PRpc (mkRpcResponse _ (Some (RTool (TPacket pkt) _)) _)) => Some pkt
  | _ => None
  end.
Definition endpoint_contract a creds (ra : result GoError HttpResponse * App) : Prop :=
  only_requests creds a ra.2 /\
  forall resp pkt, ra.1 = Ok resp -> packet_in resp = Some pkt -> shown a creds pkt.

Lemma endpoint_const a creds resp : packet_in resp = None -> endpoint_contract a creds ((mret resp : application HttpResponse) a).
Proof. intros Hn. split; [apply only_requests_refl|]. intros resp' pkt [= <-]. by rewrite Hn. Qed.

Lemma dispatch_contract env r req a :
  ledger_ok (w_ledger (app_world a)) -> endpoint_contract a (bearerCreds env r) (dispatch env r req a).
Proof.
  intros Hok. unfold dispatch. cbv zeta.
  destruct (mem_str _ _); [by apply endpoint_const|]. destruct (mem_str _ _); [by apply endpoint_const|].
  destruct (mem_str _ _); [|by apply endpoint_const].
  pose proof (callTool_contract (bearerCreds env r) (or_default (header r "X-Organization-Id") (query r "org_id"))
                (rq_Params req) a Hok) as Hc.
  unfold settle, mbind, M_bind, attempt. destruct (callTool _ _ _ a) as [[out|e] a']; destruct Hc as [Hq Hs].
  - split; [exact Hq|]. intros resp pkt [= <-]. unfold packet_in. cbn.
    destruct out as [v|l|[p|m] err]; try done. intros [= ->]. by eapply Hs.
  - destruct (is_panic e); split; try exact Hq; [done|]. intros resp pkt [= <-].
    unfold packet_in, toolErrorResult. cbn. by destruct (AsAPIError e).
Qed.

(** C11 The tools are read-only, and show what a read shows: whatever a request to the MCP
    endpoint holds, no record, tuple, key, subscription, index entry or export changes. The
    ledger gains at most one pending access request, filed in the caller's organization
    under the next identifier drawn, every other request staying as it was, and the audit
    log is only added to. And a packet in an answer is of the
    organization of the principal whom the request's credentials stand for, and cites and
    shows only live records that this principal may read. *)
Theorem mcp_read_only env prm r a :
  ledger_ok (w_ledger (app_world a)) ->
  let '(res, a') := Mcp.serve env prm r a in
  only_requests (bearerCreds env r) a a' /\
  forall resp pkt, res = Ok resp -> packet_in resp = Some pkt ->
    exists a1 p purpose, same_stores a a1 /\ caller a1 (bearerCreds env r) = Ok p /\
      pkt_OrgID pkt = p_OrgID p /\
      forall id, id ∈ (cit_ResourceID <$> pkt_Citations pkt) ++ (node_ResourceID <$> pkt_Nodes pkt) ->
        disclosable (w_authz (app_world a)) (w_ledger (app_world a)) p purpose id.
Proof.
  intros Hok. assert (Hc : endpoint_contract a (bearerCreds env r) (Mcp.serve env prm r a)).
  { unfold Mcp.serve. destruct (negb _); [by apply endpoint_const|].
    destruct (_ && _); [by apply endpoint_const|]. destruct (is_empty _); [by apply endpoint_const|].
    destruct (checked _); [by apply dispatch_contract | by apply endpoint_const]. }
  unfold endpoint_contract in Hc. destruct (Mcp.serve env prm r a) as [res a']. exact Hc.
Qed.
End Mcp.

(** A key in the key header passes the gate of the route but not the endpoint, and the text
    of an internal error is shown. *)
Lemma mcp_needs_bearer `{GoEnv, GoMapOrder, Client, Host} env prm r a :
  hr_Method r = "POST" -> header r "Origin" = "" -> trim_space (header r "Authorization") = "" ->
  Mcp.serve env prm r a = (Ok (Mcp.writeUnauthorized prm r "unauthorized"), a).
Proof. intros Hm Ho Ha. unfold Mcp.serve. by rewrite Hm, Ho, Ha. Qed.
Lemma mcp_shows_internal msg :
  toolErrorResult (EPlain msg)
  = RTool (TMap [("reason_code", VStr "internal_error"); ("message", VStr msg); ("retryable", VBool false);
                 ("audit_id", VStr "")]) true.
Proof. reflexivity. Qed.

(** ** A search through the tools *)
#[local] Existing Instances tally_env order_forward demo_client demo_host.
Definition mail_call : string :=
  json_struct [json_str "jsonrpc" "2.0"; json_member "id" "7"; json_str "method" "tools/call";
    json_member "params" (json_struct [json_str "name" "context.search";
      json_member "arguments" (json_struct [json_str "organization_id" "acme"; json_str "query" "mail";
        json_str "purpose" "support"])])].
Definition mail_request : HttpRequest :=
  demo_request "POST" ["mcp"] {["Authorization" := "Bearer local:acme:alice:member"; "X-Request-Id" := "q2"]} mail_call.
Definition mail_answer : result GoError HttpResponse * App := Mcp.serve ∅ (PRMFromEnv ∅) mail_request stocked.
Definition mail_shown : HttpResponse := match mail_answer.1 with Ok resp => resp | Err _ => writeErr (EPlain "") end.
Definition mail_found : ContextPacket := default no_packet (packet_in mail_shown).

Lemma mail_ran : mail_answer = (Ok mail_shown, mail_answer.2) /\ packet_in mail_shown = Some mail_found.
Proof. vm_compute. split; reflexivity. Qed.
Example mail_found_cited : cit_ResourceID <$> pkt_Citations mail_found = ["r1"].
Proof. vm_compute. reflexivity. Qed.

Lemma mcp_read_only_witness :
  only_requests (bearerCreds ∅ mail_request) stocked mail_answer.2 /\ reads world_authz "user:alice" "resource:r1".
Proof.
  pose proof (@mcp_read_only tally_env order_forward demo_host ∅ (PRMFromEnv ∅) mail_request stocked
    world_store_ok) as Hr.
  fold mail_answer in Hr. destruct mail_ran as [Hrun Hpkt]. rewrite Hrun in Hr. destruct Hr as [Hq Hs].
  split; [exact Hq|]. destruct (Hs _ _ eq_refl Hpkt) as (a1 & p & purpose & Hst & Hp & _ & Hd).
  assert (Hin : "r1" ∈ (cit_ResourceID <$> pkt_Citations mail_found) ++ (node_ResourceID <$> pkt_Nodes mail_found)).
  { apply elem_of_app. left. rewrite mail_found_cited. left. }
  assert (p = local_principal "acme" "alice" "member") as ->.
  { destruct Hst as (_ & Hc & _). unfold caller in Hp. rewrite Hc in Hp. vm_compute in Hp. injection Hp as <-. reflexivity. }
  exact (proj1 (Hd "r1" Hin)).
Defined.
