(* ===== verification/HttpIntake.v ===== *)
(** * Intake over HTTP

    What an event posted to an organization has passed before anything is stored, and
    what the batch route makes of signatures and idempotency keys. *)
From S2P Require Import Prelude GoStd Sha256 Ports Platform Json Decode Policy Mapping MappingSpec OpenFGA.
From S2P Require Import Ledger LedgerFacts Index AuditLog Credentials Authn AuthnFacts Quota Changes World.
From S2P Require Import Ingest IngestFacts Deletion QueueFacts Retrieval RetrievalFacts Disclosure Export.
From S2P Require Import Application ApplicationFacts ServiceFacts Wire Answers Mcp Http HttpFacts.

Section Intake.
Context `{GoEnv, GoMapOrder, Client, Host}.
Variables (svc : ApplicationService) (sv : Server).
Implicit Types (a : App) (creds : Credentials).

(** The source takes the event, read at the [n]th reading of the clock: it is registered and
    enabled, and the text signed is the body, unless verification is skipped. *)
Definition takes_at (n : nat) (org : string) (req : IntakeRequest) a : Prop :=
  exists src ireq, IngestFacts.admitted (w_ledger (app_world a)) (clock n) ireq src /\ iq_OrgID ireq = org /\
    iq_Body ireq = ir_Body req /\ iq_Payload ireq = ir_Payload req /\
    iq_Signature ireq = ir_Signature req /\ iq_Timestamp ireq = ir_Timestamp req /\
    iq_SkipHMAC ireq = ir_SkipHMAC req /\
    source_id ireq = or_default (ir_SourceID req) (ev_SourceSystem (ir_Event req)).

Definition clock_at a : nat := w_clock (app_world a).
(** The source takes it within the next [k] readings of the clock. *)
Definition takes (k : nat) (org : string) (req : IntakeRequest) a : Prop :=
  exists n, (clock_at a <= n <= clock_at a + k)%nat /\ takes_at n org req a.

(** A quiet step that reads the clock at most [j] times *)
Definition moves {A} (j : nat) (m : application A) : Prop :=
  forall a, quiet a (m a).2 /\ (clock_at a <= clock_at (m a).2 <= clock_at a + j)%nat.

Lemma takes_back j k org req a a1 :
  quiet a a1 -> (clock_at a <= clock_at a1 <= clock_at a + j)%nat -> takes k org req a1 ->
  takes (j + k) org req a.
Proof.
  intros [(Hl & _) _] Hc (n & Hn & Ht). exists n. split; [lia|]. unfold takes_at in *. by rewrite <-Hl.
Qed.

Lemma guarded_within {A B} j k org req (m : application A) (f : A -> application B) :
  moves j m -> (forall x, guarded (takes k org req) (f x)) -> guarded (takes (j + k) org req) (m ≫= f).
Proof.
  intros Hm Hf a. specialize (Hm a) as [Hq Hc]. unfold mbind, M_bind.
  destruct (m a) as [[x|e] a1]; simpl in *; [|right; split; [by exists e | exact Hq]].
  destruct (Hf x a1) as [Ha|[He Hq2]]; [left; by eapply takes_back|].
  right. split; [exact He | by eapply quiet_trans].
Qed.

Lemma moves_state {A} (m : application A) : (forall a, (m a).2 = a) -> moves 0 m.
Proof. intros Hm a. rewrite Hm. split; [apply quiet_refl | lia]. Qed.
Lemma authenticate_moves creds : moves 2 (authenticate creds).
Proof.
  intros a. rewrite authenticate_run. split; [apply quiet_later|]. unfold clock_at, later. simpl. lia.
Qed.
Lemma new_id_moves : moves 0 new_id.
Proof. intros a. split; [apply new_id_quiet|]. unfold clock_at, new_id, on_world, draw. simpl. lia. Qed.
Lemma moves_bind {A B} i j (m : application A) (f : A -> application B) :
  moves i m -> (forall x, moves j (f x)) -> moves (i + j) (m ≫= f).
Proof.
  intros Hm Hf a. specialize (Hm a) as [Hq Hc]. unfold mbind, M_bind.
  destruct (m a) as [[x|e] a1]; simpl in *; [|split; [exact Hq | lia]].
  destruct (Hf x a1) as [Hq2 Hc2]. split; [by eapply quiet_trans | lia].
Qed.
Lemma moves_weaken {A} i j (m : application A) : (i <= j)%nat -> moves i m -> moves j m.
Proof. intros Hij Hm a. destruct (Hm a). split; [done | lia]. Qed.
Lemma now_moves : moves 1 now.
Proof. intros a. rewrite now_run. split; [apply quiet_later|]. unfold clock_at, later. simpl. lia. Qed.
Lemma on_limiter_moves {A} (m : M GoError Limiter A) : moves 0 (on_limiter m).
Proof.
  intros a. split; [apply quiet_stores, same_stores_limiter|]. unfold on_limiter, clock_at.
  destruct (m _). simpl. lia.
Qed.

(** The age of the cached limits, the time of the new ones, and the time of the call *)
Lemma enforceQuota_moves org op : moves 3 (enforceQuota org op).
Proof.
  unfold enforceQuota. apply (moves_bind 2 1); cycle 1.
  { intros u. apply (moves_bind 1 0); [apply now_moves|]. intros t. apply on_limiter_moves. }
  unfold refreshOrgQuota. destruct (is_empty _); [by apply (moves_weaken 0); [lia | apply moves_state]|].
  apply (moves_bind 0 2); [by apply moves_state|]. intros e. apply (moves_bind 1 1).
  { unfold fresh_entry. destruct e; [|by apply (moves_weaken 0); [lia | apply moves_state]].
    apply (moves_bind 1 0); [apply now_moves|]. intros t. by apply moves_state. }
  intros []; [by apply (moves_weaken 0); [lia | apply moves_state]|].
  apply (moves_bind 0 1); [apply moves_state; intros a; by rewrite on_store_read|]. intros q.
  apply (moves_bind 1 0); [apply now_moves|]. intros t. apply (moves_bind 0 0).
  { intros a. split; [|unfold clock_at; simpl; lia]. apply quiet_stores. split_and!; try done.
    exists 0%nat. by rewrite later_0. }
  intros u. destruct (decide _); [by apply moves_state | apply on_limiter_moves].
Qed.
Lemma mapping_of_state org sid req a : (mapping_of org sid req a).2 = a.
Proof.
  unfold mapping_of. destruct (_ && _); [|done].
  assert (Hg : forall s, (GetMappingSpec org sid s).2 = s).
  { intros s. unfold GetMappingSpec. by repeat case_match. }
  assert (Hr := on_store_read (GetMappingSpec org sid) a (Hg _)).
  by rewrite (bind_run _ _ _ _ _ (attempt_run _ _ _ _ Hr)).
Qed.

Lemma ingest_guarded org req ireq {B} (f : Result -> application B) :
  iq_OrgID ireq = org -> iq_Body ireq = ir_Body req -> iq_Payload ireq = ir_Payload req ->
  iq_Signature ireq = ir_Signature req -> iq_Timestamp ireq = ir_Timestamp req ->
  iq_SkipHMAC ireq = ir_SkipHMAC req ->
  source_id ireq = or_default (ir_SourceID req) (ev_SourceSystem (ir_Event req)) ->
  guarded (takes 0 org req) (result ← on_world (Ingest.Intake ireq); f result).
Proof.
  intros. apply guarded_bind. intros a. unfold on_world.
  destruct (intake_admission ireq (app_world a)) as [[e He]|[src Hs]].
  - right. rewrite He. split; [by exists e|]. by repeat split.
  - left. exists (clock_at a). split; [lia|]. by exists src, ireq.
Qed.

(** The intake reads the clock at most five times before the source is asked. *)
Lemma Intake_takes creds org req : guarded (takes 5 org req) (Application.Intake creds org req).
Proof.
  unfold Application.Intake.
  apply (guarded_within 2 3); [apply authenticate_moves|]. intros p.
  apply (guarded_within 0 3); [by apply moves_state|]. intros u.
  apply (guarded_within 3 0); [apply enforceQuota_moves|]. intros u'.
  apply (guarded_within 0 0); [destruct (is_empty _); [apply new_id_moves | by apply moves_state]|].
  intros eventID. cbv zeta.
  apply (guarded_within 0 0); [apply moves_state, mapping_of_state|]. intros spec.
  apply ingest_guarded; try reflexivity. unfold source_id. cbn. unfold or_default.
  destruct (is_empty (ir_SourceID req)) eqn:E; [|by rewrite E]. by case_match.
Qed.

Lemma Intake_speaks creds org req :
  guarded (speaks creds (fun p => requireIngest p org [] = Ok tt)) (Application.Intake creds org req).
Proof. unfold Application.Intake. apply (guarded_speaks creds (fun p => requireIngest p org [])). Qed.

(** ** The request of an accepted event *)
Definition accepted_by (r : HttpRequest) (org : string) a : Prop :=
  exists raw, read_all 1048576 r = Some raw /\
    speaks (creds_of sv r) (fun p => requireIngest p org [] = Ok tt) a /\
    takes 5 org (intake_request sv r raw) a.

Lemma accepted_new_id r org a : accepted_by r org (new_id a).2 -> accepted_by r org a.
Proof.
  intros (raw & Hr & (a2 & p & Hq2 & Hp) & Ht). pose proof (new_id_quiet a) as Hq. exists raw. split; [exact Hr|].
  split; [exists a2, p; split; [by eapply quiet_trans | exact Hp]|].
  apply (takes_back 0 5 _ _ _ _ Hq); [apply new_id_moves | exact Ht].
Qed.

Lemma handleIntake_accepts path r :
  shields (accepted_by r (orgId path)) (handleIntake sv path r).
Proof.
  unfold handleIntake. destruct (read_all 1048576 r) as [raw|] eqn:Hraw; [|apply shields_error].
  apply shields_respond. eapply guarded_mono; [|apply guarded_and; [apply Intake_speaks | apply Intake_takes]].
  intros a [Hs Ht]. exists raw. auto.
Qed.

Definition intake_path (org : string) : list string := ["v1"; "organizations"; org; "context"; "intake"].
Definition intake_route (e : string * string * (strmap -> HttpRequest -> application HttpResponse)) : Prop :=
  e.2 = auth sv (handleIntake sv) \/
  forall org, (if String.eqb e.1.1 "POST" then match_path (pattern_of e.1.2) (intake_path org) else None) = None.
Lemma routes_intake : Forall intake_route (routes svc sv).
Proof.
  unfold routes. repeat (apply Forall_cons; split); [..|apply Forall_nil; exact I];
    first [ left; reflexivity | right; intros []; reflexivity ].
Qed.

Lemma find_route_intake org h values :
  find_route (routes svc sv) "POST" (intake_path org) = Some (h, values) ->
  h = auth sv (handleIntake sv).
Proof.
  generalize routes_intake. induction 1 as [|[[m p] h0] table Hr _ IH]; [done|]. cbn [find_route].
  destruct Hr as [Hh|Hn]; cbn in *.
  - destruct (if String.eqb m "POST" then _ else _); [|exact IH]. by intros [= <- _].
  - rewrite Hn. exact IH.
Qed.

Lemma Mux_intake r org :
  hr_Method r = "POST" -> hr_Path r = intake_path org -> shields (accepted_by r org) (Mux svc sv r).
Proof.
  intros Hm Hp. unfold Mux. rewrite Hm, Hp. cbv iota zeta.
  change (if String.eqb "POST" "HEAD" then "GET" else "POST") with "POST".
  destruct (find_route _ _ _) as [[h values]|] eqn:Hf.
  - pose proof (find_route_tenant _ _ _ _ _ _ _ (routes_tenant svc sv) Hf) as (_ & <- & _).
    apply find_route_intake in Hf as ->. unfold auth.
    destruct (hasCredential r); [apply handleIntake_accepts | by apply shields_const].
  - destruct (methods_at _ _ _); by apply shields_const.
Qed.

(** C4 An event posted to an organization is taken only from a source it registered: unless
    the caller is of the organization and has the scope [context:ingest], the source named
    is registered there and enabled, and the body carries its HMAC under the source's
    secret with a timestamp inside the replay window of the instant at which the request
    reaches the source (one of the first six that the process reads from its clock), the answer is an error and nothing
    is stored. The signature is skipped only for a request that asks so, in a process that
    the environment declares a demo or memory profile and allows to. *)
Theorem http_intake_accepted r org a :
  hr_Method r = "POST" -> hr_Path r = intake_path org ->
  exists resp a', ServeHTTP svc sv r a = (Ok resp, a') /\
    ((exists a1 p src n raw, quiet a a1 /\ caller a1 (bearerCreds (sv_env sv) r) = Ok p /\
        p_OrgID p = org /\ hasScope (Application.scopesOf p []) ScopeIngest = true /\
        read_all 1048576 (cut_body (body_limit sv r) r) = Some raw /\
        lookup2 (sources (w_ledger (app_world a))) org
          (or_default (header r "X-Context-Fabric-Source-Id")
             (ev_SourceSystem (parseIntakeEvent raw (header r "Idempotency-Key")).1)) = Some src /\
        src_Enabled src = true /\
        (header r "X-Context-Fabric-Skip-Hmac" = "1" /\ allowSkipHMAC (sv_env sv) = true \/
         signing_secret src <> "" /\
         (exists text, (raw <> "" -> text = raw) /\
            signature_digest (header r "X-Context-Fabric-Signature")
            = to_lower (Ingest.SignHMAC (signing_secret src) text)) /\
         (clock_at a <= n <= clock_at a + 5)%nat /\
         CheckReplayWindow (header r "X-Context-Fabric-Timestamp") (clock n) (wrap64 (replay_window src * second)) = Ok tt)) \/
     refused resp = true /\ quiet a a').
Proof.
  intros Hm Hp.
  assert (Hc : forall limit, let r' := cut_body limit r in
    hr_Method r' = "POST" /\ hr_Path r' = intake_path org /\ hr_Header r' = hr_Header r).
  { intros limit. unfold cut_body. by destruct (_ <? _). }
  set (cut := cut_body (body_limit sv r) r).
  assert (Hn : shields (accepted_by cut org) (Mux svc sv cut)) by (apply Mux_intake; apply Hc).
  destruct (Middleware_run sv (accepted_by cut org) (Mux svc sv) r a (accepted_new_id _ _) Hn)
    as (resp & a' & Hrun & Hres).
  exists resp, a'. split; [exact Hrun|]. destruct Hres as [Ha|?]; [left | by right].
  destruct Ha as (raw & Hraw & (a1 & p & Hq & Hcall & Hing) & n & Hclk & src & ireq & Hadm & Horg & Hb & _ & Hs & Ht & Hk & Hid).
  assert (Hh : hr_Header cut = hr_Header r) by apply Hc.
  destruct Hadm as [_ _ Hsrc Hen _ Hsig]. rewrite Horg in Hsrc.
  rewrite Hid in Hsrc. exists a1, p, src, n, raw. split_and!; try done.
  - pose proof (proj1 (creds_cut sv (body_limit sv r) r)) as E. unfold cut in Hcall. by rewrite E in Hcall.
  - by apply requireIngest_org.
  - unfold requireIngest in Hing. destruct (RequireOrg p org); [|done]. unfold requireScope in Hing.
    by destruct (hasScope _ _).
  - unfold intake_request in Hsrc. unfold header in *. rewrite Hh in Hsrc.
    destruct (parseIntakeEvent raw _) as [event payload]. simpl in *.
    unfold or_default in *. destruct (is_empty (attr _ "X-Context-Fabric-Source-Id")) eqn:E; [|by rewrite E in Hsrc].
    by destruct (is_empty (ev_SourceSystem event)).
  - unfold intake_request in *. destruct (parseIntakeEvent raw _) as [event payload]. simpl in *.
    unfold skip_hmac, header in *. rewrite Hh in *.
    destruct (String.eqb_spec (attr (hr_Header r) "X-Context-Fabric-Skip-Hmac") "1"), (allowSkipHMAC (sv_env sv));
      [by left | right..]; destruct (Hsig Hk) as (H1' & H2' & H3'); rewrite ?Hs, ?Ht in *;
      (split_and!; [done | | lia | lia | done]);
      (exists (intake_body ireq); split; [|done]);
      intros Hne%is_empty_false; unfold intake_body; rewrite Hb; cbv zeta;
      destruct (iq_Payload ireq) as [[|]|]; by rewrite ?Hne.
Qed.

(** ** Batches *)

(** One header signs every event of a batch, each by its own text: a source takes two
    events of a batch only where their codes under its secret are the same. *)
Lemma batch_one_signature r org a raw1 raw2 :
  header r "X-Context-Fabric-Source-Id" <> "" -> raw1 <> "" -> raw2 <> "" -> skip_hmac sv r = false ->
  takes 5 org (intake_request sv r raw1) a -> takes 5 org (intake_request sv r raw2) a ->
  exists secret, to_lower (Ingest.SignHMAC secret raw1) = to_lower (Ingest.SignHMAC secret raw2).
Proof.
  intros Hsid%is_empty_false.
  assert (Hsig : forall raw, raw <> "" -> skip_hmac sv r = false -> takes 5 org (intake_request sv r raw) a ->
    exists src, lookup2 (sources (w_ledger (app_world a))) org (header r "X-Context-Fabric-Source-Id") = Some src /\
      signature_digest (header r "X-Context-Fabric-Signature") = to_lower (Ingest.SignHMAC (signing_secret src) raw)).
  { intros raw Hne%is_empty_false Hk (n & _ & src & ireq & [_ _ Hsrc _ _ Hsig] & Ho & Hb & Hp & Hs & Ht & Hskip & Hid).
    unfold intake_request in *. destruct (parseIntakeEvent raw _) as [event payload]. simpl in *.
    rewrite Hk in Hskip. destruct (Hsig Hskip) as (_ & Hd & _). rewrite Hs in Hd. rewrite Ho, Hid in Hsrc.
    exists src. unfold or_default in Hsrc. rewrite Hsid in Hsrc. rewrite Hsid in Hsrc. split; [exact Hsrc|].
    rewrite Hd. unfold intake_body. rewrite Hb. cbv zeta. destruct (iq_Payload ireq) as [[|]|]; by rewrite ?Hne. }
  intros Hr1 Hr2 Hk Ht1 Ht2. destruct (Hsig raw1 Hr1 Hk Ht1) as (s1 & L1 & E1).
  destruct (Hsig raw2 Hr2 Hk Ht2) as (s2 & L2 & E2). rewrite L1 in L2. injection L2 as <-.
  exists (signing_secret s1). congruence.
Qed.

(** Events without a key of their own get the one of the request: the second of a batch
    counts as a repetition of the first. *)
Lemma batch_shares_key r raw1 raw2 :
  (forall raw, raw = raw1 \/ raw = raw2 -> ev_IdempotencyKey (parseIntakeEvent raw "").1 = "") ->
  ir_IdempotencyKey (intake_request sv r raw1) = ir_IdempotencyKey (intake_request sv r raw2).
Proof.
  intros Hn.
  assert (Hk : forall raw, ev_IdempotencyKey (parseIntakeEvent raw "").1 = "" ->
    ir_IdempotencyKey (intake_request sv r raw) = header r "Idempotency-Key").
  { intros raw. unfold intake_request, parseIntakeEvent. cbv zeta. cbn.
    destruct (match assoc _ "data" with Some (AObj _) => _ | _ => _ end) as [id og ss ex sr ik ct ch er at_ ra]. cbn.
    unfold or_default. destruct (is_empty ik) eqn:E; [done|]. intros ->. discriminate. }
  rewrite !Hk; auto.
Qed.
End Intake.

(** ** An event without a signature *)
#[local] Existing Instances tally_env order_forward demo_client demo_host.
Definition sample_event : string :=
  json_struct [json_str "id" "e1"; json_str "source" "crm";
               json_member "data" (json_struct [json_str "source_external_id" "t1"; json_str "trust" "verified"])].
Definition post_event (headers : strmap) : HttpRequest :=
  demo_request "POST" (intake_path "acme") headers sample_event.
Example sample_parsed :
  let e := (parseIntakeEvent sample_event "k1").1 in
  ev_EventID e = "e1" /\ ev_SourceSystem e = "crm" /\ ev_ExternalID e = "t1" /\ ev_IdempotencyKey e = "k1" /\
  ev_Attributes e = {["trust" := "verified"]}.
Proof. vm_compute. split_and!; reflexivity. Qed.
Example unsigned_refused : served (post_event owner_headers) with_source = 401.
Proof. vm_compute. reflexivity. Qed.

Lemma http_intake_accepted_witness :
  exists resp a', ServeHTTP demo_service demo_server (post_event ∅) with_source = (Ok resp, a') /\
    refused resp = true /\ quiet with_source a'.
Proof.
  destruct (@http_intake_accepted tally_env order_forward demo_client demo_host demo_service demo_server
    (post_event ∅) "acme" with_source eq_refl eq_refl) as (resp & a' & Hrun & Hres).
  exists resp, a'. split; [exact Hrun|]. destruct Hres as [(a1 & p & src & now & raw & Hq & Hp & _)|Hr]; [|exact Hr].
  exfalso. refine (no_caller a1 _ p Hp). destruct Hq as [(_ & _ & _ & _ & _ & -> & _) _]. vm_compute. reflexivity.
Defined.
