(* ===== verification/System.v ===== *)
(** * The deployment as a whole

    Every request that the server answers and every pass of the background loops reaches
    the ledger through its calls: the operations of the application service, the handlers of
    the REST surface and the MCP endpoint are walked with the rules of [Traces]. A request
    to an organization's route makes calls within that organization. *)
From S2P Require Import Prelude GoStd Ports Platform Json Decode Mapping MappingSpec OpenFGA Policy.
From S2P Require Import Ledger LedgerFacts Index AuditLog Credentials Authn Quota Changes World QueueFacts.
From S2P Require Import Ingest Worker Deletion Retrieval Export Traces Application Wire Answers Mcp Http Disclosure ApplicationFacts HttpFacts.

Definition ledger_of (a : App) : Store := w_ledger (app_world a).
Abbreviation app_calls := (traced ledger_of).

Section Components.
Context `{GoEnv, GoMapOrder, Client, Host} (P : call -> Prop).

Lemma traced_on_world {A} (m : service A) Q : service_calls P m Q -> app_calls P (on_world m) Q.
Proof.
  intros Hm a Ha. destruct (Hm (app_world a) Ha) as [Hc HQ]. unfold on_world. by destruct (m (app_world a)).
Qed.
Lemma traced_on_store {A} (m : ledger A) Q : ledger_calls P m Q -> app_calls P (on_store m) Q.
Proof. intros Hm. by apply traced_on_world, traced_on_ledger. Qed.
Lemma traced_on_creds {A} (m : credentials A) : app_calls P (on_creds m) whatever.
Proof. unfold on_creds. elsewhere. Qed.
Lemma traced_on_limiter {A} (m : M GoError Limiter A) : app_calls P (on_limiter m) whatever.
Proof. unfold on_limiter. elsewhere. Qed.
Lemma traced_on_feed {A} (m : courier A) : app_calls P (on_feed m) whatever.
Proof. unfold on_feed. elsewhere. Qed.
Lemma traced_now : app_calls P Application.now whatever.
Proof. by apply traced_quiet. Qed.
Lemma traced_new_id : app_calls P new_id whatever.
Proof. by apply traced_quiet. Qed.
Lemma traced_random n : app_calls P (random n) whatever.
Proof. by apply traced_quiet. Qed.
#[local] Hint Resolve traced_on_world traced_on_store traced_on_creds traced_on_limiter traced_now : traces.

Lemma append_event_quiet e w : w_ledger (append_event e w).2 = w_ledger w.
Proof. unfold append_event, tick, draw, on_audit, mbind, M_bind. by repeat case_match; simplify_eq. Qed.
Lemma log_events_quiet es w : w_ledger (log_events es w).2 = w_ledger w.
Proof.
  revert w. induction es as [|e es IH]; intros w; [done|].
  change (log_events (e :: es) w) with
    ((_ ← (_ ← attempt (append_event e); mret tt); log_events es : service unit) w).
  rewrite (bind_run _ _ w tt (append_event e w).2); [by rewrite IH, append_event_quiet|].
  unfold mbind, M_bind, attempt. by destruct (append_event e w).
Qed.
Lemma traced_retrieve {A} (f : Providers -> pipeline A) : app_calls P (retrieve f) whatever.
Proof.
  apply traced_quiet. intros a. unfold retrieve. destruct (w_index (app_world a)) as [idx|]; [|done].
  destruct (f _ _) as [r t]. unfold ledger_of. cbn [snd]. simpl. by rewrite log_events_quiet.
Qed.
Lemma traced_authenticate creds : app_calls P (authenticate creds) whatever.
Proof. unfold authenticate. trace. Qed.
Lemma traced_check c : app_calls P (Application.check c) whatever.
Proof. unfold Application.check. trace. Qed.
End Components.
#[export] Hint Resolve traced_on_world traced_on_store traced_on_creds traced_on_limiter traced_on_feed
  traced_now traced_new_id traced_random traced_retrieve traced_authenticate traced_check : traces.

Ltac traced_enter ::=
  match goal with |- traced _ _ (on_world _) _ => apply traced_on_world end.

(** ** Gates *)
Section Gates.
Context `{GoEnv, GoMapOrder, Client, Host} (svc : ApplicationService) (P : call -> Prop).

Lemma traced_any_allowed p org actions : app_calls P (any_allowed p org actions) whatever.
Proof. induction actions; cbn [any_allowed]; trace. Qed.
#[local] Hint Resolve traced_any_allowed : traces.
Lemma traced_requireManage p org extra : app_calls P (requireManage p org extra) whatever.
Proof. unfold requireManage, requireAuthzManage. trace. Qed.
#[local] Hint Resolve traced_requireManage : traces.
Lemma traced_requireOrgBootstrap creds p org extra :
  app_calls P (requireOrgBootstrap svc creds p org extra) whatever.
Proof. unfold requireOrgBootstrap. trace. Qed.
Lemma traced_as_manager creds org : app_calls P (as_manager creds org) whatever.
Proof. unfold as_manager. trace. Qed.
Lemma traced_enforceQuota org op : app_calls P (enforceQuota org op) whatever.
Proof. unfold enforceQuota, refreshOrgQuota, fresh_entry. trace. Qed.
Lemma traced_ReadyStatus : app_calls P (ReadyStatus svc) whatever.
Proof. unfold ReadyStatus. trace. Qed.
#[local] Hint Resolve traced_ReadyStatus : traces.
Lemma traced_Health : app_calls P (Health svc) whatever.
Proof. unfold Health. trace. Qed.
End Gates.
#[export] Hint Resolve traced_requireManage traced_requireOrgBootstrap traced_as_manager traced_enforceQuota
  traced_ReadyStatus traced_Health : traces.

(** ** The operations of the application service *)
Section Operations.
Context `{GoEnv, GoMapOrder, Client, Host} (svc : ApplicationService) (creds : Credentials) (org : string).
Abbreviation op m := (app_calls (within org) m whatever).

Lemma traced_Search scopes body : op (Application.Search creds org scopes body).
Proof. unfold Application.Search. trace. Qed.
Lemma traced_GetResource a b c scopes : op (GetResource creds org a b c scopes).
Proof. unfold GetResource. trace. Qed.
Lemma traced_Brief scopes a b c n : op (Brief creds org scopes a b c n).
Proof. unfold Brief. trace. Qed.
Lemma traced_Graph scopes body : op (Application.Graph creds org scopes body).
Proof. unfold Application.Graph. trace. Qed.
Lemma traced_RequestAccess a b c : op (RequestAccess creds org a b c).
Proof. unfold RequestAccess. trace. Qed.

(** Registering a source *)
Lemma inline_mapping_org o src :
  on_ok (fun r => src_OrgID r.1 = src_OrgID src) (inline_mapping o src).
Proof.
  unfold inline_mapping. destruct (is_empty _); [done|]. unfold mbind, result_bind. by destruct (ParseSpec _ _).
Qed.
Lemma complete_source_org src : src_OrgID (complete_source src) = src_OrgID src.
Proof. unfold complete_source. by case_match. Qed.
Lemma traced_inline P src :
  src_OrgID src = org ->
  app_calls P (of_result (inline_mapping org (complete_source src))) (fun r => src_OrgID r.1 = org).
Proof.
  intros Hsrc. apply traced_of_result. rewrite <-Hsrc, <-complete_source_org. by apply inline_mapping_org.
Qed.
#[local] Hint Resolve traced_inline : traces.
#[local] Hint Extern 1 (src_OrgID _ = _) => reflexivity : traces.
Lemma traced_RegisterSource src : op (RegisterSource creds org src).
Proof. unfold RegisterSource. trace. Qed.
Lemma traced_VerifySource id : op (VerifySource creds org id).
Proof. unfold VerifySource. trace. Qed.
Lemma traced_ListSources_op : op (Application.ListSources creds org).
Proof. unfold Application.ListSources. trace. Qed.
Lemma traced_GetSource_op id : op (Application.GetSource creds org id).
Proof. unfold Application.GetSource. trace. Qed.
Lemma traced_RotateSourceSecret id : op (RotateSourceSecret creds org id).
Proof. unfold RotateSourceSecret, randomSigningSecret. trace. Qed.

(** Intake *)
Lemma traced_feed_event result action cursor failed : op (feed_event org result action cursor failed).
Proof. unfold feed_event. trace. Qed.
Lemma traced_index_accepted p result : op (index_accepted org p result).
Proof. unfold index_accepted. trace. Qed.
#[local] Hint Resolve traced_feed_event traced_index_accepted : traces.
Lemma traced_publish_accepted p result : op (publish_accepted org p result).
Proof. unfold publish_accepted. trace. Qed.
Lemma traced_mapping_of id req : op (mapping_of org id req).
Proof. unfold mapping_of. trace. Qed.
#[local] Hint Resolve traced_publish_accepted traced_mapping_of : traces.
Lemma traced_Intake_op req : op (Application.Intake creds org req).
Proof.
  unfold Application.Intake. trace.
Qed.
#[local] Hint Resolve traced_Intake_op : traces.
Lemma traced_IntakeBatch reqs : op (IntakeBatch creds org reqs).
Proof. unfold IntakeBatch, intake_one. trace. Qed.

(** Evidence, changes and webhooks *)
Lemma traced_PresignEvidence a b : op (PresignEvidence creds org a b).
Proof. unfold PresignEvidence. trace. Qed.
Lemma traced_ListChanges_op a n : op (Application.ListChanges creds org a n).
Proof. unfold Application.ListChanges. trace. Qed.
Lemma traced_ManageWebhooks action body : op (ManageWebhooks svc creds org action body).
Proof. unfold ManageWebhooks, upsert_webhook, replay_change. trace. Qed.
Lemma traced_ListWebhooks : op (Application.ListWebhooks creds org).
Proof. unfold Application.ListWebhooks. trace. Qed.
Lemma traced_GetWebhook id : op (Application.GetWebhook creds org id).
Proof. unfold Application.GetWebhook. trace. Qed.
Lemma traced_ListDeliveries id n : op (Application.ListDeliveries creds org id n).
Proof. unfold Application.ListDeliveries. trace. Qed.

(** Export and deletion *)
Lemma traced_StartExport : op (StartExport svc creds org).
Proof. unfold StartExport. trace. Qed.
Lemma traced_GetExport id : op (GetExport creds org id).
Proof. unfold GetExport. trace. Qed.
Lemma traced_ImportExport_op m : op (Application.ImportExport creds org m).
Proof. unfold Application.ImportExport. trace. Qed.
Lemma traced_DeleteResource id reason : op (DeleteResource svc creds org id reason).
Proof. unfold DeleteResource. trace. Qed.

(** Audit, quotas, organizations, agents and operations *)
Lemma traced_GetAudit n : op (GetAudit creds org n).
Proof. unfold GetAudit. trace. Qed.
Lemma traced_DiagnoseDecision a b c : op (DiagnoseDecision creds org a b c).
Proof. unfold DiagnoseDecision. trace. Qed.
#[local] Hint Resolve traced_DiagnoseDecision : traces.
Lemma traced_DiagnoseByAuditID id : op (DiagnoseByAuditID creds org id).
Proof. unfold DiagnoseByAuditID. trace. Qed.
Lemma traced_GetQuotas_op : op (Application.GetQuotas creds org).
Proof. unfold Application.GetQuotas. trace. Qed.
Lemma traced_SetQuotas_op q : op (Application.SetQuotas creds org q).
Proof. unfold Application.SetQuotas. trace. Qed.
Lemma traced_Bootstrap name : op (Bootstrap svc creds org name).
Proof. unfold Bootstrap. trace. Qed.
Lemma traced_OrgStatus : op (OrgStatus creds org).
Proof. unfold OrgStatus. trace. Qed.
Lemma traced_CreateAgent req : op (CreateAgent creds org req).
Proof. unfold CreateAgent. trace. Qed.
Lemma traced_RotateAgent id : op (RotateAgent creds org id).
Proof. unfold RotateAgent. trace. Qed.
Lemma traced_RevokeAgent id : op (RevokeAgent creds org id).
Proof. unfold RevokeAgent. trace. Qed.
Lemma traced_OpsLag : op (OpsLag creds org).
Proof. unfold OpsLag. trace. Qed.
Lemma traced_SupportBundle : op (SupportBundle svc creds org).
Proof. unfold SupportBundle. trace. Qed.
End Operations.
#[export] Hint Resolve traced_Search traced_GetResource traced_Brief traced_Graph traced_RequestAccess
  traced_RegisterSource traced_VerifySource traced_ListSources_op traced_GetSource_op traced_RotateSourceSecret
  traced_Intake_op traced_IntakeBatch traced_PresignEvidence traced_ListChanges_op traced_ManageWebhooks
  traced_ListWebhooks traced_GetWebhook traced_ListDeliveries traced_StartExport traced_GetExport
  traced_ImportExport_op traced_DeleteResource traced_GetAudit traced_DiagnoseDecision
  traced_DiagnoseByAuditID traced_GetQuotas_op traced_SetQuotas_op traced_Bootstrap traced_OrgStatus
  traced_CreateAgent traced_RotateAgent traced_RevokeAgent traced_OpsLag traced_SupportBundle : traces.

(** ** The HTTP surface *)
Section Surface.
Context `{GoEnv, GoMapOrder, Client, Host} (svc : ApplicationService) (sv : Server).

Lemma traced_settle {A B} P (m : application A) (failed : GoError -> B) done :
  app_calls P m whatever -> app_calls P (settle m failed done) whatever.
Proof. intros Hm. unfold settle. apply (traced_bind _ _ _ _ whatever); trace. Qed.
Lemma traced_respond {A} P (m : application A) done :
  app_calls P m whatever -> app_calls P (respond m done) whatever.
Proof. apply traced_settle. Qed.
Lemma traced_with_body {A} P (dec : decoder A) zero r next :
  (forall body, app_calls P (next body) whatever) -> app_calls P (with_body dec zero r next) whatever.
Proof. intros Hn. unfold with_body. trace. Qed.
End Surface.
Ltac traced_enter ::=
  match goal with
  | |- traced _ _ (on_world _) _ => apply traced_on_world
  | |- traced _ _ (settle _ _ _) _ => apply traced_settle
  | |- traced _ _ (respond _ _) _ => apply traced_respond
  | |- traced _ _ (with_body _ _ _ _) _ => apply traced_with_body
  | |- traced _ _ (reply_map _ _) _ => apply traced_respond
  | |- traced _ _ (reply_packet _) _ => apply traced_respond
  end.

Section Routes.
Context `{GoEnv, GoMapOrder, Client, Host} (svc : ApplicationService) (sv : Server).

(** The endpoint of the tools names an organization in each call. *)
Lemma traced_callTool creds org params :
  exists o, app_calls (within o) (callTool creds org params) whatever.
Proof.
  unfold callTool. destruct (checked _) as [[name args]|]; [|exists ""; trace].
  eexists. cbv zeta. destruct (is_empty _); [trace|].
  unfold run_tool, packet_tool, toolResult. cbv zeta. trace.
Qed.
Lemma traced_serve r : exists o, app_calls (within o) (Mcp.serve (sv_env sv) (sv_prm sv) r) whatever.
Proof.
  unfold Mcp.serve.
  repeat match goal with |- exists _, app_calls _ (if ?b then _ else _) _ => destruct b; [exists ""; by trace|] end.
  destruct (checked _) as [req|]; [|exists ""; by trace].
  unfold dispatch. repeat (destruct (mem_str _ _); [try (exists ""; by trace)|]); [|exists ""; by trace].
  cbv zeta. destruct (traced_callTool (bearerCreds (sv_env sv) r)
    (or_default (header r "X-Organization-Id") (query r "org_id")) (rq_Params req)) as [o Ho].
  exists o. by apply traced_settle.
Qed.

(** A handler of an organization's route, other than [/mcp] *)
Definition confined (h : strmap -> HttpRequest -> application HttpResponse) : Prop :=
  forall path r, app_calls (within (orgId path)) (h path r) whatever.
Lemma confined_auth h : confined h -> confined (auth sv h).
Proof. intros Hh path r. unfold auth. destruct (hasCredential r); [apply Hh | trace]. Qed.
Ltac open_handler :=
  match goal with |- traced _ _ ?m _ => let h := get_head m in unfold h; cbv beta zeta end.
Lemma routes_confined :
  Forall (fun e => e.1.2 = "/mcp" /\ e.2 = auth sv (handleMCP sv) \/ confined e.2) (routes svc sv).
Proof.
  unfold routes.
  repeat first
    [ apply List.Forall_nil
    | apply List.Forall_cons;
      [first [ left; by split
             | right; try apply confined_auth; intros path r; open_handler; trace; by (open_handler; trace)] |]].
Qed.

Lemma find_route_in method path table h values :
  find_route table method path = Some (h, values) ->
  exists p, (method, p, h) ∈ table /\ match_path (pattern_of p) path = Some values.
Proof.
  induction table as [|[[m p] h0] table IH]; [done|]. cbn [find_route].
  destruct (String.eqb m method) eqn:Em; [apply String.eqb_eq in Em as ->|].
  2: { intros (p' & Hin & Hp)%IH. exists p'. split; [by apply list_elem_of_further | done]. }
  destruct (match_path _ _) as [v|] eqn:Hm.
  - intros [= -> ->]. exists p. split; [apply list_elem_of_here | done].
  - intros (p' & Hin & Hp)%IH. exists p'. split; [by apply list_elem_of_further | done].
Qed.

(** The organization that a request may change: the one of its path, or the one that a
    tool names *)
Definition addressed (r : HttpRequest) (o : string) : Prop :=
  forall org rest, hr_Path r = "v1" :: "organizations" :: org :: rest -> o = org.

Lemma traced_Mux r : exists o, addressed r o /\ app_calls (within o) (Mux svc sv r) whatever.
Proof.
  unfold Mux. destruct (find_route _ _ _) as [[h values]|] eqn:Hf.
  - pose proof Hf as (p & Hin & Hm)%find_route_in.
    pose proof (proj1 (Forall_forall _ _) routes_confined _ Hin) as [[Hp Hh]|Hc]; [cbn [fst snd] in Hp, Hh | cbn [snd] in Hc].
    + subst. destruct (traced_serve r) as [o Ho]. exists o. split.
      * intros org rest Hr. rewrite Hr in Hm. discriminate.
      * unfold auth, handleMCP. destruct (hasCredential r); [exact Ho | trace].
    + exists (orgId values). split; [|apply Hc]. intros org rest Hr. rewrite Hr in Hf.
      by destruct (find_route_tenant sv _ _ _ _ _ _ (routes_tenant svc sv) Hf) as (_ & <- & _).
  - exists (match hr_Path r with "v1" :: "organizations" :: org :: _ => org | _ => "" end). split.
    + intros org rest ->. done.
    + destruct (methods_at _); trace.
Qed.
Lemma traced_ServeHTTP r : exists o, addressed r o /\ app_calls (within o) (ServeHTTP svc sv r) whatever.
Proof.
  destruct (traced_Mux (cut_body (body_limit sv r) r)) as (o & Ho & Hm). exists o. split.
  - intros org rest Hr. apply (Ho org rest). unfold cut_body. by destruct (_ <? _).
  - unfold ServeHTTP, Middleware. trace.
Qed.
End Routes.

(** ** The system as a transition system *)
Section Steps.
Context `{GoEnv, GoMapOrder, Client, Host} (svc : ApplicationService).

(** One request, or one pass of a background loop; what the links to the bus and the
    authorization service do, and the settings of the process, may differ each time. *)
Inductive step (a : App) : App -> Prop :=
| step_request sv r : step a (ServeHTTP svc sv r a).2
| step_relay (L : Links) wk : step a (on_world (relayOnce wk) a).2
| step_consume : step a (on_world consumeOnce a).2
| step_authz (L : Links) wk : step a (on_world (authzOnce wk) a).2
| step_reconcile (L : Links) wk : step a (on_world (reconcileOnce wk) a).2
| step_deliver fuel limit :
    step a (on_feed (DeliverPending fuel (svc_ChangeFeed svc) (ledger_of a) limit) a).2.

Lemma calls_weaken {S} (view : S -> Store) (P : call -> Prop) s s' :
  calls view P s s' -> calls view anything s s'.
Proof. intros (cs & _ & Hv). exists cs. split; [by apply Forall_forall | exact Hv]. Qed.

Lemma step_calls a b : ledger_ok (ledger_of a) -> step a b -> calls ledger_of anything a b.
Proof.
  intros Ha Hs. inversion Hs; subst.
  { destruct (traced_ServeHTTP svc sv r) as (o & _ & Ht). eapply calls_weaken, Ht, Ha. }
  all: revert Ha; match goal with
    |- _ -> calls _ _ ?x (?m ?x).2 => intros Ha; enough (Ht : app_calls anything m whatever) by apply (Ht x Ha)
    end; eauto 6 with traces.
Qed.

(** C3 The deployment implements the ledger's state machine: whatever requests are
    answered and whatever passes of the loops run, in whatever order and with whatever
    failures of the bus and of the authorization service, the ledger is the one that a
    sequence of ledger calls makes of the first; its invariant holds at every moment, and an
    idempotency key once written keeps its outcome. *)
Theorem deployment_refines_ledger a b :
  ledger_ok (ledger_of a) -> rtc step a b ->
  exists cs, ledger_of b = run cs (ledger_of a) /\ ledger_ok (ledger_of b) /\
    forall k rec, idempotency (ledger_of a) !! k = Some rec -> idempotency (ledger_of b) !! k = Some rec.
Proof.
  intros Ha Hs. assert (calls ledger_of anything a b) as (cs & _ & Hcs).
  { induction Hs as [a|a a1 b Ha1 _ IH]; [by apply calls_none|].
    pose proof (step_calls a a1 Ha Ha1) as Hc. eapply calls_trans; [exact Hc|]. by eapply IH, calls_ok. }
  exists cs. rewrite Hcs. split_and!; [done | by apply run_ok|]. intros k rec. apply run_keeps_key.
Qed.

(** C2 A request changes at most one organization, the one in its path: whoever sends it,
    whatever its body names, and whether it succeeds or fails half way, every other
    organization keeps its records, revisions, sources, edges, tuples, quotas, changes,
    exports, access requests and holds. *)
Theorem request_confined sv r a :
  ledger_ok (ledger_of a) ->
  exists o, addressed r o /\
    forall other, other <> o ->
      tenant_view (ledger_of (ServeHTTP svc sv r a).2) other = tenant_view (ledger_of a) other.
Proof.
  intros Ha. destruct (traced_ServeHTTP svc sv r) as (o & Ho & Ht). exists o. split; [exact Ho|].
  intros other Hne. eapply within_isolated; [apply Ht, Ha | exact Hne].
Qed.
End Steps.

(** ** A deployment that serves its first requests *)
#[local] Existing Instances tally_env order_forward demo_client demo_host.
Definition bootstrap_request : HttpRequest :=
  demo_request "POST" ["v1"; "organizations"; "acme"; "bootstrap"] owner_headers "".
Definition serving (r : HttpRequest) (a : App) : App := (ServeHTTP demo_service demo_server r a).2.

Lemma deployment_refines_ledger_witness :
  let a := serving bootstrap_request demo_app in
  let b := (on_world (@authzOnce tally_env order_forward links_up (mkWorker 10 12 true true)) a).2 in
  is_Some (orgs (ledger_of b) !! "acme") /\
  exists cs, ledger_of b = run cs (ledger_of demo_app) /\ ledger_ok (ledger_of b).
Proof.
  cbv zeta. split; [vm_compute; by eexists|].
  destruct (@deployment_refines_ledger tally_env order_forward demo_client demo_host demo_service demo_app
    (on_world (@authzOnce tally_env order_forward links_up (mkWorker 10 12 true true))
       (serving bootstrap_request demo_app)).2) as (cs & Hcs & Hok & _).
  - apply ledger_ok_new.
  - eapply rtc_l; [apply (step_request _ _ demo_server bootstrap_request)|].
    eapply rtc_l; [|apply rtc_refl]. apply (step_authz _ _ links_up).
  - by exists cs.
Defined.

Lemma request_confined_witness :
  is_Some (orgs (ledger_of (serving bootstrap_request demo_app)) !! "acme") /\
  forall other, other <> "acme" ->
    tenant_view (ledger_of (serving bootstrap_request demo_app)) other = tenant_view NewStore other.
Proof.
  split; [vm_compute; by eexists|].
  destruct (@request_confined tally_env order_forward demo_client demo_host demo_service demo_server
    bootstrap_request demo_app) as (o & Ho & Hv); [apply ledger_ok_new|].
  rewrite (Ho "acme" ["bootstrap"] eq_refl) in Hv. exact Hv.
Defined.
