(* ===== verification/Observability.v ===== *)
(** * [internal/observability]: counters for a scrape, and the redaction of log lines

    The metrics are variables of the process; each operation is taken as one step. A line
    that [fmt.Fprintf] writes is a string, the scrape their sequence. *)
From S2P Require Import Prelude GoStd Ports Platform Ledger Config Wire Answers Application Http.

(** ** Metrics *)
Definition SearchRequests : string := "search_requests".
Definition AuthzBatchChecks : string := "authz_batch_checks".
Definition GraphRequests : string := "graph_requests".
Definition OutboxPending : string := "outbox_pending".
Definition WebhookDeliveries : string := "webhook_deliveries".
Definition HTTPRequestsTotal : string := "http_requests_total".
Definition HTTPErrorsTotal : string := "http_errors_total".
Definition DependencyLatencyMS : string := "dependency_latency_ms".
Definition BuildInfo : string := "build_info".

Definition routeClasses : list string := ["health"; "api"; "mcp"; "metrics"; "other"].
Definition statusClasses : list string := ["2xx"; "3xx"; "4xx"; "5xx"].
Definition errorClasses : list string := ["client"; "server"; "dependency"].
Definition dependencyNames : list string := ["postgres"; "s3"; "nats"; "openfga"; "oidc"].

Record Metrics := mkMetrics {
  counters : gmap string Z; labeled : gmap string (gmap string Z); gauges : gmap string Z;
  buildLabels : strmap;
}.
#[export] Instance Metrics_eta : Settable Metrics := fun r =>
  mkMetrics (counters r) (labeled r) (gauges r) (buildLabels r).
Definition counterNames : list string :=
  [SearchRequests; AuthzBatchChecks; GraphRequests; OutboxPending; WebhookDeliveries].
Definition NewMetrics : Metrics :=
  mkMetrics (list_to_map ((fun n => (n, 0)) <$> counterNames)) ∅ {[BuildInfo := 0]} ∅.

Definition sanitizeLabel (v : string) : string :=
  let v := trim_space v in
  if is_empty v then "unknown"
  else replace_byte (replace_byte v (byte_of 34) "'") (byte_of 10) " ".

Record BuildInfoLabels := mkBuildInfo { bi_Version : string; bi_Commit : string; bi_GoVersion : string }.
Definition SetBuildInfo (info : BuildInfoLabels) (m : Metrics) : Metrics :=
  let m := m <| buildLabels := {["version" := sanitizeLabel (bi_Version info);
                                 "commit" := sanitizeLabel (bi_Commit info);
                                 "go_version" := sanitizeLabel (bi_GoVersion info)]} |> in
  m <| gauges := <[BuildInfo := 1]> (gauges m) |>.

Definition RouteClass (path : string) : string :=
  let p := trim_space path in
  if has_prefix p "/health" then "health"
  else if String.eqb p "/metrics" then "metrics"
  else if String.eqb p "/mcp" || has_prefix p "/mcp/" then "mcp"
  else if has_prefix p "/v1/" then "api"
  else "other".
Definition StatusClass (code : Z) : string :=
  if 500 <=? code then "5xx" else if 400 <=? code then "4xx" else if 300 <=? code then "3xx" else "2xx".

Definition labeledKey (metric a b : string) : string := metric +:+ "|" +:+ a +:+ "|" +:+ b.
(** The value of a series changes; a series that is missing starts at zero. *)
Definition update_series (metric key : string) (f : Z -> Z) (m : Metrics) : Metrics :=
  let series := default ∅ (labeled m !! metric) in
  m <| labeled := <[metric := <[key := f (default 0 (series !! key))]> series]> (labeled m) |>.

Definition or_class (classes : list string) (label other : string) : string :=
  if mem_str label classes then label else other.
Definition bound_labels (metric labelA labelB : string) : string * string :=
  if String.eqb metric HTTPRequestsTotal
  then (or_class routeClasses labelA "other", or_class statusClasses labelB "5xx")
  else if String.eqb metric HTTPErrorsTotal
  then (or_class routeClasses labelA "other", or_class errorClasses labelB "server")
  else (labelA, labelB).
Definition incLabeled (metric labelA labelB : string) (m : Metrics) : Metrics :=
  let '(a, b) := bound_labels metric labelA labelB in
  update_series metric (labeledKey metric a b) (fun n => wrap64 (n + 1)) m.

Definition RecordHTTP (path : string) (status : Z) (m : Metrics) : Metrics :=
  let route := RouteClass path in
  let m := incLabeled HTTPRequestsTotal route (StatusClass status) m in
  if 400 <=? status
  then incLabeled HTTPErrorsTotal route (if 500 <=? status then "server" else "client") m
  else m.
Definition RecordDependencyLatency (dependency : string) (ms : Z) (m : Metrics) : Metrics :=
  if mem_str dependency dependencyNames
  then update_series DependencyLatencyMS (labeledKey DependencyLatencyMS dependency "last") (fun _ => ms) m
  else m.

Definition Add (name : string) (delta : Z) (m : Metrics) : Metrics :=
  match counters m !! name with
  | Some c => m <| counters := <[name := wrap64 (c + delta)]> (counters m) |>
  | None => m
  end.
Definition Inc (name : string) : Metrics -> Metrics := Add name 1.
Definition SetGauge (name : string) (value : Z) (m : Metrics) : Metrics :=
  if bool_decide (is_Some (counters m !! name)) then m <| counters := <[name := value]> (counters m) |>
  else if bool_decide (is_Some (gauges m !! name)) then m <| gauges := <[name := value]> (gauges m) |>
  else m.
Definition Get (name : string) (m : Metrics) : Z := default 0 (counters m !! name).

(** ** The scrape *)
Section Scrape.
Context `{GoMapOrder}.

Definition eol : string := str1 (byte_of 10).
Definition help_type (name help kind : string) : list string :=
  ["# HELP context_fabric_" +:+ name +:+ " " +:+ help +:+ eol;
   "# TYPE context_fabric_" +:+ name +:+ " " +:+ kind +:+ eol].
Definition metric_help (name : string) : string := "Context Fabric metric " +:+ name.
Definition writeMetric (name kind : string) (v : Z) : list string :=
  help_type name (metric_help name) kind ++ ["context_fabric_" +:+ name +:+ " " +:+ itoa v +:+ eol].

Definition sort_strings (l : list string) : list string := sort_slice str_lt l.
(** [%q] of the labels, which are printable *)
Definition formatLabels (m : strmap) : string :=
  join ((fun k => k +:+ "=" +:+ sprint_q (sanitizeLabel (attr m k))) <$> sort_strings (go_keys m)) ",".
(** A key that is not of three parts is skipped. *)
Definition series_line (name : string) (series : gmap string Z) (labelA labelB k : string) : list string :=
  match split_byte k "|" with
  | [_; a; b] =>
      ["context_fabric_" +:+ name +:+ "{" +:+ formatLabels (<[labelB := b]> {[labelA := a]}) +:+ "} "
       +:+ itoa (default 0 (series !! k)) +:+ eol]
  | _ => []
  end.
Definition write_series (name help kind : string) (series : gmap string Z) (labelA labelB : string)
    : list string :=
  if bool_decide (series = ∅) then []
  else help_type name help kind ++ (sort_strings (go_keys series) ≫= series_line name series labelA labelB).
Definition writeLabeledCounter (name : string) (series : gmap string Z) (labelA labelB : string) : list string :=
  write_series name (metric_help name) "counter" series labelA labelB.
Definition writeLabeledGauge (name : string) (series : gmap string Z) (labelA labelB : string) : list string :=
  write_series name "Last observed dependency latency in milliseconds" "gauge" series labelA labelB.

Definition build_lines (labels : strmap) : list string :=
  if bool_decide (labels = ∅) then []
  else help_type BuildInfo "Context Fabric build metadata (value=1)" "gauge"
       ++ ["context_fabric_" +:+ BuildInfo +:+ "{" +:+ formatLabels labels +:+ "} 1" +:+ eol].
Definition counter_kind (name : string) : string := if String.eqb name OutboxPending then "gauge" else "counter".
Definition series_of (m : Metrics) (metric : string) : gmap string Z := default ∅ (labeled m !! metric).
(** The body of [Handler]'s answer *)
Definition MetricsHandler (m : Metrics) : list string :=
  (counterNames ≫= fun name => writeMetric name (counter_kind name) (Get name m))
  ++ (filter (fun name => mem_str name counterNames = false) (go_keys (counters m))
        ≫= fun name => writeMetric name "counter" (Get name m))
  ++ writeLabeledCounter HTTPRequestsTotal (series_of m HTTPRequestsTotal) "route_class" "status_class"
  ++ writeLabeledCounter HTTPErrorsTotal (series_of m HTTPErrorsTotal) "route_class" "error_class"
  ++ writeLabeledGauge DependencyLatencyMS (series_of m DependencyLatencyMS) "dependency" "window"
  ++ build_lines (buildLabels m).
End Scrape.

(** ** What [Middleware] counts: an exchange whose handler returned *)
Definition count_exchange (r : HttpRequest) (handled : result GoError HttpResponse) (m : Metrics) : Metrics :=
  match handled with
  | Ok resp => RecordHTTP (url_path r) (rs_Status resp) m
  | Err _ => m
  end.

(** ** Logging *)
Inductive slogLevel := LevelDebug | LevelInfo | LevelWarn | LevelError.
#[export] Instance slogLevel_eq_dec : EqDecision slogLevel.
Proof. solve_decision. Defined.
(** An attribute's value: a string, a group, or something else *)
Inductive slogValue :=
| SlogString (s : string)
| SlogGroup (attrs : list (string * slogValue))
| SlogOther (shown : string).
Abbreviation slogAttr := (string * slogValue)%type.

Definition redactedKeys : list string :=
  ["password"; "secret"; "token"; "authorization"; "api_key"; "apikey"; "webhook_signing";
   "deletion_signing"; "client_secret"; "postgres_admin_dsn"; "dsn"].
Definition looksSensitive (key val : string) : bool :=
  if is_empty (trim_space val) then false
  else
    let lower := to_lower val in
    if contains_str lower "postgres://" || contains_str lower "nats://"
    then contains_str key "dsn" || contains_str key "url" && contains_str key "admin"
    else has_prefix (to_lower key) "authorization".
Definition redacted : slogValue := SlogString "[REDACTED]".
Definition redactAttr (a : slogAttr) : slogAttr :=
  let key := to_lower a.1 in
  if existsb (contains_str key) redactedKeys then (a.1, redacted)
  else match a.2 with
       | SlogString val => if looksSensitive key val then (a.1, redacted) else a
       | _ => a
       end.
(** [Handle]: what the next handler is given; [WithAttrs] *)
Record slogRecord := mkLogRecord { lr_Level : slogLevel; lr_Message : string; lr_Attrs : list slogAttr }.
Definition Handle (r : slogRecord) : slogRecord :=
  mkLogRecord (lr_Level r) (lr_Message r) (redactAttr <$> lr_Attrs r).
Definition WithAttrs (attrs : list slogAttr) : list slogAttr := redactAttr <$> attrs.

Definition parseLogLevel (raw : string) : slogLevel :=
  let s := to_lower (trim_space raw) in
  if mem_str s ["debug"] then LevelDebug
  else if mem_str s ["warn"; "warning"] then LevelWarn
  else if mem_str s ["error"] then LevelError
  else LevelInfo.
Fixpoint firstNonEmptyEnv (environ : strmap) (keys : list string) : string :=
  match keys with
  | [] => ""
  | k :: keys => let v := trim_space (os_getenv environ k) in
                 if is_empty v then firstNonEmptyEnv environ keys else v
  end.
(** The level of [SetupLogging] *)
Definition log_level (environ : strmap) : slogLevel :=
  parseLogLevel (firstNonEmptyEnv environ ["LOG_LEVEL"; "CONTEXT_FABRIC_LOG_LEVEL"]).
