(* ===== verification/Connector.v ===== *)
(** * [internal/connectors]: events sent to a gateway

    The Chatwoot connector turns a webhook into a CloudEvent and posts it to the intake
    route of a gateway; the synthetic one posts an event of its own. The gateway, the
    parser of its URL and the text of a decoder's error are arguments; the clock is read
    at numbered moments and the identifier of an event is given. *)
From S2P Require Import Prelude GoStd Ports Platform Json Decode Ledger Ingest Config Wiring.

(** ** What both connectors share *)
Record ConnectorConfig := mkConnector {
  cn_GatewayURL : string; cn_OrgID : string; cn_SourceID : string; cn_SigningSecret : string;
  cn_BearerToken : string;
}.
#[export] Instance ConnectorConfig_eta : Settable ConnectorConfig := fun r =>
  mkConnector (cn_GatewayURL r) (cn_OrgID r) (cn_SourceID r) (cn_SigningSecret r) (cn_BearerToken r).

Record IntakePost := mkIntakePost { ip_URL : string; ip_Header : strmap; ip_Body : string }.

Class Gateway := {
  (** [http.NewRequestWithContext]: the error of a URL that does not parse *)
  url_error : string -> option string;
  (** [Client.Do] and [io.ReadAll]: an error, or the status and the body *)
  post : IntakePost -> result string (Z * string);
  (** The text of the error of [json.Unmarshal] *)
  unmarshal_error : string -> string;
}.

(** A Go pair of a map and an error *)
Abbreviation reply := (option (list (string * any)) * option string)%type.

Section Send.
Context `{Gateway}.
Variable now : nat -> Time.

(** The request of both: its header and its signature. The clock is read once more. *)
Definition intake_url (cfg : ConnectorConfig) : string :=
  trim_right_slashes (cn_GatewayURL cfg) +:+ "/v1/organizations/" +:+ cn_OrgID cfg +:+ "/context/intake".
Definition intake_post (cfg : ConnectorConfig) (t : Time) (idem body : string) : IntakePost :=
  mkIntakePost (intake_url cfg)
    {["Content-Type" := "application/cloudevents+json";
      "Authorization" := "Bearer " +:+ cn_BearerToken cfg;
      "Idempotency-Key" := idem;
      "X-Context-Fabric-Source-Id" := cn_SourceID cfg;
      "X-Context-Fabric-Timestamp" := itoa (t / second);
      "X-Context-Fabric-Signature" := SignHMAC (cn_SigningSecret cfg) body]} body.
Definition send (cfg : ConnectorConfig) (t : Time) (idem body : string) : reply :=
  match url_error (intake_url cfg) with
  | Some e => (None, Some e)
  | None =>
      match post (intake_post cfg t idem body) with
      | Err e => (None, Some e)
      | Ok (status, respBody) =>
          let out := (unmarshal dec_anymap respBody None).1 in
          (out, if 300 <=? status then Some ("intake status " +:+ itoa status +:+ ": " +:+ respBody) else None)
      end
  end.
End Send.

(** ** [internal/connectors/chatwoot] *)
Module Chatwoot.

Definition New (cfg : ConnectorConfig) : ConnectorConfig :=
  if is_empty (cn_SourceID cfg) then cfg <| cn_SourceID := "chatwoot" |> else cfg.

Definition sanitizeType (s : string) : string := replace_byte (replace_byte (to_lower s) "-" "_") " " "_".
Definition truncate (s : string) (n : nat) : string := if (String.length s <=? n)%nat then s else take_str n s.

(** [dig] on a decoded value; [m[k]] of a missing name is nil. *)
Fixpoint dig (cur : any) (keys : list string) : any :=
  match keys with
  | [] => cur
  | k :: keys => match cur with AObj m => dig (default ANil (assoc m k)) keys | _ => ANil end
  end.
Fixpoint trim_quotes (l : list ascii) : list ascii :=
  match l with
  | c :: l' => if Ascii.eqb c quote_char then trim_quotes l' else l
  | [] => []
  end.
Definition stringify (v : any) : string :=
  match v with
  | ANil => ""
  | AStr s => s
  | ANum x => itoa (f_to_int x)
  | AJsonNumber s => s
  | _ => of_bytes (reverse (trim_quotes (reverse (trim_quotes (bytes_of (marshal v))))))
  end.

Record CloudEvent := mkCloudEvent {
  SpecVersion : string; ID : string; Source : string; Type_ : string; Time_ : string;
  DataContentType : string; OrganizationID : string; Data : list (string * any);
}.
(** [json.Marshal] of the event *)
Definition marshal_event (ce : CloudEvent) : string :=
  json_struct [json_str "specversion" (SpecVersion ce); json_str "id" (ID ce); json_str "source" (Source ce);
               json_str "type" (Type_ ce); json_str "time" (Time_ ce);
               json_str "datacontenttype" (DataContentType ce);
               json_str "organizationid" (OrganizationID ce); json_member "data" (marshal (AObj (Data ce)))].

(** An object of the webhook; a nil map when it is missing or something else *)
Definition object (webhook : list (string * any)) (name : string) : option any :=
  match assoc webhook name with Some (AObj m) => Some (AObj m) | _ => None end.
Definition nil_map : any := AObj [].
Definition event_name (webhook : list (string * any)) : string :=
  match assoc webhook "event" with Some (AStr v) => v | _ => "message_created" end.
Definition conversation (webhook : list (string * any)) : any := default nil_map (object webhook "conversation").
Definition message (webhook : list (string * any)) : any :=
  match object webhook "message" with
  | Some m => m
  | None => default nil_map (object webhook "content_attributes")
  end.
Definition conversation_id (webhook : list (string * any)) : string :=
  or_default (stringify (dig (conversation webhook) ["id"])) (stringify (default ANil (assoc webhook "id"))).
Definition message_id (webhook : list (string * any)) : string :=
  or_default (stringify (dig (message webhook) ["id"])) (stringify (default ANil (assoc webhook "id"))).

Definition ToCloudEvent (now : nat -> Time) (eventID orgID sourceID : string) (webhook : list (string * any))
    : CloudEvent :=
  let event := event_name webhook in
  let convID := conversation_id webhook in
  let msgID := message_id webhook in
  let created := or_default (stringify (dig (message webhook) ["created_at"]))
                   (format_rfc3339nano (now 0%nat / second * second)) in
  let content := stringify (dig (message webhook) ["content"]) in
  let subject := or_default (stringify (dig (conversation webhook) ["meta"; "sender"; "name"]))
                   ("conversation:" +:+ convID) in
  let idem := sourceID +:+ ":" +:+ convID +:+ ":" +:+ msgID in
  mkCloudEvent "1.0" eventID sourceID ("com.contextfabric.ingest.chatwoot." +:+ sanitizeType event +:+ ".v1")
    (format_rfc3339nano (now 1%nat)) "application/json" orgID
    [("producer", AStr "chatwoot"); ("occurred_at", AStr created);
     ("observed_at", AStr (format_rfc3339nano (now 2%nat)));
     ("classification", AStr "internal"); ("trust", AStr "untrusted_external");
     ("source_authority", AStr "corroborating"); ("schema_id", AStr "chatwoot.webhook");
     ("schema_version", AStr "1"); ("idempotency_key", AStr idem); ("source_external_id", AStr convID);
     ("source_revision", AStr msgID);
     ("content_locator", AStr ("chatwoot://conversation/" +:+ convID +:+ "/message/" +:+ msgID));
     ("title", AStr subject); ("resource_type", AStr "message"); ("resource_id", AStr ("chatwoot:" +:+ convID));
     ("visibility_ref", AStr ("case:" +:+ convID +:+ "#viewer"));
     ("attributes", AObj [("channel", AStr "chatwoot"); ("preview", AStr (truncate content 200));
                          ("event", AStr event)])].

Section Handle.
Context `{Gateway}.
Variable now : nat -> Time.

Definition webhook_of (webhookJSON : string) : result string (list (string * any)) :=
  match unmarshal dec_anymap webhookJSON None with
  | (wh, true) => Ok (default [] wh)
  | (_, false) => Err ("invalid chatwoot webhook: " +:+ unmarshal_error webhookJSON)
  end.
(** The post of a webhook *)
Definition post_of (cfg : ConnectorConfig) (eventID : string) (wh : list (string * any)) : IntakePost :=
  let ce := ToCloudEvent now eventID (cn_OrgID cfg) (cn_SourceID cfg) wh in
  intake_post cfg (now 3%nat) (stringify (default ANil (assoc (Data ce) "idempotency_key"))) (marshal_event ce).
Definition HandleWebhook (cfg : ConnectorConfig) (eventID webhookJSON : string) : reply :=
  match webhook_of webhookJSON with
  | Err e => (None, Some e)
  | Ok wh =>
      let ce := ToCloudEvent now eventID (cn_OrgID cfg) (cn_SourceID cfg) wh in
      send cfg (now 3%nat) (stringify (default ANil (assoc (Data ce) "idempotency_key"))) (marshal_event ce)
  end.
End Handle.

(** The embedded mapping: a text that is no JSON does not decode as a specification either. *)
Definition MappingSpecJSON (embedded : string) : result string string :=
  let raw := trim_space embedded in
  if bool_decide (is_Some (parse_document raw)) then Ok raw
  else Err "mapping.yaml must be JSON-compatible; got parse error".

(** The configuration of [RunCLI] *)
Fixpoint firstEnv (environ : strmap) (def : string) (keys : list string) : string :=
  match keys with
  | [] => def
  | k :: keys => let v := trim_space (os_getenv environ k) in
                 if is_empty v then firstEnv environ def keys else v
  end.
Definition cli_config (environ : strmap) : result string ConnectorConfig :=
  let cfg := mkConnector (firstEnv environ "http://127.0.0.1:8080" ["CONTEXT_FABRIC_URL"; "GATEWAY_URL"])
               (firstEnv environ "" ["CONTEXT_FABRIC_ORG_ID"; "ORG_ID"])
               (firstEnv environ "chatwoot" ["CONTEXT_FABRIC_SOURCE_ID"; "SOURCE_ID"])
               (firstEnv environ "" ["CONTEXT_FABRIC_SOURCE_SECRET"; "SOURCE_SECRET"])
               (firstEnv environ "" ["CONTEXT_FABRIC_TOKEN"; "BEARER_TOKEN"]) in
  if is_empty (cn_OrgID cfg) || is_empty (cn_SigningSecret cfg) || is_empty (cn_BearerToken cfg)
  then Err "require CONTEXT_FABRIC_ORG_ID, CONTEXT_FABRIC_SOURCE_SECRET, CONTEXT_FABRIC_TOKEN"
  else Ok (New cfg).
(** [RunCLI] on the text of the file or of the standard input; [None] when it is blank *)
Definition RunCLI `{Gateway} (now : nat -> Time) (environ : strmap) (eventID : string) (input : result string string)
    : result string (option (option (list (string * any)))) :=
  match cli_config environ with
  | Err e => Err e
  | Ok cfg =>
      match input with
      | Err e => Err e
      | Ok raw =>
          if is_empty (trim_space raw) then Ok None
          else match HandleWebhook now cfg eventID raw with
               | (_, Some e) => Err e
               | (out, None) => Ok (Some out)
               end
      end
  end.
End Chatwoot.

(** ** [internal/connectors/synthetic] *)
Module Synthetic.

Definition New (cfg : ConnectorConfig) : ConnectorConfig :=
  if is_empty (cn_SourceID cfg) then cfg <| cn_SourceID := "synthetic" |> else cfg.

Definition synthetic_event (now : Time) (cfg : ConnectorConfig) (eventID externalID revision title idem : string)
    : list (string * any) :=
  let now := format_rfc3339nano now in
  [("specversion", AStr "1.0"); ("id", AStr eventID); ("source", AStr (cn_SourceID cfg));
   ("type", AStr "com.contextfabric.ingest.synthetic.fact.v1"); ("time", AStr now);
   ("datacontenttype", AStr "application/json"); ("organizationid", AStr (cn_OrgID cfg));
   ("data", AObj
     [("producer", AStr "synthetic"); ("occurred_at", AStr now); ("observed_at", AStr now);
      ("classification", AStr "internal"); ("trust", AStr "trusted_internal");
      ("source_authority", AStr "corroborating"); ("schema_id", AStr "synthetic.fact");
      ("schema_version", AStr "1"); ("idempotency_key", AStr idem);
      ("source_external_id", AStr externalID); ("source_revision", AStr revision);
      ("content_locator", AStr ("synthetic://" +:+ externalID +:+ "/" +:+ revision));
      ("title", AStr title); ("resource_type", AStr "event");
      ("resource_id", AStr ("synthetic:" +:+ externalID));
      ("visibility_ref", AStr ("case:" +:+ externalID +:+ "#viewer"))])].
Definition EmitOnce `{Gateway} (now : nat -> Time) (cfg : ConnectorConfig) (eventID externalID revision title : string)
    : reply :=
  let idem := cn_SourceID cfg +:+ ":" +:+ externalID +:+ ":" +:+ revision in
  let ce := synthetic_event (now 0%nat) cfg eventID externalID revision title idem in
  send cfg (now 1%nat) idem (marshal (AObj ce)).

Definition env (environ : strmap) (k def : string) : string :=
  let v := trim_space (os_getenv environ k) in if is_empty v then def else v.
Definition cli_config (environ : strmap) : result string ConnectorConfig :=
  let cfg := mkConnector (env environ "CONTEXT_FABRIC_URL" "http://127.0.0.1:8080")
               (env environ "CONTEXT_FABRIC_ORG_ID" "") (env environ "CONTEXT_FABRIC_SOURCE_ID" "synthetic")
               (env environ "CONTEXT_FABRIC_SOURCE_SECRET" "") (env environ "CONTEXT_FABRIC_TOKEN" "") in
  if is_empty (cn_OrgID cfg) || is_empty (cn_SigningSecret cfg) || is_empty (cn_BearerToken cfg)
  then Err "require CONTEXT_FABRIC_ORG_ID, CONTEXT_FABRIC_SOURCE_SECRET, CONTEXT_FABRIC_TOKEN"
  else Ok (New cfg).
(** The external identifier, the revision and the title of the command *)
Definition cli_args (args : list string) : string * string * string :=
  (default "syn-001" (args !! 0%nat), default "1" (args !! 1%nat), default "synthetic fact" (args !! 2%nat)).
Definition RunCLI `{Gateway} (now : nat -> Time) (environ : strmap) (eventID : string) (args : list string)
    : result string (option (list (string * any))) :=
  match cli_config environ with
  | Err e => Err e
  | Ok cfg =>
      let '(ext, rev, title) := cli_args args in
      match EmitOnce now cfg eventID ext rev title with
      | (_, Some e) => Err e
      | (out, None) => Ok out
      end
  end.
End Synthetic.
