(* ===== verification/ConnectorFacts.v ===== *)
(** * What the connectors send, and what the gateway makes of it *)
From S2P Require Import Prelude GoStd Sha256 Ports Platform Json Decode Policy Mapping MappingSpec OpenFGA.
From S2P Require Import Ledger LedgerFacts Index AuditLog Credentials Authn AuthnFacts Quota Changes World.
From S2P Require Import Ingest IngestFacts SignatureFacts Deletion QueueFacts Retrieval RetrievalFacts Disclosure Export.
From S2P Require Import Application ApplicationFacts ServiceFacts Wire Answers Mcp Http HttpFacts HttpIntake.
From S2P Require Import Config Wiring Connector.

Section Connectors.
Context `{Gateway}.
Variable now : nat -> Time.
Implicit Types (cfg : ConnectorConfig) (wh : list (string * any)).

Lemma length_take_str_le n s : (String.length (take_str n s) <= n)%nat.
Proof. revert s. induction n as [|n IH]; intros [|c s]; simpl; [lia..|]. specialize (IH s). lia. Qed.

(** ** What a webhook decides *)
Lemma handle_webhook cfg eventID json wh :
  Chatwoot.webhook_of json = Ok wh ->
  Chatwoot.HandleWebhook now cfg eventID json
  = match url_error (intake_url cfg) with
    | Some e => (None, Some e)
    | None =>
        match post (Chatwoot.post_of now cfg eventID wh) with
        | Err e => (None, Some e)
        | Ok (status, body) =>
            ((unmarshal dec_anymap body None).1,
             if 300 <=? status then Some ("intake status " +:+ itoa status +:+ ": " +:+ body) else None)
        end
    end.
Proof. intros Hw. unfold Chatwoot.HandleWebhook. by rewrite Hw. Qed.

(** The connector reports success exactly when the gateway answered the post of the webhook
    with a status below 300. *)
Lemma webhook_delivered_iff cfg eventID json :
  (Chatwoot.HandleWebhook now cfg eventID json).2 = None <->
  exists wh status body,
    Chatwoot.webhook_of json = Ok wh /\ url_error (intake_url cfg) = None /\
    post (Chatwoot.post_of now cfg eventID wh) = Ok (status, body) /\ status < 300.
Proof.
  split.
  - destruct (Chatwoot.webhook_of json) as [wh|e] eqn:Hw; [|unfold Chatwoot.HandleWebhook; by rewrite Hw].
    rewrite (handle_webhook _ _ _ _ Hw). destruct (url_error _) eqn:Hu; [done|].
    destruct (post _) as [[status body]|e] eqn:Hp; [|done]. cbn [snd].
    destruct (Z.leb_spec 300 status) as [Hs|Hs]; [done|]. intros _. by exists wh, status, body.
  - intros (wh & status & body & Hw & Hu & Hp & Hs). rewrite (handle_webhook _ _ _ _ Hw), Hu, Hp. cbn [snd].
    by rewrite (proj2 (Z.leb_gt 300 status) Hs).
Qed.

(** The gateway that knows the secret of the source verifies the post of every webhook. *)
Lemma webhook_verifies cfg eventID wh :
  let p := Chatwoot.post_of now cfg eventID wh in
  VerifyHMAC (cn_SigningSecret cfg) (ip_Body p) (attr (ip_Header p) "X-Context-Fabric-Signature") = Ok tt.
Proof.
  cbv zeta. unfold Chatwoot.post_of, intake_post. cbn [ip_Body ip_Header].
  set (body := Chatwoot.marshal_event _).
  assert (forall h : strmap, attr h "X-Context-Fabric-Signature" = SignHMAC (cn_SigningSecret cfg) body ->
    VerifyHMAC (cn_SigningSecret cfg) body (attr h "X-Context-Fabric-Signature") = Ok tt) as Hv.
  { intros h ->. unfold VerifyHMAC. cbv zeta.
    pose proof (digest_of_header Bare (cn_SigningSecret cfg) body) as Hd. cbv zeta in Hd.
    change (header_prefix Bare +:+ SignHMAC (cn_SigningSecret cfg) body)
      with (SignHMAC (cn_SigningSecret cfg) body) in Hd. rewrite Hd.
    destruct (SignHMAC_hex (cn_SigningSecret cfg) body) as [_ Hne%is_empty_false]. rewrite Hne.
    by rewrite String.eqb_refl. }
  apply Hv. unfold attr. rewrite !lookup_insert_ne by done. by rewrite lookup_singleton_eq.
Qed.

(** Whatever a webhook says, its event is for the organization and the source of the
    connector, external and untrusted, internal, and its preview at most 200 bytes. *)
Lemma event_confined eventID org source wh :
  let ce := Chatwoot.ToCloudEvent now eventID org source wh in
  Chatwoot.OrganizationID ce = org /\ Chatwoot.Source ce = source /\ Chatwoot.ID ce = eventID /\
  assoc (Chatwoot.Data ce) "trust" = Some (AStr "untrusted_external") /\
  assoc (Chatwoot.Data ce) "classification" = Some (AStr "internal") /\
  assoc (Chatwoot.Data ce) "source_authority" = Some (AStr "corroborating") /\
  exists attrs preview, assoc (Chatwoot.Data ce) "attributes" = Some (AObj attrs) /\
    assoc attrs "preview" = Some (AStr preview) /\ (String.length preview <= 200)%nat.
Proof.
  cbv zeta. repeat (split; [reflexivity|]). eexists _, _. split; [reflexivity|]. split; [reflexivity|].
  unfold Chatwoot.truncate. destruct (Nat.leb_spec (String.length
    (Chatwoot.stringify (Chatwoot.dig (Chatwoot.message wh) ["content"]))) 200); [done|].
  apply length_take_str_le.
Qed.

(** Two webhooks of one message have one idempotency key, whatever happened to the message. *)
Lemma key_ignores_event eventID1 eventID2 org source wh1 wh2 :
  Chatwoot.conversation_id wh1 = Chatwoot.conversation_id wh2 ->
  Chatwoot.message_id wh1 = Chatwoot.message_id wh2 ->
  assoc (Chatwoot.Data (Chatwoot.ToCloudEvent now eventID1 org source wh1)) "idempotency_key"
  = assoc (Chatwoot.Data (Chatwoot.ToCloudEvent now eventID2 org source wh2)) "idempotency_key".
Proof. intros Hc Hm. unfold Chatwoot.ToCloudEvent. cbn [Chatwoot.Data assoc String.eqb Ascii.eqb Bool.eqb]. by rewrite Hc, Hm. Qed.
End Connectors.

#[local] Existing Instances tally_env order_forward demo_client demo_host.
(** ** A webhook through the connector and the modelled gateway *)
#[local] Instance open_gateway : Gateway := {|
  url_error := fun _ => None; post := fun _ => Ok (202, "{}"); unmarshal_error := fun _ => "" |}.
Definition crm_config : ConnectorConfig :=
  Chatwoot.New (mkConnector "http://localhost:8080/" "acme" "crm" "first" "local:acme:alice:owner").
Definition sample_webhook (event content : string) : string :=
  json_struct [json_str "event" event; json_member "conversation" (json_struct [json_member "id" "42"]);
    json_member "message" (json_struct [json_member "id" "7"; json_str "content" content;
                                        json_str "created_at" "2026-01-02T03:04:05Z"])].
Definition over_http (p : IntakePost) : HttpRequest :=
  demo_request "POST" (intake_path "acme") (ip_Header p) (ip_Body p).
Definition posted (eventID webhook : string) : HttpRequest :=
  match Chatwoot.webhook_of webhook with
  | Ok wh => over_http (Chatwoot.post_of (fun _ => clock 0) crm_config eventID wh)
  | Err _ => demo_request "POST" (intake_path "acme") ∅ ""
  end.
Definition answered (r : HttpRequest) (a : App) : Z * option bool :=
  match (ServeHTTP demo_service demo_server r a).1 with
  | Ok resp => (rs_Status resp, match rs_Body resp with Some (PMap out) => Some (is_duplicate out) | _ => None end)
  | Err _ => (0, None)
  end.
Definition after (r : HttpRequest) (a : App) : App := (ServeHTTP demo_service demo_server r a).2.

(** The message is taken in; the edit that follows is answered as a repetition of it and its
    content stored nowhere. *)
Example update_dropped :
  let created := posted "e1" (sample_webhook "message_created" "hello") in
  let updated := posted "e2" (sample_webhook "message_updated" "goodbye") in
  answered created with_source = (202, Some false) /\
  answered updated (after created with_source) = (200, Some true) /\
  size (records (w_ledger (app_world (after updated (after created with_source))))) = 1%nat.
Proof. vm_compute. split_and!; reflexivity. Qed.

(** A post that is signed with another secret is refused. *)
Example wrong_secret_refused :
  let cfg := crm_config <| cn_SigningSecret := "second" |> in
  let wh := [("event", AStr "message_created")] in
  (answered (over_http (Chatwoot.post_of (fun _ => clock 0) cfg "e1" wh)) with_source).1 = 401.
Proof. vm_compute. reflexivity. Qed.

(** The preview is cut between bytes, not runes: the euro sign at its end loses two bytes. *)
Example preview_cuts_rune :
  let euro := of_bytes [byte_of 226; byte_of 130; byte_of 172] in
  Chatwoot.truncate (repeat_str 199 "a" +:+ euro) 200 = repeat_str 199 "a" +:+ str1 (byte_of 226).
Proof. vm_compute. reflexivity. Qed.
