(* ===== verification/Conformance.v ===== *)
(** * [internal/conformance]: the suite that the program is shipped with

    Each case builds a harness of in-memory services and asks them what the suite promises.
    A case is a program over [App]; the harness has no more collaborators than the case
    uses. The catalog is a YAML file, of which the decoded form is given. The text that
    [%#v] prints is an argument, and so is the answer of the webhook's target. *)
From S2P Require Import Prelude GoStd Ports Platform Json Decode Policy Mapping MappingSpec OpenFGA Ledger Index.
From S2P Require Import AuditLog Credentials Authn Quota Changes World Ingest Worker Deletion Retrieval Export.
From S2P Require Import Application Wire Answers Mcp.

Record Case := mkCase { cs_ID : string; cs_Name : string; cs_Category : string; cs_Description : string }.
Record Suite := mkSuite { su_APIVersion : string; su_SuiteID : string; su_Cases : list Case }.
Record CaseResult := mkCaseResult {
  cres_ID : string; cres_Name : string; cres_Passed : bool; cres_Skipped : bool; cres_Error : string; cres_Detail : string;
}.
Record Report := mkReport { rp_SuiteID : string; rp_Results : list CaseResult }.
Definition Passed (r : Report) : bool := forallb (fun res => cres_Skipped res || cres_Passed res) (rp_Results r).
(** [LoadSuite] on the decoded file *)
Definition LoadSuite (decoded : result string Suite) : result string Suite :=
  match decoded with
  | Err e => Err e
  | Ok s => if bool_decide (su_Cases s = []) then Err "suite has no cases" else Ok s
  end.

Class Formatter := { go_syntax : forall A, A -> string }.

Section Suite.
Context `{GoEnv, GoMapOrder, Client, Host, Links, Formatter}.
Variable environ : strmap.

(** ** The harness *)
Definition empty_services : App :=
  mkApp (mkWorld NewStore (Some NewEvidence) (Some NewIndex) NewMemory [] [] 0 0) NewCredentialStore
    (NewLimiter DefaultLimits) ∅ (mkCourier ∅ ∅ [] 0 0) ∅ 0.
Definition newHarness (org : string) : App :=
  (on_world (timed (fun t => CreateOrganization t (mkOrganization org org ∅ zero_time))) empty_services).2.
Abbreviation case_body := (application unit).
Definition run_in (org : string) (body : case_body) : result GoError unit := (body (newHarness org)).1.

Definition errorf {A} (msg : string) : application A := throw (EPlain msg).
(** [_ = f()] *)
Definition ignored {A} (m : service A) : application unit := _ ← attempt (on_world m); mret tt.
Definition put_record (rec : LedgerRecord) : service unit := timed (fun t => UpsertRecord t rec).
Definition put_edge (e : GraphEdge) : service unit := timed (fun t => UpsertEdge t "" e).
Definition put_source (org : string) (src : SourceRegistration) : service unit :=
  WithOrgTx org (timed (fun t => UpsertSource t src)).
Definition grant (object relation subject : string) : application unit :=
  on_world (on_authz (Grant object relation subject)).
Definition local_creds (org : string) : Credentials := mkCredentials ("local:" +:+ org +:+ ":alice:employee") "" ∅.
Definition unix_now : application string := t ← now; mret (itoa (t / second)).

Definition expr (s : string) : option Expr := Some (mkExpr s ANil "").
Definition all_constraints : Constraints := mkConstraints true true true true.

(** ** The cases *)
Definition broadening_spec : Spec :=
  (((zeroSpec <| sp_OrganizationID := "org_acme_0001" |>)
    <| sp_Mappings := mkFieldMappings None None None None (expr (quoted "event")) None (mkTimestamps None None) None ∅
         (expr (quoted "resource:res_other_org_001#reader")) (expr (quoted "internal")) None
         (expr (quoted "trusted_internal")) (expr (quoted "source_of_truth")) None None
         (expr (quoted "org_other_0002")) None None |>)
    <| sp_Constraints := all_constraints |>).
Definition runMappingACL : case_body :=
  t1 ← now; t2 ← now; id ← on_world draw;
  match Apply t1 t2 id broadening_spec []
          (mkCeilings "org_acme_0001" "trusted_system" "corroborating" "restricted"
             ["resource:res_case_sup_412#reader"] []) (mkOptions true) with
  | Ok _ => errorf "expected ACL broadening / org mint rejection"
  | Err _ => mret tt
  end.

Definition case_record (org id kind title rev state : string) : LedgerRecord :=
  mkRecord id org kind title "internal" [] "" "" rev state ∅ zero_time zero_time.
Definition graph_fixture (org : string) : service unit :=
  t ← tick;
  _ ← attempt (put_record (case_record org "accepted_parent" "case" "accepted_parent" "r1" LifecycleAccepted));
  _ ← attempt (put_record (case_record org "accepted_child" "case" "accepted_child" "r1" LifecycleAccepted));
  _ ← attempt (timed (fun u => InsertPlaceholder u
        (mkRecord "placeholder_neighbor" org "resource" "ph" "internal" [] "" "" "" LifecyclePlaceholder
           {["placeholder" := "true"]} t t)));
  _ ← attempt (put_edge (mkEdge "e_parent" org "accepted_child" "accepted_parent" EdgeParent f_zero "ACTIVE" true ∅ t t));
  put_edge (mkEdge "e_mentions" org "accepted_child" "placeholder_neighbor" EdgeMentions f_zero "ACTIVE" false ∅ t t).
Definition check_packet (pkt : ContextPacket) : case_body :=
  let seen := node_ResourceID <$> pkt_Nodes pkt in
  if negb (mem_str "accepted_child" seen) || negb (mem_str "accepted_parent" seen)
  then errorf ("expected parent+child nodes, got " +:+ go_syntax _ seen)
  else if mem_str "placeholder_neighbor" seen then errorf "placeholder must not leak"
  else for_each (fun e =>
         if negb (mem_str (edge_FromID e) seen) || negb (mem_str (edge_ToID e) seen)
         then errorf ("dangling edge " +:+ go_syntax _ e) else mret tt) (pkt_Edges pkt).
Definition runGraphVisible : case_body :=
  let org := "org_graph" in
  _ ← ignored (WithOrgTx org (graph_fixture org));
  _ ← on_world (on_authz (AddOrgMember org "alice"));
  _ ← grant "resource:accepted_parent" "reader" "user:alice";
  _ ← grant "resource:accepted_child" "parent" "resource:accepted_parent";
  pkt ← Application.Graph (local_creds org) org ["context:read"] (mkGraphRequest "accepted_child" "support" 2 0 [] "");
  check_packet pkt.

Definition suite_source (org : string) (types refs : list string) : SourceRegistration :=
  mkSource "src1" org "synthetic" "" "" "trusted_internal" "source_of_truth" "confidential" "" "" "" true
    "secret" 0 types refs ∅ zero_time zero_time.
Definition authz_body : string :=
  json_struct [json_member "data" (json_struct
    [json_str "source_external_id" "ext1"; json_str "source_revision" "1"; json_str "resource_id" "child1";
     json_str "resource_type" "message"; json_str "classification" "internal"; json_str "trust" "trusted_internal";
     json_str "source_authority" "corroborating"; json_str "parent_resource_id" "parent1"; json_str "title" "t"])].
Definition authz_spec (org : string) : Spec :=
  mkSpec "" "" "" org "src1" "" ""
    (mkFieldMappings (expr "$.data.source_external_id") (expr "$.data.source_revision") (expr (quoted "cs"))
       (expr "$.data.resource_id") (expr "$.data.resource_type") None (mkTimestamps None None) (expr (quoted "")) ∅
       None (expr "$.data.classification") None (expr "$.data.trust") (expr "$.data.source_authority") None None
       None (expr "$.data.title") (expr "$.data.parent_resource_id"))
    [mkEdgeMapping (expr (quoted "parent")) None (expr "$.data.parent_resource_id") None None (Some true)]
    all_constraints.
Definition suite_request (org body ts key : string) (spec : Spec) (event : IntakeEvent) : Ingest.Request :=
  Ingest.mkRequest org "src1" body (Ingest.SignHMAC "secret" body) ts key spec None event false false.
Definition pending_tuples (org : string) : application Z :=
  counts ← on_store (CountAuthzTuplePending org); mret counts.1.

(** [None] when the fuel of [DrainAuthz] is spent *)
Definition runAuthzOutbox (fuel : nat) : case_body :=
  let org := "org_authz" in
  _ ← ignored (put_source org (suite_source org ["message"] ["resource:parent1"; "parent1"]));
  ts ← unix_now;
  let req := suite_request org authz_body ts "idem-authz-1" (authz_spec org) zeroIntakeEvent in
  res ← on_world (Ingest.Intake req);
  if negb (String.eqb (res_Status res) "accepted") then errorf ("intake status " +:+ res_Status res)
  else
    pending ← pending_tuples org;
    if pending <? 1 then errorf ("expected pending AuthZ outbox, got " +:+ itoa pending)
    else
      drained ← on_world (DrainAuthz fuel (mkWorker 10 5 true true));
      match drained with
      | None => errorf "out of fuel"
      | Some _ =>
          _ ← grant "resource:parent1" "reader" "user:alice";
          t ← now; m ← gets (fun a => w_authz (app_world a));
          dec ← of_result (Check_ m t (mkAuthzCheck
                  (mkPrincipal "" PrincipalKindUser org "" "alice" [] [] [] "" ∅) "can_read" "child1"
                  ConsistencyUnset None));
          if negb (ad_Allowed dec) then errorf "child should inherit via parent after drain"
          else
            res2 ← on_world (Ingest.Intake req);
            if negb (res_IdempotentReplay res2) then errorf "expected idempotent replay" else mret tt
      end.

Definition chg_001 (org : string) (t : Time) : ChangeEvent :=
  mkChangeEvent "chg_001" org "r1" "rev1" "resource.accepted" "10" t.
Definition webhook_feed : FeedConfig := mkFeedConfig "wh-secret" 3.
(** The subscription and the event *)
Definition subscribe (org : string) : application (Subscription * ChangeEvent) :=
  n ← gets (fun a => w_clock (app_world a));
  sub ← on_feed (Changes.UpsertWebhook (webhook_target n "https://example.com/hook") (Err "") org
                   "https://example.com/hook" ["*"] "hook-secret");
  t ← now;
  let ev := chg_001 org t in
  _ ← ignored (u ← tick; id ← draw; on_ledger (Append u id ev));
  mret (sub, ev).
(** What is looked at after the first push *)
Definition inspect_feed (org : string) (sub : Subscription) (ev : ChangeEvent) : case_body :=
  attempts ← on_feed (Changes.ListDeliveries org (sub_ID sub) 10);
  if bool_decide (attempts = []) then errorf "expected delivery attempt"
  else
    '(body, _, d) ← on_feed (DeliverSigned webhook_feed org (sub_ID sub) ev);
    if negb (dl_Success d) then errorf "expected success on DeliverSigned"
    else
      match unmarshal dec_anymap body None with
      | (_, false) => errorf (decoder_error body)
      | (obj, true) =>
          if HasContentFields (default [] obj) then errorf "payload must be metadata-only"
          else
            _ ← on_feed (DeliverSigned webhook_feed org (sub_ID sub) ev);
            dup ← on_feed (RecordDuplicate org (sub_ID sub) (chg_EventID ev) body);
            if negb (String.eqb (dl_Status dup) StatusDuplicateIgnored)
            then errorf ("expected duplicate_ignored, got " +:+ dl_Status dup)
            else
              _ ← on_feed (Changes.ListDLQ org 20);
              if fc_MaxAttempts webhook_feed <? 1 then errorf "exponential retry config missing" else mret tt
      end.
Definition runWebhookRetry : case_body :=
  let org := "org_wh" in
  '(sub, ev) ← subscribe org;
  _ ← attempt (on_feed (EnqueueAndAttempt webhook_feed (sub_ID sub) ev));
  inspect_feed org sub ev.

Definition export_fixture (org : string) : service unit :=
  _ ← attempt (put_record (case_record org "r1" "document" "doc" "rev1" "INDEXED"));
  _ ← attempt (timed (fun t => AppendRevision t
        (mkRevision "rev1" "r1" org "sha256:abc" "org_exp/evidence/abc" 0 "INDEXED" ∅ zero_time zero_time)));
  _ ← attempt (put_record (case_record org "r2" "document" "gone" "rev2" "TOMBSTONED"));
  put_edge (mkEdge "e1" org "r1" "p1" EdgeParent f_zero "ACTIVE" true ∅ zero_time zero_time).
Definition exporter : ExportService := mkExportService true 0 0.
Definition secret_leaked (m : Manifest) : bool :=
  existsb (fun src => bool_decide (is_Some (src_Attributes src !! "signing_secret"))) (default [] (em_Sources m)).
(** The manifest for another organization, with a hash of its own *)
Definition retarget (target : string) (m : Manifest) : Manifest :=
  let m := m <| em_OrganizationID := target |> in
  let m := m <| em_Records := fmap (M := option) (fmap (fun r => r <| rec_OrgID := target |>)) (em_Records m) |> in
  let m := m <| em_Revisions := fmap (M := option) (fmap (fun r => r <| rev_OrgID := target |>)) (em_Revisions m) |> in
  m <| em_Checksums := {["manifest_sha256" := HashManifest m]} |>.
Definition runExportRoundTrip : case_body :=
  let org := "org_exp" in
  _ ← ignored (WithOrgTx org (export_fixture org));
  _ ← ignored (id ← draw; on_evidence (Put id "org_exp/evidence/abc" "hello" "text/plain" ∅));
  m ← on_world (Build exporter org "alice");
  if bool_decide (default [] (em_EvidenceRefs m) = []) then errorf "expected evidence refs in export"
  else if bool_decide (default [] (em_Tombstones m) = []) then errorf "expected tombstones"
  else if secret_leaked m then errorf "secret leaked"
  else
    let target := "org_exp_import" in
    _ ← on_world (ImportInto target (retarget target m));
    rec ← on_store (GetRecord target "r2");
    if negb (String.eqb (rec_State rec) "TOMBSTONED") then errorf ("tombstone not applied: " +:+ rec_State rec)
    else
      pending ← pending_tuples target;
      if pending <? 1 then errorf "authz tuples should enqueue on import" else mret tt.

Definition runIntakeParity : case_body :=
  let org := "org_parity" in
  _ ← ignored (put_source org (suite_source org ["message"; "event"] []));
  let body := marshal (AObj [("id", AStr "ext-parity"); ("title", AStr "hello")]) in
  ts ← unix_now;
  let event := mkIntakeEvent "evt_parity_001" "" "synthetic" "ext-parity" "" "" "" "" "" ∅ zero_time in
  let req := suite_request org body ts "evt_parity_001" zeroSpec event in
  r1 ← on_world (Ingest.Intake req);
  r2 ← on_world (Ingest.Intake req);
  if negb (res_IdempotentReplay r2) || negb (String.eqb (res_ResourceID r1) (res_ResourceID r2))
     || negb (String.eqb (res_RevisionID r1) (res_RevisionID r2))
  then errorf ("batch/retry parity failed: " +:+ go_syntax _ r1 +:+ " vs " +:+ go_syntax _ r2)
  else mret tt.

(** [mapPacket]; of the citations, their number *)
Record mapPacket := mkMapPacket { mp_Citations : Z; mp_PolicyRevision : string; mp_AuthzRevision : string }.
Definition search_call (orgID query purpose : string) : string :=
  marshal (AObj [("jsonrpc", AStr "2.0"); ("id", ANum (f_of_Z 1)); ("method", AStr "tools/call");
    ("params", AObj [("name", AStr "context.search");
       ("arguments", AObj [("organization_id", AStr orgID); ("query", AStr query); ("purpose", AStr purpose);
                           ("max_items", ANum (f_of_Z 5))])])]).
Definition packet_of (p : ContextPacket) : mapPacket :=
  mkMapPacket (zlen (pkt_Citations p)) (pkt_PolicyRevision p) (pkt_AuthzRevision p).
(** The answer as the JSON form of its value would be decoded *)
Definition decode_answer (resp : HttpResponse) : result GoError mapPacket :=
  match rs_Body resp with
  | Some (PRpc rpc) =>
      match rpc_Error rpc, rpc_Result rpc with
      | Some e, _ => Err (EPlain ("mcp error: " +:+ re_Message e))
      | None, Some (RTool _ true) => Err (EPlain ("mcp tool error: " +:+ go_syntax _ resp))
      | None, Some (RTool (TPacket p) false) => Ok (packet_of p)
      | None, Some (RTool (TMap _) false) => Ok (mkMapPacket 0 "" "")
      | None, _ => Err (EPlain ("empty mcp content: " +:+ go_syntax _ resp))
      end
  | _ => Err (EPlain (decoder_error (go_syntax _ resp)))
  end.
Definition callMCPSearch (token orgID query purpose : string) : application mapPacket :=
  let body := search_call orgID query purpose in
  let req := mkHttpRequest "POST" ["mcp"] ∅
               {["Authorization" := "Bearer " +:+ token; "Content-Type" := "application/json"]}
               "example.com" false (Z.of_nat (String.length body)) body false in
  rr ← Mcp.serve environ (PRMFromEnv environ) req;
  if negb (rs_Status rr =? StatusOK)
  then errorf ("mcp status " +:+ itoa (rs_Status rr) +:+ ": " +:+ go_syntax _ rr)
  else of_result (decode_answer rr).

Definition parity_fixture (org : string) : service unit :=
  _ ← attempt (put_record (case_record org "res1" "document" "hello world" "r1" "INDEXED"));
  on_index (fun idx => (tt, Upsert [mkIndexDocument "res1" "r1" org "hello world" []
                                      {["classification" := "internal"]}] idx)).
Definition runMCPRESTParity : case_body :=
  let org := "org_mcp" in
  _ ← on_world (on_authz (AddOrgMember org "alice"));
  _ ← ignored (WithOrgTx org (parity_fixture org));
  _ ← grant "resource:res1" "reader" "user:alice";
  let creds := local_creds org in
  restPkt ← Application.Search creds org ["context:search"; "context:read"]
              (mkSearchRequest "hello" "support" [] [] 5 "");
  mcpPkt ← callMCPSearch (cr_BearerToken creds) org "hello" "support";
  if negb (zlen (pkt_Citations restPkt) =? mp_Citations mcpPkt)
  then errorf ("citation count mismatch rest=" +:+ itoa (zlen (pkt_Citations restPkt)) +:+ " mcp="
               +:+ itoa (mp_Citations mcpPkt))
  else if negb (String.eqb (pkt_PolicyRevision restPkt) (mp_PolicyRevision mcpPkt))
  then errorf "policy_revision mismatch"
  else mret tt.

(** ** The runner *)
Definition caseHandlers (fuel : nat) : gmap string (result GoError unit) :=
  {["mapping-spec-cannot-broaden-acl" := run_in "" runMappingACL;
    "graph-visible-subgraph" := run_in "org_graph" runGraphVisible;
    "authz-outbox-parent-sync" := run_in "org_authz" (runAuthzOutbox fuel);
    "webhook-retry-idempotent" := run_in "org_wh" runWebhookRetry;
    "export-round-trip" := run_in "org_exp" runExportRoundTrip;
    "intake-parity-single-and-batch" := run_in "org_parity" runIntakeParity;
    "mcp-rest-parity" := run_in "org_mcp" runMCPRESTParity]}.
Definition run_case (fuel : nat) (c : Case) : CaseResult :=
  match caseHandlers fuel !! cs_ID c with
  | None => mkCaseResult (cs_ID c) (cs_Name c) false true "" "no in-process handler yet"
  | Some (Err e) => mkCaseResult (cs_ID c) (cs_Name c) false false (error_string e) ""
  | Some (Ok _) => mkCaseResult (cs_ID c) (cs_Name c) true false "" "ok"
  end.
Definition selected (filter_ : string) (c : Case) : bool := is_empty filter_ || contains_str (cs_ID c) filter_.
Definition Run (fuel : nat) (decoded : result string Suite) (filter_ : string) : result string Report :=
  match LoadSuite decoded with
  | Err e => Err e
  | Ok suite =>
      Ok (mkReport (su_SuiteID suite) (run_case fuel <$> filter (fun c => selected filter_ c = true) (su_Cases suite)))
  end.
End Suite.
