(* ===== verification/ConformanceFacts.v ===== *)
(** * The suite passes

    Each of its cases is run on the model, whatever the target of the webhook answers and
    whatever [%#v] prints. *)
From S2P Require Import Prelude GoStd Ports Platform Json Decode Policy Mapping MappingSpec OpenFGA Ledger Index.
From S2P Require Import AuditLog Credentials Authn Quota Changes World Ingest Worker QueueFacts Deletion Retrieval.
From S2P Require Import Export Application ApplicationFacts Wire Answers Mcp Conformance.

#[local] Existing Instances tally_env order_forward demo_host links_up.

(** [contracts/conformance/suite.yaml] *)
Definition context_fabric_v1 : Suite :=
  mkSuite "context-fabric.conformance/v1" "context-fabric-v1"
    [mkCase "intake-parity-single-and-batch" "Intake parity (single vs batch CloudEvents)" "intake" "";
     mkCase "webhook-retry-idempotent" "Webhook retry and out-of-order delivery" "changes" "";
     mkCase "export-round-trip" "Organization export round-trip" "portability" "";
     mkCase "mcp-rest-parity" "MCP and REST parity" "retrieval" "";
     mkCase "mapping-spec-cannot-broaden-acl" "MappingSpec cannot broaden ACL" "mapping" "";
     mkCase "graph-visible-subgraph" "Visible subgraph AuthZ and policy filtering" "retrieval" "";
     mkCase "authz-outbox-parent-sync" "Durable AuthZ tuple outbox for parent edges" "authz" ""].

Section Cases.
Context `{Client, Formatter}.

Lemma mapping_acl_passes : run_in "" runMappingACL = Ok tt.
Proof. vm_compute. reflexivity. Qed.
Lemma graph_visible_passes : run_in "org_graph" runGraphVisible = Ok tt.
Proof. vm_compute. reflexivity. Qed.
Lemma authz_outbox_passes : run_in "org_authz" (runAuthzOutbox 5) = Ok tt.
Proof. vm_compute. reflexivity. Qed.
Lemma export_round_trip_passes : run_in "org_exp" runExportRoundTrip = Ok tt.
Proof. vm_compute. reflexivity. Qed.
Lemma intake_parity_passes : run_in "org_parity" runIntakeParity = Ok tt.
Proof. vm_compute. reflexivity. Qed.
Lemma mcp_rest_parity_passes : run_in "org_mcp" (runMCPRESTParity ∅) = Ok tt.
Proof. vm_compute. reflexivity. Qed.

(** *** The webhook: the answer decides what is recorded, and nothing else *)
Lemma settle_records cfg sub ev n body r c :
  exists e code ok msg, settle_post cfg sub ev n body r c
    = (e, (RecordDelivery cfg (sub_OrgID sub) (sub_ID sub) (chg_EventID ev) n code ok msg body c).2).
Proof.
  assert (Hset : forall code ok msg (k : DeliveryAttempt -> courier unit),
    (forall d c', (k d c').2 = c') ->
    exists e, (d ← RecordDelivery cfg (sub_OrgID sub) (sub_ID sub) (chg_EventID ev) n code ok msg body; k d) c
      = (e, (RecordDelivery cfg (sub_OrgID sub) (sub_ID sub) (chg_EventID ev) n code ok msg body c).2)).
  { intros code ok msg k Hk. unfold mbind, M_bind. destruct (RecordDelivery _ _ _ _ _ _ _ _ _ c) as [[d|e] c'];
      [|by eexists]. specialize (Hk d c'). destruct (k d c') as [e c1]. cbn [snd] in Hk. subst. by eexists. }
  unfold settle_post. destruct r as [code|msg].
  - set (ok := _ && _). cbv zeta. edestruct (Hset code ok) as [e He]; [|by rewrite He; eexists _, _, _, _].
    intros d c'. by destruct ok.
  - edestruct (Hset 0 false msg) as [e He]; [|by rewrite He; eexists _, _, _, _]. done.
Qed.

(** The first push of an event posts it, and records one attempt. *)
Lemma push_records cfg sub ev body c :
  hasSuccessfulDelivery (sub_OrgID sub) (sub_ID sub) (chg_EventID ev) c = false ->
  failedAttemptCount (sub_OrgID sub) (sub_ID sub) (chg_EventID ev) c = 0 ->
  nextAttemptAt (sub_OrgID sub) (sub_ID sub) (chg_EventID ev) c = None ->
  (max_attempts cfg <? 1) = false -> public_body ev = Ok body ->
  exists e code ok msg, pushOne cfg sub ev c
    = (e, (RecordDelivery cfg (sub_OrgID sub) (sub_ID sub) (chg_EventID ev) 1 code ok msg body
             (c <| cr_posts := cr_posts c ++ [mkPost (sub_TargetURL sub) body (Changes.SignHMAC cfg (sub_Secret sub) body)
                                                (chg_EventID ev) (sub_OrgID sub, sub_ID sub)] |>)).2).
Proof.
  intros Hd Hf Hn Hm Hb. unfold pushOne. rewrite (bind_run (gets _) _ _ false c) by (unfold gets; by rewrite Hd).
  rewrite (bind_run (gets _) _ _ 0 c) by (unfold gets; by rewrite Hf).
  rewrite (bind_run (gets _) _ _ None c) by (unfold gets; by rewrite Hn).
  rewrite (bind_run (mret tt) _ _ tt c eq_refl). change (wrap64 (0 + 1)) with 1.
  rewrite (bind_run (throw_if _ _) _ _ tt c) by (unfold throw_if; by rewrite Hm).
  rewrite (bind_run (of_result _) _ _ body c) by (by rewrite Hb).
  set (p := mkPost _ _ _ _ _). rewrite (bind_run (post p) _ _ _ _ eq_refl). apply settle_records.
Qed.

Definition subscribed : result GoError (Subscription * ChangeEvent) * App := subscribe "org_wh" (newHarness "org_wh").
Definition wh_sub : Subscription := match subscribed.1 with Ok (sub, _) => sub | Err _ => mkSubscription "" "" "" [] "" false 0 end.
Definition wh_event : ChangeEvent := match subscribed.1 with Ok (_, ev) => ev | Err _ => chg_001 "" 0 end.
Definition wh_body : string := match public_body wh_event with Ok b => b | Err _ => "" end.
Definition wh_courier : Courier :=
  ((app_feed subscribed.2) <| cr_clock := w_clock (app_world subscribed.2) |>)
    <| cr_ids := w_ids (app_world subscribed.2) |>.
(** What the suite looks at, whatever was recorded *)
Lemma inspect_passes code ok msg :
  let c := (RecordDelivery webhook_feed "org_wh" (sub_ID wh_sub) "chg_001" 1 code ok msg wh_body
              (wh_courier <| cr_posts := [mkPost "https://example.com/hook" wh_body
                 (Changes.SignHMAC webhook_feed "hook-secret" wh_body) "chg_001" ("org_wh", sub_ID wh_sub)] |>)).2 in
  let w := app_world subscribed.2 in
  (inspect_feed "org_wh" wh_sub wh_event
     ((subscribed.2 <| app_feed := c |>) <| app_world := (w <| w_clock := cr_clock c |>) <| w_ids := cr_ids c |> |>)).1
  = Ok tt.
Proof. destruct ok; vm_compute; reflexivity. Qed.

Lemma on_feed_run {A} (m : courier A) a r c' :
  m (((app_feed a) <| cr_clock := w_clock (app_world a) |>) <| cr_ids := w_ids (app_world a) |>) = (r, c') ->
  on_feed m a = (r, (a <| app_feed := c' |>)
    <| app_world := ((app_world a) <| w_clock := cr_clock c' |>) <| w_ids := cr_ids c' |> |>).
Proof. intros Hm. unfold on_feed. by rewrite Hm. Qed.

Lemma webhook_retry_passes : run_in "org_wh" runWebhookRetry = Ok tt.
Proof.
  unfold run_in, runWebhookRetry. cbv zeta.
  rewrite (bind_run _ _ _ (wh_sub, wh_event) subscribed.2) by (vm_compute; reflexivity).
  assert (exists e code ok msg, EnqueueAndAttempt webhook_feed (sub_ID wh_sub) wh_event wh_courier
    = (e, (RecordDelivery webhook_feed "org_wh" (sub_ID wh_sub) "chg_001" 1 code ok msg wh_body
              (wh_courier <| cr_posts := [mkPost "https://example.com/hook" wh_body
                 (Changes.SignHMAC webhook_feed "hook-secret" wh_body) "chg_001" ("org_wh", sub_ID wh_sub)] |>)).2))
    as (e & code & ok & msg & He).
  { unfold EnqueueAndAttempt.
    rewrite (bind_run _ _ _ (wh_sub <| sub_Secret := "hook-secret" |>) wh_courier) by (vm_compute; reflexivity).
    destruct (push_records webhook_feed (wh_sub <| sub_Secret := "hook-secret" |>) wh_event wh_body wh_courier)
      as (e & code & ok & msg & He); [vm_compute; reflexivity..|].
    exists e, code, ok, msg. rewrite He. reflexivity. }
  rewrite (bind_run _ _ _ _ _ (attempt_run _ _ _ _ (on_feed_run _ _ _ _ He))).
  apply inspect_passes.
Qed.
End Cases.

Lemma handlers_pass (client : Client) (formatter : Formatter) :
  caseHandlers ∅ 5 = {["mapping-spec-cannot-broaden-acl" := Ok tt; "graph-visible-subgraph" := Ok tt;
    "authz-outbox-parent-sync" := Ok tt; "webhook-retry-idempotent" := Ok tt; "export-round-trip" := Ok tt;
    "intake-parity-single-and-batch" := Ok tt; "mcp-rest-parity" := Ok tt]}.
Proof.
  unfold caseHandlers.
  rewrite mapping_acl_passes.
  rewrite (@graph_visible_passes formatter).
  rewrite authz_outbox_passes.
  rewrite (@webhook_retry_passes client).
  rewrite export_round_trip_passes.
  rewrite (@intake_parity_passes formatter).
  by rewrite (@mcp_rest_parity_passes formatter).
Qed.

(** The program's own conformance suite passes on the model: every case of its catalog has
    a handler, and the handler (mapping, visible subgraph, inherited access, webhook retry,
    export and import, idempotent intake, MCP against REST) returns without an error, whatever
    the target of the webhook answers. *)
Theorem suite_passes (client : Client) (formatter : Formatter) :
  exists rep, Run ∅ 5 (Ok context_fabric_v1) "" = Ok rep /\ Passed rep = true /\
    (cres_ID <$> rp_Results rep) = (cs_ID <$> su_Cases context_fabric_v1) /\
    forallb cres_Passed (rp_Results rep) = true.
Proof.
  eexists. split; [reflexivity|]. unfold run_case. rewrite handlers_pass. vm_compute. by split_and!.
Qed.
