(* ===== verification/Commands.v ===== *)
(** * [cmd/context-fabric/main.go]: the one-shot roles

    [migrate], [bootstrap], [doctor] and [connector]. The OpenFGA server, the database and
    the other services are arguments; the files of the machine are part of the state, since
    [bootstrap] writes the identifiers it is given to some. What is printed, the owner of a
    file and the deadlines are left out. *)
From S2P Require Import Prelude GoStd Ports Platform Json Decode Config Migrate Authn Wiring KeySet FGAClient.
From S2P Require Import Connector.

(** ** The machine: its files, and the calls made to the OpenFGA server *)
Record AdminCall := mkAdminCall {
  ad_Method : string; ad_URL : string; ad_Token : string; ad_Body : string; ad_Reply : FGAClient.Reply;
}.
Record Machine := mkMachine { mc_Files : string -> file; mc_Calls : list AdminCall }.
#[export] Instance Machine_eta : Settable Machine := fun m => mkMachine (mc_Files m) (mc_Calls m).

Class Surroundings := {
  (** What the server replies after these calls, the last one first *)
  admin_reply : list AdminCall -> string -> string -> string -> FGAClient.Reply;
  (** The errors of [WriteSecretFile] and of [encoding/json] *)
  write_error : (string -> file) -> string -> option string;
  decode_error : string -> string;
}.
Abbreviation machine := (M GoError Machine).

Definition bootstrapPlaceholder : string := "replace-after-bootstrap".
Definition is_placeholder (id : string) : bool := is_empty id || String.eqb id bootstrapPlaceholder.

Section OpenFGA.
Context `{Surroundings}.
Variable environ : strmap.
Abbreviation get := (os_getenv environ).

(** ** The OpenFGA server *)
Definition read (path : string) : machine file := gets (fun m => mc_Files m path).
(** A request with the token of the environment, and the text of its answer *)
Definition call (meth url body : string) : machine (Z * string) := fun m =>
  let r := admin_reply (mc_Calls m) meth url body in
  let m := m <| mc_Calls := mkAdminCall meth url (trim_space (get "OPENFGA_API_TOKEN")) body r :: mc_Calls m |> in
  match r with
  | RequestError e | NoReply e => (Err (EPlain e), m)
  | Answer status text => (Ok (status, text), m)
  end.
Definition status_error (status : Z) (text : string) : GoError :=
  EPlain ("status " +:+ itoa status +:+ ": " +:+ text).
Definition answered_ok (meth url body : string) : machine string :=
  '(status, text) ← call meth url body;
  if 300 <=? status then throw (status_error status text) else mret text.
Definition decoded {A} (dec : decoder A) (zero : A) (text : string) : machine A :=
  match checked (unmarshal dec text zero) with
  | Some x => mret x
  | None => throw (EPlain (decode_error text))
  end.

Definition openfgaCreateStore (apiURL name : string) : machine string :=
  text ← answered_ok "POST" (trim_right_slashes apiURL +:+ "/stores") (json_struct [json_member "name" (sprint_q name)]);
  id ← decoded (dec_struct [("id", dec_string)]) "" text;
  if is_empty id then throw (EPlain ("empty store id in response: " +:+ text)) else mret id.
Definition openfgaPingStore (apiURL storeID : string) : machine unit :=
  _ ← answered_ok "GET" (trim_right_slashes apiURL +:+ "/stores/" +:+ storeID) ""; mret tt.

(** The two members of the answer that may hold the identifier *)
Definition dec_model : decoder (string * string) := fun v old =>
  let '(a, o1) := dec_struct [("authorization_model_id", dec_string)] v old.1 in
  let '(b, o2) := dec_struct [("id", dec_string)] v old.2 in
  ((a, b), match o1 with Fine => o2 | _ => o1 end).
Definition openfgaWriteAuthorizationModel (apiURL storeID modelJSONPath : string) : machine string :=
  f ← read modelJSONPath;
  match f with
  | FileMissing e | FileError e => throw (EPlain e)
  | FileText raw =>
      match unmarshal dec_anymap raw None with
      | (_, false) => throw (EWrap "invalid model JSON" (EPlain (decode_error raw)))
      | (probe, true) =>
          match assoc (default [] probe) "type_definitions" with
          | None => throw (EPlain "model JSON missing type_definitions")
          | Some _ =>
              text ← answered_ok "POST" (trim_right_slashes apiURL +:+ "/stores/" +:+ storeID +:+ "/authorization-models") raw;
              '(modelID, id) ← decoded dec_model ("", "") text;
              let id := firstNonEmpty [modelID; id] in
              if is_empty id then throw (EPlain ("empty model id in response: " +:+ text)) else mret id
          end
      end
  end.

(** ** Bootstrap *)
Definition writeBootstrapRuntimeFile (path content : string) : machine unit := fun m =>
  let path := trim_space path in
  let content := trim_space content in
  if is_empty path || is_empty content then (Ok tt, m)
  else match write_error (mc_Files m) path with
       | Some e => (Err (EPlain e), m)
       | None =>
           (Ok tt, m <| mc_Files := fun p => if String.eqb p path then FileText (content +:+ str1 (byte_of 10))
                                             else mc_Files m p |>)
       end.
Definition pin_file (key content : string) : machine unit := fun m =>
  let path := trim_space (get (key +:+ "_FILE")) in
  if is_empty path then (Ok tt, m)
  else match writeBootstrapRuntimeFile path content m with
       | (Err e, m) => (Err (EWrap ("write " +:+ key +:+ "_FILE") e), m)
       | r => r
       end.

(** [filepath.Ext] *)
Fixpoint ext_from (l : list ascii) (acc : string) : string :=
  match l with
  | [] => ""
  | c :: l => if Ascii.eqb c "/" then "" else if Ascii.eqb c "." then String c acc else ext_from l (String c acc)
  end.
Definition file_ext (path : string) : string := ext_from (reverse (bytes_of path)) "".
Definition trim_suffix (s suf : string) : string :=
  if has_suffix s suf then take_str (String.length s - String.length suf) s else s.

Definition model_json_path : string :=
  let modelPath := firstNonEmpty [get "OPENFGA_MODEL_PATH"; "contracts/openfga/model.fga"] in
  firstNonEmpty [get "OPENFGA_MODEL_JSON"; trim_suffix modelPath (file_ext modelPath) +:+ ".json";
                 "contracts/openfga/model.json"].
(** The store of the environment if it answers, else a new one *)
Definition bootstrap_store (api : string) : machine string :=
  let store := trim_space (get "OPENFGA_STORE_ID") in
  if is_placeholder store then
    created ← attempt (openfgaCreateStore api "context-fabric");
    match created with
    | Err e => throw (EPlain ("OPENFGA_STORE_ID is " +:+ sprint_q bootstrapPlaceholder
                              +:+ " and auto-create failed: " +:+ error_string e
                              +:+ "; create a store manually and set OPENFGA_STORE_ID"))
    | Ok created => _ ← pin_file "OPENFGA_STORE_ID" created; mret created
    end
  else
    pinged ← attempt (openfgaPingStore api store);
    match pinged with
    | Err e => throw (EWrap ("OPENFGA_STORE_ID " +:+ sprint_q store +:+ " not reachable") e)
    | Ok _ => mret store
    end.
Definition bootstrap_model (api store : string) : machine unit :=
  let modelID := trim_space (first_env_or environ ["OPENFGA_MODEL_ID"; "AUTHZ_MODEL_ID"; ""]) in
  if IsOpenFGAModelPlaceholder modelID then
    written ← attempt (openfgaWriteAuthorizationModel api store model_json_path);
    match written with
    | Err e => throw (EWrap ("write authorization model from " +:+ model_json_path) e)
    | Ok id => pin_file "OPENFGA_MODEL_ID" id
    end
  else mret tt.
Definition bootstrapOpenFGA : machine unit :=
  let api := trim_space (first_env_or environ ["OPENFGA_API_URL"; "OPENFGA_URL"; ""]) in
  if is_empty api then mret tt
  else store ← bootstrap_store api; bootstrap_model api store.
End OpenFGA.

Definition validateOpenFGAStoreID (environ : strmap) (read_file : string -> file) : result GoError unit :=
  let store := trim_space (os_getenv environ "OPENFGA_STORE_ID") in
  let store :=
    if is_placeholder store then
      let path := trim_space (os_getenv environ "OPENFGA_STORE_ID_FILE") in
      if is_empty path then store
      else match read_file path with FileText b => trim_space b | _ => store end
    else store in
  fail_if (is_placeholder store)
    (EPlain ("OPENFGA_STORE_ID is unset or still " +:+ sprint_q bootstrapPlaceholder
             +:+ "; run bootstrap with OPENFGA_API_URL set (or create a store and pin the ID)")).

(** ** The roles *)
Section Roles.
Context `{GoEnv, GoMapOrder, Surroundings}.
Context {D : Type} `{Database D}.
Variables (environ : strmap) (yaml : string -> result GoError (gmap string any))
          (read_dir : string -> option (list DirEntry)) (embedded : result GoError (list DirEntry)).
Abbreviation host := (M GoError (Machine * D)).

Definition on_machine {A} (m : machine A) : host A := fun s =>
  let '(r, mc) := m s.1 in (r, (mc, s.2)).
Definition on_db {A} (m : M GoError D A) : host A := fun s =>
  let '(r, d) := m s.2 in (r, (s.1, d)).
Definition base_config : host Config := fun s => (LoadBase environ (mc_Files s.1) yaml, s).

Definition runMigrate : host unit :=
  cfg ← base_config;
  let dsn := AdminDSN environ in
  if is_empty dsn then
    if UseMemory cfg || IsDemo (cfg_Profile cfg) then mret tt
    else throw (EPlain "POSTGRES_ADMIN_DSN or POSTGRES_DSN is required")
  else on_db (Migrate.Run read_dir embedded dsn (MigrationsDir environ)).
Definition runBootstrap : host unit :=
  cfg ← base_config;
  let dsn := AdminDSN environ in
  if AllowStubOps cfg && is_empty dsn then mret tt
  else if is_empty dsn
  then throw (EPlain "NOT IMPLEMENTED without DSN; set POSTGRES_ADMIN_DSN or CONTEXT_FABRIC_ALLOW_STUB_OPS=1")
  else _ ← on_db (Migrate.Bootstrap dsn); on_machine (bootstrapOpenFGA environ).

(** The first argument names the connector; the rest are its own. *)
Definition runConnector {A} (chatwoot synthetic : list string -> result string A) (args : list string)
    : result string A :=
  let name := match args with a :: _ => trim_space a | [] => "chatwoot" end in
  let rest := tail args in
  if String.eqb name "chatwoot" then chatwoot rest
  else if String.eqb name "synthetic" then synthetic rest
  else Err ("unknown connector " +:+ sprint_q name +:+ " (want chatwoot|synthetic)").
End Roles.

(** ** [doctor] *)
(** The answers of the catalog of the database: a column for full-text search, a gateway role
    that does not bypass row-level security, and a table that forces it; an error when the
    query fails, as it does without the row *)
Class Catalog (D : Type) := {
  fts_column : D -> result GoError bool;
  gateway_role : D -> result GoError bool;
  forces_rls : string -> D -> result GoError bool;
}.

Section Doctor.
Context `{GoEnv, GoMapOrder, Web, Verifier}.
Context {D : Type} `{Database D, Catalog D}.
Variables (environ : strmap) (read_file : string -> file) (is_file : string -> bool)
          (yaml : string -> result GoError (gmap string any))
          (read_dir : string -> option (list DirEntry)) (embedded : result GoError (list DirEntry))
          (postgres_connect : string -> result GoError unit)
          (nats_connect : string -> option string -> result GoError unit).

(** A failing query is a warning. *)
Definition unless_false (answer : result GoError bool) (msg : string) : result GoError unit :=
  match answer with Ok false => Err (EPlain msg) | _ => Ok tt end.
Definition check_rls (d : D) (suffix : string) (table : string) : result GoError unit :=
  unless_false (forces_rls table d) (table +:+ " missing FORCE ROW LEVEL SECURITY" +:+ suffix).
Fixpoint check_tables (d : D) (tables : list string) : result GoError unit :=
  match tables with
  | [] => Ok tt
  | t :: tables => _ ← check_rls d "" t; check_tables d tables
  end.

Definition doctor_dsn (cfg : Config) : string :=
  let dsn := trim_space (pg_DSN (cfg_Postgres cfg)) in
  if is_empty dsn then AdminDSN environ else dsn.
Definition check_postgres (cfg : Config) (d : D) : result GoError unit :=
  let dsn := doctor_dsn cfg in
  _ ← fail_if (is_empty dsn) (EPlain "postgres: POSTGRES_DSN (or POSTGRES_ADMIN_DSN) required");
  _ ← wrap_error "postgres" (postgres_connect dsn);
  _ ← wrap_error "migration head" (CheckApplied read_dir embedded dsn (MigrationsDir environ) d).1;
  unless_false (fts_column d) "search_documents.search_tsv missing; apply migration 006+".
Definition check_nats (cfg : Config) : result GoError unit :=
  if negb (is_empty (trim_space (nats_URL (cfg_NATS cfg)))) then
    match ConnectConfig is_file nats_connect (cfg_NATS cfg) with
    | Ok _ => Ok tt
    | Err e => if AllowMemoryAuth cfg then Ok tt else Err (EWrap "nats" e)
    end
  else fail_if (negb (AllowMemoryAuth cfg)) (EPlain "NATS_URL required for non-demo profiles").
Definition check_security (d : D) : result GoError unit :=
  _ ← unless_false (gateway_role d) "context_gateway missing or has BYPASSRLS; runtime role must be NOBYPASSRLS";
  _ ← check_rls d "; apply migration 009" "legal_holds";
  _ ← check_rls d "" "records";
  check_tables d ["outbox"; "search_documents"].
Definition doctor_provider (cfg : Config) : ProviderConfig :=
  let c := cfg_OIDC cfg in
  mkProviderConfig (mkOIDC (trim_space (oi_Issuer c)) (trim_space (oi_Audience c)) "" "" "" "" "")
    (trim_space (oi_DiscoveryURL c)) (trim_space (oi_JWKSURL c)) 0.
Definition check_oidc (cfg : Config) : result GoError unit :=
  let roleEnv := to_lower (trim_space (os_getenv environ "CONTEXT_FABRIC_ROLE")) in
  if AllowMemoryAuth cfg || String.eqb roleEnv "worker" then Ok tt
  else
    _ ← fail_if (is_empty (trim_space (oi_Issuer (cfg_OIDC cfg)))) (EPlain "OIDC_ISSUER required for non-demo profiles");
    let '(c, p) := NewProvider (doctor_provider cfg) in
    _ ← wrap_error "oidc discovery" (KeySet.Discover c p).1;
    Ok tt.
Definition check_openfga (cfg : Config) : result GoError unit :=
  if AllowMemoryAuth cfg then Ok tt
  else
    _ ← validateOpenFGAStoreID environ read_file;
    _ ← fail_if (is_empty (trim_space (fga_APIToken (cfg_OpenFGA cfg))))
          (EPlain "OPENFGA_API_TOKEN required for non-demo profiles");
    let modelID := trim_space (fga_ModelID (cfg_OpenFGA cfg)) in
    let modelID := if IsOpenFGAModelPlaceholder modelID then trim_space (cfg_AuthzModelID cfg) else modelID in
    _ ← fail_if (IsOpenFGAModelPlaceholder modelID)
          (EPlain "OPENFGA_MODEL_ID unset or placeholder; run bootstrap to write and pin a model");
    _ ← wrap_error "openfga" (NewFromEnv environ read_file);
    Ok tt.
Definition check_secret (required : result GoError string) (cfg : Config) : result GoError unit :=
  if AllowMemoryAuth cfg then Ok tt else _ ← required; Ok tt.

(** The buckets are looked at too, but whatever is wrong with them is a warning. *)
Definition runDoctor (d : D) : result GoError unit :=
  cfg ← Load environ read_file yaml;
  if UseMemory cfg then Ok tt
  else
    _ ← check_postgres cfg d;
    _ ← check_nats cfg;
    _ ← check_security d;
    _ ← check_oidc cfg;
    _ ← check_openfga cfg;
    _ ← check_secret (requireWebhookSigningSecret cfg) cfg;
    check_secret (requireDeletionSigningSecret cfg) cfg.
End Doctor.
