(* ===== verification/CommandsFacts.v ===== *)
(** * What the one-shot roles promise to the processes that start after them

    A passing doctor predicts that a process starts; a bootstrap leaves files from which the
    client of OpenFGA is configured. *)
From S2P Require Import Prelude GoStd Ports Platform Json Decode Config Migrate Authn Wiring WiringFacts KeySet FGAClient.
From S2P Require Import Commands.

(** ** White space *)
Definition starts_space (l : list ascii) : bool :=
  match l with
  | a :: l1 =>
      is_space1 (code a) ||
      match l1 with
      | b :: l2 => is_space2 (code a) (code b) ||
                   match l2 with c :: _ => is_space3 (code a) (code b) (code c) | [] => false end
      | [] => false
      end
  | [] => false
  end.
Definition starts_space_rev (l : list ascii) : bool :=
  match l with
  | a :: l1 =>
      is_space1 (code a) ||
      match l1 with
      | b :: l2 => is_space2 (code b) (code a) ||
                   match l2 with c :: _ => is_space3 (code c) (code b) (code a) | [] => false end
      | [] => false
      end
  | [] => false
  end.

Lemma trim_left_stuck l : starts_space l = false -> trim_left l = l.
Proof.
  destruct l as [|a [|b [|c l]]]; simpl; [done|..]; rewrite ?orb_false_iff.
  - by intros [-> _].
  - intros [-> [-> _]]. done.
  - by intros [-> [-> ->]].
Qed.
Lemma trim_left_rev_stuck l : starts_space_rev l = false -> trim_left_rev l = l.
Proof.
  destruct l as [|a [|b [|c l]]]; simpl; [done|..]; rewrite ?orb_false_iff.
  - by intros [-> _].
  - intros [-> [-> _]]. done.
  - by intros [-> [-> ->]].
Qed.

Lemma trim_left_done l : starts_space (trim_left l) = false.
Proof.
  remember (length l) as n eqn:Hn. revert l Hn. induction n as [n IH] using lt_wf_ind. intros l ->.
  destruct l as [|a l1]; [done|]. cbn [trim_left]. destruct (is_space1 _) eqn:E1; [apply (IH (length l1)); simpl; [lia|done]|].
  destruct l1 as [|b l2]; [simpl; by rewrite E1|].
  destruct (is_space2 _ _) eqn:E2; [apply (IH (length l2)); simpl; [lia|done]|].
  destruct l2 as [|c l3]; [simpl; by rewrite E1, E2|].
  destruct (is_space3 _ _ _) eqn:E3; [apply (IH (length l3)); simpl; [lia|done]|].
  simpl. by rewrite E1, E2, E3.
Qed.
(** What the second scan cuts is a prefix of the reversed text. *)
Lemma trim_left_rev_done l :
  starts_space_rev (trim_left_rev l) = false /\ exists p, l = p ++ trim_left_rev l.
Proof.
  remember (length l) as n eqn:Hn. revert l Hn. induction n as [n IH] using lt_wf_ind. intros l ->.
  destruct l as [|a l1]; [split; [done | by exists []]|]. cbn [trim_left_rev].
  destruct (is_space1 _) eqn:E1.
  { destruct (IH (length l1)) with (l := l1) as [Hs [p Hp]]; [simpl; lia | done |]. split; [done|]. exists (a :: p).
    simpl. by rewrite <-Hp. }
  destruct l1 as [|b l2]; [split; [simpl; by rewrite E1 | by exists []]|].
  destruct (is_space2 _ _) eqn:E2.
  { destruct (IH (length l2)) with (l := l2) as [Hs [p Hp]]; [simpl; lia | done |]. split; [done|]. exists (a :: b :: p).
    simpl. by rewrite <-Hp. }
  destruct l2 as [|c l3]; [split; [simpl; by rewrite E1, E2 | by exists []]|].
  destruct (is_space3 _ _ _) eqn:E3.
  { destruct (IH (length l3)) with (l := l3) as [Hs [p Hp]]; [simpl; lia | done |]. split; [done|]. exists (a :: b :: c :: p).
    simpl. by rewrite <-Hp. }
  split; [simpl; by rewrite E1, E2, E3 | by exists []].
Qed.

Lemma starts_space_prefix p q : starts_space (p ++ q) = false -> starts_space p = false.
Proof.
  destruct p as [|a [|b [|c p]]]; simpl; [done|..]; rewrite ?orb_false_iff; tauto.
Qed.

(** The bytes of a trimmed text *)
Definition tight (l : list ascii) : Prop := starts_space l = false /\ starts_space_rev (reverse l) = false.
Lemma trim_space_tight s : tight (bytes_of (trim_space s)).
Proof.
  unfold trim_space, bytes_of, of_bytes. rewrite String.list_ascii_of_string_of_list_ascii.
  destruct (trim_left_rev_done (reverse (trim_left (String.list_ascii_of_string s)))) as [Hr [p Hp]].
  split; [|by rewrite reverse_involutive].
  apply (f_equal reverse) in Hp. rewrite reverse_involutive, reverse_app in Hp.
  eapply starts_space_prefix. rewrite <-Hp. apply trim_left_done.
Qed.
Lemma tight_trim s : tight (bytes_of s) -> trim_space s = s.
Proof.
  intros [Hl Hr]. unfold trim_space. rewrite trim_left_stuck by done. rewrite trim_left_rev_stuck by done.
  rewrite reverse_involutive. apply String.string_of_list_ascii_of_string.
Qed.
Lemma trim_space_idem s : trim_space (trim_space s) = trim_space s.
Proof. apply tight_trim, trim_space_tight. Qed.
(** A line end after a trimmed text is cut again. *)
Lemma trim_space_newline s : trim_space (trim_space s +:+ str1 (byte_of 10)) = trim_space s.
Proof.
  set (t := trim_space s). destruct (trim_space_tight s) as [Hl Hr]. fold t in Hl, Hr.
  assert (bytes_of (t +:+ str1 (byte_of 10)) = bytes_of t ++ [byte_of 10]) as Hb.
  { unfold bytes_of. clear. induction t as [|c t IH]; [done|]. simpl. by rewrite IH. }
  unfold trim_space at 1. rewrite Hb. destruct (decide (bytes_of t = [])) as [Hn|Hn].
  { rewrite Hn. unfold bytes_of in Hn. by destruct t. }
  rewrite trim_left_stuck.
  - rewrite reverse_app. change (reverse [byte_of 10]) with [byte_of 10]. cbn [app trim_left_rev].
    change (is_space1 (code (byte_of 10))) with true. cbv iota. rewrite trim_left_rev_stuck by done.
    rewrite reverse_involutive. apply String.string_of_list_ascii_of_string.
  - destruct (bytes_of t) as [|a [|b [|c l]]]; [done|..]; simpl in Hl |- *; rewrite ?orb_false_iff in Hl |- *.
    + split; [tauto|]. rewrite orb_false_r. unfold is_space2. change (code (byte_of 10)) with 10%nat.
      by rewrite andb_false_r.
    + destruct Hl as (-> & Hl & _). split_and!; [done | done |]. unfold is_space3.
      change (code (byte_of 10)) with 10%nat. simpl. by rewrite !andb_false_r.
    + tauto.
Qed.

(** ** A passing doctor *)
Section Doctor.
Context `{GoEnv, GoMapOrder, Web, Verifier}.
Context {D : Type} `{Database D, Catalog D}.
Variables (environ : strmap) (read_file : string -> file) (is_file : string -> bool)
          (yaml : string -> result GoError (gmap string any))
          (read_dir : string -> option (list DirEntry)) (embedded : result GoError (list DirEntry))
          (postgres_connect : string -> result GoError unit)
          (nats_connect : string -> option string -> result GoError unit) (buildVersion : string).
Implicit Types (cfg : Config) (d : D).

Lemma secretValue_trimmed key v : secretValue environ read_file key = Ok v -> trim_space v = v.
Proof.
  unfold secretValue. cbv zeta. destruct (is_empty _); [intros [= <-]; apply trim_space_idem|].
  destruct (read_file _); intros [= <-]; apply trim_space_idem.
Qed.
Lemma loaded_dsn cfg :
  LoadFromEnv environ read_file yaml = Ok cfg -> trim_space (pg_DSN (cfg_Postgres cfg)) = pg_DSN (cfg_Postgres cfg).
Proof.
  unfold LoadFromEnv. intros Hl.
  apply result_bind_Ok in Hl as (s1 & _ & Hl). apply result_bind_Ok in Hl as (s2 & _ & Hl).
  apply result_bind_Ok in Hl as (s3 & _ & Hl). apply result_bind_Ok in Hl as (s4 & _ & Hl).
  apply result_bind_Ok in Hl as ([g1 g2] & _ & Hl).
  apply result_bind_Ok in Hl as (dsn & Hdsn & Hl). apply secretValue_trimmed in Hdsn.
  repeat (apply result_bind_Ok in Hl as (? & _ & Hl)). injection Hl as <-.
  destruct (is_empty _); exact Hdsn.
Qed.

Lemma validated_dsn cfg :
  Validate cfg = Ok tt -> UseMemory cfg = false -> is_empty (trim_space (pg_DSN (cfg_Postgres cfg))) = false.
Proof.
  unfold Validate. cbv zeta. intros Hv Hm.
  apply result_bind_Ok in Hv as (u1 & _ & Hv). apply result_bind_Ok in Hv as (u2 & _ & Hv). rewrite Hm in Hv.
  apply result_bind_Ok in Hv as ([] & Hr & _). cbn [require_all] in Hr.
  apply result_bind_Ok in Hr as (u & Hr%fail_if_Ok & _). exact Hr.
Qed.

Lemma wrap_error_ok {A} msg (r : result GoError A) x : wrap_error msg r = Ok x -> r = Ok x.
Proof. unfold wrap_error. by destruct r. Qed.

Lemma identity_starts cfg :
  Validate cfg = Ok tt -> UseMemory cfg = false -> check_openfga environ read_file cfg = Ok tt ->
  exists x, identity_and_authz environ read_file cfg = Ok x.
Proof.
  intros Hv Hm Hc. unfold identity_and_authz, check_openfga in *. destruct (AllowMemoryAuth cfg) eqn:Ha; [by eexists|].
  assert (IsDemo (cfg_Profile cfg) = false) as Hd by (unfold AllowMemoryAuth in Ha; by rewrite Hm in Ha).
  destruct (Validate_production _ Hv Hd Hm) as (Hset & _). rewrite !Forall_cons in Hset.
  destruct Hset as (_ & _ & _ & Hi%is_empty_false & _). rewrite Hi.
  apply result_bind_Ok in Hc as (u1 & _ & Hc). apply result_bind_Ok in Hc as (u2 & _ & Hc).
  apply result_bind_Ok in Hc as (u3 & _ & Hc). apply result_bind_Ok in Hc as (fga & Hf%wrap_error_ok & _).
  rewrite Hf. by eexists.
Qed.
Lemma bus_starts cfg :
  check_nats is_file nats_connect cfg = Ok tt ->
  exists b, postgres_bus environ is_file nats_connect cfg = Ok b.
Proof.
  unfold check_nats, postgres_bus. cbv zeta. unfold or_else. destruct (AllowMemoryAuth cfg) eqn:Ha; [intros _; case_match; by eexists|].
  destruct (is_empty (trim_space (nats_URL (cfg_NATS cfg)))) eqn:Hn; cbn [negb]; [done|]. rewrite Hn.
  unfold wrap_error. destruct (ConnectConfig _ _ _) as [b|e]; [by eexists | done].
Qed.
Lemma secret_starts name def val cfg :
  check_secret (signing_secret_of name def val cfg) cfg = Ok tt -> exists s, signing_secret_of name def val cfg = Ok s.
Proof.
  unfold check_secret. destruct (AllowMemoryAuth cfg) eqn:Ha.
  - intros _. unfold signing_secret_of. rewrite Ha. cbv zeta. cbn [negb andb]. case_match; by eexists.
  - intros (s & Hs & _)%result_bind_Ok. by exists s.
Qed.

(** A passing doctor predicts that the process starts: in the environment, with the files
    and the services that it saw, [wire] gives every role a deployment, provided the two parts
    that it does not look at are well configured, the buckets of the evidence and the backend
    of the index; a memory profile needs no more. *)
Theorem doctor_predicts_start d role cfg :
  runDoctor environ read_file is_file yaml read_dir embedded postgres_connect nats_connect d = Ok tt ->
  Load environ read_file yaml = Ok cfg ->
  UseMemory cfg = true \/
  is_ok (postgres_evidence environ cfg) = true /\ is_ok (postgres_index role cfg) = true ->
  exists dep, start environ read_file is_file postgres_connect nats_connect buildVersion yaml role = Ok (cfg, dep).
Proof.
  intros Hd Hl Hparts. unfold runDoctor in Hd. unfold start. rewrite Hl in Hd |- *.
  change (Ok cfg ≫= ?f) with (f cfg) in Hd. cbn beta in Hd.
  change (Ok cfg ≫= ?f) with (f cfg). cbn beta.
  assert (exists dep, wire environ read_file is_file postgres_connect nats_connect buildVersion role cfg = Ok dep)
    as [dep ->]; [|by exists dep].
  unfold wire. destruct (UseMemory cfg) eqn:Hm.
  { assert (AllowMemoryAuth cfg = true) as Ha by (unfold AllowMemoryAuth; by rewrite Hm).
    unfold requireWebhookSigningSecret, requireDeletionSigningSecret.
    destruct (secret_starts "WEBHOOK_SIGNING_SECRET" "demo-webhook-signing-secret"
      (se_WebhookSigningSecret (cfg_Secrets cfg)) cfg) as [s1 Hq1]; [unfold check_secret; by rewrite Ha|].
    destruct (secret_starts "DELETION_SIGNING_SECRET" "demo-deletion-signing-secret"
      (se_DeletionSigningSecret (cfg_Secrets cfg)) cfg) as [s2 Hq2]; [unfold check_secret; by rewrite Ha|].
    cbv [mbind result_bind]. rewrite Hq1, Hq2. by eexists. }
  destruct Hparts as [?|[Hev Hix]]; [done|].
  unfold Load in Hl. apply result_bind_Ok in Hl as (cfg' & Hfrom & Hl).
  apply result_bind_Ok in Hl as (u1 & _ & Hl). apply result_bind_Ok in Hl as ([] & Hv & [= ->]).
  apply result_bind_Ok in Hd as ([] & Hpg & Hd). apply result_bind_Ok in Hd as ([] & Hn & Hd).
  apply result_bind_Ok in Hd as ([] & _ & Hd). apply result_bind_Ok in Hd as ([] & _ & Hd).
  apply result_bind_Ok in Hd as ([] & Hf & Hd). apply result_bind_Ok in Hd as ([] & Hs1 & Hs2).
  assert (postgres_connect (pg_DSN (cfg_Postgres cfg)) = Ok tt) as Hc.
  { unfold check_postgres, doctor_dsn in Hpg. pose proof (validated_dsn _ Hv Hm) as He.
    rewrite (loaded_dsn _ Hfrom) in *. rewrite He in Hpg. apply result_bind_Ok in Hpg as (u & _ & Hpg).
    by apply result_bind_Ok in Hpg as ([] & Hp%wrap_error_ok & _). }
  destruct (identity_starts _ Hv Hm Hf) as [[identity authz] Hid]. destruct (bus_starts _ Hn) as [bus Hb].
  destruct (secret_starts _ _ _ _ Hs1) as [s1 Hw1]. destruct (secret_starts _ _ _ _ Hs2) as [s2 Hw2].
  destruct (postgres_evidence environ cfg) as [ev|] eqn:Hee; [|done].
  destruct (postgres_index role cfg) as [ix|] eqn:Hie; [|done].
  unfold requireWebhookSigningSecret, requireDeletionSigningSecret.
  cbv [mbind result_bind]. rewrite Hc, Hid, Hb, Hw1, Hw2. by eexists.
Qed.
End Doctor.

(** ** A healthy deployment *)
#[local] Instance healthy : Database unit := {|
  db_connect := fun _ _ => Ok tt; db_exec := fun _ d => (Ok tt, d); db_applied := fun _ _ => Ok true;
  db_record := fun _ d => (Ok tt, d); db_table := fun _ _ => Ok true |}.
#[local] Instance secured : Catalog unit := {|
  fts_column := fun _ => Ok true; gateway_role := fun _ => Ok true; forces_rls := fun _ _ => Ok true |}.
(** A catalog whose queries fail, as they do when the tables are missing *)
Definition bare_catalog : Catalog unit := {|
  fts_column := fun _ => Err (EPlain "no rows"); gateway_role := fun _ => Err (EPlain "no rows");
  forces_rls := fun _ _ => Err (EPlain "no rows") |}.
Definition pinned_environ : strmap := <["OPENFGA_API_TOKEN" := "t"]> demo_environ.
Definition one_migration : result GoError (list DirEntry) := Ok [mkDirEntry "001.sql" false (Ok "")].
Definition issuer_web : Web := {|
  KeySet.get := fun _ _ => KeySet.Answer 200 (json_struct [json_str "issuer" "https://issuer"]) None;
  KeySet.json_error := fun _ => "" |}.
Definition any_env : GoEnv := {| clock := fun _ => 0; fresh_id := fun _ => ""; uuid_sha1_oid := fun s => s |}.
Definition examine (catalog : Catalog unit) (environ : strmap) : result GoError unit :=
  @runDoctor any_env order_forward issuer_web unit healthy catalog environ demo_files (fun _ => false)
    (fun _ => Err (EPlain "yaml")) (fun _ => None) one_migration (fun _ => Ok tt) (fun _ _ => Ok tt) tt.

Example examined :
  examine secured pinned_environ = Ok tt /\
  examine secured demo_environ = Err (EPlain "OPENFGA_API_TOKEN required for non-demo profiles") /\
  examine secured (<["OPENFGA_STORE_ID" := "replace-after-bootstrap"]> pinned_environ)
  = Err (EPlain ("OPENFGA_STORE_ID must not use placeholder value " +:+ sprint_q "replace-after-bootstrap")).
Proof. vm_compute. split_and!; reflexivity. Qed.
(** A check of the catalog whose query fails is a warning: the doctor passes without the
    tables whose row-level security it is to see. *)
Example missing_tables_pass : examine bare_catalog pinned_environ = Ok tt.
Proof. vm_compute. reflexivity. Qed.
(** The index backend is not looked at: the doctor passes where [serve] does not start. *)
Example doctor_misses_index :
  let environ := delete "INDEX_BACKEND" pinned_environ in
  examine secured environ = Ok tt /\ is_ok (demo_start environ "serve") = false.
Proof. vm_compute. split; reflexivity. Qed.

Definition pinned_config : Config :=
  match Load (H := order_forward) pinned_environ demo_files (fun _ => Err (EPlain "yaml")) with
  | Ok cfg => cfg
  | Err _ => demo_production.1
  end.
Lemma doctor_predicts_start_witness : exists dep, demo_start pinned_environ "worker" = Ok (pinned_config, dep).
Proof.
  apply (@doctor_predicts_start any_env order_forward issuer_web unit healthy secured pinned_environ demo_files
    (fun _ => false) (fun _ => Err (EPlain "yaml")) (fun _ => None) one_migration (fun _ => Ok tt) (fun _ _ => Ok tt)
    "dev" tt "worker" pinned_config).
  - vm_compute. reflexivity.
  - vm_compute. reflexivity.
  - right. vm_compute. split; reflexivity.
Defined.

(** ** Bootstrap *)
Section Bootstrap.
Context `{Surroundings}.
Variable environ : strmap.
Abbreviation get := (os_getenv environ).
Implicit Types (m : Machine) (c : AdminCall).

(** An answer with a status below 300, which has this text *)
Definition answers c (meth url text : string) : Prop :=
  ad_Method c = meth /\ ad_URL c = url /\
  exists status, ad_Reply c = FGAClient.Answer status text /\ status < 300.
Definition created_store (api : string) c (id : string) : Prop :=
  exists text, answers c "POST" (trim_right_slashes api +:+ "/stores") text /\
    checked (unmarshal (dec_struct [("id", dec_string)]) text "") = Some id.
Definition written_model (api store : string) c (id : string) : Prop :=
  exists text a b, answers c "POST" (trim_right_slashes api +:+ "/stores/" +:+ store +:+ "/authorization-models") text /\
    checked (unmarshal dec_model text ("", "")) = Some (a, b) /\ id = firstNonEmpty [a; b] /\ id <> "".

Lemma answered_ok_Ok meth url body m text m' :
  answered_ok environ meth url body m = (Ok text, m') ->
  mc_Files m' = mc_Files m /\ exists c, mc_Calls m' = c :: mc_Calls m /\ answers c meth url text.
Proof.
  unfold answered_ok. intros Hc. apply bind_Ok in Hc as ([status t] & m1 & Hc & Hr).
  unfold call in Hc. cbv zeta in Hc. destruct (admin_reply _ _ _ _) as [e|e|st tx] eqn:Ha; try done.
  injection Hc as <- <- <-. destruct (Z.leb_spec 300 st) as [|Hs]; [done|]. injection Hr as <- <-.
  split; [done|]. eexists. split; [reflexivity|]. split_and!; [done..|]. by exists st.
Qed.
Lemma decoded_Ok {A} (dec : decoder A) zero text m x m' :
  decoded dec zero text m = (Ok x, m') -> m' = m /\ checked (unmarshal dec text zero) = Some x.
Proof. unfold decoded. destruct (checked _); [|done]. by intros [= -> ->]. Qed.

Lemma create_Ok api name m id m' :
  openfgaCreateStore environ api name m = (Ok id, m') ->
  mc_Files m' = mc_Files m /\ exists c, mc_Calls m' = c :: mc_Calls m /\ created_store api c id.
Proof.
  unfold openfgaCreateStore. intros Hc. apply bind_Ok in Hc as (text & m1 & (Hf & c & Hl & Ha)%answered_ok_Ok & Hc).
  apply bind_Ok in Hc as (x & m2 & [-> Hd]%decoded_Ok & Hc). destruct (is_empty x); [done|].
  injection Hc as <- <-. split; [done|]. exists c. split; [done|]. by exists text.
Qed.
Lemma write_Ok api store path m id m' :
  openfgaWriteAuthorizationModel environ api store path m = (Ok id, m') ->
  mc_Files m' = mc_Files m /\ exists c, mc_Calls m' = c :: mc_Calls m /\ written_model api store c id.
Proof.
  unfold openfgaWriteAuthorizationModel, read. intros Hc. rewrite (bind_run (gets _) _ _ _ _ eq_refl) in Hc.
  destruct (mc_Files m path) as [raw|e|e]; try done.
  destruct (unmarshal dec_anymap raw None) as [probe [|]]; [|done]. destruct (assoc _ _); [|done].
  apply bind_Ok in Hc as (text & m1 & (Hf & c & Hl & Ha)%answered_ok_Ok & Hc).
  apply bind_Ok in Hc as ([x y] & m2 & [-> Hd]%decoded_Ok & Hc). cbv zeta in Hc.
  destruct (is_empty (firstNonEmpty [x; y])) eqn:He; [done|]. injection Hc as <- <-.
  split; [done|]. exists c. split; [done|]. exists text, x, y. split_and!; try done. by apply is_empty_false.
Qed.
Lemma pin_Ok key content m m' :
  pin_file environ key content m = (Ok tt, m') ->
  mc_Calls m' = mc_Calls m /\
  (forall path, path <> trim_space (get (key +:+ "_FILE")) -> mc_Files m' path = mc_Files m path) /\
  (trim_space (get (key +:+ "_FILE")) <> "" -> trim_space content <> "" ->
   mc_Files m' (trim_space (get (key +:+ "_FILE"))) = FileText (trim_space content +:+ str1 (byte_of 10))).
Proof.
  unfold pin_file, writeBootstrapRuntimeFile. cbv zeta. set (path := trim_space (get (key +:+ "_FILE"))).
  destruct (is_empty path) eqn:Hp.
  { intros [= <-]. split_and!; [done..|]. intros Hn%is_empty_false. congruence. }
  assert (trim_space path = path) as Hi by apply trim_space_idem. rewrite Hi, Hp. cbn [orb].
  destruct (is_empty (trim_space content)) eqn:Hc.
  { intros [= <-]. split_and!; [done..|]. intros _ Hn%is_empty_false. congruence. }
  destruct (write_error _ _); [done|]. intros [= <-]. split_and!; [done|..].
  - intros p Hne. simpl. by apply String.eqb_neq in Hne as ->.
  - intros _ _. simpl. by rewrite String.eqb_refl.
Qed.
Lemma attempt_inv {S A} (f : M GoError S A) s r s1 : attempt f s = (Ok r, s1) -> f s = (r, s1).
Proof. unfold attempt. destruct (f s) as [x y]. by intros [= -> ->]. Qed.

(** Both ways of reading a variable with a second name *)
Lemma two_names k1 k2 :
  os_getenv environ "" = "" -> trim_space (first_env_or environ [k1; k2; ""]) = firstNonEmpty [get k1; get k2].
Proof.
  intros He. unfold firstNonEmpty. cbn [first_env_or fmap list_fmap]. rewrite He.
  change (trim_space "") with "". cbv zeta.
  destruct (is_empty (trim_space (get k1))) eqn:E1.
  - apply is_empty_true in E1. rewrite E1. destruct (is_empty (trim_space (get k2))) eqn:E2.
    + apply is_empty_true in E2. rewrite E2. reflexivity.
    + rewrite trim_space_idem. apply is_empty_false in E2. rewrite filter_cons_False by tauto.
      by rewrite filter_cons_True.
  - rewrite trim_space_idem. apply is_empty_false in E1. by rewrite filter_cons_True.
Qed.
Lemma firstNonEmpty_trimmed l : trim_space (firstNonEmpty l) = firstNonEmpty l.
Proof.
  unfold firstNonEmpty. induction l as [|x l IH]; [done|]. rewrite fmap_cons, filter_cons. case_decide; [|exact IH].
  apply trim_space_idem.
Qed.

(** A bootstrap configures what starts after it: from an environment without a store and
    without a model, a bootstrap that ends without an error has created a store and written
    the model into it, and the client of OpenFGA made from the same environment and the files
    it left uses that store and that model, unless the store's identifier is blank. *)
Theorem bootstrap_configures_client m m' :
  let api := firstNonEmpty [get "OPENFGA_API_URL"; get "OPENFGA_URL"] in
  let sp := trim_space (get "OPENFGA_STORE_ID_FILE") in
  let mp := trim_space (get "OPENFGA_MODEL_ID_FILE") in
  os_getenv environ "" = "" -> api <> "" -> sp <> "" -> mp <> "" -> sp <> mp ->
  is_placeholder (trim_space (get "OPENFGA_STORE_ID")) = true ->
  IsOpenFGAModelPlaceholder (firstNonEmpty [get "OPENFGA_MODEL_ID"; get "AUTHZ_MODEL_ID"]) = true ->
  bootstrapOpenFGA environ m = (Ok tt, m') ->
  exists c1 c2 store model,
    mc_Calls m' = c2 :: c1 :: mc_Calls m /\ created_store api c1 store /\ written_model api store c2 model /\
    (is_placeholder (trim_space store) = false ->
     NewFromEnv environ (mc_Files m')
     = Ok (mkFGAClient (trim_right_slashes api) (trim_space store) model (get "OPENFGA_API_TOKEN"))).
Proof.
  intros api sp mp He Hapi Hsp Hmp Hne Hstore Hmodel Hb. unfold bootstrapOpenFGA in Hb.
  rewrite (two_names _ _ He) in Hb. fold api in Hb. pose proof (proj2 (is_empty_false api) Hapi) as Hae. rewrite Hae in Hb.
  apply bind_Ok in Hb as (store & m2 & Hc & Hw).
  unfold bootstrap_store in Hc. rewrite Hstore in Hc. apply bind_Ok in Hc as (r & m1 & Hc%attempt_inv & Hp).
  destruct r as [created|e]; [|done]. apply create_Ok in Hc as (Hf1 & c1 & Hl1 & Hcr).
  apply bind_Ok in Hp as ([] & m1' & Hp & [= <- <-]). apply pin_Ok in Hp as (Hl2 & Ho2 & Hp2).
  unfold bootstrap_model in Hw. rewrite (two_names _ _ He), Hmodel in Hw.
  apply bind_Ok in Hw as (r & m3 & Hc%attempt_inv & Hp). destruct r as [model|e]; [|done].
  apply write_Ok in Hc as (Hf3 & c2 & Hl3 & Hwr). apply pin_Ok in Hp as (Hl4 & Ho4 & Hp4).
  exists c1, c2, created, model. split; [by rewrite Hl4, Hl3, Hl2, Hl1|]. split; [done|]. split; [done|].
  intros Hid. destruct Hwr as (text & a & b & _ & _ & Hm & Hmne).
  assert (trim_space model = model) as Hmt by (rewrite Hm; apply firstNonEmpty_trimmed).
  unfold is_placeholder, bootstrapPlaceholder in Hid, Hstore. apply orb_false_iff in Hid as [Hid1 Hid2].
  assert (mc_Files m' sp = FileText (trim_space created +:+ str1 (byte_of 10))) as Hfs.
  { rewrite Ho4 by done. rewrite Hf3. apply Hp2; [done | by apply is_empty_false]. }
  assert (mc_Files m' mp = FileText (model +:+ str1 (byte_of 10))) as Hfm.
  { rewrite <-Hmt at 1. apply Hp4; [done | by rewrite Hmt]. }
  unfold NewFromEnv. cbv zeta. fold api. rewrite Hstore, Hmodel. fold sp mp.
  unfold file_or. rewrite (proj2 (is_empty_false sp) Hsp), (proj2 (is_empty_false mp) Hmp), Hfs, Hfm.
  assert (trim_space (model +:+ str1 (byte_of 10)) = model) as Hnl.
  { rewrite <-Hmt at 1. by rewrite trim_space_newline. }
  rewrite trim_space_newline, !Hnl.
  rewrite Hae, Hid1, (proj2 (is_empty_false model) Hmne). cbn [orb]. by rewrite Hid2.
Qed.
End Bootstrap.

(** ** A server that numbers what it creates *)
#[local] Instance numbering : Surroundings := {|
  admin_reply := fun log _ url _ =>
    if has_suffix url "/stores" then FGAClient.Answer 201 (json_struct [json_str "id" ("store-" +:+ itoa (zlen log))])
    else FGAClient.Answer 201 (json_struct [json_str "authorization_model_id" ("model-" +:+ itoa (zlen log))]);
  write_error := fun _ _ => None; decode_error := fun _ => "" |}.
Definition fresh_environ : strmap :=
  list_to_map
    [("OPENFGA_API_URL", "http://fga/"); ("OPENFGA_STORE_ID", "replace-after-bootstrap");
     ("OPENFGA_STORE_ID_FILE", "/run/store"); ("OPENFGA_MODEL_ID_FILE", "/run/model")].
Definition fresh_machine : Machine :=
  mkMachine (fun p => if String.eqb p "contracts/openfga/model.json"
                      then FileText (json_struct [json_member "type_definitions" "[]"])
                      else FileMissing ("open " +:+ p)) [].
Definition bootstrap_once : result GoError unit * Machine := bootstrapOpenFGA fresh_environ fresh_machine.
Definition bootstrap_twice : result GoError unit * Machine := bootstrapOpenFGA fresh_environ bootstrap_once.2.

(** Bootstrap looks for the store in the environment only: a second run does not see the file
    that the first one left, and creates another store, which replaces it. *)
Example bootstrap_again :
  NewFromEnv fresh_environ (mc_Files bootstrap_once.2) = Ok (mkFGAClient "http://fga" "store-0" "model-1" "") /\
  bootstrap_twice.1 = Ok tt /\
  NewFromEnv fresh_environ (mc_Files bootstrap_twice.2) = Ok (mkFGAClient "http://fga" "store-2" "model-3" "").
Proof. vm_compute. split_and!; reflexivity. Qed.

Lemma bootstrap_configures_client_witness :
  exists c1 c2 store model, mc_Calls bootstrap_once.2 = [c2; c1] /\
    created_store "http://fga/" c1 store /\ written_model "http://fga/" store c2 model.
Proof.
  destruct (@bootstrap_configures_client numbering fresh_environ fresh_machine bootstrap_once.2)
    as (c1 & c2 & store & model & Hl & Hc & Hw & _);
    [reflexivity | done | done | done | done | vm_compute; reflexivity | vm_compute; reflexivity | vm_compute; reflexivity |].
  assert (firstNonEmpty [os_getenv fresh_environ "OPENFGA_API_URL"; os_getenv fresh_environ "OPENFGA_URL"]
          = "http://fga/") as Hapi by (vm_compute; reflexivity).
  rewrite Hapi in Hc, Hw. exists c1, c2, store, model. split; [exact Hl|]. split; [exact Hc | exact Hw].
Defined.
