(* ===== verification/Sql.v ===== *)
(** * The database behind [internal/adapters/postgres]

    The tables of [migrations/], a session of the role [context_gateway], and the
    transactions of [Pool.WithTenant]. A statement of [store.go] is translated as it is
    written: its parameters are checked, the rows it may see are those that the policy
    [tenant_isolation] shows it, and its constraints decide its error, of which the
    SQLSTATE is kept. What the server decides beyond that is an argument ([Server]): the
    connections that break, the clock, the order of the rows of a table, the collation.
    Transactions run one after the other; within one, the statements of the program are
    interleaved with no others. *)
From stdpp Require Import gmap.
From S2P Require Import Prelude GoStd Ports Platform Json Ledger Changes.

(** ** Parameters

    A [text] holds valid UTF-8 without a NUL byte. *)
Fixpoint valid_text (fuel : nat) (l : list ascii) : bool :=
  match fuel, l with
  | _, [] => true
  | S f, c :: _ =>
      negb (code c =? 0)%nat &&
      match rune_len l with Some n => valid_text f (drop n l) | None => false end
  | O, _ => false
  end.
Definition is_text (s : string) : bool := valid_text (String.length s) (bytes_of s).

(** What is left of a string in a JSON document: invalid bytes become U+FFFD. *)
Fixpoint scrub (fuel : nat) (l : list ascii) : list ascii :=
  match fuel, l with
  | S f, _ :: l' =>
      match rune_len l with
      | Some n => take n l ++ scrub f (drop n l)
      | None => rune_error ++ scrub f l'
      end
  | _, _ => []
  end.
Definition json_text (s : string) : string := of_bytes (scrub (String.length s) (bytes_of s)).

(** [mustJSON] of a [map[string]string], read by [jsonb]: of a repeated name the last
    member stays, and [\u0000] is refused. *)
Definition through_json (m : strmap) : strmap :=
  list_to_map (rev (prod_map json_text json_text <$> sort_slice name_less (map_to_list m))).
Definition is_jsonb (m : strmap) : bool := forallb (fun kv => is_text kv.1 && is_text kv.2) (map_to_list m).
Definition jsonb_map (m : strmap) : result string strmap :=
  let m := through_json m in
  if is_jsonb m then Ok m else Err "22P05".

(** A [timestamptz] counts microseconds. *)
Definition micros (t : Time) : Time := t / 1000 * 1000.

(** The client refuses an [int] that does not fit the column. *)
Definition int4 (n : Z) : result string Z :=
  if (- 2 ^ 31 <=? n) && (n <? 2 ^ 31) then Ok n else Err "int4".

Definition texts (l : list string) : result string unit := fail_if (negb (forallb is_text l)) "22021".

(** A [[]string] parameter: [nil] is [NULL], which a [NOT NULL] column refuses. *)
Definition text_array (is_nil : bool) (l : list string) : result string (list string) :=
  _ ← texts l; if is_nil then Err "23502" else Ok l.

(** ** Tables

    The primary key of a row is the key of its binding. The columns are those that the
    program writes: a Go string is never [NULL], and where it writes [NULL] for the empty
    string, it reads the empty string back. *)
Inductive attributes := ANull | AObject (m : strmap) | AArray.

Record SourceRow := mkSourceRow {
  sr_System : string; sr_DisplayName : string; sr_TrustTier : string; sr_MappingSpec : string;
  sr_Enabled : bool; sr_Attributes : attributes; sr_CreatedAt : Time; sr_UpdatedAt : Time;
}.
#[export] Instance SourceRow_eta : Settable SourceRow := fun r =>
  mkSourceRow (sr_System r) (sr_DisplayName r) (sr_TrustTier r) (sr_MappingSpec r) (sr_Enabled r)
    (sr_Attributes r) (sr_CreatedAt r) (sr_UpdatedAt r).

Record SpecRow := mkSpecRow { ms_SourceKind : string; ms_Rules : string; ms_CreatedAt : Time }.
#[export] Instance SpecRow_eta : Settable SpecRow := fun r =>
  mkSpecRow (ms_SourceKind r) (ms_Rules r) (ms_CreatedAt r).

Record OutboxRow := mkOutboxRow { ox_Entry : OutboxEntry; ox_LeaseUntil : option Time }.
#[export] Instance OutboxRow_eta : Settable OutboxRow := fun r => mkOutboxRow (ox_Entry r) (ox_LeaseUntil r).

Record ExportRow := mkExportRow {
  xr_Status : string; xr_ManifestURI : string; xr_CreatedAt : Time; xr_CompletedAt : option Time;
}.
#[export] Instance ExportRow_eta : Settable ExportRow := fun r =>
  mkExportRow (xr_Status r) (xr_ManifestURI r) (xr_CreatedAt r) (xr_CompletedAt r).

Record DocumentRow := mkDocumentRow {
  dr_RevisionID : string; dr_Text : string; dr_Tags : list string; dr_Attributes : strmap;
  dr_Title : string; dr_Kind : string; dr_ContextSpaceID : string; dr_Summary : string; dr_UpdatedAt : Time;
}.

Record CredentialRow := mkCredentialRow {
  cw_AgentID : string; cw_OwnerID : string; cw_SecretHash : string; cw_ExpiresAt : option Time;
  cw_Revoked : bool; cw_CreatedAt : Time;
}.
#[export] Instance CredentialRow_eta : Settable CredentialRow := fun r =>
  mkCredentialRow (cw_AgentID r) (cw_OwnerID r) (cw_SecretHash r) (cw_ExpiresAt r) (cw_Revoked r) (cw_CreatedAt r).

(** A legal hold, written by an operator *)
Record HoldRow := mkHoldRow { hd_Held : bool; hd_ReleasedAt : option Time }.

Abbreviation table V := (gmap (string * string) V).
Record Tables := mkTables {
  organizations : gmap string Organization;
  resources : table LedgerRecord;
  revisions : table Revision;
  records : gmap (string * (string * string)) IdempotencyRecord;
  sources : table SourceRow;
  mapping_specs : gmap (string * (string * string)) SpecRow;
  delegation_grants : table DelegationGrant;
  agent_credentials : table CredentialRow;
  outbox : table OutboxRow;
  consumer_receipts : table InboxEntry;
  audit_events : table AuditEvent;
  change_events : table ChangeEvent;
  webhook_subscriptions : table Subscription;
  webhook_deliveries : table DeliveryAttempt;
  export_jobs : table ExportRow;
  quotas : gmap (string * unit) Quota;
  search_documents : table DocumentRow;
  access_requests : table AccessRequest;
  graph_edges : table GraphEdge;
  authz_tuple_outbox : table AuthzTupleOp;
  legal_holds : table HoldRow;
}.
#[export] Instance Tables_eta : Settable Tables := fun t =>
  mkTables (organizations t) (resources t) (revisions t) (records t) (sources t) (mapping_specs t)
    (delegation_grants t) (agent_credentials t) (outbox t) (consumer_receipts t) (audit_events t)
    (change_events t) (webhook_subscriptions t) (webhook_deliveries t) (export_jobs t) (quotas t)
    (search_documents t) (access_requests t) (graph_edges t) (authz_tuple_outbox t) (legal_holds t).
Definition emptyTables : Tables :=
  mkTables ∅ ∅ ∅ ∅ ∅ ∅ ∅ ∅ ∅ ∅ ∅ ∅ ∅ ∅ ∅ ∅ ∅ ∅ ∅ ∅ ∅.

(** ** The server *)

(** A broken connection: the error of the client, and whether a statement that ends a
    transaction took effect all the same *)
Record Fault := mkFault { f_Error : string; f_Applied : bool }.

Class Server := {
  pg_fault : nat -> option Fault;
  (** [now()] of the transaction that begins with this round trip *)
  pg_now : nat -> Time;
  (** The rows of a table in the order in which this statement finds them *)
  pg_rows : forall {K V : Type} `{Countable K}, nat -> gmap K V -> list (K * V);
  pg_rows_perm : forall {K V : Type} `{Countable K} n (m : gmap K V), pg_rows n m ≡ₚ map_to_list m;
  (** The order of the collation on [text] *)
  text_lt : string -> string -> bool;
  #[global] text_lt_total :: StrictTotal text_lt;
  (** [information_schema.tables] *)
  pg_has_table : string -> bool;
}.

(** [app.organization_id] of the session, [None] when it is not set (or is the empty string
    that a transaction leaves behind, since no row is of that organization), and [now()] *)
Record Tx := mkTx { tx_Org : option string; tx_Now : Time; tx_Trip : nat }.

Record Session := mkSession {
  ss_Tables : Tables; ss_Org : option string; ss_Now : Time; ss_Aborted : bool; ss_Trips : nat;
}.
#[export] Instance Session_eta : Settable Session := fun s =>
  mkSession (ss_Tables s) (ss_Org s) (ss_Now s) (ss_Aborted s) (ss_Trips s).

(** The database with the round trips made to it *)
Record Database := mkDatabase { db_Tables : Tables; db_Trips : nat }.
#[export] Instance Database_eta : Settable Database := fun d => mkDatabase (db_Tables d) (db_Trips d).

Abbreviation sql := (M string Tables).
Abbreviation session := (M GoError Session).
Abbreviation database := (M GoError Database).

(** [*pgconn.PgError], of which the code is kept *)
Definition pg_error (code : string) : GoError := EPlain ("SQLSTATE " +:+ code).
Definition ErrTxCommitRollback : GoError := EPlain "commit unexpectedly resulted in rollback".

Section Statements.
Context `{Server}.

(** The query of [information_schema] itself needs no table of the program. *)
Definition has_table (name : string) : bool := is_empty name || pg_has_table name.

(** A statement of a transaction: after an error the server refuses every other one. *)
Definition statement {A} (name : string) (st : Tx -> sql A) : session A := fun s =>
  let n := ss_Trips s in
  let s := s <| ss_Trips := S n |> in
  match pg_fault n with
  | Some f => (Err (EPlain (f_Error f)), s <| ss_Aborted := true |>)
  | None =>
      if ss_Aborted s then (Err (pg_error "25P02"), s)
      else if negb (has_table name) then (Err (pg_error "42P01"), s <| ss_Aborted := true |>)
      else match st (mkTx (ss_Org s) (ss_Now s) n) (ss_Tables s) with
           | (Ok a, t) => (Ok a, s <| ss_Tables := t |>)
           | (Err code, _) => (Err (pg_error code), s <| ss_Aborted := true |>)
           end
  end.

(** A statement of its own transaction, on a connection without a tenant *)
Definition autocommit {A} (name : string) (st : Tx -> sql A) : database A := fun d =>
  let n := db_Trips d in
  let d := d <| db_Trips := S n |> in
  let '(r, t) :=
    if negb (has_table name) then (Err "42P01", db_Tables d)
    else match st (mkTx None (pg_now n) n) (db_Tables d) with
         | (Ok a, t) => (Ok a, t)
         | (Err code, _) => (Err code, db_Tables d)
         end in
  match pg_fault n with
  | Some f => (Err (EPlain (f_Error f)), if f_Applied f then d <| db_Tables := t |> else d)
  | None => match r with
            | Ok a => (Ok a, d <| db_Tables := t |>)
            | Err code => (Err (pg_error code), d)
            end
  end.

(** [SELECT set_config('app.organization_id', $1, true)] *)
Definition set_config (orgID : string) : session unit := fun s =>
  let n := ss_Trips s in
  let s := s <| ss_Trips := S n |> in
  match pg_fault n with
  | Some f => (Err (EPlain (f_Error f)), s <| ss_Aborted := true |>)
  | None =>
      if is_text orgID then (Ok tt, s <| ss_Org := Some orgID |>)
      else (Err (pg_error "22021"), s <| ss_Aborted := true |>)
  end.

(** The answer to [COMMIT] of an aborted transaction is [ROLLBACK]. *)
Definition commit {A} (a : A) (d : Database) (s : Session) : result GoError A * Database :=
  let n := ss_Trips s in
  let before := d <| db_Trips := S n |> in
  let after := mkDatabase (ss_Tables s) (S n) in
  match pg_fault n with
  | Some f => (Err (EPlain (f_Error f)), if f_Applied f && negb (ss_Aborted s) then after else before)
  | None => if ss_Aborted s then (Err ErrTxCommitRollback, before) else (Ok a, after)
  end.

(** [Pool.WithTenant]; the deferred [Rollback] is one more round trip. *)
Definition WithTenant {A} (orgID : string) (fn : session A) : database A := fun d =>
  if is_empty orgID then (Err (ErrValidation "organization_id required"), d)
  else
    let n := db_Trips d in
    match pg_fault n with
    | Some f => (Err (EPlain (f_Error f)), d <| db_Trips := S n |>)
    | None =>
        let s := mkSession (db_Tables d) None (pg_now n) false (S n) in
        match set_config orgID s with
        | (Err e, s) => (Err (EWrap "set tenant" e), d <| db_Trips := S (ss_Trips s) |>)
        | (Ok _, s) =>
            match fn s with
            | (Err e, s) => (Err e, d <| db_Trips := S (ss_Trips s) |>)
            | (Ok a, s) => commit a d s
            end
        end
    end.
Definition WithOrgTx {A} (orgID : string) (fn : session A) : database A := WithTenant orgID fn.
End Statements.

(** ** Rows *)

(** The policy [tenant_isolation] of a table, for the role [context_gateway] *)
Definition tenant_isolation (tx : Tx) (org : string) : bool := bool_decide (tx_Org tx = Some org).
(** A [SECURITY DEFINER] function runs as the owner, a superuser. *)
Definition definer (org : string) : bool := true.

Section Rows.
Context `{Server} {K V : Type} `{Countable K}.
Context (tbl : Tables -> gmap (string * K) V) `{!Setter tbl} (policy : string -> bool).

Definition visible (t : Tables) : gmap (string * K) V := filter (fun kv => policy kv.1.1 = true) (tbl t).

(** [SELECT ... WHERE keep], the rows in the order they are found *)
Definition select (tx : Tx) (keep : string * K -> V -> bool) : sql (list (string * K * V)) :=
  gets (fun t => filter (fun kv => keep kv.1 kv.2 = true) (pg_rows (tx_Trip tx) (visible t))).
Definition select_row (k : string * K) : sql (option V) := gets (fun t => visible t !! k).

(** [WITH CHECK] of the policy *)
Definition new_row (k : string * K) (v : V) : sql unit :=
  _ ← throw_if (negb (policy k.1)) "42501"; modify (set tbl <[k := v]>).

(** [INSERT], [... ON CONFLICT (key) DO UPDATE] and [... DO NOTHING], which tells whether
    a row was inserted *)
Definition insert_row (k : string * K) (v : V) : sql unit :=
  _ ← throw_if (negb (policy k.1)) "42501";
  old ← gets (fun t => tbl t !! k);
  match old with Some _ => throw "23505" | None => new_row k v end.
Definition insert_or_update (k : string * K) (v : V) (update : V -> V) : sql unit :=
  _ ← throw_if (negb (policy k.1)) "42501";
  old ← gets (fun t => tbl t !! k);
  match old with Some w => new_row k (update w) | None => new_row k v end.
Definition insert_or_ignore (k : string * K) (v : V) : sql bool :=
  _ ← throw_if (negb (policy k.1)) "42501";
  old ← gets (fun t => tbl t !! k);
  match old with Some _ => mret false | None => _ ← new_row k v; mret true end.

(** [UPDATE ... WHERE keep]: the rows affected *)
Definition update_where (keep : string * K -> V -> bool) (f : V -> V) : sql Z :=
  fun t =>
    let hit k v := policy k.1 && keep k v in
    (Ok (Z.of_nat (size (filter (fun kv => hit kv.1 kv.2 = true) (tbl t)))),
     set tbl (fun m => map_imap (fun k v => Some (if hit k v then f v else v)) m) t).
Definition delete_where (keep : string * K -> V -> bool) : sql unit :=
  modify (set tbl (fun m => filter (fun kv => policy kv.1.1 && keep kv.1 kv.2 = false) m)).
End Rows.

(** A server without faults, for concrete runs: a second passes between two round trips. *)
Definition quiet_server : Server := {|
  pg_fault := fun _ => None;
  pg_now := fun n => Z.of_nat n * second;
  pg_rows := fun K V _ _ _ m => map_to_list m;
  pg_rows_perm := fun K V _ _ _ m => reflexivity _;
  text_lt := str_lt;
  text_lt_total := _;
  pg_has_table := fun _ => true;
|}.
