(* ===== verification/Postgres.v ===== *)
(** * [internal/adapters/postgres/store.go]: the ledger on PostgreSQL

    A method with a [ports.Tx] is a program over the [Session] of its transaction, the
    others are programs over the [Database]. [is_nil] tells whether the slice of strings
    that a method writes is [nil], where that makes a difference; a [Payload] is not, since
    it is the result of an encoder. *)
From S2P Require Import Prelude GoStd Ports Platform Json Mapping MappingSpec OpenFGA Ledger Changes Sql.

(** [mustJSON] of a map where the program tells [nil] apart *)
Definition jsonb_opt (m : option strmap) : result string (option strmap) :=
  match m with Some m => Some <$> jsonb_map m | None => Ok None end.

Definition has_organization (org : string) (t : Tables) : bool :=
  bool_decide (is_Some (organizations t !! org)).
Definition has_resource (org id : string) (t : Tables) : bool :=
  bool_decide (is_Some (resources t !! (org, id))).
(** [FOREIGN KEY] *)
Definition references (ok : Tables -> bool) : sql unit :=
  b ← gets ok; throw_if (negb b) "23503".
Definition unique (ok : Tables -> bool) : sql unit :=
  b ← gets ok; throw_if (negb b) "23505".

(** [ORDER BY created_at ASC] *)
Definition by_time {A} (f : A -> Time) (a b : A) : bool := f a <? f b.
Definition found {A} (missing : string) (row : option A) : result GoError A :=
  match row with Some a => Ok a | None => Err (ErrNotFound missing) end.

Section Store.
Context `{Server}.

(** ** Organizations, a table without a policy *)
Definition CreateOrganization (org : Organization) : database unit :=
  autocommit "organizations" (fun tx =>
    _ ← of_result (texts [org_ID org; org_Name org]);
    attrs ← of_result (jsonb_map (org_Attributes org));
    taken ← gets (has_organization (org_ID org));
    _ ← throw_if taken "23505";
    modify (set organizations <[org_ID org :=
      mkOrganization (org_ID org) (org_Name org) attrs (micros (org_CreatedAt org))]>)).

Definition GetOrganization (orgID : string) : database Organization :=
  row ← autocommit "organizations" (fun tx =>
          _ ← of_result (texts [orgID]); gets (fun t => organizations t !! orgID));
  of_result (found "organization not found" row).

(** ** Records *)
Definition record_row (rec : LedgerRecord) (is_nil : bool) (kind state : string)
    (created updated : Time) : result string LedgerRecord :=
  _ ← texts [rec_ResourceID rec; rec_OrgID rec; rec_Kind rec; rec_Title rec; rec_Classification rec;
             rec_SourceSystem rec; rec_ExternalID rec; rec_CurrentRevID rec; state];
  tags ← text_array is_nil (rec_Labels rec);
  attrs ← jsonb_map (rec_Attributes rec);
  Ok (mkRecord (rec_ResourceID rec) (rec_OrgID rec) (or_default (rec_Kind rec) kind) (rec_Title rec)
        (or_default (rec_Classification rec) "internal") tags (rec_SourceSystem rec)
        (rec_ExternalID rec) (rec_CurrentRevID rec) state attrs (micros created) (micros updated)).

Definition UpsertRecord (rec : LedgerRecord) (is_nil : bool) : session unit :=
  statement "resources" (fun tx =>
    row ← of_result (record_row rec is_nil "document" (or_default (rec_State rec) "ACCEPTED")
                       (rec_CreatedAt rec) (rec_UpdatedAt rec));
    _ ← insert_or_update resources (tenant_isolation tx) (rec_OrgID rec, rec_ResourceID rec) row
          (fun old =>
             let old := (old <| rec_Title := rec_Title row |>) <| rec_Classification := rec_Classification row |> in
             let old := (old <| rec_Labels := rec_Labels row |>) <| rec_CurrentRevID := rec_CurrentRevID row |> in
             let old := (old <| rec_State := rec_State row |>) <| rec_Attributes := rec_Attributes row |> in
             old <| rec_UpdatedAt := rec_UpdatedAt row |>);
    references (has_organization (rec_OrgID rec))).

Definition GetRecordTx (orgID resourceID : string) : session LedgerRecord :=
  row ← statement "resources" (fun tx =>
          _ ← of_result (texts [orgID; resourceID]);
          select_row resources (tenant_isolation tx) (orgID, resourceID));
  of_result (found "record not found" row).
Definition GetRecord (orgID resourceID : string) : database LedgerRecord :=
  WithTenant orgID (GetRecordTx orgID resourceID).

Definition record_order (a b : string * string * LedgerRecord) : bool :=
  then_by (fun kv => rec_CreatedAt kv.2) Z.ltb (fun a b => text_lt a.1.2 b.1.2) a b.

(** The columns that [ListRecords] reads; the other fields keep their zero value. *)
Definition listed_record (r : LedgerRecord) : LedgerRecord :=
  mkRecord (rec_ResourceID r) (rec_OrgID r) (rec_Kind r) (rec_Title r) (rec_Classification r) [] "" ""
    (rec_CurrentRevID r) "" ∅ (rec_CreatedAt r) (rec_UpdatedAt r).

Definition offset_of (cursor : string) : Z :=
  match parse_int cursor with
  | (n, None) => if negb (is_empty cursor) && (0 <? n) then n else 0
  | _ => 0
  end.

Definition ListRecords (orgID : string) (limit : Z) (cursor : string)
    : database (list LedgerRecord * string) :=
  let limit := or_limit limit 50 in
  let offset := offset_of cursor in
  out ← WithTenant orgID (statement "resources" (fun tx =>
          _ ← of_result (texts [orgID]);
          rows ← select resources (tenant_isolation tx) tx (fun k _ => String.eqb k.1 orgID);
          mret ((fun kv => listed_record kv.2) <$>
            ztake limit (zdrop offset (sort_slice record_order rows)))));
  mret (out, if zlen out =? limit then itoa (wrap64 (offset + zlen out)) else "").

Definition InsertPlaceholder (now : Time) (rec : LedgerRecord) (is_nil : bool) : session bool :=
  let created := or_now (rec_CreatedAt rec) now in
  let state := or_default (rec_State rec) LifecyclePlaceholder in
  let rec := rec <| rec_Attributes := <["placeholder" := "true"]> (rec_Attributes rec) |> in
  statement "resources" (fun tx =>
    row ← of_result (record_row rec is_nil "resource" state created now);
    inserted ← insert_or_ignore resources (tenant_isolation tx) (rec_OrgID rec, rec_ResourceID rec) row;
    _ ← (if inserted : bool then references (has_organization (rec_OrgID rec)) else mret tt);
    mret inserted).

(** [WHERE ... OR TRUE] lets the update happen in every state. *)
Definition PromotePlaceholder (now : Time) (rec : LedgerRecord) (is_nil : bool) : session unit :=
  let state := if is_empty (rec_State rec) || unresolved_state (rec_State rec)
               then LifecycleAccepted else rec_State rec in
  let rec := rec <| rec_Attributes := delete "ensured" (delete "placeholder" (rec_Attributes rec)) |> in
  statement "resources" (fun tx =>
    row ← of_result (record_row rec is_nil "document" state (or_now (rec_CreatedAt rec) now) now);
    _ ← insert_or_update resources (tenant_isolation tx) (rec_OrgID rec, rec_ResourceID rec) row
          (fun old => (row <| rec_Kind := rec_Kind old |>) <| rec_CreatedAt := rec_CreatedAt old |>);
    references (has_organization (rec_OrgID rec))).

(** ** Revisions *)
Definition AppendRevision (rev : Revision) : session unit :=
  statement "revisions" (fun tx =>
    _ ← of_result (texts [rev_RevisionID rev; rev_OrgID rev; rev_ResourceID rev; rev_ContentHash rev;
                          rev_EvidenceRef rev; rev_State rev]);
    attrs ← of_result (jsonb_map (rev_Attributes rev));
    let row := ((rev <| rev_Attributes := attrs |>) <| rev_ObservedAt := micros (rev_ObservedAt rev) |>)
                 <| rev_CreatedAt := micros (rev_CreatedAt rev) |> in
    _ ← insert_row revisions (tenant_isolation tx) (rev_OrgID rev, rev_RevisionID rev) row;
    references (has_resource (rev_OrgID rev) (rev_ResourceID rev))).

Definition GetRevision (orgID revisionID : string) : database Revision :=
  WithTenant orgID (
    row ← statement "revisions" (fun tx =>
            _ ← of_result (texts [orgID; revisionID]);
            select_row revisions (tenant_isolation tx) (orgID, revisionID));
    of_result (found "revision not found" row)).

(** [ListRevisions] reads neither the hash, nor the evidence, nor the attributes. *)
Definition listed_revision (r : Revision) : Revision :=
  mkRevision (rev_RevisionID r) (rev_ResourceID r) (rev_OrgID r) "" "" (rev_Sequence r) (rev_State r) ∅
    (rev_ObservedAt r) (rev_CreatedAt r).

Definition ListRevisions (orgID resourceID : string) (limit : Z) : database (list Revision) :=
  WithTenant orgID (statement "revisions" (fun tx =>
    _ ← of_result (texts [orgID; resourceID]);
    rows ← select revisions (tenant_isolation tx) tx
             (fun k r => String.eqb k.1 orgID && String.eqb (rev_ResourceID r) resourceID);
    mret (listed_revision <$>
      ztake (or_limit limit 50) (sort_slice (fun a b => rev_Sequence b <? rev_Sequence a) rows.*2)))).

(** ** Outbox and receipts *)
Definition EnqueueOutbox (entry : OutboxEntry) : session unit :=
  statement "outbox" (fun tx =>
    _ ← of_result (texts [ob_ID entry; ob_OrgID entry; ob_Subject entry]);
    headers ← of_result (jsonb_opt (ob_Headers entry));
    let row := ((entry <| ob_Headers := headers |>) <| ob_CreatedAt := micros (ob_CreatedAt entry) |>)
                 <| ob_Published := None |> in
    insert_row outbox (tenant_isolation tx) (ob_OrgID entry, ob_ID entry) (mkOutboxRow row None)).

Definition lease_over (now : Time) (lease : option Time) : bool :=
  match lease with None => true | Some t => t <? now end.
Definition unpublished (e : OutboxEntry) : bool :=
  match ob_Published e with None => true | Some _ => false end.

(** [claim_outbox_batch]: the rows are found by the identifier alone. *)
Definition claim_outbox_batch (tx : Tx) (limit : Z) (lease : Z) : sql (list OutboxEntry) :=
  let limit := if limit <? 1 then 10 else limit in
  due ← select outbox definer tx (fun _ r => unpublished (ox_Entry r) && lease_over (tx_Now tx) (ox_LeaseUntil r));
  let ids := (fun kv => kv.1.2) <$>
               ztake limit (sort_slice (by_time (fun kv => ob_CreatedAt (ox_Entry kv.2))) due) in
  _ ← update_where outbox definer (fun k _ => mem_str k.2 ids)
        (fun r => r <| ox_LeaseUntil := Some (tx_Now tx + lease) |>);
  rows ← select outbox definer tx (fun k _ => mem_str k.2 ids);
  mret ((fun kv => ox_Entry kv.2) <$> rows).

Definition ClaimOutbox (limit : Z) : database (list OutboxEntry) :=
  autocommit "outbox" (fun tx =>
    n ← of_result (int4 (or_limit limit 10)); claim_outbox_batch tx n (30 * second)).

Definition ListOutboxPending (orgID : string) (limit : Z) : database (list OutboxEntry) :=
  autocommit "outbox" (fun tx =>
    _ ← of_result (texts [orgID]);
    rows ← select outbox (tenant_isolation tx) tx
             (fun k r => unpublished (ox_Entry r) && (is_empty orgID || String.eqb k.1 orgID));
    mret (ztake (or_limit limit 100)
            (sort_slice (by_time ob_CreatedAt) ((fun kv => ox_Entry kv.2) <$> rows)))).

(** [mark_outbox_published_batch] *)
Definition MarkOutboxPublished (ids : list string) (at_ : Time) : database unit :=
  autocommit "outbox" (fun tx =>
    _ ← of_result (texts ids);
    _ ← update_where outbox definer (fun k r => mem_str k.2 ids && unpublished (ox_Entry r))
          (fun r => mkOutboxRow ((ox_Entry r) <| ob_Published := Some (micros at_) |>) None);
    mret tt).

Definition same_receipt (consumer msgID : string) (r : InboxEntry) : bool :=
  String.eqb (in_Consumer r) consumer && String.eqb (in_MsgID r) msgID.
Definition has_receipt (tx : Tx) (orgID consumer msgID : string) : sql bool :=
  rows ← select consumer_receipts (tenant_isolation tx) tx
           (fun k r => String.eqb k.1 orgID && same_receipt consumer msgID r);
  mret (negb (bool_decide (rows = []))).

Definition PutInbox (entry : InboxEntry) : database unit :=
  WithTenant (in_OrgID entry) (statement "consumer_receipts" (fun tx =>
    _ ← of_result (texts [in_ID entry; in_OrgID entry; in_Consumer entry; in_MsgID entry]);
    taken ← has_receipt tx (in_OrgID entry) (in_Consumer entry) (in_MsgID entry);
    if taken : bool then mret tt
    else insert_row consumer_receipts (tenant_isolation tx) (in_OrgID entry, in_ID entry)
           (mkInbox (in_ID entry) (in_OrgID entry) (in_Consumer entry) (in_MsgID entry)
              (micros (in_ProcessedAt entry))))).

Definition HasInbox (orgID consumer msgID : string) : database bool :=
  WithTenant orgID (statement "consumer_receipts" (fun tx =>
    _ ← of_result (texts [orgID; consumer; msgID]);
    has_receipt tx orgID consumer msgID)).

(** ** Idempotency keys, rows of [records] *)
Definition keyed (tx : Tx) (orgID key : string) : sql (list IdempotencyRecord) :=
  rows ← select records (tenant_isolation tx) tx
           (fun k r => String.eqb k.1 orgID && String.eqb (idem_IdempotencyKey r) key);
  mret rows.*2.

Definition GetIdempotency (orgID key : string) : database IdempotencyRecord :=
  WithTenant orgID (
    rows ← statement "records" (fun tx => _ ← of_result (texts [orgID; key]); keyed tx orgID key);
    of_result (found "idempotency key not found" (head rows))).

Definition PutIdempotency (rec : IdempotencyRecord) : session unit :=
  let org := idem_OrgID rec in let key := idem_IdempotencyKey rec in
  _ ← statement "records" (fun tx =>
        _ ← of_result (texts [org; idem_ResourceID rec; idem_RevisionID rec; key]);
        attrs ← of_result (jsonb_map {["event_id" := idem_EventID rec]});
        taken ← keyed tx org key;
        if bool_decide (taken = []) then
          insert_row records (tenant_isolation tx) (org, (idem_ResourceID rec, idem_RevisionID rec))
            (mkIdempotency org key (attr attrs "event_id") (idem_ResourceID rec) (idem_RevisionID rec)
               (micros (idem_CreatedAt rec)))
        else mret tt);
  rows ← statement "records" (fun tx => keyed tx org key);
  throw_if (negb (existsb (fun r => String.eqb (idem_RevisionID r) (idem_RevisionID rec)) rows))
    (ErrConflict "idempotency key exists").

(** ** Sources, as far as the table has columns for them *)
Definition nil_attributes (is_nil : bool) (m : strmap) : attributes := if is_nil then ANull else AObject m.
Definition attributes_map (a : attributes) : strmap := match a with AObject m => m | _ => ∅ end.

Definition UpsertSource (src : SourceRegistration) (is_nil : bool) : session unit :=
  statement "sources" (fun tx =>
    _ ← of_result (texts [src_SourceID src; src_OrgID src; src_System src; src_DisplayName src;
                          src_TrustTier src; src_MappingSpec src]);
    attrs ← of_result (jsonb_map (src_Attributes src));
    let row := mkSourceRow (src_System src) (src_DisplayName src) (src_TrustTier src) (src_MappingSpec src)
                 (src_Enabled src) (nil_attributes is_nil attrs) (micros (src_CreatedAt src))
                 (micros (src_UpdatedAt src)) in
    _ ← insert_or_update sources (tenant_isolation tx) (src_OrgID src, src_SourceID src) row
          (fun old =>
             let old := (old <| sr_DisplayName := sr_DisplayName row |>) <| sr_TrustTier := sr_TrustTier row |> in
             let old := (old <| sr_Enabled := sr_Enabled row |>) <| sr_Attributes := sr_Attributes row |> in
             old <| sr_UpdatedAt := sr_UpdatedAt row |>);
    references (has_organization (src_OrgID src))).

Definition source_of (orgID sourceID : string) (spec : string) (attrs : strmap) (r : SourceRow)
    : SourceRegistration :=
  mkSource sourceID orgID (sr_System r) (sr_DisplayName r) (sr_TrustTier r) "" "" "" "" spec "" (sr_Enabled r)
    "" 0 [] [] attrs (sr_CreatedAt r) (sr_UpdatedAt r).

Definition GetSource (orgID sourceID : string) : database SourceRegistration :=
  WithTenant orgID (
    row ← statement "sources" (fun tx =>
            _ ← of_result (texts [orgID; sourceID]);
            select_row sources (tenant_isolation tx) (orgID, sourceID));
    r ← of_result (found "source not found" row);
    mret (source_of orgID sourceID (sr_MappingSpec r) (attributes_map (sr_Attributes r)) r)).

(** [ListSources] reads neither the mapping nor the attributes. *)
Definition ListSources (orgID : string) : database (list SourceRegistration) :=
  WithTenant orgID (statement "sources" (fun tx =>
    _ ← of_result (texts [orgID]);
    rows ← select sources (tenant_isolation tx) tx (fun k _ => String.eqb k.1 orgID);
    mret ((fun kv => source_of kv.1.1 kv.1.2 "" ∅ kv.2) <$> rows))).

(** ** Delegations; the budget has a column, but is not written. *)
Definition CreateDelegation (grant : DelegationGrant) (nil_actions nil_resources nil_purposes : bool)
    : session unit :=
  statement "delegation_grants" (fun tx =>
    _ ← of_result (texts [dg_ID grant; dg_OrgID grant; dg_SubjectID grant; dg_ActorID grant; dg_OwnerID grant]);
    actions ← of_result (text_array nil_actions (dg_Actions grant));
    ids ← of_result (text_array nil_resources (dg_ResourceIDs grant));
    purposes ← of_result (text_array nil_purposes (dg_Purposes grant));
    insert_row delegation_grants (tenant_isolation tx) (dg_OrgID grant, dg_ID grant)
      (mkDelegationGrant (dg_ID grant) (dg_OrgID grant) (dg_SubjectID grant) (dg_ActorID grant)
         (dg_OwnerID grant) actions ids purposes (micros <$> dg_ExpiresAt grant) None (dg_Revoked grant)
         (micros (dg_CreatedAt grant)))).

Definition GetDelegation (orgID grantID : string) : database DelegationGrant :=
  WithTenant orgID (
    row ← statement "delegation_grants" (fun tx =>
            _ ← of_result (texts [orgID; grantID]);
            select_row delegation_grants (tenant_isolation tx) (orgID, grantID));
    of_result (found "delegation not found" row)).

(** [RowsAffected() == 0] *)
Definition affected (missing : string) (n : Z) : result GoError unit :=
  fail_if (n =? 0) (ErrNotFound missing).

Definition RevokeDelegation (orgID grantID : string) : session unit :=
  n ← statement "delegation_grants" (fun tx =>
        _ ← of_result (texts [orgID; grantID]);
        update_where delegation_grants (tenant_isolation tx) (fun k _ => bool_decide (k = (orgID, grantID)))
          (fun g => g <| dg_Revoked := true |>));
  of_result (affected "delegation not found" n).

Definition ListDelegations (orgID actorID : string) : database (list DelegationGrant) :=
  WithTenant orgID (statement "delegation_grants" (fun tx =>
    _ ← of_result (texts [orgID; actorID]);
    rows ← select delegation_grants (tenant_isolation tx) tx
             (fun k g => String.eqb k.1 orgID && (is_empty actorID || String.eqb (dg_ActorID g) actorID));
    mret rows.*2)).

(** ** Graph edges *)
Definition is_active (e : GraphEdge) : bool := String.eqb (edge_State e) "ACTIVE".
Definition triple (e : GraphEdge) : string * string * string := (edge_FromID e, edge_ToID e, edge_Predicate e).

(** The index [uq_graph_edges_active_triple], for the row just written *)
Definition active_triple_unique (org id : string) (e : GraphEdge) (t : Tables) : bool :=
  negb (is_active e) ||
  bool_decide (map_Forall (fun k e' => k.1 = org -> k.2 <> id -> is_active e' = true -> triple e' <> triple e)
    (graph_edges t)).
Definition edge_references (e : GraphEdge) : sql unit :=
  references (fun t => has_organization (edge_OrgID e) t && has_resource (edge_OrgID e) (edge_FromID e) t
                       && has_resource (edge_OrgID e) (edge_ToID e) t).

Definition active_id (e : GraphEdge) : session (option string) :=
  statement "graph_edges" (fun tx =>
    _ ← of_result (texts [edge_OrgID e; edge_FromID e; edge_ToID e; edge_Predicate e]);
    rows ← select graph_edges (tenant_isolation tx) tx
             (fun k e' => String.eqb k.1 (edge_OrgID e) && bool_decide (triple e' = triple e) && is_active e');
    mret (head ((fun kv => kv.1.2) <$> rows))).

Definition insert_edge (edge : GraphEdge) : session unit :=
  statement "graph_edges" (fun tx =>
    _ ← of_result (texts [edge_EdgeID edge; edge_State edge]);
    attrs ← of_result (jsonb_map (edge_Attributes edge));
    let row := ((edge <| edge_Attributes := attrs |>) <| edge_CreatedAt := micros (edge_CreatedAt edge) |>)
                 <| edge_UpdatedAt := micros (edge_UpdatedAt edge) |> in
    _ ← insert_or_update graph_edges (tenant_isolation tx) (edge_OrgID edge, edge_EdgeID edge) row
          (fun old => row <| edge_CreatedAt := edge_CreatedAt old |>);
    _ ← unique (active_triple_unique (edge_OrgID edge) (edge_EdgeID edge) row);
    edge_references edge).

Definition UpsertEdge (now : Time) (newid : string) (edge : GraphEdge) : session unit :=
  if is_empty (edge_OrgID edge) || is_empty (edge_FromID edge) || is_empty (edge_ToID edge)
     || is_empty (edge_Predicate edge)
  then throw (ErrValidation "org, from_id, to_id, predicate required")
  else if String.eqb (edge_FromID edge) (edge_ToID edge)
  then throw (ErrValidation "self-edges are not allowed")
  else
    let edge := edge <| edge_EdgeID := or_default (edge_EdgeID edge) newid |> in
    let edge := edge <| edge_CreatedAt := or_now (edge_CreatedAt edge) now |> in
    let edge := edge <| edge_UpdatedAt := now |> in
    let edge := edge <| edge_State := or_default (edge_State edge) "ACTIVE" |> in
    existing ← active_id edge;
    match existing with
    | Some id =>
        if is_empty id then insert_edge edge
        else statement "graph_edges" (fun tx =>
          attrs ← of_result (jsonb_map (edge_Attributes edge));
          _ ← update_where graph_edges (tenant_isolation tx)
                (fun k _ => bool_decide (k = (edge_OrgID edge, id)))
                (fun e =>
                   let e := (e <| edge_Confidence := edge_Confidence edge |>)
                              <| edge_SyncAuthz := edge_SyncAuthz edge |> in
                   (e <| edge_Attributes := attrs |>) <| edge_UpdatedAt := micros (edge_UpdatedAt edge) |>);
          mret tt)
    | None => insert_edge edge
    end.

Definition GetEdge (orgID edgeID : string) : database GraphEdge :=
  WithTenant orgID (
    row ← statement "graph_edges" (fun tx =>
            _ ← of_result (texts [orgID; edgeID]);
            select_row graph_edges (tenant_isolation tx) (orgID, edgeID));
    of_result (found "edge not found" row)).

Definition edge_order (a b : string * string * GraphEdge) : bool :=
  then_by (fun kv => edge_FromID kv.2) text_lt (then_by (fun kv => edge_Predicate kv.2) text_lt
    (then_by (fun kv => edge_ToID kv.2) text_lt (then_by (fun kv => edge_CreatedAt kv.2) Z.ltb
      (fun a b => text_lt a.1.2 b.1.2)))) a b.

(** Only active edges, where the in-memory ledger keeps all but the tombstoned *)
Definition edge_selected (opts : EdgeListOptions) (e : GraphEdge) : bool :=
  (opt_IncludeDead opts || is_active e)
  && (bool_decide (opt_ResourceIDs opts = []) || mem_str (edge_FromID e) (opt_ResourceIDs opts)
      || mem_str (edge_ToID e) (opt_ResourceIDs opts))
  && (bool_decide (opt_Predicates opts = []) || mem_str (edge_Predicate e) (opt_Predicates opts)).

Definition ListEdges (orgID : string) (opts : EdgeListOptions) : database (list GraphEdge) :=
  WithTenant orgID (statement "graph_edges" (fun tx =>
    _ ← of_result (texts (orgID :: opt_ResourceIDs opts ++ opt_Predicates opts));
    rows ← select graph_edges (tenant_isolation tx) tx (fun k e => String.eqb k.1 orgID && edge_selected opts e);
    mret (ztake (or_limit (opt_Limit opts) 200) (sort_slice edge_order rows)).*2)).

Definition TombstoneEdge (orgID edgeID : string) : session unit :=
  n ← statement "graph_edges" (fun tx =>
        _ ← of_result (texts [orgID; edgeID]);
        update_where graph_edges (tenant_isolation tx) (fun k _ => bool_decide (k = (orgID, edgeID)))
          (fun e => (e <| edge_State := "TOMBSTONED" |>) <| edge_UpdatedAt := tx_Now tx |>));
  of_result (affected "edge not found" n).

(** ** The queue of authorization tuples *)
Definition tuple_key (op : AuthzTupleOp) : string * string * string * string :=
  (op_Operation op, op_Object op, op_Relation op, op_Subject op).
Definition is_pending (op : AuthzTupleOp) : bool := String.eqb (op_Status op) "pending".

(** The index [uq_authz_tuple_outbox_active], and the checks of the columns *)
Definition pending_unique (t : Tables) : bool :=
  bool_decide (map_Forall (fun k op => map_Forall (fun k' op' =>
      k.1 = k'.1 -> is_pending op = true -> is_pending op' = true -> tuple_key op = tuple_key op' -> k = k')
    (authz_tuple_outbox t)) (authz_tuple_outbox t)).
Definition pending_twin (op : AuthzTupleOp) (t : Tables) : bool :=
  is_pending op &&
  negb (bool_decide (map_Forall (fun k op' =>
      k.1 = op_OrgID op -> is_pending op' = true -> tuple_key op' <> tuple_key op) (authz_tuple_outbox t))).
Definition tuple_checks (op : AuthzTupleOp) : result string unit :=
  fail_if (negb (mem_str (op_Operation op) ["write"; "delete"]
                 && mem_str (op_Status op) ["pending"; "applied"; "dead"])) "23514".

(** [ON CONFLICT DO NOTHING]: on the identifier and on a pending twin *)
Definition EnqueueAuthzTuple (now : Time) (newid : string) (op : AuthzTupleOp) : session unit :=
  let op := op <| op_ID := or_default (op_ID op) newid |> in
  let op := op <| op_Operation := or_default (op_Operation op) "write" |> in
  let op := op <| op_Status := or_default (op_Status op) "pending" |> in
  let row := mkTupleOp (op_ID op) (op_OrgID op) (op_Operation op) (op_Object op) (op_Relation op)
               (op_Subject op) (op_EdgeID op) (op_Status op) 0 "" None
               (micros (or_now (op_NextAttempt op) now)) (micros (or_now (op_CreatedAt op) now))
               (micros now) None in
  statement "authz_tuple_outbox" (fun tx =>
    _ ← of_result (texts [op_ID op; op_OrgID op; op_Operation op; op_Object op; op_Relation op;
                          op_Subject op; op_EdgeID op; op_Status op]);
    _ ← throw_if (negb (tenant_isolation tx (op_OrgID op))) "42501";
    _ ← of_result (tuple_checks op);
    twin ← gets (pending_twin op);
    if twin : bool then mret tt
    else
      inserted ← insert_or_ignore authz_tuple_outbox (tenant_isolation tx) (op_OrgID op, op_ID op) row;
      if inserted : bool then references (has_organization (op_OrgID op)) else mret tt).

Definition tuple_due (now : Time) (op : AuthzTupleOp) : bool :=
  is_pending op && (op_NextAttempt op <=? now) && lease_over now (op_LeaseUntil op).

(** [claim_authz_tuple_outbox] *)
Definition claim_authz_tuple_outbox (tx : Tx) (limit lease : Z) : sql (list AuthzTupleOp) :=
  let limit := if limit <? 1 then 20 else limit in
  due ← select authz_tuple_outbox definer tx (fun _ op => tuple_due (tx_Now tx) op);
  let ids := (fun kv => kv.1.2) <$> ztake limit (sort_slice (by_time (fun kv => op_NextAttempt kv.2)) due) in
  _ ← update_where authz_tuple_outbox definer (fun k _ => mem_str k.2 ids)
        (fun op => (op <| op_LeaseUntil := Some (tx_Now tx + lease) |>) <| op_UpdatedAt := tx_Now tx |>);
  rows ← select authz_tuple_outbox definer tx (fun k _ => mem_str k.2 ids);
  mret rows.*2.

(** The lease is sent as a number of whole seconds. *)
Definition ClaimAuthzTuples (limit lease : Z) : database (list AuthzTupleOp) :=
  autocommit "authz_tuple_outbox" (fun tx =>
    n ← of_result (int4 (or_limit limit 20));
    claim_authz_tuple_outbox tx n (Z.quot (or_limit lease (30 * second)) second * second)).

(** [mark_authz_tuple_applied], [mark_authz_tuple_failed]: whether a row has the identifier *)
Definition mark_tuple (f : Tx -> AuthzTupleOp -> AuthzTupleOp) (id : string) (params : result string unit)
    : database unit :=
  ok ← autocommit "authz_tuple_outbox" (fun tx =>
         _ ← of_result params;
         n ← update_where authz_tuple_outbox definer (fun k _ => String.eqb k.2 id) (f tx);
         _ ← unique pending_unique;
         mret (0 <? n));
  throw_if (negb ok) (ErrNotFound "authz tuple not found").

Definition MarkAuthzTupleApplied (id : string) (at_ : Time) : database unit :=
  mark_tuple (fun _ op =>
    let op := (op <| op_Status := "applied" |>) <| op_AppliedAt := Some (micros at_) |> in
    let op := (op <| op_LeaseUntil := None |>) <| op_LastError := "" |> in
    op <| op_UpdatedAt := micros at_ |>) id (texts [id]).

(** The status becomes pending again whatever it was, unless it is dead. *)
Definition MarkAuthzTupleFailed (id : string) (attempts : Z) (next : Time) (errMsg : string) (dead : bool)
    : database unit :=
  mark_tuple (fun tx op =>
    let op := (op <| op_Status := if dead then "dead" else "pending" |>) <| op_Attempts := attempts |> in
    let op := (op <| op_NextAttempt := micros next |>) <| op_LastError := errMsg |> in
    (op <| op_LeaseUntil := None |>) <| op_UpdatedAt := tx_Now tx |>) id
    (_ ← texts [id; errMsg]; _ ← int4 attempts; Ok tt).

(** [count_authz_tuple_outbox] *)
Definition CountAuthzTuplePending (orgID : string) : database (Z * Z) :=
  autocommit "authz_tuple_outbox" (fun tx =>
    _ ← of_result (texts [orgID]);
    rows ← select authz_tuple_outbox definer tx (fun k _ => is_empty orgID || String.eqb k.1 orgID);
    mret (count_status "pending" rows.*2, count_status "dead" rows.*2)).

(** [list_active_parent_edges_needing_authz] *)
Definition ListActiveParentEdgesNeedingAuthz (orgID : string) (limit : Z) : database (list GraphEdge) :=
  autocommit "graph_edges" (fun tx =>
    _ ← of_result (texts [orgID]); n ← of_result (int4 (or_limit limit 100));
    rows ← select graph_edges definer tx (fun k e =>
             is_active e && String.eqb (edge_Predicate e) "parent" && edge_SyncAuthz e
             && (is_empty orgID || String.eqb k.1 orgID));
    mret (ztake n (sort_slice (by_time edge_CreatedAt) rows.*2))).

(** [has_authz_tuple_coverage], [has_authz_tuple_pending] *)
Definition has_tuple (states : list string) (orgID operation object relation subject : string) : database bool :=
  autocommit "authz_tuple_outbox" (fun tx =>
    _ ← of_result (texts [orgID; operation; object; relation; subject]);
    rows ← select authz_tuple_outbox definer tx (fun k op =>
             String.eqb k.1 orgID && tuple_is operation object relation subject op
             && mem_str (op_Status op) states);
    mret (negb (bool_decide (rows = [])))).
Definition HasAuthzTupleCoverage := has_tuple ["pending"; "applied"].
Definition HasAuthzTuplePending := has_tuple ["pending"].

(** ** Audit log *)
Definition kind_string (k : PrincipalKind) : string :=
  match k with
  | PrincipalKindUser => "user" | PrincipalKindAgent => "agent" | PrincipalKindService => "service"
  | PrincipalKindGroup => "group" | PrincipalKindOther s => s
  end.

Definition AppendAudit (event : AuditEvent) (is_nil : bool) : database unit :=
  WithTenant (aud_OrgID event) (statement "audit_events" (fun tx =>
    _ ← of_result (texts [aud_AuditID event; aud_OrgID event; aud_PrincipalID event;
          kind_string (aud_PrincipalKind event); aud_DelegationID event; aud_Action event;
          aud_ReasonCode event; aud_AuthzModelRev event; aud_PolicyRevision event; aud_TraceID event]);
    _ ← of_result (int4 (aud_ResourceCount event));
    sample ← of_result (text_array is_nil (aud_ResourceIDsSample event));
    attrs ← of_result (jsonb_opt (aud_Attributes event));
    insert_row audit_events (tenant_isolation tx) (aud_OrgID event, aud_AuditID event)
      (((event <| aud_ResourceIDsSample := sample |>) <| aud_Attributes := attrs |>)
         <| aud_CreatedAt := micros (aud_CreatedAt event) |>))).

(** [tableExists], outside a transaction *)
Definition tableExists (name : string) : database bool := autocommit "" (fun _ => mret (pg_has_table name)).

Definition ListAudit (orgID : string) (limit : Z) : database (list AuditEvent) :=
  ok ← tableExists "audit_events";
  if negb ok then mret []
  else
    WithTenant orgID (statement "audit_events" (fun tx =>
      _ ← of_result (texts [orgID]);
      rows ← select audit_events (tenant_isolation tx) tx (fun k _ => String.eqb k.1 orgID);
      mret (ztake (or_limit limit 50) (sort_slice (fun a b => aud_CreatedAt b <? aud_CreatedAt a) rows.*2)))).

(** ** Change feed *)
Definition AppendChange (now : Time) (newid : string) (ev : ChangeEvent) : database unit :=
  let ev := ev <| chg_EventID := or_default (chg_EventID ev) newid |> in
  let ev := ev <| chg_OccurredAt := or_now (chg_OccurredAt ev) now |> in
  let ev := ev <| chg_Cursor := or_default (chg_Cursor ev) (format_rfc3339nano (chg_OccurredAt ev)) |> in
  WithTenant (chg_OrgID ev) (statement "change_events" (fun tx =>
    _ ← of_result (texts [chg_EventID ev; chg_OrgID ev; chg_ResourceID ev; chg_RevisionID ev; chg_Action ev;
                          chg_Cursor ev]);
    insert_row change_events (tenant_isolation tx) (chg_OrgID ev, chg_EventID ev)
      (ev <| chg_OccurredAt := micros (chg_OccurredAt ev) |>))).

Definition change_order : ChangeEvent -> ChangeEvent -> bool :=
  then_by chg_OccurredAt Z.ltb (fun a b => text_lt (chg_EventID a) (chg_EventID b)).
(** [(occurred_at, id) > ($3, $4)]; a cursor that does not parse stands for the first
    instant. *)
Definition change_after (cursor : string) (ev : ChangeEvent) : bool :=
  let '(t, id) := default (zero_time, "") (parse_change_cursor cursor) in
  is_empty cursor
  || (micros t <? chg_OccurredAt ev)
  || ((chg_OccurredAt ev =? micros t) && text_lt id (chg_EventID ev)).

Definition ListChanges (orgID cursor : string) (limit : Z) : database (list ChangeEvent * string) :=
  WithTenant orgID (statement "change_events" (fun tx =>
    _ ← of_result (texts [orgID; cursor]);
    rows ← select change_events (tenant_isolation tx) tx (fun k ev => String.eqb k.1 orgID && change_after cursor ev);
    let out := ztake (or_limit limit 50) (sort_slice change_order rows.*2) in
    mret (out, from_option change_cursor cursor (last out)))).

(** ** Quotas *)
Definition GetQuotas (orgID : string) : database Quota :=
  WithTenant orgID (
    row ← statement "quotas" (fun tx =>
            _ ← of_result (texts [orgID]); select_row quotas (tenant_isolation tx) (orgID, tt));
    mret (default (mkQuota 60 120 10 25) row)).
Definition SetQuotas (orgID : string) (q : Quota) : database unit :=
  WithTenant orgID (statement "quotas" (fun tx =>
    _ ← of_result (texts [orgID]);
    _ ← of_result (mapM int4 [q_SearchPerMinute q; q_IntakePerMinute q; q_ExportPerMinute q; q_MaxResults q]);
    _ ← insert_or_update quotas (tenant_isolation tx) (orgID, tt) q (fun _ => q);
    references (has_organization orgID))).

(** ** Export jobs and access requests *)
Definition PutExportJob (orgID jobID status : string) (manifest : any) : database unit :=
  ok ← tableExists "export_jobs";
  if negb ok then throw (ErrUnavailable "export_jobs table missing; run migrate")
  else
    WithTenant orgID (statement "export_jobs" (fun tx =>
      let status := or_default status "pending" in
      let uri := match manifest with ANil => "{}" | _ => marshal manifest end in
      _ ← of_result (texts [jobID; orgID; status; uri]);
      insert_or_update export_jobs (tenant_isolation tx) (orgID, jobID)
        (mkExportRow status uri (tx_Now tx) None)
        (fun old =>
           let old := (old <| xr_Status := status |>) <| xr_ManifestURI := uri |> in
           if mem_str status ["completed"; "failed"] then old <| xr_CompletedAt := Some (tx_Now tx) |> else old))).

Definition GetExportJob (orgID jobID : string) : database (string * string * any) :=
  ok ← tableExists "export_jobs";
  if negb ok then throw (ErrNotFound "export not found")
  else
    r ← WithTenant orgID (
          row ← statement "export_jobs" (fun tx =>
                  _ ← of_result (texts [orgID; jobID]);
                  select_row export_jobs (tenant_isolation tx) (orgID, jobID));
          of_result (found "export not found" row));
    let uri := xr_ManifestURI r in
    mret (jobID, xr_Status r,
          if is_empty uri then ANil
          else match parse_document uri with
               | Some v => if numbers_ok v then to_any v else AStr uri
               | None => AStr uri
               end).

Definition PutAccessRequest (orgID requestID resourceID purpose justification auditID : string) : database unit :=
  if is_empty orgID || is_empty requestID then throw (ErrValidation "org and request_id required")
  else
    ok ← tableExists "access_requests";
    if negb ok then throw (ErrUnavailable "access_requests table missing; run migrate")
    else
      WithTenant orgID (statement "access_requests" (fun tx =>
        _ ← of_result (texts [requestID; orgID; resourceID; purpose; justification; auditID]);
        insert_or_update access_requests (tenant_isolation tx) (orgID, requestID)
          (mkAccessRequest requestID orgID resourceID purpose justification "pending" (tx_Now tx) auditID)
          (fun old => mkAccessRequest requestID orgID resourceID purpose justification (ar_Status old)
                        (ar_CreatedAt old) auditID))).
End Store.
