(* ===== verification/PostgresStores.v ===== *)
(** * The other stores of [internal/adapters/postgres]

    The mapping specifications of [store.go], and [credentials.go], [webhooks.go],
    [legal_holds.go] and [index.go]. The full text search of the server is an argument
    ([FullText]). *)
From S2P Require Import Prelude GoStd Sha256 Ports Platform Json Decode Mapping MappingSpec Ledger Changes Index.
From S2P Require Credentials.
From S2P Require Import Sql Postgres.

(** ** [json.Marshal] of a mapping specification *)
Definition json_expr (e : Expr) : string :=
  json_struct (json_str "expr" (x_Expr e)
    :: omitempty (match x_Default e with ANil => true | _ => false end) (json_member "default" (marshal (x_Default e)))
    ++ opt_str "transform" (x_Transform e)).
(** A pointer: [null] when it is [nil], or left out *)
Definition json_ptr {A} (enc : A -> string) (name : string) (p : option A) : list string :=
  [json_member name (match p with Some a => enc a | None => "null" end)].
Definition opt_ptr {A} (enc : A -> string) (name : string) (p : option A) : list string :=
  match p with Some a => [json_member name (enc a)] | None => [] end.

Definition json_taxonomy (m : gmap string (option Expr)) : list string :=
  omitempty (bool_decide (m = ∅))
    (json_member "controlled_taxonomy"
       (json_struct ((fun kv => json_member kv.1 (match kv.2 with Some e => json_expr e | None => "null" end))
          <$> sort_slice name_less (map_to_list m)))).

Definition json_mappings (m : FieldMappings) : string :=
  let expr := json_ptr json_expr in let opt := opt_ptr json_expr in
  json_struct
    (expr "source_external_id" (fm_SourceExternalID m) ++ expr "source_revision" (fm_SourceRevision m)
     ++ expr "context_space_id" (fm_ContextSpaceID m) ++ expr "resource_id" (fm_ResourceID m)
     ++ expr "resource_type" (fm_ResourceType m) ++ opt "brand_id" (fm_BrandID m)
     ++ [json_member "timestamps" (json_struct
           (expr "occurred_at" (tm_OccurredAt (fm_Timestamps m)) ++ expr "observed_at" (tm_ObservedAt (fm_Timestamps m))))]
     ++ expr "content_locator" (fm_ContentLocator m) ++ json_taxonomy (fm_ControlledTaxonomy m)
     ++ opt "visibility_ref" (fm_VisibilityRef m) ++ opt "classification" (fm_Classification m)
     ++ opt "purpose_allowlist" (fm_PurposeAllowlist m) ++ opt "trust" (fm_Trust m)
     ++ opt "source_authority" (fm_SourceAuthority m) ++ opt "retention_policy_id" (fm_RetentionPolicyID m)
     ++ opt "tags" (fm_Tags m) ++ opt "organization_id" (fm_OrganizationID m) ++ opt "title" (fm_Title m)
     ++ opt "parent_resource_id" (fm_ParentResourceID m)).

Definition json_edge (e : EdgeMapping) : string :=
  json_struct
    (json_ptr json_expr "predicate" (em_Predicate e) ++ opt_ptr json_expr "from" (em_From e)
     ++ json_ptr json_expr "to" (em_To e) ++ opt_ptr json_expr "confidence" (em_Confidence e)
     ++ opt_ptr json_bool "ensure_endpoints" (em_EnsureEndpoints e)
     ++ opt_ptr json_bool "sync_authz_parent" (em_SyncAuthzParent e)).

Definition json_constraints (c : Constraints) : string :=
  json_struct
    [json_member "cannot_mint_organization" (json_bool (CannotMintOrganization c));
     json_member "cannot_broaden_acl" (json_bool (CannotBroadenACL c));
     json_member "authority_ceiling_from_source" (json_bool (AuthorityCeilingFromSource c));
     json_member "client_fields_may_only_narrow" (json_bool (ClientFieldsMayOnlyNarrow c))].

Definition json_spec (s : Spec) : string :=
  json_struct
    ([json_str "api_version" (sp_APIVersion s); json_str "id" (sp_ID s); json_str "revision" (sp_Revision s);
      json_str "organization_id" (sp_OrganizationID s); json_str "source_id" (sp_SourceID s);
      json_str "status" (sp_Status s)]
     ++ opt_str "description" (sp_Description s) ++ [json_member "mappings" (json_mappings (sp_Mappings s))]
     ++ omitempty (bool_decide (length (sp_Edges s) = 0%nat)) (json_member "edges" (json_list (json_edge <$> sp_Edges s)))
     ++ [json_member "constraints" (json_constraints (sp_Constraints s))]).

(** [jsonb] keeps the document, apart from its layout; it refuses the escape of NUL. *)
Fixpoint escapes_nul (l : list ascii) : bool :=
  match l with
  | "\" :: "u" :: "0" :: "0" :: "0" :: "0" :: _ => true
  | "\" :: _ :: l' => escapes_nul l'
  | _ :: l' => escapes_nul l'
  | [] => false
  end%char.
Definition jsonb_document (raw : string) : result string string :=
  if escapes_nul (bytes_of raw) then Err "22P05" else Ok raw.

Section MappingSpecs.
Context `{Server}.

Definition spec_defaults (orgID sourceID : string) (spec : Spec) : Spec :=
  let spec := spec <| sp_OrganizationID := or_default (sp_OrganizationID spec) orgID |> in
  let spec := spec <| sp_SourceID := or_default (sp_SourceID spec) sourceID |> in
  spec <| sp_ID := or_default (sp_ID spec) sourceID |>.

(** [firstNonEmpty] of two strings *)
Definition first_nonblank (a b : string) : string :=
  if negb (is_empty (trim_space a)) then a else if negb (is_empty (trim_space b)) then b else "".

Definition source_row (tx : Tx) (orgID sourceID : string) (f : SourceRow -> SourceRow) : sql unit :=
  _ ← update_where sources (tenant_isolation tx) (fun k _ => bool_decide (k = (orgID, sourceID))) f; mret tt.

Definition put_spec_row (orgID : string) (spec : Spec) (sourceID raw : string) : session unit :=
  let version := or_default (sp_Revision spec) "1" in
  let kind := first_nonblank (sp_SourceID spec) sourceID in
  statement "mapping_specs" (fun tx =>
    _ ← of_result (texts [sp_ID spec; orgID; version; kind]);
    rules ← of_result (jsonb_document raw);
    insert_or_update mapping_specs (tenant_isolation tx) (orgID, (sp_ID spec, version))
      (mkSpecRow kind rules (tx_Now tx))
      (fun old => (old <| ms_Rules := rules |>) <| ms_SourceKind := kind |>)).

(** [attributes || $1]: an object with the members of both, an array otherwise *)
Definition concat_attributes (a : attributes) (m : strmap) : attributes :=
  match a with AObject old => AObject (m ∪ old) | _ => AArray end.

Definition put_spec_attribute (orgID sourceID : string) (spec : Spec) (raw : string) : session unit :=
  statement "sources" (fun tx =>
    attrs ← of_result (jsonb_map {["mapping_spec" := raw]});
    _ ← of_result (texts [sp_ID spec; orgID; sourceID]);
    source_row tx orgID sourceID (fun r =>
      let r := (r <| sr_Attributes := concat_attributes (sr_Attributes r) attrs |>) <| sr_UpdatedAt := tx_Now tx |> in
      r <| sr_MappingSpec := or_default (sr_MappingSpec r) (sp_ID spec) |>)).

Definition PutMappingSpec (orgID sourceID : string) (spec : Spec) : database unit :=
  if is_empty orgID || is_empty sourceID then throw (ErrValidation "org and source_id required")
  else
    let spec := spec_defaults orgID sourceID spec in
    let raw := json_spec spec in
    WithTenant orgID (
      hasTable ← statement "" (fun _ => mret (pg_has_table "mapping_specs"));
      if hasTable : bool then
        r ← attempt (put_spec_row orgID spec sourceID raw);
        match r with
        | Ok _ =>
            _ ← attempt (statement "sources" (fun tx =>
                  _ ← of_result (texts [sp_ID spec; orgID; sourceID]);
                  source_row tx orgID sourceID (fun r =>
                    (r <| sr_MappingSpec := sp_ID spec |>) <| sr_UpdatedAt := tx_Now tx |>)));
            mret tt
        | Err _ => put_spec_attribute orgID sourceID spec raw
        end
      else put_spec_attribute orgID sourceID spec raw).

(** A version that is put again keeps its [created_at]. *)
Definition latest_spec (tx : Tx) (orgID id : string) : sql (option SpecRow) :=
  rows ← select mapping_specs (tenant_isolation tx) tx (fun k _ => String.eqb k.1 orgID && String.eqb k.2.1 id);
  mret (head (sort_slice (fun a b => ms_CreatedAt b <? ms_CreatedAt a) rows.*2)).

Definition zeroDraft : Draft := mkDraft zeroSpec ([], []).
Definition draft_spec (d : Draft) : Spec := (dft_Spec d) <| sp_Edges := (dft_Edges d).1 |>.

(** The attribute is decoded first; what a failed decoding leaves stays under the rules of
    the table. *)
Definition GetMappingSpec (orgID sourceID : string) : database Spec :=
  WithTenant orgID (
    row ← statement "sources" (fun tx =>
            _ ← of_result (texts [orgID; sourceID]);
            select_row sources (tenant_isolation tx) (orgID, sourceID));
    r ← of_result (found "mapping spec not found" row);
    let inline := attr (attributes_map (sr_Attributes r)) "mapping_spec" in
    let '(out, read) := if is_empty inline then (zeroDraft, false) else unmarshal dec_Spec inline zeroDraft in
    if read : bool then mret (draft_spec out)
    else
      let id := or_default (sr_MappingSpec r) sourceID in
      hasTable ← attempt (statement "" (fun _ => mret (pg_has_table "mapping_specs")));
      match hasTable with
      | Ok true =>
          row ← statement "mapping_specs" (fun tx => _ ← of_result (texts [orgID; id]); latest_spec tx orgID id);
          r ← of_result (found "mapping spec not found" row);
          let '(out, read) := unmarshal dec_Spec (ms_Rules r) out in
          if read : bool then mret (draft_spec out) else throw (ErrValidation "invalid stored mapping spec")
      | _ => throw (ErrNotFound "mapping spec not found")
      end).
End MappingSpecs.

(** ** [credentials.go] *)
Section Credentials.
Context `{Server}.
Import Credentials.

(** [resolve_agent_credential] *)
Definition resolve_agent_credential (tx : Tx) (hash : string) : sql (option (string * string * CredentialRow)) :=
  rows ← select agent_credentials definer tx (fun _ c => String.eqb (cw_SecretHash c) hash);
  mret (head rows).

Definition ResolveAPIKey (now : Time) (key : string) : database AgentPrincipal :=
  r ← attempt (autocommit "agent_credentials" (fun tx => resolve_agent_credential tx (key_hash key)));
  match r with
  | Ok (Some (orgID, credID, c)) =>
      if cw_Revoked c then throw (ErrUnauthorized "invalid api key")
      else if (match cw_ExpiresAt c with Some t => after now t | None => false end)
      then throw (ErrUnauthorized "api key expired")
      else mret (mkAgentPrincipal
             (mkPrincipal ("agent|" +:+ cw_AgentID c) PrincipalKindAgent orgID "context-fabric/apikey"
                (cw_AgentID c) [] [] ["context:search"; "context:read"] "" ∅)
             (cw_AgentID c) credID (cw_OwnerID c))
  | _ => throw (ErrUnauthorized "invalid api key")
  end.

Definition randomSecret (bytes : result GoError string) : result GoError string := hex_encode <$> bytes.

Definition insert_credential (now : Time) (id secret : string) (req : CreateAgentCredentialRequest)
    : session unit :=
  statement "agent_credentials" (fun tx =>
    _ ← of_result (texts [id; ccr_OrgID req; ccr_AgentID req; ccr_OwnerID req]);
    insert_row agent_credentials (tenant_isolation tx) (ccr_OrgID req, id)
      (mkCredentialRow (ccr_AgentID req) (ccr_OwnerID req) (key_hash secret) (micros <$> ccr_ExpiresAt req)
         false (micros now))).
Definition issued (now : Time) (id secret : string) (req : CreateAgentCredentialRequest) : AgentCredential :=
  mkAgentCredential id (ccr_AgentID req) (ccr_OrgID req) secret (ccr_ExpiresAt req) now.

Definition CreateAgentCredential (now : Time) (bytes : result GoError string) (id : string)
    (req : CreateAgentCredentialRequest) : database AgentCredential :=
  _ ← throw_if (is_empty (ccr_OrgID req) || is_empty (ccr_AgentID req)) (ErrValidation "org and agent required");
  secret ← of_result (randomSecret bytes);
  _ ← WithTenant (ccr_OrgID req) (insert_credential now id secret req);
  mret (issued now id secret req).

(** [revoke_agent_credential] *)
Definition Revoke (orgID credentialID : string) : database unit :=
  _ ← throw_if (is_empty orgID || is_empty credentialID) (ErrValidation "org and credential required");
  r ← attempt (autocommit "agent_credentials" (fun tx =>
        _ ← of_result (texts [orgID; credentialID]);
        n ← update_where agent_credentials definer (fun k _ => bool_decide (k = (orgID, credentialID)))
              (fun c => c <| cw_Revoked := true |>);
        mret (0 <? n)));
  match r with Ok true => mret tt | _ => throw (ErrNotFound "credential not found") end.

(** The old keys go and the new one comes in one transaction. *)
Definition RotateAgentCredential (now : Time) (bytes : result GoError string) (id : string)
    (req : CreateAgentCredentialRequest) : database AgentCredential :=
  _ ← throw_if (is_empty (ccr_OrgID req) || is_empty (ccr_AgentID req)) (ErrValidation "org and agent required");
  secret ← of_result (randomSecret bytes);
  _ ← WithTenant (ccr_OrgID req) (
        _ ← statement "agent_credentials" (fun tx =>
              _ ← of_result (texts [ccr_OrgID req; ccr_AgentID req]);
              update_where agent_credentials (tenant_isolation tx)
                (fun k c => String.eqb k.1 (ccr_OrgID req) && String.eqb (cw_AgentID c) (ccr_AgentID req)
                            && negb (cw_Revoked c))
                (fun c => c <| cw_Revoked := true |>));
        insert_credential now id secret req);
  mret (issued now id secret req).
End Credentials.

(** ** [webhooks.go] and [legal_holds.go] *)
Section Webhooks.
Context `{Server}.

(** A [nil] list of events is written as the empty one. *)
Definition SaveSubscription (sub : Subscription) : database unit :=
  WithTenant (sub_OrgID sub) (statement "webhook_subscriptions" (fun tx =>
    _ ← of_result (texts (sub_ID sub :: sub_OrgID sub :: sub_TargetURL sub :: sub_Secret sub :: sub_Events sub));
    let row := sub <| sub_CreatedAt := micros (sub_CreatedAt sub) |> in
    insert_or_update webhook_subscriptions (tenant_isolation tx) (sub_OrgID sub, sub_ID sub) row
      (fun old => row <| sub_CreatedAt := sub_CreatedAt old |>))).

Definition ListSubscriptions (orgID : string) : database (list Subscription) :=
  WithTenant orgID (statement "webhook_subscriptions" (fun tx =>
    _ ← of_result (texts [orgID]);
    rows ← select webhook_subscriptions (tenant_isolation tx) tx (fun k _ => String.eqb k.1 orgID);
    mret rows.*2)).

(** Every error is taken for a missing subscription. *)
Definition GetSubscription (orgID subscriptionID : string) : database Subscription :=
  r ← attempt (WithTenant orgID (
        row ← statement "webhook_subscriptions" (fun tx =>
                _ ← of_result (texts [orgID; subscriptionID]);
                select_row webhook_subscriptions (tenant_isolation tx) (orgID, subscriptionID));
        of_result (found "" row)));
  of_result (match r with Ok s => Ok s | Err _ => Err (ErrNotFound "webhook subscription not found") end).

(** [delivered_at] is written, but never read. *)
Definition SaveDelivery (d : DeliveryAttempt) : database unit :=
  WithTenant (dl_OrgID d) (statement "webhook_deliveries" (fun tx =>
    _ ← of_result (texts [dl_DeliveryID d; dl_OrgID d; dl_SubscriptionID d; dl_EventID d; dl_Status d; dl_Error d;
                          dl_PayloadSHA d]);
    _ ← of_result (int4 (dl_Attempt d)); _ ← of_result (int4 (dl_StatusCode d));
    let row := (d <| dl_NextAttempt := micros <$> dl_NextAttempt d |>) <| dl_CreatedAt := micros (dl_CreatedAt d) |> in
    insert_or_update webhook_deliveries (tenant_isolation tx) (dl_OrgID d, dl_DeliveryID d) row
      (fun old =>
         let old := (old <| dl_Status := dl_Status row |>) <| dl_Attempt := dl_Attempt row |> in
         let old := (old <| dl_Error := dl_Error row |>) <| dl_NextAttempt := dl_NextAttempt row |> in
         old <| dl_StatusCode := dl_StatusCode row |>))).

Definition listed_delivery (d : DeliveryAttempt) : DeliveryAttempt :=
  d <| dl_Success := String.eqb (dl_Status d) StatusDelivered || String.eqb (dl_Status d) StatusDuplicateIgnored |>.

Definition ListDeliveries (orgID subscriptionID : string) (limit : Z) : database (list DeliveryAttempt) :=
  WithTenant orgID (statement "webhook_deliveries" (fun tx =>
    _ ← of_result (texts [orgID; subscriptionID]);
    rows ← select webhook_deliveries (tenant_isolation tx) tx
             (fun k d => String.eqb k.1 orgID && String.eqb (dl_SubscriptionID d) subscriptionID);
    mret (listed_delivery <$>
      ztake (or_limit limit 50) (sort_slice (fun a b => dl_CreatedAt b <? dl_CreatedAt a) rows.*2)))).

Definition HasLegalHold (orgID resourceID : string) : database bool :=
  if is_empty orgID || is_empty resourceID then mret false
  else
    WithTenant orgID (
      row ← statement "legal_holds" (fun tx =>
              _ ← of_result (texts [orgID; resourceID]);
              select_row legal_holds (tenant_isolation tx) (orgID, resourceID));
      mret (match row with Some h => hd_Held h && bool_decide (hd_ReleasedAt h = None) | None => false end)).
End Webhooks.

(** ** [index.go]: the projection that the processes share *)
Class FullText := {
  (** The columns of migration 006 are there *)
  fts_columns : bool;
  (** [search_tsv @@ plainto_tsquery('english', q)], [ts_rank_cd] *)
  fts_matches : DocumentRow -> string -> bool;
  fts_rank : DocumentRow -> string -> float64;
}.

Section SearchIndex.
Context `{Server, FullText}.

Definition truncate (s : string) (n : nat) : string := if (String.length s <=? n)%nat then s else take_str n s.
Definition document_row (now : Time) (d : IndexDocument) : result string DocumentRow :=
  let a := attr (doc_Attributes d) in
  let summary := or_default (a "summary") (truncate (doc_Text d) 512) in
  _ ← texts ([doc_OrgID d; doc_ResourceID d; doc_RevisionID d; doc_Text d] ++ doc_Labels d
             ++ [a "title"; a "kind"; a "context_space_id"; summary]);
  attrs ← jsonb_map (doc_Attributes d);
  Ok (mkDocumentRow (doc_RevisionID d) (doc_Text d) (doc_Labels d) attrs (a "title") (a "kind")
        (a "context_space_id") summary now).

Definition upsert_document (d : IndexDocument) : database unit :=
  if is_empty (doc_OrgID d) || is_empty (doc_ResourceID d) then mret tt
  else
    WithTenant (doc_OrgID d) (statement "search_documents" (fun tx =>
      row ← of_result (document_row (tx_Now tx) d);
      _ ← throw_if (negb fts_columns) "42703";
      insert_or_update search_documents (tenant_isolation tx) (doc_OrgID d, doc_ResourceID d) row (fun _ => row))).
Definition Upsert (docs : list IndexDocument) : database unit := for_each upsert_document docs.

Definition Delete (orgID : string) (resourceIDs : list string) : database unit :=
  if bool_decide (resourceIDs = []) then mret tt
  else
    WithTenant orgID (statement "search_documents" (fun tx =>
      _ ← of_result (texts (orgID :: resourceIDs));
      delete_where search_documents (tenant_isolation tx)
        (fun k _ => String.eqb k.1 orgID && mem_str k.2 resourceIDs))).

Definition splitTrim (s : string) : list string :=
  filter (fun p => p <> "") (trim_space <$> split_byte s ",").

Definition matchIndexFilters : IndexDocument -> strmap -> bool := matchFilters.
Definition index_document (orgID resourceID : string) (r : DocumentRow) : IndexDocument :=
  mkIndexDocument resourceID (dr_RevisionID r) orgID (dr_Text r) (dr_Tags r) (dr_Attributes r).

(** The [WHERE] clause, of which the purpose and the classification are not a part *)
Definition document_wanted (q : string) (filters : strmap) (resourceID : string) (r : DocumentRow) : bool :=
  when_set (attr filters "context_space_id") (String.eqb (dr_ContextSpaceID r))
  && when_set (attr filters "include_tags") (fun tags => forallb (fun t => mem_str t (dr_Tags r)) (splitTrim tags))
  && (is_empty q || String.eqb resourceID q || fts_matches r q).
Definition document_score (q : string) (resourceID : string) (r : DocumentRow) : float64 :=
  if is_empty q || String.eqb resourceID q then f_one else fts_rank r q.

(** [ORDER BY score DESC, updated_at DESC]; without a query all scores are one. *)
Definition document_order (q : string) (a b : string * string * DocumentRow) : bool :=
  let sa := document_score q a.1.2 a.2 in let sb := document_score q b.1.2 b.2 in
  f_lt sb sa || (negb (f_lt sa sb) && (dr_UpdatedAt b.2 <? dr_UpdatedAt a.2)).

Fixpoint scan_documents (orgID q : string) (limit : Z) (filters : strmap)
    (rows : list (string * string * DocumentRow)) (hits : list SearchHit) : list SearchHit :=
  match rows with
  | [] => hits
  | (_, rid, r) :: rest =>
      let ql := to_lower q in
      let score :=
        if negb (matchIndexFilters (index_document orgID rid r) filters) then None
        else if is_empty ql || equal_fold rid q then Some f_one
        else if contains_str (to_lower (dr_Text r)) ql then Some (f_div f_one (f_of_Z 2))
        else None in
      match score with
      | Some x =>
          let hits := hits ++ [mkHit rid (dr_RevisionID r) x] in
          if limit <=? zlen hits then hits else scan_documents orgID q limit filters rest hits
      | None => scan_documents orgID q limit filters rest hits
      end
  end.

Definition fallbackScan (orgID q : string) (limit : Z) (filters : strmap) : session (list SearchHit) :=
  rows ← statement "search_documents" (fun tx =>
           _ ← of_result (texts [orgID]);
           rows ← select search_documents (tenant_isolation tx) tx (fun k _ => String.eqb k.1 orgID);
           mret (ztake (Z.max 500 limit) (sort_slice (fun a b => dr_UpdatedAt b.2 <? dr_UpdatedAt a.2) rows)));
  mret (scan_documents orgID q limit filters rows []).

(** A query without words does not name [search_tsv], but the other columns that it
    names came with the same migration. *)
Definition isMissingFTSColumn (q : string) (e : GoError) : bool :=
  bool_decide (e = pg_error "42703") && negb (is_empty q).

Definition names_columns (q : string) (filters : strmap) : bool :=
  negb (is_empty q) || negb (is_empty (attr filters "context_space_id")).

Definition search_documents_query (orgID q : string) (limit : Z) (filters : strmap) : session (list SearchHit) :=
  statement "search_documents" (fun tx =>
    _ ← of_result (texts (orgID :: attr filters "context_space_id" :: q :: splitTrim (attr filters "include_tags")));
    _ ← throw_if (negb fts_columns && names_columns q filters) "42703";
    rows ← select search_documents (tenant_isolation tx) tx
             (fun k r => String.eqb k.1 orgID && document_wanted q filters k.2 r);
    mret ((fun kv => mkHit kv.1.2 (dr_RevisionID kv.2) (document_score q kv.1.2 kv.2)) <$>
            ztake limit (sort_slice (document_order q) rows))).

Definition SearchCandidates (orgID query : string) (limit : Z) (filters : strmap) : database (list SearchHit) :=
  let limit := or_limit limit 12 in
  let q := trim_space query in
  let rid := attr filters "resource_id" in
  WithTenant orgID (
    if negb (is_empty rid) then
      row ← attempt (statement "search_documents" (fun tx =>
              _ ← of_result (texts [orgID; rid]);
              select_row search_documents (tenant_isolation tx) (orgID, rid)));
      mret (match row with Ok (Some r) => [mkHit rid (dr_RevisionID r) f_one] | _ => [] end)
    else
      r ← attempt (search_documents_query orgID q limit filters);
      match r with
      | Ok hits => mret hits
      | Err e => if isMissingFTSColumn q e then fallbackScan orgID q limit filters else throw e
      end).

Definition GetDocument (orgID resourceID : string) : database (option IndexDocument) :=
  r ← attempt (WithTenant orgID (
        row ← statement "search_documents" (fun tx =>
                _ ← of_result (texts [orgID; resourceID]);
                select_row search_documents (tenant_isolation tx) (orgID, resourceID));
        of_result (found "" row)));
  mret (match r with Ok r => Some (index_document orgID resourceID r) | Err _ => None end).
End SearchIndex.

(** A search of words, for concrete runs *)
Definition word_search : FullText := {|
  fts_columns := true;
  fts_matches := fun r q => contains_str (to_lower (dr_Text r)) (to_lower q);
  fts_rank := fun _ _ => f_one;
|}.
