(* ===== verification/PostgresFacts.v ===== *)
(** * The tenants of the PostgreSQL stores

    [restrict] keeps the rows of some organizations. A program that runs under a tenant
    answers as on the rows of that tenant alone, and leaves the others as they are: the
    policy does so statement by statement ([confined]), whatever organization the
    parameters name. *)
From S2P Require Import Prelude GoStd Ports Platform Json Decode Mapping MappingSpec Ledger Changes.
From S2P Require Credentials.
From S2P Require Import Sql Postgres PostgresStores.

(** ** The rows of some organizations *)
Definition keep_org {K V} `{Countable K} (p : string -> bool) (m : gmap (string * K) V) : gmap (string * K) V :=
  filter (fun kv => p kv.1.1 = true) m.

Definition restrict (p : string -> bool) (t : Tables) : Tables :=
  mkTables (organizations t) (keep_org p (resources t)) (keep_org p (revisions t)) (keep_org p (records t))
    (keep_org p (sources t)) (keep_org p (mapping_specs t)) (keep_org p (delegation_grants t))
    (keep_org p (agent_credentials t)) (keep_org p (outbox t)) (keep_org p (consumer_receipts t))
    (keep_org p (audit_events t)) (keep_org p (change_events t)) (keep_org p (webhook_subscriptions t))
    (keep_org p (webhook_deliveries t)) (keep_org p (export_jobs t)) (keep_org p (quotas t))
    (keep_org p (search_documents t)) (keep_org p (access_requests t)) (keep_org p (graph_edges t))
    (keep_org p (authz_tuple_outbox t)) (keep_org p (legal_holds t)).

(** A table with a column [organization_id] and the policy [tenant_isolation] *)
Class TenantTable {K V} `{Countable K} (tbl : Tables -> gmap (string * K) V) `{!Setter tbl} : Prop := {
  table_restrict : forall p t, tbl (restrict p t) = keep_org p (tbl t);
  table_set : forall f t, tbl (set tbl f t) = f (tbl t);
  restrict_set : forall p f t,
    restrict p (set tbl f t) = set tbl (fun _ => keep_org p (f (tbl t))) (restrict p t);
  table_self : forall t, set tbl (fun _ => tbl t) t = t;
}.
Ltac tenant_table := split; intros; repeat match goal with t : Tables |- _ => destruct t end; reflexivity.
#[export] Instance resources_tenant : TenantTable resources. Proof. tenant_table. Qed.
#[export] Instance revisions_tenant : TenantTable revisions. Proof. tenant_table. Qed.
#[export] Instance records_tenant : TenantTable records. Proof. tenant_table. Qed.
#[export] Instance sources_tenant : TenantTable sources. Proof. tenant_table. Qed.
#[export] Instance mapping_specs_tenant : TenantTable mapping_specs. Proof. tenant_table. Qed.
#[export] Instance delegation_grants_tenant : TenantTable delegation_grants. Proof. tenant_table. Qed.
#[export] Instance agent_credentials_tenant : TenantTable agent_credentials. Proof. tenant_table. Qed.
#[export] Instance outbox_tenant : TenantTable outbox. Proof. tenant_table. Qed.
#[export] Instance consumer_receipts_tenant : TenantTable consumer_receipts. Proof. tenant_table. Qed.
#[export] Instance audit_events_tenant : TenantTable audit_events. Proof. tenant_table. Qed.
#[export] Instance change_events_tenant : TenantTable change_events. Proof. tenant_table. Qed.
#[export] Instance webhook_subscriptions_tenant : TenantTable webhook_subscriptions. Proof. tenant_table. Qed.
#[export] Instance webhook_deliveries_tenant : TenantTable webhook_deliveries. Proof. tenant_table. Qed.
#[export] Instance export_jobs_tenant : TenantTable export_jobs. Proof. tenant_table. Qed.
#[export] Instance quotas_tenant : TenantTable quotas. Proof. tenant_table. Qed.
#[export] Instance search_documents_tenant : TenantTable search_documents. Proof. tenant_table. Qed.
#[export] Instance access_requests_tenant : TenantTable access_requests. Proof. tenant_table. Qed.
#[export] Instance graph_edges_tenant : TenantTable graph_edges. Proof. tenant_table. Qed.
#[export] Instance authz_tuple_outbox_tenant : TenantTable authz_tuple_outbox. Proof. tenant_table. Qed.
#[export] Instance legal_holds_tenant : TenantTable legal_holds. Proof. tenant_table. Qed.

Section KeepOrg.
Context {K V : Type} `{Countable K}.
Implicit Types (p : string -> bool) (m : gmap (string * K) V).

Lemma lookup_keep_org p m k : keep_org p m !! k = if p k.1 then m !! k else None.
Proof.
  unfold keep_org. rewrite map_lookup_filter. destruct (m !! k) as [v|]; simpl; [|by destruct (p k.1)].
  destruct (p k.1) eqn:Hp.
  - rewrite option_guard_True; done.
  - rewrite option_guard_False; [done|]. simpl. congruence.
Qed.

Lemma keep_org_insert p m k v :
  keep_org p (<[k := v]> m) = if p k.1 then <[k := v]> (keep_org p m) else keep_org p m.
Proof.
  apply map_eq. intros k'. rewrite lookup_keep_org. destruct (decide (k' = k)) as [->|Hne].
  - rewrite lookup_insert_eq. destruct (p k.1) eqn:Hp; [by rewrite lookup_insert_eq|].
    by rewrite lookup_keep_org, Hp.
  - rewrite lookup_insert_ne by done. destruct (p k.1); rewrite ?lookup_insert_ne by done; by rewrite lookup_keep_org.
Qed.

Lemma keep_org_imap p (f : string * K -> V -> V) m :
  keep_org p (map_imap (fun k v => Some (f k v)) m) = map_imap (fun k v => Some (f k v)) (keep_org p m).
Proof.
  apply map_eq. intros k. rewrite lookup_keep_org, !map_lookup_imap, lookup_keep_org. by destruct (p k.1).
Qed.
End KeepOrg.

(** ** Statements under the policy *)
Definition other (p : string -> bool) (org : string) : bool := negb (p org).

(** On the rows of its own the program has the same answer and the same effect, and the
    others stay; [Q] holds of its answer. *)
Definition confined {A} (p : string -> bool) (m : sql A) (Q : A -> Prop) : Prop :=
  forall t1 t2, restrict p t1 = restrict p t2 ->
    (m t1).1 = (m t2).1 /\ restrict p (m t1).2 = restrict p (m t2).2 /\
    restrict (other p) (m t1).2 = restrict (other p) t1 /\
    forall a, (m t1).1 = Ok a -> Q a.

Definition any {A} (a : A) : Prop := True.

Section Confined.
Context (p : string -> bool).

Lemma confined_weaken {A} (m : sql A) (Q R : A -> Prop) :
  (forall a, Q a -> R a) -> confined p m Q -> confined p m R.
Proof. intros HQ Hm t1 t2 Ht. destruct (Hm t1 t2 Ht) as (? & ? & ? & Ha). split_and!; [done..|]. intros a E. by apply HQ, Ha. Qed.

Lemma confined_ret {A} (a : A) (Q : A -> Prop) : Q a -> confined p (mret a) Q.
Proof. intros HQ t1 t2 Ht. split_and!; [done..|]. by intros ? [= <-]. Qed.

Lemma confined_of_result {A} (r : result string A) (Q : A -> Prop) :
  (forall a, r = Ok a -> Q a) -> confined p (of_result r) Q.
Proof. intros HQ t1 t2 Ht. by split_and!. Qed.

Lemma confined_throw_if b e (Q : unit -> Prop) : (b = false -> Q tt) -> confined p (throw_if b e) Q.
Proof. intros HQ. apply confined_of_result. intros [] Hb%fail_if_Ok. auto. Qed.

Lemma confined_bind {A B} (m : sql A) (f : A -> sql B) Q R :
  confined p m Q -> (forall a, Q a -> confined p (f a) R) -> confined p (m ≫= f) R.
Proof.
  intros Hm Hf t1 t2 Ht. destruct (Hm t1 t2 Ht) as (Hr & Ho & Hothers & HQ).
  unfold mbind, M_bind. destruct (m t1) as [r1 u1], (m t2) as [r2 u2]. simpl in *. subst r2.
  destruct r1 as [a|e]; [|done]. destruct (Hf a (HQ a eq_refl) u1 u2 Ho) as (? & ? & ? & ?).
  split_and!; [done | done | congruence | done].
Qed.

(** What a query reads is a function of the rows of its own. *)
Lemma confined_gets {A} (f : Tables -> A) :
  (forall t, f t = f (restrict p t)) -> confined p (gets f) any.
Proof. intros Hf t1 t2 Ht. split_and!; [|done..]. cbn [gets fst]. by rewrite (Hf t1), (Hf t2), Ht. Qed.

Lemma has_organization_restrict org t : has_organization org t = has_organization org (restrict p t).
Proof. done. Qed.

Lemma keep_org_idem {K V} `{Countable K} (m : gmap (string * K) V) : keep_org p (keep_org p m) = keep_org p m.
Proof. apply map_eq. intros k. rewrite !lookup_keep_org. by destruct (p k.1). Qed.

Section Table.
Context {K V : Type} `{Countable K} (tbl : Tables -> gmap (string * K) V) `{!Setter tbl, !TenantTable tbl}.

Lemma confined_select `{Server} tx keep : confined p (select tbl p tx keep) any.
Proof.
  apply confined_gets. intros t. unfold visible. f_equal. f_equal.
  rewrite table_restrict. symmetry. apply keep_org_idem.
Qed.

Lemma confined_select_row k : confined p (select_row tbl p k) any.
Proof.
  apply confined_gets. intros t. unfold visible. rewrite table_restrict.
  change (filter _ ?m) with (keep_org p m). by rewrite keep_org_idem.
Qed.

(** A change that treats the rows of its own and the others apart *)
Lemma confined_modify (f : gmap (string * K) V -> gmap (string * K) V) :
  (forall m, keep_org p (f m) = keep_org p (f (keep_org p m))) ->
  (forall m, keep_org (other p) (f m) = keep_org (other p) m) ->
  confined p (modify (set tbl f)) any.
Proof.
  intros Hown Hother t1 t2 Ht. split_and!; [done | | | done]; cbn [modify snd].
  - rewrite !restrict_set, Ht. rewrite (Hown (tbl t1)), (Hown (tbl t2)), <- !table_restrict.
    by rewrite Ht.
  - rewrite restrict_set, Hother, <- table_restrict. apply table_self.
Qed.

Lemma confined_write k v : p k.1 = true -> confined p (modify (set tbl <[k := v]>)) any.
Proof.
  intros Hp. apply confined_modify; intros m; rewrite !keep_org_insert.
  - by rewrite Hp, keep_org_idem.
  - unfold other. by rewrite Hp.
Qed.

Lemma confined_own k (e : string) :
  confined p (throw_if (negb (p k)) e) (fun _ => p k = true).
Proof. apply confined_throw_if. by intros ?%negb_false_iff. Qed.

Lemma confined_new_row k v : confined p (new_row tbl p k v) any.
Proof. eapply confined_bind; [apply confined_own|]. intros [] Hp. by apply confined_write. Qed.

Lemma confined_lookup (k : string * K) : p k.1 = true -> confined p (gets (fun t => tbl t !! k)) any.
Proof. intros Hp. apply confined_gets. intros t. by rewrite table_restrict, lookup_keep_org, Hp. Qed.

Definition owned (k : string * K) {A} (a : A) : Prop := p k.1 = true.

Lemma confined_any_owned {A} (m : sql A) k : p k.1 = true -> confined p m any -> confined p m (owned k).
Proof. intros Hp. apply confined_weaken. by unfold owned. Qed.

Lemma confined_insert_row k v : confined p (insert_row tbl p k v) (owned k).
Proof.
  eapply confined_bind; [apply confined_own|]. intros [] Hp.
  eapply confined_bind; [by apply confined_lookup|]. intros [w|] _; (apply confined_any_owned; [done|]).
  - by apply (confined_of_result (Err "23505")).
  - apply confined_new_row.
Qed.

Lemma confined_insert_or_update k v f : confined p (insert_or_update tbl p k v f) (owned k).
Proof.
  eapply confined_bind; [apply confined_own|]. intros [] Hp.
  eapply confined_bind; [by apply confined_lookup|].
  intros [w|] _; (apply confined_any_owned; [done|]); apply confined_new_row.
Qed.

Lemma confined_insert_or_ignore k v : confined p (insert_or_ignore tbl p k v) (owned k).
Proof.
  eapply confined_bind; [apply confined_own|]. intros [] Hp.
  eapply confined_bind; [by apply confined_lookup|].
  intros [w|] _; [by apply confined_ret|].
  eapply confined_bind; [apply confined_new_row|]. intros _ _. by apply confined_ret.
Qed.

Lemma confined_update_where keep f : confined p (update_where tbl p keep f) any.
Proof.
  set (hit k v := p k.1 && keep k v).
  set (g := map_imap (fun k v => Some (if hit k v then f v else v))).
  assert (Hsize : forall m : gmap (string * K) V,
    filter (fun kv => hit kv.1 kv.2 = true) m = filter (fun kv => hit kv.1 kv.2 = true) (keep_org p m)).
  { intros m. apply map_eq. intros k. rewrite !map_lookup_filter, lookup_keep_org.
    unfold hit. destruct (p k.1) eqn:Hp; [done|]. destruct (m !! k); [|done]. simpl.
    rewrite option_guard_False; [done|]. by rewrite Hp. }
  intros t1 t2 Ht.
  destruct (confined_modify g) with (t1 := t1) (t2 := t2) as (_ & Hown & Hother & _); [..|done|].
  - intros m. unfold g. by rewrite !keep_org_imap, keep_org_idem.
  - intros m. apply map_eq. intros k. unfold g. rewrite !lookup_keep_org, map_lookup_imap.
    unfold other, hit. destruct (p k.1); simpl; [done|]. by destruct (m !! k).
  - split_and!; [|exact Hown | exact Hother | done].
    change (Ok (E := string) (Z.of_nat (size (filter (fun kv => hit kv.1 kv.2 = true) (tbl t1))))
            = Ok (Z.of_nat (size (filter (fun kv => hit kv.1 kv.2 = true) (tbl t2))))).
    rewrite (Hsize (tbl t1)), (Hsize (tbl t2)), <- !table_restrict. by rewrite Ht.
Qed.

Lemma confined_delete_where keep : confined p (delete_where tbl p keep) any.
Proof.
  apply confined_modify; intros m; apply map_eq; intros k; rewrite !lookup_keep_org, ?map_lookup_filter, ?lookup_keep_org.
  - by destruct (p k.1).
  - unfold other. destruct (p k.1) eqn:Hp; simpl; [done|]. destruct (m !! k); simpl; [|done].
    by rewrite Hp, option_guard_True.
Qed.
End Table.
End Confined.

Section Steps.
Context (p : string -> bool).

Lemma confined_forget {A} (m : sql A) (Q : A -> Prop) : confined p m Q -> confined p m any.
Proof. by apply confined_weaken. Qed.
Lemma confined_done {A} (a : A) : confined p (mret a) any.
Proof. by apply confined_ret. Qed.
Lemma confined_param {A} (r : result string A) : confined p (of_result r) any.
Proof. by apply confined_of_result. Qed.
Lemma confined_check b e : confined p (throw_if b e) any.
Proof. by apply confined_throw_if. Qed.

Lemma confined_references ok : (forall t, ok t = ok (restrict p t)) -> confined p (references ok) any.
Proof. intros Hok. eapply confined_bind; [by apply confined_gets|]. intros b _. apply confined_check. Qed.
Lemma confined_unique ok : (forall t, ok t = ok (restrict p t)) -> confined p (unique ok) any.
Proof. intros Hok. eapply confined_bind; [by apply confined_gets|]. intros b _. apply confined_check. Qed.

Lemma has_resource_restrict org id t :
  p org = true -> has_resource org id t = has_resource org id (restrict p t).
Proof. intros Hp. unfold has_resource. rewrite table_restrict, lookup_keep_org. cbn [fst]. by rewrite Hp. Qed.

Lemma map_Forall_own {K V} `{Countable K} (P : string * K -> V -> Prop) (m : gmap (string * K) V) :
  (forall k v, P k v \/ p k.1 = true) -> map_Forall P (keep_org p m) -> map_Forall P m.
Proof.
  intros Hp HP k v Hk. destruct (Hp k v) as [|Hk1]; [done|]. apply HP. by rewrite lookup_keep_org, Hk1.
Qed.
Lemma map_Forall_keep {K V} `{Countable K} (P : string * K -> V -> Prop) (m : gmap (string * K) V) :
  map_Forall P m -> map_Forall P (keep_org p m).
Proof. intros HP k v. rewrite lookup_keep_org. destruct (p k.1); [apply HP | done]. Qed.

Lemma active_triple_unique_restrict org id e t :
  p org = true -> active_triple_unique org id e t = active_triple_unique org id e (restrict p t).
Proof.
  intros Hp. unfold active_triple_unique. f_equal. apply bool_decide_ext. rewrite table_restrict.
  split; [apply map_Forall_keep|]. apply map_Forall_own. intros k v.
  destruct (decide (k.1 = org)) as [->|]; [by right | by left].
Qed.

Lemma pending_twin_restrict op t :
  p (op_OrgID op) = true -> pending_twin op t = pending_twin op (restrict p t).
Proof.
  intros Hp. unfold pending_twin. do 2 f_equal. apply bool_decide_ext. rewrite table_restrict.
  split; [apply map_Forall_keep|]. apply map_Forall_own. intros k v.
  destruct (decide (k.1 = op_OrgID op)) as [->|]; [by right | by left].
Qed.
End Steps.

(** The rows of [org] *)
Definition own (org o : string) : bool := bool_decide (Some org = Some o).
Lemma own_iff org o : own org o = true <-> o = org.
Proof. unfold own. rewrite bool_decide_eq_true. naive_solver. Qed.

Ltac head_of m := lazymatch m with ?f _ => head_of f | _ => m end.
Ltac owned_row := match goal with H : owned _ _ _ |- _ => exact H | H : _ = true |- _ => exact H end.
Ltac confine :=
  cbv zeta;
  lazymatch goal with
  | |- confined _ (_ ≫= _) _ => eapply confined_bind; [confine | let H := fresh in intros ? H; cbv beta in H; confine]
  | |- confined _ (mret _) _ => apply confined_done
  | |- confined _ (of_result _) _ => apply confined_param
  | |- confined _ (throw_if (negb (tenant_isolation _ _)) _) _ => apply confined_own
  | |- confined _ (throw_if _ _) _ => apply confined_check
  | |- confined _ (select ?tbl _ _ _) _ => apply (confined_select _ tbl)
  | |- confined _ (select_row ?tbl _ _) _ => apply (confined_select_row _ tbl)
  | |- confined _ (insert_row ?tbl _ _ _) _ => apply (confined_insert_row _ tbl)
  | |- confined _ (insert_or_update ?tbl _ _ _ _) _ => apply (confined_insert_or_update _ tbl)
  | |- confined _ (insert_or_ignore ?tbl _ _ _) _ => apply (confined_insert_or_ignore _ tbl)
  | |- confined _ (update_where ?tbl _ _ _) _ => apply (confined_update_where _ tbl)
  | |- confined _ (delete_where ?tbl _ _) _ => apply (confined_delete_where _ tbl)
  | |- confined ?p (references _) _ =>
      apply confined_references; intros ?;
      repeat (rewrite <- (has_resource_restrict p); [|owned_row]); reflexivity
  | |- confined _ (unique _) _ =>
      apply confined_unique; intros ?; apply active_triple_unique_restrict; owned_row
  | |- confined _ (gets (pending_twin _)) _ => apply confined_gets; intros ?; apply pending_twin_restrict; owned_row
  | |- confined _ (if ?b then _ else _) _ => destruct b; (eapply confined_forget; confine)
  | |- confined _ (match ?x with _ => _ end) _ => destruct x; (eapply confined_forget; confine)
  | |- confined _ ?m _ => let h := head_of m in unfold h; confine
  end.

(** ** Sessions and transactions of a tenant *)
Record alike (org : string) (s1 s2 : Session) : Prop := {
  alike_org : ss_Org s1 = Some org;
  alike_rest : s2 = s1 <| ss_Tables := ss_Tables s2 |>;
  alike_rows : restrict (own org) (ss_Tables s1) = restrict (own org) (ss_Tables s2);
}.

Definition obedient {A} (org : string) (m : session A) : Prop :=
  forall s1 s2, alike org s1 s2 ->
    (m s1).1 = (m s2).1 /\ alike org (m s1).2 (m s2).2 /\
    restrict (other (own org)) (ss_Tables (m s1).2) = restrict (other (own org)) (ss_Tables s1).

Section Obedient.
Context `{Server} (org : string).

Lemma obedient_statement {A} name (st : Tx -> sql A) (Q : A -> Prop) :
  (forall now n, confined (own org) (st (mkTx (Some org) now n)) Q) -> obedient org (statement name st).
Proof.
  intros Hst s1 s2 Hs. destruct Hs as [Horg -> Hrows]. destruct s1 as [t1 o now ab n]. simpl in Horg. subst o.
  set (t2 := ss_Tables s2) in *. clearbody t2. unfold statement. simpl.
  destruct (pg_fault n); [by split_and!|]. destruct ab; [by split_and!|].
  destruct (negb (has_table name)); [by split_and!|].
  destruct (Hst now n t1 t2 Hrows) as (Hr & Ho & Hothers & _).
  destruct (st _ t1) as [r1 u1], (st _ t2) as [r2 u2]. simpl in Hr, Ho, Hothers. subst r2.
  destruct r1; by split_and!.
Qed.

Lemma obedient_ret {A} (a : A) : obedient org (mret a).
Proof. intros s1 s2 Hs. by split_and!. Qed.
Lemma obedient_of_result {A} (r : result GoError A) : obedient org (of_result r).
Proof. intros s1 s2 Hs. by split_and!. Qed.

Lemma obedient_bind {A B} (m : session A) (f : A -> session B) :
  obedient org m -> (forall a, obedient org (f a)) -> obedient org (m ≫= f).
Proof.
  intros Hm Hf s1 s2 Hs. destruct (Hm s1 s2 Hs) as (Hr & Ho & Hothers). unfold mbind, M_bind.
  destruct (m s1) as [r1 u1], (m s2) as [r2 u2]. simpl in *. subst r2. destruct r1 as [a|e]; [|done].
  destruct (Hf a u1 u2 Ho) as (? & ? & ?). split_and!; [done | done | congruence].
Qed.

Lemma obedient_attempt {A} (m : session A) : obedient org m -> obedient org (attempt m).
Proof.
  intros Hm s1 s2 Hs. destruct (Hm s1 s2 Hs) as (Hr & Ho & Hothers). unfold attempt.
  destruct (m s1) as [r1 u1], (m s2) as [r2 u2]. simpl in *. subst r2. by split_and!.
Qed.
End Obedient.

Ltac obey :=
  cbv zeta;
  lazymatch goal with
  | |- obedient _ (_ ≫= _) => apply obedient_bind; [obey | intros ?; obey]
  | |- obedient _ (mret _) => apply obedient_ret
  | |- obedient _ (of_result _) => apply obedient_of_result
  | |- obedient _ (throw_if _ _) => apply obedient_of_result
  | |- obedient _ (throw ?e) => apply (obedient_of_result _ (Err e))
  | |- obedient _ (attempt _) => apply obedient_attempt; obey
  | |- obedient ?org (statement _ _) =>
      apply (obedient_statement org _ _ any); intros ? ?; eapply confined_forget; confine
  | |- obedient _ (if ?b then _ else _) => destruct b; obey
  | |- obedient _ (match ?x with _ => _ end) => destruct x; obey
  | |- obedient _ ?m => let h := head_of m in unfold h; obey
  end.

(** ** The transactions of the program *)
Section Programs.
Context `{Server} (org : string).

Lemma obey_GetRecordTx o id : obedient org (GetRecordTx o id).
Proof. unfold GetRecordTx. obey. Qed.
Lemma obey_UpsertRecord rec n : obedient org (UpsertRecord rec n).
Proof. unfold UpsertRecord. obey. Qed.
Lemma obey_InsertPlaceholder now rec n : obedient org (InsertPlaceholder now rec n).
Proof. unfold InsertPlaceholder. obey. Qed.
Lemma obey_PromotePlaceholder now rec n : obedient org (PromotePlaceholder now rec n).
Proof. unfold PromotePlaceholder. obey. Qed.
Lemma obey_AppendRevision rev : obedient org (AppendRevision rev).
Proof. unfold AppendRevision. obey. Qed.
Lemma obey_EnqueueOutbox e : obedient org (EnqueueOutbox e).
Proof. unfold EnqueueOutbox. obey. Qed.
Lemma obey_PutIdempotency rec : obedient org (PutIdempotency rec).
Proof. unfold PutIdempotency, keyed. obey. Qed.
Lemma obey_UpsertSource src n : obedient org (UpsertSource src n).
Proof. unfold UpsertSource. obey. Qed.
Lemma obey_CreateDelegation g a b c : obedient org (CreateDelegation g a b c).
Proof. unfold CreateDelegation. obey. Qed.
Lemma obey_RevokeDelegation o id : obedient org (RevokeDelegation o id).
Proof. unfold RevokeDelegation. obey. Qed.
Lemma obey_UpsertEdge now newid e : obedient org (UpsertEdge now newid e).
Proof. unfold UpsertEdge, active_id, insert_edge, edge_references. obey. Qed.
Lemma obey_TombstoneEdge o id : obedient org (TombstoneEdge o id).
Proof. unfold TombstoneEdge. obey. Qed.
Lemma obey_EnqueueAuthzTuple now newid op : obedient org (EnqueueAuthzTuple now newid op).
Proof. unfold EnqueueAuthzTuple. obey. Qed.
End Programs.

(** What a caller of [WithOrgTx] may run: the methods of the store that take the
    transaction, on any arguments, in any order that depends on their answers *)
Inductive store_program `{Server} : forall A : Type, session A -> Prop :=
| prog_ret A (a : A) : store_program A (mret a)
| prog_fail A (e : GoError) : store_program A (throw e)
| prog_bind A B (m : session A) (f : A -> session B) :
    store_program A m -> (forall a, store_program B (f a)) -> store_program B (m ≫= f)
| prog_attempt A (m : session A) : store_program A m -> store_program _ (attempt m)
| prog_GetRecordTx o id : store_program _ (GetRecordTx o id)
| prog_UpsertRecord rec n : store_program _ (UpsertRecord rec n)
| prog_InsertPlaceholder now rec n : store_program _ (InsertPlaceholder now rec n)
| prog_PromotePlaceholder now rec n : store_program _ (PromotePlaceholder now rec n)
| prog_AppendRevision rev : store_program _ (AppendRevision rev)
| prog_EnqueueOutbox e : store_program _ (EnqueueOutbox e)
| prog_PutIdempotency rec : store_program _ (PutIdempotency rec)
| prog_UpsertSource src n : store_program _ (UpsertSource src n)
| prog_CreateDelegation g a b c : store_program _ (CreateDelegation g a b c)
| prog_RevokeDelegation o id : store_program _ (RevokeDelegation o id)
| prog_UpsertEdge now newid e : store_program _ (UpsertEdge now newid e)
| prog_TombstoneEdge o id : store_program _ (TombstoneEdge o id)
| prog_EnqueueAuthzTuple now newid op : store_program _ (EnqueueAuthzTuple now newid op).

(** A program over the database that is bound to one tenant *)
Definition tenant_only `{Server} {A} (org : string) (m : database A) : Prop :=
  forall d1 d2, db_Trips d1 = db_Trips d2 ->
    restrict (own org) (db_Tables d1) = restrict (own org) (db_Tables d2) ->
    (m d1).1 = (m d2).1 /\ db_Trips (m d1).2 = db_Trips (m d2).2 /\
    restrict (own org) (db_Tables (m d1).2) = restrict (own org) (db_Tables (m d2).2) /\
    restrict (other (own org)) (db_Tables (m d1).2) = restrict (other (own org)) (db_Tables d1).

Section Tenants.
Context `{Server} (org : string).

Lemma program_obedient A (m : session A) : store_program A m -> obedient org m.
Proof.
  induction 1; auto using obedient_bind, obedient_attempt, obedient_ret, obey_GetRecordTx, obey_UpsertRecord,
    obey_InsertPlaceholder, obey_PromotePlaceholder, obey_AppendRevision, obey_EnqueueOutbox,
    obey_PutIdempotency, obey_UpsertSource, obey_CreateDelegation, obey_RevokeDelegation, obey_UpsertEdge,
    obey_TombstoneEdge, obey_EnqueueAuthzTuple.
  apply (obedient_of_result _ (Err e)).
Qed.

Lemma commit_tenant {A} (a : A) d1 d2 s1 s2 :
  db_Trips d1 = db_Trips d2 -> restrict (own org) (db_Tables d1) = restrict (own org) (db_Tables d2) ->
  alike org s1 s2 -> restrict (other (own org)) (ss_Tables s1) = restrict (other (own org)) (db_Tables d1) ->
  (commit a d1 s1).1 = (commit a d2 s2).1 /\ db_Trips (commit a d1 s1).2 = db_Trips (commit a d2 s2).2 /\
  restrict (own org) (db_Tables (commit a d1 s1).2) = restrict (own org) (db_Tables (commit a d2 s2).2) /\
  restrict (other (own org)) (db_Tables (commit a d1 s1).2) = restrict (other (own org)) (db_Tables d1).
Proof.
  intros Hn Hd [Ho -> Hs] Hothers. unfold commit. simpl. destruct (pg_fault (ss_Trips s1)) as [f|].
  - destruct (f_Applied f && negb (ss_Aborted s1)); by split_and!.
  - destruct (ss_Aborted s1); by split_and!.
Qed.

Lemma WithTenant_tenant_only {A} (fn : session A) : obedient org fn -> tenant_only org (WithTenant org fn).
Proof.
  intros Hfn d1 d2 Hn Hd. unfold WithTenant. destruct (is_empty org); [by split_and!|]. rewrite <- Hn.
  destruct (pg_fault (db_Trips d1)) as [f|]; [by split_and!|].
  unfold set_config. simpl. destruct (pg_fault _) as [f|]; [by split_and!|].
  destruct (is_text org); [|by split_and!].
  set (s1 := mkSession (db_Tables d1) (Some org) _ _ _). set (s2 := mkSession (db_Tables d2) (Some org) _ _ _).
  assert (Hs : alike org s1 s2) by (by split).
  destruct (Hfn s1 s2 Hs) as (Hr & Ho & Hothers).
  destruct (fn s1) as [r1 u1], (fn s2) as [r2 u2]. simpl in Hr, Ho, Hothers. subst r2.
  destruct r1 as [a|e]; [by apply commit_tenant|]. destruct Ho as [_ -> _]. by split_and!.
Qed.

Lemma tenant_only_ret {A} (a : A) : tenant_only org (mret a).
Proof. intros d1 d2 Hn Hd. by split_and!. Qed.
Lemma tenant_only_of_result {A} (r : result GoError A) : tenant_only org (of_result r).
Proof. intros d1 d2 Hn Hd. by split_and!. Qed.
Lemma tenant_only_bind {A B} (m : database A) (f : A -> database B) :
  tenant_only org m -> (forall a, tenant_only org (f a)) -> tenant_only org (m ≫= f).
Proof.
  intros Hm Hf d1 d2 Hn Hd. destruct (Hm d1 d2 Hn Hd) as (Hr & Hn' & Hd' & Hothers). unfold mbind, M_bind.
  destruct (m d1) as [r1 u1], (m d2) as [r2 u2]. simpl in *. subst r2. destruct r1 as [a|e]; [|done].
  destruct (Hf a u1 u2 Hn' Hd') as (? & ? & ? & ?). split_and!; [done..|congruence].
Qed.
Lemma tenant_only_attempt {A} (m : database A) : tenant_only org m -> tenant_only org (attempt m).
Proof.
  intros Hm d1 d2 Hn Hd. destruct (Hm d1 d2 Hn Hd) as (Hr & ? & ? & ?). unfold attempt.
  destruct (m d1) as [r1 u1], (m d2) as [r2 u2]. simpl in *. subst r2. by split_and!.
Qed.
Lemma tenant_only_tableExists name : tenant_only org (tableExists name).
Proof.
  intros d1 d2 Hn Hd. unfold tableExists, autocommit. simpl. rewrite <- Hn.
  destruct (pg_fault (db_Trips d1)) as [f|]; [destruct (f_Applied f)|]; by split_and!.
Qed.
End Tenants.

(** The calls that a request of organization [org] makes to the stores *)
Inductive tenant_call `{Server, FullText} (org : string) : forall A : Type, database A -> Prop :=
| call_WithOrgTx A (m : session A) : store_program A m -> tenant_call org A (WithOrgTx org m)
| call_GetRecord id : tenant_call org _ (GetRecord org id)
| call_ListRecords limit cursor : tenant_call org _ (ListRecords org limit cursor)
| call_GetRevision id : tenant_call org _ (GetRevision org id)
| call_ListRevisions id limit : tenant_call org _ (ListRevisions org id limit)
| call_PutInbox entry : in_OrgID entry = org -> tenant_call org _ (PutInbox entry)
| call_HasInbox consumer msgID : tenant_call org _ (HasInbox org consumer msgID)
| call_GetIdempotency key : tenant_call org _ (GetIdempotency org key)
| call_GetSource id : tenant_call org _ (GetSource org id)
| call_ListSources : tenant_call org _ (ListSources org)
| call_GetDelegation id : tenant_call org _ (GetDelegation org id)
| call_ListDelegations actor : tenant_call org _ (ListDelegations org actor)
| call_GetEdge id : tenant_call org _ (GetEdge org id)
| call_ListEdges opts : tenant_call org _ (ListEdges org opts)
| call_PutMappingSpec id spec : tenant_call org _ (PutMappingSpec org id spec)
| call_GetMappingSpec id : tenant_call org _ (GetMappingSpec org id)
| call_AppendAudit event n : aud_OrgID event = org -> tenant_call org _ (AppendAudit event n)
| call_ListAudit limit : tenant_call org _ (ListAudit org limit)
| call_AppendChange now newid ev : chg_OrgID ev = org -> tenant_call org _ (AppendChange now newid ev)
| call_ListChanges cursor limit : tenant_call org _ (ListChanges org cursor limit)
| call_GetQuotas : tenant_call org _ (GetQuotas org)
| call_SetQuotas q : tenant_call org _ (SetQuotas org q)
| call_PutExportJob id status manifest : tenant_call org _ (PutExportJob org id status manifest)
| call_GetExportJob id : tenant_call org _ (GetExportJob org id)
| call_PutAccessRequest id res purpose why audit : tenant_call org _ (PutAccessRequest org id res purpose why audit)
| call_CreateAgentCredential now bytes id req :
    Credentials.ccr_OrgID req = org -> tenant_call org _ (CreateAgentCredential now bytes id req)
| call_RotateAgentCredential now bytes id req :
    Credentials.ccr_OrgID req = org -> tenant_call org _ (RotateAgentCredential now bytes id req)
| call_SaveSubscription sub : sub_OrgID sub = org -> tenant_call org _ (SaveSubscription sub)
| call_ListSubscriptions : tenant_call org _ (ListSubscriptions org)
| call_GetSubscription id : tenant_call org _ (GetSubscription org id)
| call_SaveDelivery d : dl_OrgID d = org -> tenant_call org _ (SaveDelivery d)
| call_ListDeliveries id limit : tenant_call org _ (ListDeliveries org id limit)
| call_HasLegalHold id : tenant_call org _ (HasLegalHold org id)
| call_Delete ids : tenant_call org _ (Delete org ids)
| call_Upsert docs : Forall (fun d => doc_OrgID d = org) docs -> tenant_call org _ (Upsert docs)
| call_SearchCandidates query limit filters : tenant_call org _ (SearchCandidates org query limit filters)
| call_GetDocument id : tenant_call org _ (GetDocument org id).

Ltac tenanted :=
  cbv zeta;
  lazymatch goal with
  | |- tenant_only _ (_ ≫= _) => apply tenant_only_bind; [tenanted | intros ?; tenanted]
  | |- tenant_only _ (mret _) => apply tenant_only_ret
  | |- tenant_only _ (of_result _) => apply tenant_only_of_result
  | |- tenant_only _ (throw_if _ _) => apply tenant_only_of_result
  | |- tenant_only _ (throw ?e) => apply (tenant_only_of_result _ (Err e))
  | |- tenant_only _ (attempt _) => apply tenant_only_attempt; tenanted
  | |- tenant_only _ (tableExists _) => apply tenant_only_tableExists
  | |- tenant_only _ (WithTenant _ _) => apply WithTenant_tenant_only; obey
  | |- tenant_only _ (if ?b then _ else _) => destruct b; tenanted
  | |- tenant_only _ (match ?x with _ => _ end) => destruct x; tenanted
  | |- tenant_only _ ?m => let h := head_of m in unfold h; tenanted
  end.

Section Isolation.
Context `{Server, FullText} (org : string).

Lemma tenant_only_upsert d : doc_OrgID d = org -> tenant_only org (upsert_document d).
Proof. intros <-. tenanted. Qed.

Lemma tenant_only_Upsert docs : Forall (fun d => doc_OrgID d = org) docs -> tenant_only org (Upsert docs).
Proof.
  unfold Upsert. induction 1 as [|d docs Hd _ IH]; simpl; [apply tenant_only_ret|].
  apply tenant_only_bind; [by apply tenant_only_upsert | done].
Qed.

(** C7 Row-level security: whatever a request of an organization asks of the stores through
    the calls of [tenant_call], and whatever organizations its parameters name, the answer is
    a function of that organization's rows, and the rows of every other one stay as they are.
    Left out are the calls that do not run as a tenant: [CreateOrganization] and
    [GetOrganization], whose table has no policy; [ListOutboxPending], which names no tenant
    to the database; and what runs with the rights of the tables' owner: the claims and
    marks of the outbox and of the tuple queue, the counts and listings of the queue's
    worker, the lookup of an agent's key and its revocation ([Revoke]). *)
Theorem stores_tenant_isolated A (m : database A) : tenant_call org A m -> tenant_only org m.
Proof.
  destruct 1; subst; try (by apply tenant_only_Upsert); [|tenanted..].
  by apply WithTenant_tenant_only, program_obedient.
Qed.
End Isolation.

(** A record of another organization, written under a tenant, is refused. *)
#[local] Existing Instances quiet_server word_search.
Definition foreign_record : LedgerRecord :=
  mkRecord "r1" "globex" "doc" "T" "internal" [] "" "" "" "" ∅ second second.
Lemma stores_tenant_isolated_witness :
  tenant_only "acme" (WithOrgTx "acme" (UpsertRecord foreign_record false)) /\
  (WithOrgTx "acme" (UpsertRecord foreign_record false) (mkDatabase emptyTables 0)).1 = Err (pg_error "42501").
Proof.
  split; [|vm_compute; reflexivity].
  apply (stores_tenant_isolated "acme"), call_WithOrgTx, prog_UpsertRecord.
Defined.
