(* ===== verification/PostgresContract.v ===== *)
(** * What the PostgreSQL stores keep

    A transaction takes effect as a whole or not at all; a rotation of keys is one of them.
    Every operation keeps a record under its identifiers, which gives the law that the
    retrieval pipeline asks of a ledger. And where the stores part with their in-memory
    siblings. *)
From S2P Require Import Prelude GoStd Sha256 Ports Platform Json Decode Mapping MappingSpec Ledger Changes.
From S2P Require Credentials.
From S2P Require Import Sql Postgres PostgresStores PostgresFacts.

(** ** Transactions *)
Section Transactions.
Context `{Server}.

Lemma statement_Ok {A} name (st : Tx -> sql A) s a s' :
  statement name st s = (Ok a, s') ->
  ss_Aborted s = false /\ exists t, st (mkTx (ss_Org s) (ss_Now s) (ss_Trips s)) (ss_Tables s) = (Ok a, t) /\
  s' = mkSession t (ss_Org s) (ss_Now s) false (S (ss_Trips s)).
Proof.
  destruct s as [t o now ab n]. unfold statement. simpl. destruct (pg_fault n); [done|].
  destruct ab; [done|]. destruct (negb (has_table name)); [done|].
  destruct (st _ t) as [[x|e] u] eqn:E; [|done]. intros [= -> <-]. split; [done|]. by exists u.
Qed.

(** A session that the tenant's transaction [fn] was run in, up to its commit *)
Definition ran {A} (org : string) (fn : session A) (d : Database) (a : A) (s : Session) : Prop :=
  exists now n, fn (mkSession (db_Tables d) (Some org) now false n) = (Ok a, s) /\ ss_Aborted s = false.

Lemma WithTenant_spec {A} org (fn : session A) d :
  let '(r, d') := WithTenant org fn d in
  match r with
  | Ok a => org <> "" /\ exists s, ran org fn d a s /\ db_Tables d' = ss_Tables s
  | Err _ => db_Tables d' = db_Tables d \/
             exists a s f, ran org fn d a s /\ db_Tables d' = ss_Tables s /\
               pg_fault (ss_Trips s) = Some f /\ f_Applied f = true
  end.
Proof.
  unfold WithTenant. destruct (is_empty org) eqn:Ho; [by left|]. apply is_empty_false in Ho.
  destruct (pg_fault (db_Trips d)) as [f|]; [by left|]. unfold set_config. simpl.
  destruct (pg_fault _) as [f|]; [by left|]. destruct (is_text org); [|by left].
  set (s0 := mkSession (db_Tables d) (Some org) _ _ _).
  destruct (fn s0) as [[a|e] s] eqn:E; [|by left]. unfold commit.
  destruct (pg_fault (ss_Trips s)) as [f|] eqn:Ef.
  - destruct (f_Applied f) eqn:Ea; simpl; [|by left]. destruct (ss_Aborted s) eqn:Eb; simpl; [by left|].
    right. exists a, s, f. by split_and!; [eexists _, _|..].
  - destruct (ss_Aborted s) eqn:Eb; [by left|]. split; [done|]. exists s. by split; [eexists _, _|].
Qed.
End Transactions.

(** Unlike the ledger in memory, the database keeps all of a transaction or nothing: an
    answer without an error says that every statement ran and was committed, and after an
    error the tables are those of before, unless the connection broke on a [COMMIT] that
    the server carried out. *)
Theorem transaction_atomic `{Server} {A} org (fn : session A) d :
  let '(r, d') := WithOrgTx org fn d in
  match r with
  | Ok a => org <> "" /\ exists s, ran org fn d a s /\ db_Tables d' = ss_Tables s
  | Err _ => db_Tables d' = db_Tables d \/
             exists a s f, ran org fn d a s /\ db_Tables d' = ss_Tables s /\
               pg_fault (ss_Trips s) = Some f /\ f_Applied f = true
  end.
Proof. apply WithTenant_spec. Qed.

(** ** Invariants of the tables *)
Definition sql_keeps {A} (P : Tables -> Prop) (m : sql A) : Prop := forall t, P t -> P (m t).2.
Definition session_keeps {A} (P : Tables -> Prop) (m : session A) : Prop :=
  forall s, P (ss_Tables s) -> P (ss_Tables (m s).2).
Definition keeps {A} (P : Tables -> Prop) (m : database A) : Prop :=
  forall d, P (db_Tables d) -> P (db_Tables (m d).2).

(** A table that the invariant does not depend on *)
Definition indifferent {T} (P : Tables -> Prop) (tbl : Tables -> T) `{!Setter tbl} : Prop :=
  forall f t, P t -> P (set tbl f t).

Section Keeps.
Context `{Server} (P : Tables -> Prop).

Lemma sql_keeps_bind {A B} (m : sql A) (f : A -> sql B) :
  sql_keeps P m -> (forall a, sql_keeps P (f a)) -> sql_keeps P (m ≫= f).
Proof.
  intros Hm Hf t Ht. specialize (Hm t Ht). unfold mbind, M_bind. destruct (m t) as [[a|e] u]; [|done].
  by apply Hf.
Qed.
Lemma sql_keeps_read {A} (m : sql A) : (forall t, (m t).2 = t) -> sql_keeps P m.
Proof. intros Hm t Ht. by rewrite Hm. Qed.

Section Table.
Context {K V} `{Countable K} (tbl : Tables -> gmap (string * K) V) `{!Setter tbl} (policy : string -> bool).
Hypothesis Hfree : indifferent P tbl.

Lemma sql_keeps_new_row k v : sql_keeps P (new_row tbl policy k v).
Proof. apply sql_keeps_bind; [by apply sql_keeps_read|]. intros _ t Ht. by apply Hfree. Qed.
Lemma sql_keeps_insert_row k v : sql_keeps P (insert_row tbl policy k v).
Proof.
  apply sql_keeps_bind; [by apply sql_keeps_read|]. intros _.
  apply sql_keeps_bind; [by apply sql_keeps_read|]. intros [w|]; [by apply sql_keeps_read|].
  apply sql_keeps_new_row.
Qed.
Lemma sql_keeps_insert_or_update k v f : sql_keeps P (insert_or_update tbl policy k v f).
Proof.
  apply sql_keeps_bind; [by apply sql_keeps_read|]. intros _.
  apply sql_keeps_bind; [by apply sql_keeps_read|]. intros [w|]; apply sql_keeps_new_row.
Qed.
Lemma sql_keeps_insert_or_ignore k v : sql_keeps P (insert_or_ignore tbl policy k v).
Proof.
  apply sql_keeps_bind; [by apply sql_keeps_read|]. intros _.
  apply sql_keeps_bind; [by apply sql_keeps_read|]. intros [w|]; [by apply sql_keeps_read|].
  apply sql_keeps_bind; [apply sql_keeps_new_row|]. intros _. by apply sql_keeps_read.
Qed.
Lemma sql_keeps_update_where keep f : sql_keeps P (update_where tbl policy keep f).
Proof. intros t Ht. by apply Hfree. Qed.
Lemma sql_keeps_delete_where keep : sql_keeps P (delete_where tbl policy keep).
Proof. intros t Ht. by apply Hfree. Qed.
End Table.

Lemma session_keeps_statement {A} name (st : Tx -> sql A) :
  (forall tx, sql_keeps P (st tx)) -> session_keeps P (statement name st).
Proof.
  intros Hst [t o now ab n] Ht. unfold statement. simpl in *. destruct (pg_fault n); [done|].
  destruct ab; [done|]. destruct (negb (has_table name)); [done|].
  specialize (Hst (mkTx o now n) t Ht). by destruct (st _ t) as [[a|e] u].
Qed.
Lemma session_keeps_read {A} (m : session A) : (forall s, (m s).2 = s) -> session_keeps P m.
Proof. intros Hm s Hs. by rewrite Hm. Qed.
Lemma session_keeps_bind {A B} (m : session A) (f : A -> session B) :
  session_keeps P m -> (forall a, session_keeps P (f a)) -> session_keeps P (m ≫= f).
Proof.
  intros Hm Hf s Hs. specialize (Hm s Hs). unfold mbind, M_bind. destruct (m s) as [[a|e] u]; [|done].
  by apply Hf.
Qed.
Lemma session_keeps_attempt {A} (m : session A) : session_keeps P m -> session_keeps P (attempt m).
Proof. intros Hm s Hs. specialize (Hm s Hs). unfold attempt. by destruct (m s). Qed.

Lemma keeps_WithTenant {A} org (fn : session A) : session_keeps P fn -> keeps P (WithTenant org fn).
Proof.
  intros Hfn d Hd. pose proof (WithTenant_spec org fn d) as Hs. destruct (WithTenant org fn d) as [r d']. simpl.
  assert (Hran : forall a s, ran org fn d a s -> P (ss_Tables s)).
  { intros a s (now & n & E & _). specialize (Hfn (mkSession (db_Tables d) (Some org) now false n) Hd).
    by rewrite E in Hfn. }
  destruct r as [a|e].
  - destruct Hs as (_ & s & Hr & ->). by eapply Hran.
  - destruct Hs as [->|(a & s & f & Hr & -> & _)]; [done | by eapply Hran].
Qed.
Lemma keeps_autocommit {A} name (st : Tx -> sql A) :
  (forall tx, sql_keeps P (st tx)) -> keeps P (autocommit name st).
Proof.
  intros Hst d Hd. unfold autocommit. simpl. specialize (Hst (mkTx None (pg_now (db_Trips d)) (db_Trips d)) _ Hd).
  destruct (negb (has_table name)); simpl.
  - destruct (pg_fault _) as [f|]; [destruct (f_Applied f)|]; done.
  - destruct (st _ (db_Tables d)) as [[a|e] t]; simpl in *;
      (destruct (pg_fault _) as [f|]; [destruct (f_Applied f)|]); done.
Qed.
Lemma keeps_read {A} (m : database A) : (forall d, db_Tables (m d).2 = db_Tables d) -> keeps P m.
Proof. intros Hm d Hd. by rewrite Hm. Qed.
Lemma database_keeps_bind {A B} (m : database A) (f : A -> database B) :
  keeps P m -> (forall a, keeps P (f a)) -> keeps P (m ≫= f).
Proof.
  intros Hm Hf d Hd. specialize (Hm d Hd). unfold mbind, M_bind. destruct (m d) as [[a|e] u]; [|done].
  by apply Hf.
Qed.
Lemma database_keeps_attempt {A} (m : database A) : keeps P m -> keeps P (attempt m).
Proof. intros Hm d Hd. specialize (Hm d Hd). unfold attempt. by destruct (m d). Qed.
End Keeps.

(** ** Every operation of the stores *)
Inductive store_call `{Server, FullText} : forall A : Type, database A -> Prop :=
| call_tenant org A (m : database A) : tenant_call org A m -> store_call A m
| call_CreateOrganization o : store_call _ (CreateOrganization o)
| call_GetOrganization id : store_call _ (GetOrganization id)
| call_ClaimOutbox limit : store_call _ (ClaimOutbox limit)
| call_ListOutboxPending org limit : store_call _ (ListOutboxPending org limit)
| call_MarkOutboxPublished ids at_ : store_call _ (MarkOutboxPublished ids at_)
| call_ClaimAuthzTuples limit lease : store_call _ (ClaimAuthzTuples limit lease)
| call_MarkAuthzTupleApplied id at_ : store_call _ (MarkAuthzTupleApplied id at_)
| call_MarkAuthzTupleFailed id n next e dead : store_call _ (MarkAuthzTupleFailed id n next e dead)
| call_CountAuthzTuplePending org : store_call _ (CountAuthzTuplePending org)
| call_ListActiveParentEdges org limit : store_call _ (ListActiveParentEdgesNeedingAuthz org limit)
| call_has_tuple states org op o r s : store_call _ (has_tuple states org op o r s)
| call_ResolveAPIKey now key : store_call _ (ResolveAPIKey now key)
| call_Revoke org id : store_call _ (Revoke org id).

Ltac keeping :=
  cbv zeta;
  lazymatch goal with
  | |- sql_keeps _ (_ ≫= _) => apply sql_keeps_bind; [keeping | intros ?; keeping]
  | |- sql_keeps _ (insert_row ?tbl _ _ _) => apply (sql_keeps_insert_row _ tbl); intros ? ? Hkeep; exact Hkeep
  | |- sql_keeps _ (insert_or_update ?tbl _ _ _ _) => apply (sql_keeps_insert_or_update _ tbl); intros ? ? Hkeep; exact Hkeep
  | |- sql_keeps _ (insert_or_ignore ?tbl _ _ _) => apply (sql_keeps_insert_or_ignore _ tbl); intros ? ? Hkeep; exact Hkeep
  | |- sql_keeps _ (update_where ?tbl _ _ _) => apply (sql_keeps_update_where _ tbl); intros ? ? Hkeep; exact Hkeep
  | |- sql_keeps _ (delete_where ?tbl _ _) => apply (sql_keeps_delete_where _ tbl); intros ? ? Hkeep; exact Hkeep
  | |- sql_keeps _ (modify _) => intros ? Hkeep; exact Hkeep
  | |- sql_keeps _ (mret _) => apply sql_keeps_read; intros; reflexivity
  | |- sql_keeps _ (gets _) => apply sql_keeps_read; intros; reflexivity
  | |- sql_keeps _ (of_result _) => apply sql_keeps_read; intros; reflexivity
  | |- sql_keeps _ (throw_if _ _) => apply sql_keeps_read; intros; reflexivity
  | |- session_keeps _ (_ ≫= _) => apply session_keeps_bind; [keeping | intros ?; keeping]
  | |- session_keeps _ (statement _ _) => apply session_keeps_statement; intros ?; keeping
  | |- session_keeps _ (attempt _) => apply session_keeps_attempt; keeping
  | |- session_keeps _ (mret _) => apply session_keeps_read; intros; reflexivity
  | |- session_keeps _ (of_result _) => apply session_keeps_read; intros; reflexivity
  | |- session_keeps _ (throw_if _ _) => apply session_keeps_read; intros; reflexivity
  | |- session_keeps _ (throw _) => apply session_keeps_read; intros; reflexivity
  | |- keeps _ (_ ≫= _) => apply database_keeps_bind; [keeping | intros ?; keeping]
  | |- keeps _ (WithTenant _ _) => apply keeps_WithTenant; keeping
  | |- keeps _ (autocommit _ _) => apply keeps_autocommit; intros ?; keeping
  | |- keeps _ (attempt _) => apply database_keeps_attempt; keeping
  | |- keeps _ (mret _) => apply keeps_read; intros; reflexivity
  | |- keeps _ (of_result _) => apply keeps_read; intros; reflexivity
  | |- keeps _ (throw_if _ _) => apply keeps_read; intros; reflexivity
  | |- keeps _ (throw _) => apply keeps_read; intros; reflexivity
  | |- context [if ?b then _ else _] => destruct b; keeping
  | |- context [match ?x with _ => _ end] => destruct x; keeping
  | |- sql_keeps _ ?m => let h := head_of m in unfold h; keeping
  | |- session_keeps _ ?m => let h := head_of m in unfold h; keeping
  | |- keeps _ ?m => let h := head_of m in unfold h; keeping
  end.

(** ** Records stay under their identifiers *)
Definition filed (t : Tables) : Prop :=
  forall k r, resources t !! k = Some r -> k = (rec_OrgID r, rec_ResourceID r).

Section Filed.
Context `{Server, FullText}.

Lemma record_row_ids rec n kind state created updated row :
  record_row rec n kind state created updated = Ok row ->
  rec_OrgID row = rec_OrgID rec /\ rec_ResourceID row = rec_ResourceID rec.
Proof.
  unfold record_row. intros (? & _ & H1)%result_bind_Ok. apply result_bind_Ok in H1 as (? & _ & H1).
  apply result_bind_Ok in H1 as (? & _ & [= <-]). done.
Qed.

Lemma filed_new_row pol k v : k = (rec_OrgID v, rec_ResourceID v) -> sql_keeps filed (new_row resources pol k v).
Proof.
  intros Hk. apply sql_keeps_bind; [by apply sql_keeps_read|]. intros _ t Ht k' r. simpl.
  destruct (decide (k = k')) as [<-|Hne]; [rewrite lookup_insert_eq | rewrite lookup_insert_ne by done].
  - by intros [= <-].
  - apply Ht.
Qed.

Lemma filed_insert_or_update pol k v f :
  k = (rec_OrgID v, rec_ResourceID v) ->
  (forall old, k = (rec_OrgID old, rec_ResourceID old) -> k = (rec_OrgID (f old), rec_ResourceID (f old))) ->
  sql_keeps filed (insert_or_update resources pol k v f).
Proof.
  intros Hk Hf t Ht. unfold insert_or_update, throw_if, of_result, fail_if.
  destruct (negb (pol k.1)) eqn:Hp; [exact Ht|]. unfold mbind, M_bind, gets.
  destruct (resources t !! k) as [old|] eqn:E.
  - by apply filed_new_row; [apply Hf, Ht|].
  - by apply filed_new_row.
Qed.

Lemma filed_insert_or_ignore pol k v :
  k = (rec_OrgID v, rec_ResourceID v) -> sql_keeps filed (insert_or_ignore resources pol k v).
Proof.
  intros Hk. apply sql_keeps_bind; [by apply sql_keeps_read|]. intros _.
  apply sql_keeps_bind; [by apply sql_keeps_read|]. intros [w|]; [by apply sql_keeps_read|].
  apply sql_keeps_bind; [by apply filed_new_row|]. intros _. by apply sql_keeps_read.
Qed.

(** A statement that begins by making its row from the parameters *)
Lemma sql_keeps_row {A B} P (r : result string A) (f : A -> sql B) :
  (forall a, r = Ok a -> sql_keeps P (f a)) -> sql_keeps P (of_result r ≫= f).
Proof. intros Hf t Ht. unfold mbind, M_bind, of_result. destruct r as [a|e]; [by apply Hf | done]. Qed.

Lemma filed_UpsertRecord rec n : session_keeps filed (UpsertRecord rec n).
Proof.
  apply session_keeps_statement. intros tx. apply sql_keeps_row. intros row [Ho Hi]%record_row_ids.
  apply sql_keeps_bind; [|intros _; keeping].
  apply filed_insert_or_update; [by rewrite Ho, Hi | by intros old ->].
Qed.
Lemma filed_InsertPlaceholder now rec n : session_keeps filed (InsertPlaceholder now rec n).
Proof.
  apply session_keeps_statement. intros tx. apply sql_keeps_row. intros row [Ho Hi]%record_row_ids.
  apply sql_keeps_bind; [|intros b; keeping]. apply filed_insert_or_ignore. rewrite Ho, Hi. done.
Qed.
Lemma filed_PromotePlaceholder now rec n : session_keeps filed (PromotePlaceholder now rec n).
Proof.
  apply session_keeps_statement. intros tx. apply sql_keeps_row. intros row [Ho Hi]%record_row_ids.
  apply sql_keeps_bind; [|intros _; keeping].
  apply filed_insert_or_update; [by rewrite Ho, Hi | intros old _; simpl; by rewrite Ho, Hi].
Qed.

Lemma filed_program A (m : session A) : store_program A m -> session_keeps filed m.
Proof.
  induction 1; try keeping.
  - by apply session_keeps_bind.
  - by apply session_keeps_attempt.
  - apply filed_UpsertRecord.
  - apply filed_InsertPlaceholder.
  - apply filed_PromotePlaceholder.
Qed.

Lemma filed_call A (m : database A) : store_call A m -> keeps filed m.
Proof.
  destruct 1 as [org A m Hm| | | | | | | | | | | | |]; try keeping. destruct Hm; try keeping.
  - by apply keeps_WithTenant, filed_program.
  - unfold Upsert. clear. induction docs as [|d docs IH]; [keeping|].
    cbn [for_each]. apply database_keeps_bind; [keeping | intros _; exact IH].
Qed.

(** The databases that the stores lead to from the empty one, whatever the server does *)
Inductive reachable : Database -> Prop :=
| reach_start n : reachable (mkDatabase emptyTables n)
| reach_call A (m : database A) d : store_call A m -> reachable d -> reachable (m d).2.

Lemma reachable_filed d : reachable d -> filed (db_Tables d).
Proof.
  induction 1 as [n | A m d Hm _ IH]; [intros k r; simpl; by rewrite lookup_empty|]. by apply (filed_call A m).
Qed.
End Filed.

(** ** Rotating the keys of an agent *)
Section Rotation.
Context `{Server}.
Import Credentials.

Definition revoked_row (c : CredentialRow) : CredentialRow := c <| cw_Revoked := true |>.

(** The credentials after a rotation: the new one, the agent's others revoked, the rest *)
Definition rotated (now : Time) (id secret : string) (req : CreateAgentCredentialRequest) (t t' : Tables) : Prop :=
  agent_credentials t' !! (ccr_OrgID req, id)
    = Some (mkCredentialRow (ccr_AgentID req) (ccr_OwnerID req) (key_hash secret) (micros <$> ccr_ExpiresAt req)
              false (micros now)) /\
  forall k c, agent_credentials t !! k = Some c ->
    agent_credentials t' !! k =
      Some (if bool_decide (k.1 = ccr_OrgID req /\ cw_AgentID c = ccr_AgentID req) then revoked_row c else c).

Lemma insert_row_Ok {K V} `{Countable K} (tbl : Tables -> gmap (string * K) V) `{!Setter tbl, !TenantTable tbl}
    pol k v t t' :
  insert_row tbl pol k v t = (Ok tt, t') -> tbl t !! k = None /\ tbl t' = <[k := v]> (tbl t).
Proof.
  unfold insert_row, new_row, throw_if, of_result, fail_if. destruct (negb (pol k.1)); [done|].
  unfold mbind, M_bind, gets. destruct (tbl t !! k) eqn:E; [done|]. intros [= <-]. split; [done|]. apply table_set.
Qed.

Lemma update_where_Ok {K V} `{Countable K} (tbl : Tables -> gmap (string * K) V) `{!Setter tbl, !TenantTable tbl}
    pol keep f n t t' k :
  update_where tbl pol keep f t = (Ok n, t') ->
  tbl t' !! k = (fun v => if pol k.1 && keep k v then f v else v) <$> tbl t !! k.
Proof.
  intros E. replace t' with (update_where tbl pol keep f t).2 by (by rewrite E). unfold update_where.
  cbn [snd]. rewrite table_set, map_lookup_imap. by destruct (tbl t !! k).
Qed.

Lemma rotate_run now id secret req d a s :
  ran (ccr_OrgID req) (
    _ ← statement "agent_credentials" (fun tx =>
          _ ← of_result (texts [ccr_OrgID req; ccr_AgentID req]);
          update_where agent_credentials (tenant_isolation tx)
            (fun k c => String.eqb k.1 (ccr_OrgID req) && String.eqb (cw_AgentID c) (ccr_AgentID req)
                        && negb (cw_Revoked c)) revoked_row);
    insert_credential now id secret req) d a s ->
  rotated now id secret req (db_Tables d) (ss_Tables s).
Proof.
  intros (now' & n & (z & s1 & H1 & H2)%bind_Ok & _).
  apply statement_Ok in H1 as (_ & t1 & Hst & ->). apply bind_Ok in Hst as (? & ? & [= _ <-] & Hup).
  apply statement_Ok in H2 as (_ & t2 & Hst & ->). apply bind_Ok in Hst as (? & ? & [= _ <-] & Hins).
  destruct a. apply (insert_row_Ok agent_credentials) in Hins as [Hnone Heq].
  pose proof (fun k => update_where_Ok agent_credentials _ _ _ _ _ _ k Hup) as Hrow. cbn [ss_Tables] in *.
  unfold rotated. rewrite Heq. split; [by rewrite lookup_insert_eq|]. intros k c Hc.
  assert (Hne : (ccr_OrgID req, id) <> k) by (intros <-; by rewrite Hrow, Hc in Hnone).
  rewrite lookup_insert_ne, Hrow, Hc by done. simpl. f_equal.
  unfold tenant_isolation. cbn [tx_Org].
  destruct k as [o i]. cbn [fst]. destruct (String.eqb_spec o (ccr_OrgID req)) as [->|Ho].
  - rewrite bool_decide_true by done. simpl.
    destruct (String.eqb_spec (cw_AgentID c) (ccr_AgentID req)) as [Ha|Ha]; simpl.
    + rewrite (bool_decide_true (_ /\ _)) by done. destruct c as [? ? ? ? rv ?]. simpl. by destruct rv.
    + rewrite (bool_decide_false (_ /\ _)); [done|]. by intros [_ ?].
  - rewrite andb_false_r, (bool_decide_false (_ /\ _)); [done|]. by intros [? _].
Qed.

(** C31 A rotation is atomic: after it the agent's other keys are revoked and the new one is
    live, no other credential having changed; after an error the agent keeps the keys it
    had, unless the connection broke on a commit that went through, which has the whole
    effect. *)
Theorem rotation_atomic now bytes id req d :
  let '(r, d') := PostgresStores.RotateAgentCredential now bytes id req d in
  match r with
  | Ok c => exists b, bytes = Ok b /\ c = issued now id (hex_encode b) req /\
              rotated now id (hex_encode b) req (db_Tables d) (db_Tables d')
  | Err _ => db_Tables d' = db_Tables d \/
             exists b f n, bytes = Ok b /\ pg_fault n = Some f /\ f_Applied f = true /\
               rotated now id (hex_encode b) req (db_Tables d) (db_Tables d')
  end.
Proof.
  unfold PostgresStores.RotateAgentCredential, throw_if, fail_if. destruct (is_empty (ccr_OrgID req) || _); [by left|].
  destruct bytes as [b|e]; [|by left].
  change (PostgresStores.randomSecret (Ok b)) with (Ok (E := GoError) (hex_encode b)).
  unfold mbind at 1, M_bind at 1, of_result at 1. unfold mbind at 1, M_bind at 1, of_result at 1.
  unfold mbind at 1, M_bind at 1.
  pose proof (WithTenant_spec (ccr_OrgID req) (
    _ ← statement "agent_credentials" (fun tx =>
          _ ← of_result (texts [ccr_OrgID req; ccr_AgentID req]);
          update_where agent_credentials (tenant_isolation tx)
            (fun k c => String.eqb k.1 (ccr_OrgID req) && String.eqb (cw_AgentID c) (ccr_AgentID req)
                        && negb (cw_Revoked c)) revoked_row);
    insert_credential now id (hex_encode b) req) d) as Hs.
  change (fun c : CredentialRow => c <| cw_Revoked := true |>) with revoked_row.
  destruct (WithTenant _ _ d) as [[a|e] d']; simpl.
  - destruct Hs as (_ & s & Hr & ->). exists b. split_and!; [done..|]. by eapply rotate_run.
  - destruct Hs as [->|(a & s & f & Hr & -> & Hf & Ha)]; [by left|]. right.
    exists b, f, (ss_Trips s). split_and!; [done..|]. by eapply rotate_run.
Qed.
End Rotation.

(** ** What is written is read back *)
Lemma scrub_valid fuel l : valid_text fuel l = true -> scrub fuel l = l.
Proof.
  revert l. induction fuel as [|f IH]; intros [|c l'] Hv; [done..|].
  cbn [valid_text] in Hv. apply andb_true_iff in Hv as [_ Hv]. cbn [scrub].
  destruct (rune_len (c :: l')) as [n|]; [|done]. rewrite IH by done. apply take_drop.
Qed.

Lemma json_text_valid s : is_text s = true -> json_text s = s.
Proof.
  intros Hs. unfold json_text. rewrite scrub_valid by exact Hs. unfold of_bytes, bytes_of.
  apply String.string_of_list_ascii_of_string.
Qed.

Lemma through_json_valid m : is_jsonb m = true -> through_json m = m.
Proof.
  intros Hm. unfold through_json.
  set (l := sort_slice name_less (map_to_list m)).
  assert (Hl : l ≡ₚ map_to_list m) by apply sort_slice_perm.
  assert (Hid : prod_map json_text json_text <$> l = l).
  { transitivity (id <$> l); [|by rewrite list_fmap_id]. apply list_fmap_ext. intros i [k v] Hi%list_elem_of_lookup_2.
    rewrite Hl in Hi. unfold is_jsonb in Hm. rewrite forallb_forall in Hm.
    specialize (Hm (k, v)). rewrite <- list_elem_of_In in Hm. apply Hm, andb_true_iff in Hi as [Hk Hv].
    simpl. by rewrite !json_text_valid. }
  rewrite Hid. etrans; [|apply list_to_map_to_list].
  assert (Hp : rev l ≡ₚ map_to_list m) by (by rewrite <- Permutation_rev).
  apply list_to_map_proper; [|exact Hp]. rewrite Hp. apply NoDup_fst_map_to_list.
Qed.

Lemma jsonb_map_valid m : is_jsonb m = true -> jsonb_map m = Ok m.
Proof. intros Hm. unfold jsonb_map. by rewrite through_json_valid, Hm. Qed.

Section Quiet.
Context `{Server}.

(** A server that is migrated and that no connection to breaks *)
Definition quiet : Prop := (forall n, pg_fault n = None) /\ (forall name, pg_has_table name = true).
Hypothesis Hquiet : quiet.

Lemma statement_run {A} name (st : Tx -> sql A) t o now n a t' :
  st (mkTx o now n) t = (Ok a, t') ->
  statement name st (mkSession t o now false n) = (Ok a, mkSession t' o now false (S n)).
Proof.
  intros Hst. unfold statement. simpl. rewrite (proj1 Hquiet), Hst.
  unfold has_table. rewrite (proj2 Hquiet), orb_true_r. done.
Qed.

Lemma WithTenant_run {A} org (fn : session A) d a t n :
  org <> "" -> is_text org = true ->
  fn (mkSession (db_Tables d) (Some org) (pg_now (db_Trips d)) false (S (S (db_Trips d))))
    = (Ok a, mkSession t (Some org) (pg_now (db_Trips d)) false n) ->
  WithTenant org fn d = (Ok a, mkDatabase t (S n)).
Proof.
  intros Ho%is_empty_false Ht Hfn. unfold WithTenant, set_config. rewrite Ho. simpl.
  rewrite !(proj1 Hquiet), Ht. simpl. rewrite Hfn. unfold commit. simpl. by rewrite (proj1 Hquiet).
Qed.

(** The columns of a record that a client may write *)
Definition writable (rec : LedgerRecord) : Prop :=
  rec_OrgID rec <> "" /\ is_jsonb (rec_Attributes rec) = true /\
  forallb is_text ([rec_ResourceID rec; rec_OrgID rec; rec_Kind rec; rec_Title rec; rec_Classification rec;
    rec_SourceSystem rec; rec_ExternalID rec; rec_CurrentRevID rec; rec_State rec] ++ rec_Labels rec) = true.

(** The row that [UpsertRecord] leaves: an existing one keeps its kind, its source and the
    instant of its creation. *)
Definition written (rec : LedgerRecord) (old : option LedgerRecord) : LedgerRecord :=
  let row := mkRecord (rec_ResourceID rec) (rec_OrgID rec) (or_default (rec_Kind rec) "document") (rec_Title rec)
    (or_default (rec_Classification rec) "internal") (rec_Labels rec) (rec_SourceSystem rec) (rec_ExternalID rec)
    (rec_CurrentRevID rec) (or_default (rec_State rec) "ACCEPTED") (rec_Attributes rec)
    (micros (rec_CreatedAt rec)) (micros (rec_UpdatedAt rec)) in
  match old with
  | None => row
  | Some o => mkRecord (rec_ResourceID o) (rec_OrgID o) (rec_Kind o) (rec_Title row) (rec_Classification row)
                (rec_Labels row) (rec_SourceSystem o) (rec_ExternalID o) (rec_CurrentRevID row) (rec_State row)
                (rec_Attributes row) (rec_CreatedAt o) (rec_UpdatedAt row)
  end.

Lemma texts_Ok l : forallb is_text l = true -> texts l = Ok tt.
Proof. intros Hl. unfold texts. by rewrite Hl. Qed.

Lemma is_text_default s d : is_text s = true -> is_text d = true -> is_text (or_default s d) = true.
Proof. unfold or_default. by destruct (is_empty s). Qed.

Lemma record_row_run rec :
  writable rec ->
  record_row rec false "document" (or_default (rec_State rec) "ACCEPTED") (rec_CreatedAt rec) (rec_UpdatedAt rec)
  = Ok (written rec None).
Proof.
  intros (_ & Hj & Ht). rewrite forallb_app in Ht. apply andb_true_iff in Ht as [Ht Hl].
  unfold record_row, text_array. rewrite jsonb_map_valid by done. rewrite (texts_Ok (rec_Labels rec)) by done.
  rewrite texts_Ok; [done|]. simpl in *. rewrite !andb_true_iff in *. destruct_and?.
  split_and!; try done. by apply is_text_default.
Qed.

Lemma UpsertRecord_run rec t now n :
  writable rec -> has_organization (rec_OrgID rec) t = true ->
  UpsertRecord rec false (mkSession t (Some (rec_OrgID rec)) now false n)
  = (Ok tt, mkSession (set resources <[(rec_OrgID rec, rec_ResourceID rec) :=
       written rec (resources t !! (rec_OrgID rec, rec_ResourceID rec))]> t) (Some (rec_OrgID rec)) now false (S n)).
Proof.
  intros Hw Horg. apply statement_run.
  rewrite record_row_run by done. unfold mbind, M_bind, of_result.
  unfold insert_or_update, throw_if, tenant_isolation. cbn [tx_Org fst].
  rewrite bool_decide_true by done. unfold mbind, M_bind, of_result, fail_if, gets. cbn [negb].
  unfold new_row, throw_if. cbn [fst]. rewrite bool_decide_true by done.
  unfold mbind, M_bind, of_result, fail_if, modify. cbn [negb].
  destruct (resources t !! (rec_OrgID rec, rec_ResourceID rec)) as [o|] eqn:E;
    unfold references, throw_if, of_result, fail_if, mbind, M_bind, gets;
    (replace (has_organization _ _) with true by (symmetry; exact Horg)); done.
Qed.

Lemma GetRecordTx_run org id t now n r :
  is_text org = true -> is_text id = true -> resources t !! (org, id) = Some r ->
  GetRecordTx org id (mkSession t (Some org) now false n) = (Ok r, mkSession t (Some org) now false (S n)).
Proof.
  intros Ho Hi Hr. unfold GetRecordTx. rewrite (bind_run _ _ _ (Some r) (mkSession t (Some org) now false (S n))).
  - done.
  - apply statement_run. unfold mbind, M_bind, of_result. rewrite texts_Ok by (simpl; by rewrite Ho, Hi).
    unfold select_row, gets. do 2 f_equal. change (visible _ _ t) with (keep_org (own org) (resources t)).
    rewrite lookup_keep_org, Hr. unfold own, tenant_isolation. by rewrite bool_decide_true.
Qed.

Lemma written_filed rec old :
  rec_ResourceID (written rec old) = match old with None => rec_ResourceID rec | Some o => rec_ResourceID o end.
Proof. by destruct old. Qed.

(** A record with valid columns is written in one transaction and read back with every
    field that was given, times to the microsecond; one that existed keeps its kind, its
    source and its creation. *)
Theorem record_roundtrip rec d :
  writable rec -> has_organization (rec_OrgID rec) (db_Tables d) = true ->
  let '(r, d') := WithOrgTx (rec_OrgID rec) (UpsertRecord rec false) d in
  r = Ok tt /\
  (GetRecord (rec_OrgID rec) (rec_ResourceID rec) d').1
    = Ok (written rec (resources (db_Tables d) !! (rec_OrgID rec, rec_ResourceID rec))).
Proof.
  intros Hw Horg. pose proof Hw as (Hne & _ & Ht). rewrite forallb_app in Ht. apply andb_true_iff in Ht as [Ht _].
  simpl in Ht. rewrite !andb_true_iff in Ht. destruct_and?.
  unfold WithOrgTx. erewrite WithTenant_run; [|done..|by apply UpsertRecord_run]. split; [done|].
  unfold GetRecord. erewrite WithTenant_run; [done|done..|]. apply GetRecordTx_run; [done..|].
  apply lookup_insert_eq.
Qed.
End Quiet.

(** ** Leases of the outbox *)
Section Leases.
Context `{Server}.

Lemma elem_of_select_definer {K V} `{Countable K} (tbl : Tables -> gmap (string * K) V) tx keep t t' rows kv :
  select tbl definer tx keep t = (Ok rows, t') -> kv ∈ rows <-> tbl t !! kv.1 = Some kv.2 /\ keep kv.1 kv.2 = true.
Proof.
  unfold select, gets. intros [= <- _]. rewrite list_elem_of_filter, pg_rows_perm. destruct kv as [k v]. cbn [fst snd].
  rewrite elem_of_map_to_list. change (visible tbl definer t) with (keep_org definer (tbl t)).
  rewrite lookup_keep_org. simpl. tauto.
Qed.

(** What a claim answers: rows under the identifiers of due ones, all leased *)
Lemma claim_batch_spec tx limit lease t out t' :
  claim_outbox_batch tx limit lease t = (Ok out, t') ->
  exists ids,
    (forall id, id ∈ ids -> exists k r, k.2 = id /\ outbox t !! k = Some r /\
       unpublished (ox_Entry r) = true /\ lease_over (tx_Now tx) (ox_LeaseUntil r) = true) /\
    (forall k, outbox t' !! k = (fun r => if mem_str k.2 ids then r <| ox_LeaseUntil := Some (tx_Now tx + lease) |> else r)
                                  <$> outbox t !! k) /\
    (forall e, e ∈ out <-> exists k r, k.2 ∈ ids /\ outbox t !! k = Some r /\ e = ox_Entry r).
Proof.
  unfold claim_outbox_batch. intros (due & t1 & Hdue & (n & t2 & Hup & (rows & t3 & Hrows & [= <- <-])%bind_Ok)%bind_Ok)%bind_Ok.
  assert (t1 = t) as -> by (by injection Hdue). set (ids := _ <$> ztake _ _) in *. exists ids.
  pose proof (fun k => update_where_Ok outbox _ _ _ _ _ _ k Hup) as Hk. cbn [definer andb] in Hk.
  assert (t3 = t2) as -> by (by injection Hrows). split_and!; [| exact Hk |].
  - intros id (kv & -> & Hin)%list_elem_of_fmap. unfold ztake in Hin.
    pose proof (elem_of_sublist _ _ _ Hin (sublist_take _ _)) as Hs. apply elem_of_sort_slice in Hs.
    apply (elem_of_select_definer outbox _ _ _ _ _ kv Hdue) in Hs as [Hr [Hp Hl]%andb_true_iff]. by exists kv.1, kv.2.
  - intros e. rewrite list_elem_of_fmap. split.
    + intros (kv & -> & Hin). apply (elem_of_select_definer outbox _ _ _ _ _ kv Hrows) in Hin as [Hr Hm].
      rewrite Hk, Hm in Hr. destruct (outbox t !! kv.1) as [r|] eqn:E; [|done]. simpl in Hr. injection Hr as <-.
      apply mem_str_In in Hm. by exists kv.1, r.
    + intros (k & r & Hid & Hr & ->). apply mem_str_In in Hid.
      exists (k, r <| ox_LeaseUntil := Some (tx_Now tx + lease) |>). split; [done|].
      apply (elem_of_select_definer outbox _ _ _ _ _ (k, _) Hrows). cbn [fst snd]. by rewrite Hk, Hr, Hid.
Qed.

Lemma ClaimOutbox_Ok limit d out d' :
  ClaimOutbox limit d = (Ok out, d') ->
  exists n tx, tx_Now tx = pg_now (db_Trips d) /\
    claim_outbox_batch tx n (30 * second) (db_Tables d) = (Ok out, db_Tables d').
Proof.
  unfold ClaimOutbox, autocommit. destruct (negb (has_table _)); [by destruct (pg_fault _)|].
  set (tx := mkTx None _ _). unfold mbind, M_bind, of_result. simpl.
  destruct (int4 (or_limit limit 10)) as [n|e]; [|by destruct (pg_fault _)].
  destruct (claim_outbox_batch tx n (30 * second) (db_Tables d)) as [[a|e] t] eqn:E;
    destruct (pg_fault _); try done. intros [= <- <-]. by exists n, tx.
Qed.

(** Two claims within thirty seconds on the server's clock never give the same entry, as
    long as no two rows of the outbox share an identifier, by which the function leases
    them; an entry that is given was unpublished. *)
Theorem outbox_leases_exclusive limit1 limit2 d out1 d1 out2 d2 :
  (forall k r, outbox (db_Tables d) !! k = Some r -> ob_ID (ox_Entry r) = k.2) ->
  (forall k1 k2 r1 r2, outbox (db_Tables d) !! k1 = Some r1 -> outbox (db_Tables d) !! k2 = Some r2 ->
     k1.2 = k2.2 -> k1 = k2) ->
  ClaimOutbox limit1 d = (Ok out1, d1) -> ClaimOutbox limit2 d1 = (Ok out2, d2) ->
  pg_now (db_Trips d1) <= pg_now (db_Trips d) + 30 * second ->
  (forall e, e ∈ out1 -> unpublished e = true) /\
  forall e1 e2, e1 ∈ out1 -> e2 ∈ out2 -> ob_ID e1 <> ob_ID e2.
Proof.
  intros Hfiled Huniq (n1 & tx1 & Hn1 & H1)%ClaimOutbox_Ok (n2 & tx2 & Hn2 & H2)%ClaimOutbox_Ok Hle.
  apply claim_batch_spec in H1 as (ids1 & Hdue1 & Hk1 & Hout1).
  apply claim_batch_spec in H2 as (ids2 & Hdue2 & Hk2 & Hout2). split.
  - intros e (k & r & (k' & r' & Hid & Hr' & Hp & _)%Hdue1 & Hr & ->)%Hout1.
    assert (k' = k) as -> by eauto. by simplify_eq.
  - intros e1 e2 (ka & ra & Hina & Hra & ->)%Hout1 (kb & rb & Hinb & Hrb & ->)%Hout2 Heq.
    destruct (Hdue2 _ Hinb) as (k' & r' & Hid & Hr' & _ & Hlease). rewrite Hk1 in Hrb, Hr'.
    destruct (outbox (db_Tables d) !! kb) as [rb0|] eqn:Eb; [|done].
    destruct (outbox (db_Tables d) !! k') as [r0|] eqn:E'; [|done].
    assert (k' = kb) as -> by eauto. rewrite Eb in E'. injection E' as <-.
    cbn [fmap option_fmap option_map] in Hrb, Hr'. injection Hrb as <-. injection Hr' as <-.
    apply Hfiled in Hra, Eb. destruct (mem_str kb.2 ids1) eqn:Em.
    + simpl in Hlease. apply Z.ltb_lt in Hlease. lia.
    + apply mem_str_not_In in Em. apply Em. by rewrite <- Eb, <- Heq, Hra.
Qed.
End Leases.

Lemma quiet_quiet : @quiet quiet_server.
Proof. by split. Qed.

#[local] Existing Instances quiet_server.
Definition acme_database : Database :=
  (CreateOrganization (mkOrganization "acme" "Acme" ∅ second) (mkDatabase emptyTables 0)).2.
Definition labelled : LedgerRecord :=
  mkRecord "r1" "acme" "doc" "T" "internal" ["vip"] "crm" "x-1" "v1" "TOMBSTONED" {["brand_id" := "b"]} second second.

Lemma record_roundtrip_witness :
  let '(r, d') := WithOrgTx "acme" (UpsertRecord labelled false) acme_database in
  r = Ok tt /\ (GetRecord "acme" "r1" d').1 = Ok (written labelled None).
Proof.
  apply (record_roundtrip quiet_quiet labelled acme_database); [|reflexivity].
  split; [discriminate|]. split; vm_compute; reflexivity.
Defined.

Definition queued : Database :=
  (WithOrgTx "acme" (_ ← EnqueueOutbox (mkOutbox "e1" "acme" "s" "p" None second None);
                     EnqueueOutbox (mkOutbox "e2" "acme" "s" "p" None (2 * second) None)) acme_database).2.
Definition answers {A} (r : result GoError (list A) * Database) : list A :=
  match r.1 with Ok l => l | Err _ => [] end.
Lemma queued_rows k r :
  outbox (db_Tables queued) !! k = Some r ->
  (k, ob_ID (ox_Entry r)) ∈ [(("acme", "e1"), "e1"); (("acme", "e2"), "e2")].
Proof.
  intros Hk%elem_of_map_to_list. apply (list_elem_of_fmap_2 (fun kv => (kv.1, ob_ID (ox_Entry kv.2)))) in Hk.
  revert Hk. vm_compute. done.
Qed.

Lemma outbox_leases_exclusive_witness :
  let r1 := ClaimOutbox 1 queued in let r2 := ClaimOutbox 5 r1.2 in
  ob_ID <$> answers r1 = ["e1"] /\ ob_ID <$> answers r2 = ["e2"] /\
  forall e1 e2, e1 ∈ answers r1 -> e2 ∈ answers r2 -> ob_ID e1 <> ob_ID e2.
Proof.
  split; [vm_compute; reflexivity|]. split; [vm_compute; reflexivity|].
  refine (proj2 (outbox_leases_exclusive 1 5 queued _ (ClaimOutbox 1 queued).2 _
    (ClaimOutbox 5 (ClaimOutbox 1 queued).2).2 _ _ _ _ _)).
  - intros k r [[= -> ->]|[[= -> ->]|[]%not_elem_of_nil]%elem_of_cons]%queued_rows%elem_of_cons; done.
  - intros k1 k2 r1 r2 H1%queued_rows H2%queued_rows. revert H1 H2. rewrite !elem_of_cons, !elem_of_nil.
    intros [[= -> _]|[[= -> _]|[]]] [[= -> _]|[[= -> _]|[]]]; done.
  - vm_compute. reflexivity.
  - vm_compute. reflexivity.
  - vm_compute. discriminate.
Defined.
