(* ===== verification/PostgresGaps.v ===== *)
(** * Where the PostgreSQL stores part with the in-memory ones

    A refused placeholder, audit events that are not written, revisions listed without their
    evidence, an outbox that looks empty, a search that cannot fall back: each holds of every
    database. The concrete runs are of a server without faults. *)
From S2P Require Import Prelude GoStd Sha256 Ports Platform Json Decode Mapping MappingSpec Ledger Changes.
From S2P Require Import Sql Postgres PostgresStores PostgresFacts PostgresContract.

Section Gaps.
Context `{Server, FullText}.

Lemma statement_refused {A} name (st : Tx -> sql A) s :
  (forall tx t, exists e, (st tx t).1 = Err e) -> exists e, (statement name st s).1 = Err e.
Proof.
  intros Hst. destruct s as [t o now ab n]. unfold statement. simpl. destruct (pg_fault n); [eauto|].
  destruct ab; [eauto|]. destruct (negb (has_table name)); [eauto|].
  destruct (Hst (mkTx o now n) t) as [e He]. destruct (st _ t) as [r u]. simpl in He. subst r. eauto.
Qed.

Lemma statement_Err {A} name (st : Tx -> sql A) s e s' :
  statement name st s = (Err e, s') -> ss_Aborted s' = true.
Proof.
  destruct s as [t o now ab n]. unfold statement. simpl. destruct (pg_fault n); [by intros [= _ <-]|].
  destruct ab; [by intros [= _ <-]|]. destruct (negb (has_table name)); [by intros [= _ <-]|].
  destruct (st _ t) as [[a|c] u]; by intros [= _ <-].
Qed.
Lemma statement_aborted {A} name (st : Tx -> sql A) s :
  ss_Aborted s = true -> exists e, (statement name st s).1 = Err e.
Proof.
  destruct s as [t o now ab n]. unfold statement. simpl. intros ->. destruct (pg_fault n); eauto.
Qed.

Lemma nil_array l : exists e, text_array true l = Err e.
Proof. unfold text_array, texts, fail_if. destruct (negb _); simpl; eauto. Qed.

Lemma record_row_nil rec kind state created updated :
  exists e, record_row rec true kind state created updated = Err e.
Proof.
  unfold record_row. destruct (texts _) as [u|e]; [|by exists e].
  destruct (nil_array (rec_Labels rec)) as [e He]. exists e. by rewrite He.
Qed.

(** The labels of a placeholder are [nil], and [tags] is [NOT NULL]: an edge to a resource
    that is not there yet fails on PostgreSQL, with the whole intake. *)
Theorem placeholder_refused now rec s : exists e, (InsertPlaceholder now rec true s).1 = Err e.
Proof.
  apply statement_refused. intros tx t. unfold mbind, M_bind, of_result.
  match goal with |- context [record_row ?r true ?k ?st ?c ?u] => destruct (record_row_nil r k st c u) as [e ->] end.
  by exists e.
Qed.

Lemma WithTenant_refused {A} org (fn : session A) d :
  (forall s, exists e, (fn s).1 = Err e) -> exists e, (WithTenant org fn d).1 = Err e.
Proof.
  intros Hfn. unfold WithTenant. destruct (is_empty org); [eauto|]. destruct (pg_fault _); [eauto|].
  destruct (set_config org _) as [[u|e] s]; [|simpl; eauto]. destruct (Hfn s) as [e He].
  destruct (fn s) as [r s']. simpl in He. subst r. simpl. eauto.
Qed.

(** So are the sampled identifiers of an audit event that has none, as a refused retrieval
    and an access request: it is not written. *)
Theorem unsampled_event_lost event d :
  exists e, (AppendAudit event true d).1 = Err e.
Proof.
  apply WithTenant_refused. intros s. apply statement_refused. intros tx t.
  destruct (nil_array (aud_ResourceIDsSample event)) as [e He].
  unfold mbind, M_bind, of_result. destruct (texts _) as [u|e']; [|by exists e'].
  destruct (int4 _) as [u'|e']; [|by exists e']. rewrite He. by exists e.
Qed.

(** [ListRevisions] does not read [evidence_ref]: [enumerate] of a deletion, which takes the
    evidence to purge from there, finds none. *)
Theorem evidence_not_listed org id limit d revs d' :
  ListRevisions org id limit d = (Ok revs, d') -> Forall (fun r => rev_EvidenceRef r = "" /\ rev_ContentHash r = "") revs.
Proof.
  unfold ListRevisions. intros E. pose proof (WithTenant_spec org
    (statement "revisions" (fun tx =>
      _ ← of_result (texts [org; id]);
      rows ← select revisions (tenant_isolation tx) tx (fun k r => String.eqb k.1 org && String.eqb (rev_ResourceID r) id);
      mret (listed_revision <$>
        ztake (or_limit limit 50) (sort_slice (fun a b => rev_Sequence b <? rev_Sequence a) rows.*2)))) d) as Hs.
  rewrite E in Hs. destruct Hs as (_ & s & (now & n & Hrun & _) & _).
  apply statement_Ok in Hrun as (_ & t & Hst & _).
  apply bind_Ok in Hst as (? & ? & _ & Hst). apply bind_Ok in Hst as (rows & ? & _ & [= <- _]).
  apply Forall_forall. intros r (r' & -> & _)%list_elem_of_fmap. done.
Qed.

Lemma select_unset {K V} `{Countable K} (tbl : Tables -> gmap (string * K) V) tx keep t :
  tx_Org tx = None -> select tbl (tenant_isolation tx) tx keep t = (Ok [], t).
Proof.
  intros Htx. unfold select, gets. do 2 f_equal.
  replace (visible tbl (tenant_isolation tx) t) with (∅ : gmap (string * K) V).
  - pose proof (pg_rows_perm (tx_Trip tx) (∅ : gmap (string * K) V)) as Hp. rewrite map_to_list_empty in Hp.
    by apply Permutation_nil_r in Hp as ->.
  - symmetry. apply map_empty. intros k.
    change (visible tbl (tenant_isolation tx) t) with (keep_org (tenant_isolation tx) (tbl t)).
    rewrite lookup_keep_org. unfold tenant_isolation. rewrite Htx. by rewrite bool_decide_false.
Qed.

(** [ListOutboxPending] runs outside a tenant: the policy shows it nothing, whatever is
    pending. The gauge of the relay stays at zero, and [Drain] stops after one pass. *)
Theorem pending_unseen org limit d pending d' :
  ListOutboxPending org limit d = (Ok pending, d') -> pending = [].
Proof.
  unfold ListOutboxPending, autocommit. set (tx := mkTx None _ _). cbv beta zeta.
  match goal with |- context [(_ ≫= ?f) _] => set (rest := f) end.
  assert (Hrest : forall u t, rest u t = (Ok [], t)).
  { intros u t. unfold rest, mbind, M_bind. rewrite select_unset by done.
    unfold ztake. simpl. by destruct (Z.to_nat _). }
  unfold mbind, M_bind, of_result. destruct (negb _), (texts [org]) as [u|e]; rewrite ?Hrest; simpl;
    destruct (pg_fault _) as [f|]; congruence.
Qed.

(** The fallback of a search runs in the transaction that the missing column has aborted:
    without migration 006 a query with words always fails. *)
Theorem fallback_unreachable org query limit filters d :
  fts_columns = false -> trim_space query <> "" -> attr filters "resource_id" = "" ->
  exists e, (SearchCandidates org query limit filters d).1 = Err e.
Proof.
  intros Hcols Hq%is_empty_false Hrid. unfold SearchCandidates. rewrite Hrid.
  apply WithTenant_refused. intros s. change (negb (is_empty "")) with false. cbv iota.
  set (q := trim_space query) in *. unfold mbind, M_bind, attempt.
  destruct (search_documents_query org q (or_limit limit 12) filters s) as [r s'] eqn:E.
  assert (Hr : exists e, r = Err e).
  { destruct (statement_refused "search_documents" (fun tx =>
      _ ← of_result (texts (org :: attr filters "context_space_id" :: q :: splitTrim (attr filters "include_tags")));
      _ ← throw_if (negb fts_columns && names_columns q filters) "42703";
      rows ← select search_documents (tenant_isolation tx) tx
               (fun k r => String.eqb k.1 org && document_wanted q filters k.2 r);
      mret ((fun kv => mkHit kv.1.2 (dr_RevisionID kv.2) (document_score q kv.1.2 kv.2)) <$>
              ztake (or_limit limit 12) (sort_slice (document_order q) rows))) s) as [e He].
    - intros tx t. unfold mbind, M_bind, of_result. destruct (texts _) as [u|e]; [|by exists e].
      unfold names_columns. rewrite Hcols, Hq. by eexists.
    - unfold search_documents_query in E. rewrite E in He. by exists e. }
  destruct Hr as [e ->]. apply statement_Err in E. destruct (isMissingFTSColumn q e); [|by eexists].
  destruct (statement_aborted "search_documents" (fun tx =>
           _ ← of_result (texts [org]);
           rows ← select search_documents (tenant_isolation tx) tx (fun k _ => String.eqb k.1 org);
           mret (ztake (Z.max 500 (or_limit limit 12))
                   (sort_slice (fun a b => dr_UpdatedAt b.2 <? dr_UpdatedAt a.2) rows))) s' E) as [e' He'].
  unfold fallbackScan, mbind at 1, M_bind at 1. destruct (statement _ _ s') as [r2 s2]. simpl in He'. subst r2.
  by eexists.
Qed.
End Gaps.

(** ** Runs of a server without faults *)
#[local] Existing Instances quiet_server word_search.

Definition acme_source (spec : string) : SourceRegistration :=
  mkSource "crm" "acme" "crm" "CRM" "verified" "" "" "" "" spec "" true "" 0 [] [] ∅ second second.
Definition with_source : Database := (WithOrgTx "acme" (UpsertSource (acme_source "spec-a") false) acme_database).2.

(** A version that is put again keeps its age: the one put last is not the one found. *)
Definition versioned (revision : string) : Spec :=
  (zeroSpec <| sp_ID := "spec-a" |>) <| sp_Revision := revision |>.
Definition put_version (revision description : string) (d : Database) : Database :=
  (PutMappingSpec "acme" "crm" ((versioned revision) <| sp_Description := description |>) d).2.
Example stale_spec :
  let d := put_version "1" "third" (put_version "2" "second" (put_version "1" "first" with_source)) in
  sp_Description <$> (GetMappingSpec "acme" "crm" d).1 = Ok "second".
Proof. vm_compute. reflexivity. Qed.

(** A registration that changes the mapping keeps the old one. *)
Example mapping_kept :
  let d := (WithOrgTx "acme" (UpsertSource (acme_source "spec-b") false) with_source).2 in
  src_MappingSpec <$> (GetSource "acme" "crm" d).1 = Ok "spec-a".
Proof. vm_compute. reflexivity. Qed.

(** The summary of a title is cut after 512 bytes, here inside a letter of two bytes: the
    text is not valid, and the document is never indexed. *)
Definition accented : string := repeat_str 511 "a" +:+ of_bytes [byte_of 195; byte_of 169].
Example long_title_refused :
  is_text accented = true /\
  (Upsert [mkIndexDocument "r1" "v1" "acme" accented [] ∅] acme_database).1 = Err (pg_error "22021").
Proof. split; vm_compute; reflexivity. Qed.

Definition with_record : Database := (WithOrgTx "acme" (UpsertRecord labelled false) acme_database).2.

(** [ListRecords], from which an export is made, leaves out the labels, the state, the source
    and the attributes, which [GetRecord] reads. *)
Example records_listed_bare :
  (GetRecord "acme" "r1" with_record).1 = Ok labelled /\
  (ListRecords "acme" 0 "" with_record).1
    = Ok ([mkRecord "r1" "acme" "doc" "T" "internal" [] "" "" "v1" "" ∅ second second], "").
Proof. split; vm_compute; reflexivity. Qed.

Lemma evidence_not_listed_witness :
  exists revs d', ListRevisions "acme" "r1" 10 with_record = (Ok revs, d') /\
    Forall (fun r => rev_EvidenceRef r = "" /\ rev_ContentHash r = "") revs.
Proof. eexists _, _. split; [reflexivity|]. by eapply (evidence_not_listed "acme" "r1" 10 with_record). Defined.
