(* ===== verification/Production.v ===== *)
(** * The retrieval pipeline over the production adapters

    The ledger, the index and the snippets are PostgreSQL's, the authorization is that of an
    OpenFGA server; the database may change between the calls of a request, and what the
    server and the identity provider answer is theirs. The pipeline's theorems apply, since
    a database that the stores made meets the law of its ledger. *)
From S2P Require Import Prelude GoStd Ports Platform Json Decode Policy OpenFGA Ledger Deletion Retrieval RetrievalFacts Disclosure.
From S2P Require LedgerQueries Index.
From S2P Require Import Config Wiring FGAClient FGAClientFacts.
From S2P Require Import Sql Postgres PostgresStores PostgresFacts PostgresContract.

Section Production.
Context `{Server, FullText, FGAServer}.
(** At the n-th call: the identity provider, the log of the exchanges with OpenFGA, and the
    database *)
Variables (identity : nat -> Credentials -> result GoError Principal) (fga : FGAClient)
  (log : nat -> list Exchange) (db : nat -> Database) (clock : nat -> Time) (ids : nat -> string).

Definition production_providers : Providers := {|
  Authenticate := identity;
  Retrieval.ResolveCandidateScope n r := (FGAClient.ResolveCandidateScope fga r (log n)).1;
  Retrieval.BatchCheck n reqs := (FGAClient.BatchCheck fga reqs (log n)).1;
  EvaluatePolicy _ q := Evaluate New q;
  LedgerGetRecord n org id := (Postgres.GetRecord org id (db n)).1;
  LedgerListEdges n org opts := (Postgres.ListEdges org opts (db n)).1;
  IndexSearch n org query limit filters := (PostgresStores.SearchCandidates org query limit filters (db n)).1;
  SnippetDocument := Some (fun n org id =>
    match (PostgresStores.GetDocument org id (db n)).1 with Ok doc => doc | Err _ => None end);
  NewEventID := ids;
  TimeNow := clock;
  AllowEmptyScopes := false;
|}.

(** A record is answered from a row of the tenant. *)
Lemma GetRecord_Ok org id d r :
  (Postgres.GetRecord org id d).1 = Ok r -> resources (db_Tables d) !! (org, id) = Some r.
Proof.
  unfold Postgres.GetRecord. pose proof (WithTenant_spec org (GetRecordTx org id) d) as Hs.
  destruct (WithTenant org _ d) as [[r'|e] d']; [|done]. simpl. intros [= ->].
  destruct Hs as (_ & s & (now & n & Hrun & _) & _). unfold GetRecordTx in Hrun.
  apply bind_Ok in Hrun as (row & s1 & Hst & Hf). apply statement_Ok in Hst as (_ & t & Hst & _).
  apply bind_Ok in Hst as (? & ? & [= _ <-] & [= Hrow _]). cbn [ss_Tables ss_Org] in Hrow.
  change (keep_org (own org) (resources (db_Tables d)) !! (org, id) = row) in Hrow.
  rewrite lookup_keep_org in Hrow. destruct (own org (org, id).1); subst row;
    [|discriminate Hf]. unfold of_result, found in Hf. by destruct (resources _ !! _) as [r'|]; simplify_eq.
Qed.

Hypothesis Hdb : forall n, reachable (db n).

Lemma production_filed : @LedgerFiled production_providers.
Proof.
  intros n org id rec Hget. apply GetRecord_Ok in Hget.
  apply (reachable_filed _ (Hdb n)) in Hget. by injection Hget.
Qed.

(** In one of these calls the server said that the principal can read [id]. *)
Definition server_allowed (lo hi : nat) (principal : Principal) (id : string) : Prop :=
  exists n new reqs i r,
    (lo <= n < hi)%nat /\ (FGAClient.BatchCheck fga reqs (log n)).2 = new ++ log n /\ reqs !! i = Some r /\
    ac_Principal r = principal /\ ac_Action r = "can_read" /\ ac_ResourceID r = id /\
    (says_in_batch fga new reqs i \/ says_alone fga new r).

(** A live row of the principal's organization that the server let it read, for an allowed
    purpose *)
Definition production_disclosable (lo hi : nat) (principal : Principal) (purpose id : string) : Prop :=
  server_allowed lo hi principal id /\
  exists n rec, (lo <= n < hi)%nat /\ resources (db_Tables (db n)) !! (p_OrgID principal, id) = Some rec /\
    IsTombstoned (rec_State rec) = false /\ normalize purpose ∈ AllowedPurposes New.

#[local] Instance adapters : Providers := production_providers.

Lemma production_read_allowed lo hi principal deleg id :
  read_allowed lo hi principal deleg id -> server_allowed lo hi principal id.
Proof.
  intros (n & checks & ds & i & r & d & Hn & Hb & Hr & Hd & Ha & Hp & Hact & Hid & _).
  pose proof (fga_checks_fail_closed fga checks (log n)) as Hf. simpl in Hb.
  destruct (FGAClient.BatchCheck fga checks (log n)) as [res log'] eqn:E. simpl in Hb. subst res.
  destruct Hf as (new & Hlog & _ & Hall). destruct (Hall i r Hr) as (d' & Hd' & _ & _ & _ & Hsays).
  exists n, new, checks, i, r. rewrite E. split; [exact Hn|]. split_and!; try done. apply Hsays. congruence.
Qed.
Lemma production_record_allowed lo hi principal purpose id rec r :
  record_allowed lo hi principal purpose (p_OrgID principal) id rec r ->
  exists n rec, (lo <= n < hi)%nat /\ resources (db_Tables (db n)) !! (p_OrgID principal, id) = Some rec /\
    IsTombstoned (rec_State rec) = false /\ normalize purpose ∈ AllowedPurposes New.
Proof.
  intros (n & k & q & Hn & _ & Hget & Htomb & Hpol & Hallow & _ & <- & _). simpl in Hget, Hpol.
  exists n, rec. split; [exact Hn|]. split_and!; [by apply GetRecord_Ok | done |].
  by destruct (Evaluate_allowed _ _ _ Hpol Hallow) as (c & k' & _ & ? & _).
Qed.

Lemma production_nodes req lo hi principal nodes es n :
  rq_OrgID req = p_OrgID principal -> graph_ok principal req lo hi nodes es -> n ∈ nodes ->
  production_disclosable lo hi principal (rq_Purpose req) (node_ResourceID n).
Proof.
  intros Ho (_ & Hall & _) Hin. destruct (Hall n Hin) as [Ha (rec & r & Hr & _)].
  split; [by eapply production_read_allowed|]. rewrite Ho in Hr. by eapply production_record_allowed.
Qed.

(** C6 On the production adapters, while the database changes under the request: everything
    that an answered search or graph request discloses is a live row of the caller's own
    organization, for an allowed purpose, that OpenFGA said during the request the caller
    may read. *)
Theorem production_discloses (graph : bool) req t pkt t' :
  (if graph then Graph req else Search req) t = (Ok pkt, t') ->
  exists principal n,
    identity n (rq_Credentials req) = Ok principal /\ pkt_OrgID pkt = p_OrgID principal /\
    forall id, id ∈ (cit_ResourceID <$> pkt_Citations pkt) ++ (node_ResourceID <$> pkt_Nodes pkt) ->
      production_disclosable (step t) (step t') principal (rq_Purpose req) id.
Proof.
  pose proof production_filed as Hfiled. destruct graph.
  - intros [_ (p & Hadm & Hans)]%(Graph_spec req (step t) t pkt t' (le_n _)).
    destruct Hadm as ((n & _ & Hauth) & _). exists p, n. split; [exact Hauth|].
    destruct Hans as [(Ho & Hn & _ & Hc)|(_ & Ho & Hg & _ & Hc%cites_ids)]; (split; [exact Ho|]);
      intros id Hid; rewrite Hc in Hid.
    + rewrite Hn in Hid. set_solver.
    + assert (id ∈ node_ResourceID <$> pkt_Nodes pkt) as (n' & -> & Hin)%list_elem_of_fmap by set_solver.
      by eapply production_nodes in Hg.
  - intros [_ (p & Hadm & Horg & Hg & Hc)]%(Search_spec req (step t) t pkt t' (le_n _)).
    destruct Hadm as ((n & _ & Hauth) & _). exists p, n. split_and!; [exact Hauth | exact Horg|].
    intros id [(c & -> & Hin)%list_elem_of_fmap|(n' & -> & Hin)%list_elem_of_fmap]%elem_of_app.
    + destruct (Hc c Hin) as [Ha (rec & r & Hr & _)]. split; [by eapply production_read_allowed|].
      by eapply production_record_allowed.
    + by eapply production_nodes in Hg.
Qed.
End Production.

(** ** A concrete run: alice reads a document of the database. *)
#[local] Existing Instances quiet_server word_search.
Definition yes_server : FGAServer := {|
  reply := fun _ url _ =>
    if has_suffix url "/check" then Answer 200 (json_struct [json_member "allowed" "true"])
    else Answer 404 "";
  json_error := fun _ => "bad json";
  clock_at := fun log => Z.of_nat (length log);
|}.
#[local] Existing Instance yes_server.

Definition production_database : Database :=
  let d := mkDatabase emptyTables 0 in
  let d := (CreateOrganization (mkOrganization "acme" "Acme" ∅ second) d).2 in
  let d := (WithOrgTx "acme" (UpsertRecord (LedgerQueries.sample_record "r1") false) d).2 in
  (PostgresStores.Upsert [Index.sample_doc "acme" "r1" "Mail bob@acme.test"] d).2.

Lemma production_reachable : reachable production_database.
Proof.
  apply (reach_call _ (PostgresStores.Upsert [Index.sample_doc "acme" "r1" "Mail bob@acme.test"])).
  { apply (call_tenant "acme"), call_Upsert. by repeat constructor. }
  apply (reach_call _ (WithOrgTx "acme" (UpsertRecord (LedgerQueries.sample_record "r1") false))).
  { apply (call_tenant "acme"), call_WithOrgTx, prog_UpsertRecord. }
  apply (reach_call _ (CreateOrganization _)); [apply call_CreateOrganization | apply reach_start].
Qed.

Definition production_fga : FGAClient := mkFGAClient "http://fga" "store" "01M" "".
#[local] Instance production_world : Providers :=
  production_providers (fun _ => world_identity) production_fga (fun _ => []) (fun _ => production_database)
    (fun n => Z.of_nat n) world_ids.
Definition production_run := Search search_request Disclosure.start.

Lemma production_run_ok :
  Search search_request Disclosure.start = (Ok (packet_of production_run), production_run.2) /\
  map cit_ResourceID (pkt_Citations (packet_of production_run)) = ["r1"].
Proof. vm_compute. split; reflexivity. Qed.

Lemma production_discloses_witness :
  exists principal, pkt_OrgID (packet_of production_run) = p_OrgID principal /\
    production_disclosable production_fga (fun _ => []) (fun _ => production_database)
      0 (step production_run.2) principal (rq_Purpose search_request) "r1".
Proof.
  destruct (production_discloses (fun _ => world_identity) production_fga (fun _ => [])
    (fun _ => production_database) (fun n => Z.of_nat n) world_ids (fun _ => production_reachable)
    false search_request Disclosure.start _ _ (proj1 production_run_ok)) as (p & n & _ & Horg & Hall).
  exists p. split; [exact Horg|]. apply Hall. apply list_elem_of_In. vm_compute. by left.
Defined.
